(* ===== verification/_CoqProject ===== *)
-Q . S2P
Prelude.v
Text.v
BTree.v
Net.v
Crates.v
Broadcast.v
Samples.v
Client.v
Types.v
Tera.v
Render.v
Templates.v
Nginx.v
Stats.v
Options.v
Host.v
Kernel.v
Machine.v
Logic.v
Gateway.v
Deploy.v
Serving.v
Again.v
Partial.v
Panics.v
Watchdog.v
Websocket.v
Codec.v
Answers.v
Manager.v
Remote.v
Daemon.v
Alone.v
Queues.v
Main.v
