(* ===== verification/Prelude.v ===== *)
(** * Verification of the fractal gateway

    The repository is a daemon that runs WireGuard networks on a machine on
    behalf of a remote manager.  The manager sends, over a websocket, which
    networks there should be; the gateway brings the machine into that state,
    makes NGINX forward web traffic into the networks, watches the WireGuard
    statistics, and sends traffic and connection events back.  An integration
    test plays the manager.  This library models these programs in Rocq and
    proves what makes them correct.

    ** The parts, and where they are

    - client/src/lib.rs, the types both ends share, is Client.v: the
      configuration maps and their partial update, requests, responses and
      events, and the traffic ledger [TrafficInfo].
    - src/types.rs is Types.v (names and addresses derived from the port, the
      text of the WireGuard configuration, the numbering of port mappings, the
      NGINX forwarding) and Stats.v (the parsers of [wg show dump]).
    - templates/*.tera are Render.v: the files themselves, the data they are
      rendered on and what comes out, by the template language of Tera.v.  The
      cleaning of packet rules in src/gateway.rs is Templates.v, with a reader
      of the rules as the specification; Nginx.v is a reader of the NGINX
      files.
    - the options of src/lib.rs are Options.v; the state [Global] is the record
      [World] of Host.v (the machine, the operations issued, the configuration
      behind the lock).
    - src/gateway.rs is Gateway.v: one definition per function, over the
      interface [Host] of Host.v.
    - src/watchdog.rs and the restart loop of src/lib.rs are Watchdog.v.
    - src/websocket.rs and [Options::run] are Websocket.v, over the interfaces
      [Wire] and [Json].
    - [Global], [Options::global] and src/main.rs are Main.v; the two broadcast
      channels between watchdog and connection are Queues.v, which implements
      [Wire] and the sending operations of [Host] on one shared state.
    - src/integration/src/main.rs is Manager.v; Remote.v joins it with the
      gateway's session over one connection.

    Below them lie Prelude.v (this file: outcomes, machine integers, the state
    monad [M] with its rules), Text.v and Net.v (the string and address
    functions of the standard library the program uses), BTree.v (ordered maps),
    Crates.v (the interfaces of third-party crates) and Broadcast.v (that of
    tokio's broadcast channel, as a queue per receiver).  Samples.v, Machine.v
    and Codec.v instantiate the interfaces with executable functions; only
    witnesses depend on them.

    ** How the code is modelled

    A call returns an [outcome]: a value, an error, or a panic.  Code with
    effects is a computation [M S A] over an explicit state; effects made
    before an error stay made, as with the [?] operator.  Integers are [Z] with
    their width written out ([at_width], [cast_width]); [Target] says whether
    [usize] has 32 or 64 bits and whether overflow panics (dev profile) or
    wraps (release profile), and theorems hold for both unless they say
    otherwise.  A [BTreeMap] is a [gmap] that is iterated in key order; a
    [HashSet] is a [gset] with an arbitrary order of iteration ([HashOrder]).

    What the program calls outside the repository is a class of operations:
    keys, URLs, networks, base32, regex, templates, JSON, randomness, the
    machine ([Host]), the connection ([Wire] for the gateway, [Peer] for the
    manager).  A second class states the documented behaviour a theorem relies
    on ([IpnetCrateOk], [TeraOk], [WireOk], ...).  The machine has a reference
    kernel (Kernel.v): [kstep] is what each successful operation does to
    namespaces, links, addresses, rules and files, and [HostOk] says that a
    host follows it.  Operations may always fail, so results about every
    [HostOk] host cover every failure at every step.  Logic.v is the program
    logic for it: facts about the kernel, what keeps and what achieves them.

    The two tasks of the daemon share the host.  Each is a sequential program;
    the connection's is run as it is, and before each of its operations the
    watchdog, which is the program of Watchdog.v and nothing else, does the
    number of actions that a schedule gives it ([Shared] of Daemon.v).  To stop
    a program after so many actions it is run on a host that answers from what
    happened and notes the next action ([Replay]); Alone.v shows that the task
    left to itself is a run of [watchdog].  Theorems hold for every schedule.
    What reaches the manager is then stated between the operations the watchdog
    did and the frames of the sessions.

    ** What is proved

    - Serving: after a successful [apply] NGINX has loaded files that send every
      host exactly to the configured entries, and a request finds its way to
      every proxied socket (Serving.v).
    - Applying: a successful [apply] deploys the configuration (Deploy.v), a
      successful [apply_partial] its changes (Partial.v); doing it again
      changes nothing (Again.v); what they touch, delete and record whatever
      the host answers (Gateway.v); they do not panic within the limits
      (Panics.v).
    - Data: the templates render to the texts that the rest of the library
      speaks of (Render.v); the packet rules and the NGINX files, read back,
      route every configured URL to its socket (Templates.v, Nginx.v, Types.v);
      configuration and statistics
      texts read back (Types.v, Stats.v); ports and addresses stay in their
      ranges and apart (Types.v); partial updates and traffic accounting are
      what they should be (Client.v).
    - Watchdog: after a poll the cache is what WireGuard listed and the events
      explain every change; traffic adds up; failures lose nothing; where the
      arithmetic underflows and the cache is lost (Watchdog.v); it reaches
      every network and only ever reads (Daemon.v).
    - Connection: a session refines an abstract protocol and ends only on
      demand (Websocket.v); it answers everything, and only a request outside
      the limits can bring the gateway down (Answers.v); applying is safe beside
      the watchdog, and startup (Daemon.v).
    - Between the tasks: the manager receives traffic and events in order,
      none twice and none made up, over all sessions; what a session has passed
      on, lost and still holds adds up; a poll within the capacity of the queue
      reaches the manager whole (Queues.v); until the first session the
      watchdog remembers nothing (Main.v).
    - Both ends: what the test generates is within the limits and what its
      verifications establish (Manager.v); a request over the connection is a
      call of the gateway's function, both ends hold the same configuration,
      and the test leaves the gateway empty and stopped (Remote.v).

    The limits are [servable]: a 16-bit listen port, at least one address and
    at most 63536 proxied sockets with 16-bit ports.

    ** Bounds

    Loops of the source that end are structural: they run over lists and maps.
    Loops that do not end take a bound: [connect] takes the sessions and the
    turns of each, [watchdog] the ticks, [main] all of these.  Theorems quantify over the bound, and
    [connect_answers] says how many turns suffice.  The manager's wait for a
    response takes a bound on arrivals, [turns]; [request_is_call] needs only
    that it exceeds what the gateway has to pass on before the request.  Number
    printing has fuel for all digits ([dec]: one more than the binary
    logarithm, [hex_go]: the digits of 16 and of 32 bits).  The readers of
    templates and of NGINX files have fuel for every character or token
    ([compile_sites] and its neighbours, [parse_tokens]).

    ** What is not modelled

    - The argument parsers, which are generated code; logging; the runtime.
    - Time: pauses (also the three seconds the integration test waits before it
      checks that old networks are gone), timer ticks, and time-outs of the
      connection.  The clock the watchdog reads is any clock.  Which ready branch [select!] takes is a
      list of picks, and theorems hold for every list.
    - Locks are not steps: only the connection's task takes them, and holds
      them for a whole call.  Interleaving with the watchdog is the subject of
      [apply_beside_watchdog].
    - serde's formats, apart from the default values of a network and the data
      given to the templates.
    - Of the template language and of NGINX's configuration, what the three
      templates do not use.
    - In the integration test: the network between its namespaces and the
      gateway; a ping is a command of its machine, which is kept in a log.
    - Scripts, containers and continuous integration. *)
From stdpp Require Export base tactics option strings gmap sorting numbers.
From stdpp Require Export list_basics list_relations list_monad list_misc list_tactics list_numbers list.

#[global] Open Scope Z_scope.

Declare Scope gateway_scope.
Delimit Scope gateway_scope with gateway.

(** ** Errors and outcomes

    An [anyhow::Error]: a message, possibly wrapped by [Context] layers; its
    [Display] shows the outermost layer only. *)
Inductive error : Type :=
| EMsg (msg : string)
| ECtx (ctx : string) (cause : error).

Definition error_to_string (e : error) : string :=
  match e with EMsg m => m | ECtx c _ => c end.

#[global] Instance error_eq_dec : EqDecision error.
Proof. solve_decision. Defined.

(** What a Rust call does: it returns [Ok], it returns [Err], or it panics. *)
Inductive outcome (A : Type) : Type :=
| Ok (a : A)
| Err (e : error)
| Panic.
Arguments Ok {A} a.
Arguments Err {A} e.
Arguments Panic {A}.

#[global] Instance outcome_eq_dec {A} `{EqDecision A} : EqDecision (outcome A).
Proof. solve_decision. Defined.

#[global] Instance outcome_ret : MRet outcome := @Ok.
#[global] Instance outcome_bind : MBind outcome := λ A B f o,
  match o with Ok a => f a | Err e => Err e | Panic => Panic end.
#[global] Instance outcome_fmap : FMap outcome := λ A B f o,
  match o with Ok a => Ok (f a) | Err e => Err e | Panic => Panic end.

(** [Option::unwrap], [Option::ok_or] and [Result::context]. *)
Definition unwrap {A} (o : option A) : outcome A :=
  match o with Some a => Ok a | None => Panic end.
Definition ok_or {A} (e : error) (o : option A) : outcome A :=
  match o with Some a => Ok a | None => Err e end.
Definition context {A} (c : string) (o : outcome A) : outcome A :=
  match o with Err e => Err (ECtx c e) | _ => o end.

Definition is_ok {A} (o : outcome A) : bool :=
  match o with Ok _ => true | _ => false end.

(** The value of a successful outcome, to compute with. *)
Definition ok_default {A} (d : A) (o : outcome A) : A :=
  match o with Ok a => a | _ => d end.
Lemma ok_default_spec {A} (d : A) o : is_ok o = true → o = Ok (ok_default d o).
Proof. by destruct o. Qed.

Lemma default_spec {A} (d : A) (o : option A) :
  from_option (λ _, true) false o = true → o = Some (default d o).
Proof. by destruct o. Qed.

Lemma bind_Ok {A B} (f : A → outcome B) (o : outcome A) b :
  o ≫= f = Ok b ↔ ∃ a, o = Ok a ∧ f a = Ok b.
Proof. destruct o; naive_solver. Qed.

Lemma context_Ok {A} c (o : outcome A) a : context c o = Ok a ↔ o = Ok a.
Proof. by destruct o. Qed.

Lemma ok_or_Ok {A} e (o : option A) a : ok_or e o = Ok a ↔ o = Some a.
Proof. destruct o; naive_solver. Qed.

Lemma unwrap_Ok {A} (o : option A) a : unwrap o = Ok a ↔ o = Some a.
Proof. destruct o; naive_solver. Qed.

(** [Iterator::collect::<Result<Vec<_>, _>>]: the first failure wins. *)
Fixpoint collect {A B} (f : A → outcome B) (l : list A) : outcome (list B) :=
  match l with
  | [] => Ok []
  | x :: l => y ← f x; ys ← collect f l; Ok (y :: ys)
  end.

Lemma collect_Ok {A B} (f : A → outcome B) l ys :
  collect f l = Ok ys ↔ Forall2 (λ x y, f x = Ok y) l ys.
Proof.
  revert ys. induction l as [|x l IH]; intros ys; cbn.
  - split; [intros [= <-]; constructor | by inversion 1].
  - rewrite bind_Ok. split.
    + intros (y & Hy & Hys). apply bind_Ok in Hys as (zs & Hzs & [= <-]).
      constructor; [done|]. by apply IH.
    + inversion 1 as [|? y ? zs Hy Hzs]; subst. exists y. split; [done|].
      apply bind_Ok. exists zs. by rewrite IH.
Qed.

Lemma collect_length {A B} (f : A → outcome B) l ys :
  collect f l = Ok ys → length ys = length l.
Proof. intros H%collect_Ok. symmetry. by eapply Forall2_length. Qed.

Lemma collect_map_Ok {A B} (f : A → outcome B) (g : A → B) l :
  (∀ x, x ∈ l → f x = Ok (g x)) → collect f l = Ok (g <$> l).
Proof.
  intros H. apply collect_Ok. induction l as [|x l IH]; constructor; set_solver.
Qed.

Lemma collect_fmap_Ok {A B C} (f : B → outcome C) (g : A → B) (h : A → C) l :
  (∀ x, x ∈ l → f (g x) = Ok (h x)) → collect f (g <$> l) = Ok (h <$> l).
Proof.
  intros H. apply collect_Ok. induction l as [|x l IH]; constructor; set_solver.
Qed.

Lemma collect_Panic {A B} (f : A → outcome B) l x :
  (∀ y e, y ∈ l → f y ≠ Err e) → x ∈ l → f x = Panic → collect f l = Panic.
Proof.
  induction l as [|y l IH]; intros Hf Hx Hp; [set_solver|]. cbn.
  apply elem_of_cons in Hx as [<-|Hx]; [by rewrite Hp|].
  destruct (f y) as [b|e|] eqn:Hy; cbn; [|by destruct (Hf y e (list_elem_of_here _ _))|done].
  rewrite IH; [done| |done|done]. intros z e Hz. apply Hf. by right.
Qed.

(** A loop over a vector that updates a value and may fail. *)
Fixpoint ofold {A B} (f : B → A → outcome B) (b : B) (l : list A) : outcome B :=
  match l with
  | [] => Ok b
  | x :: l => b ← f b x; ofold f b l
  end.

Lemma ofold_app {A B} (f : B → A → outcome B) b l1 l2 :
  ofold f b (l1 ++ l2) = ofold f b l1 ≫= λ b, ofold f b l2.
Proof.
  revert b. induction l1 as [|x l1 IH]; intros b; [done|].
  cbn. destruct (f b x); cbn; auto.
Qed.

(** [Iterator::enumerate] *)
Definition enumerate {A} (l : list A) : list (Z * A) := imap (λ i x, (Z.of_nat i, x)) l.

(** ** Machine integers

    The crates are built for 64-bit and for 32-bit targets (the [arm32] builds
    of README.md), with overflow checks (dev profile: an overflow panics) or
    without (release profile: it wraps).  [Target] carries both choices. *)
Class Target := {
  usize_bits : Z;
  overflow_checks : bool
}.
Class TargetOk (T : Target) : Prop :=
  usize_bits_cases : usize_bits = 32 ∨ usize_bits = 64.

Definition in_width (w z : Z) : Prop := 0 ≤ z < 2 ^ w.
#[global] Instance in_width_dec w z : Decision (in_width w z).
Proof. unfold in_width. apply _. Defined.

(** The result of an exact arithmetic operation at width [w]. *)
Definition at_width `{T : Target} (w z : Z) : outcome Z :=
  if decide (in_width w z) then Ok z
  else if overflow_checks then Panic else Ok (z mod 2 ^ w).

(** An [as] cast to width [w] truncates, in every profile. *)
Definition cast_width (w z : Z) : Z := z mod 2 ^ w.

Section machine.
Context `{T : Target}.

Definition usize_add (a b : Z) : outcome Z := at_width usize_bits (a + b).
Definition usize_sub (a b : Z) : outcome Z := at_width usize_bits (a - b).
Definition u16_add (a b : Z) : outcome Z := at_width 16 (a + b).

Lemma at_width_id w z : in_width w z → at_width w z = Ok z.
Proof. intros. unfold at_width. by rewrite decide_True. Qed.

Lemma at_width_exact w z r : at_width w z = Ok r → in_width w z → r = z.
Proof. intros Hr Hz. rewrite at_width_id in Hr by done. congruence. Qed.

Lemma at_width_mod w z r : 0 ≤ w → at_width w z = Ok r → r = z mod 2 ^ w.
Proof.
  intros Hw. unfold at_width. case_decide as Hz; [|by destruct overflow_checks; intros [=]].
  intros [= <-]. symmetry. by apply Z.mod_small.
Qed.

Lemma at_width_in w z r : 0 ≤ w → at_width w z = Ok r → in_width w r.
Proof.
  intros Hw ->%at_width_mod; [|done]. apply Z.mod_pos_bound. by apply Z.pow_pos_nonneg.
Qed.

Lemma at_width_not_Err w z e : at_width w z ≠ Err e.
Proof. unfold at_width. by repeat case_match. Qed.

Lemma at_width_checked w z :
  overflow_checks = true → ¬ in_width w z → at_width w z = Panic.
Proof. intros Hc Hz. unfold at_width. rewrite decide_False by done. by rewrite Hc. Qed.

Lemma at_width_unchecked w z :
  0 ≤ w → overflow_checks = false → at_width w z = Ok (z mod 2 ^ w).
Proof.
  intros Hw Hc. unfold at_width. case_decide as Hz; [|by rewrite Hc].
  by rewrite Z.mod_small.
Qed.
End machine.

Lemma usize_bits_nonneg `{TargetOk} : 0 ≤ usize_bits.
Proof. destruct usize_bits_cases as [-> | ->]; lia. Qed.

(** The two profiles of the common 64-bit target. *)
Definition release64 : Target := {| usize_bits := 64; overflow_checks := false |}.
Definition debug64 : Target := {| usize_bits := 64; overflow_checks := true |}.
#[global] Instance release64_ok : TargetOk release64.
Proof. by right. Qed.
#[global] Instance debug64_ok : TargetOk debug64.
Proof. by right. Qed.

(** ** Effectful code

    A computation over a state [S]: whatever happens ([Ok], [Err] or a panic),
    the state changes made so far stay made, as in the source. *)
Definition M (S A : Type) : Type := S → outcome A * S.

Section monad.
Context {S : Type}.

#[global] Instance M_ret : MRet (M S) := λ A a s, (Ok a, s).
#[global] Instance M_bind : MBind (M S) := λ A B f m s,
  match m s with
  | (Ok a, s') => f a s'
  | (Err e, s') => (Err e, s')
  | (Panic, s') => (Panic, s')
  end.

Definition lift {A} (o : outcome A) : M S A := λ s, (o, s).
Definition throw {A} (e : error) : M S A := lift (Err e).
Definition get : M S S := λ s, (Ok s, s).
Definition modify (f : S → S) : M S unit := λ s, (Ok tt, f s).
Definition with_context {A} (c : string) (m : M S A) : M S A := λ s,
  let '(o, s') := m s in (context c o, s').
(** [match m { Ok(a) => .., Err(e) => .. }] at a call site. *)
Definition attempt {A} (m : M S A) : M S (A + error) := λ s,
  match m s with
  | (Ok a, s') => (Ok (inl a), s')
  | (Err e, s') => (Ok (inr e), s')
  | (Panic, s') => (Panic, s')
  end.
Definition when (b : bool) (m : M S unit) : M S unit := if b then m else mret tt.

(** A [for] loop whose body may leave with [?]. *)
Fixpoint for_each {A} (l : list A) (f : A → M S unit) : M S unit :=
  match l with
  | [] => mret tt
  | x :: l => f x ;; for_each l f
  end.
End monad.

(** *** Weakest preconditions

    [wp m Q s]: running [m] from [s] ends in an outcome and a state that
    satisfy [Q].  [ok_post Q] asks something of successful runs only. *)
Definition wp {S A} (m : M S A) (Q : outcome A → S → Prop) (s : S) : Prop :=
  let '(o, s') := m s in Q o s'.

Definition ok_post {S A} (Q : A → S → Prop) : outcome A → S → Prop := λ o s,
  match o with Ok a => Q a s | _ => True end.

Section wp_rules.
Context {S : Type}.
Implicit Types s : S.

Lemma wp_mono {A} (m : M S A) (Q Q' : outcome A → S → Prop) s :
  wp m Q s → (∀ o s', Q o s' → Q' o s') → wp m Q' s.
Proof. unfold wp. destruct (m s). auto. Qed.

Lemma wp_ok_mono {A} (m : M S A) (Q Q' : A → S → Prop) s :
  wp m (ok_post Q) s → (∀ a s', Q a s' → Q' a s') → wp m (ok_post Q') s.
Proof. intros H HQ. eapply wp_mono; [done|]. intros [] s'; cbn; auto. Qed.

Lemma wp_ret {A} (a : A) Q s : Q (Ok a) s → wp (mret a) Q s.
Proof. done. Qed.

Lemma wp_lift {A} (o : outcome A) Q s : Q o s → wp (lift o) Q s.
Proof. done. Qed.

Lemma wp_bind {A B} (m : M S A) (k : A → M S B) Q s :
  wp m (λ o s', match o with
                | Ok a => wp (k a) Q s'
                | Err e => Q (Err e) s'
                | Panic => Q Panic s'
                end) s →
  wp (m ≫= k) Q s.
Proof. unfold wp, mbind, M_bind. by destruct (m s) as [[] ?]. Qed.

Lemma wp_ok_bind {A B} (m : M S A) (k : A → M S B) Q s :
  wp m (ok_post (λ a s', wp (k a) (ok_post Q) s')) s →
  wp (m ≫= k) (ok_post Q) s.
Proof. intros H. apply wp_bind. eapply wp_mono; [done|]. by intros []. Qed.

Lemma wp_ok_with_context {A} c (m : M S A) Q s :
  wp m (ok_post Q) s → wp (with_context c m) (ok_post Q) s.
Proof. unfold wp, with_context. by destruct (m s) as [[] ?]. Qed.

Lemma wp_attempt {A} (m : M S A) Q s :
  wp m (λ o s', match o with
                | Ok a => Q (Ok (inl a)) s'
                | Err e => Q (Ok (inr e)) s'
                | Panic => Q Panic s'
                end) s →
  wp (attempt m) Q s.
Proof. unfold wp, attempt. by destruct (m s) as [[] ?]. Qed.

Lemma wp_ok_when b (m : M S unit) Q s :
  (b = true → wp m (ok_post Q) s) → (b = false → Q tt s) →
  wp (when b m) (ok_post Q) s.
Proof. destruct b; cbn; auto. Qed.

(** The loop rule: [I done s] relates the elements handled so far to the state. *)
Lemma wp_ok_for_each {A} (I : list A → S → Prop) (l : list A) (f : A → M S unit) s :
  (∀ before x after s', l = before ++ x :: after → I before s' →
     wp (f x) (ok_post (λ _, I (before ++ [x]))) s') →
  I [] s → wp (for_each l f) (ok_post (λ _, I l)) s.
Proof.
  intros Hf. enough (∀ before after s', l = before ++ after → I before s' →
    wp (for_each after f) (ok_post (λ _, I l)) s') by (intros; eapply (H []); eauto).
  intros before after. revert before.
  induction after as [|x after IH]; intros before s' Hl HI; cbn.
  - rewrite app_nil_r in Hl. by subst.
  - apply wp_ok_bind. eapply wp_ok_mono; [by eapply Hf|].
    intros [] s'' HI'. eapply IH; [|done]. by rewrite <-app_assoc.
Qed.

Lemma for_each_app {A} (l1 l2 : list A) (f : A → M S unit) s :
  for_each (l1 ++ l2) f s = (for_each l1 f ;; for_each l2 f) s.
Proof.
  revert s. induction l1 as [|x l1 IH]; intros s; [done|].
  cbn. unfold mbind, M_bind. by destruct (f x s) as [[] s'].
Qed.

Lemma wp_ok_elim {A} (m : M S A) Q s a s' :
  wp m (ok_post Q) s → m s = (Ok a, s') → Q a s'.
Proof. unfold wp. intros H Hm. by rewrite Hm in H. Qed.
End wp_rules.

(** *** Successful runs taken apart *)
Lemma bind_Ok_inv {S A B} (m : M S A) (k : A → M S B) s b s' :
  (m ≫= k) s = (Ok b, s') → ∃ a s1, m s = (Ok a, s1) ∧ k a s1 = (Ok b, s').
Proof. unfold mbind, M_bind. destruct (m s) as [[a|e|] s1]; naive_solver. Qed.

Lemma context_Ok_inv {S A} c (m : M S A) s a s' : with_context c m s = (Ok a, s') → m s = (Ok a, s').
Proof. unfold with_context. by destruct (m s) as [[] ?]. Qed.

Lemma when_Ok_inv {S} b (m : M S unit) s s' :
  when b m s = (Ok tt, s') → if b then m s = (Ok tt, s') else s' = s.
Proof. destruct b; [done|]. by intros [= <-]. Qed.

(** *** Computations that never panic *)
Definition never_panics {S A} (m : M S A) : Prop := ∀ s, (m s).1 ≠ Panic.

Section never_panics_rules.
Context {S : Type}.

Lemma never_panics_ret {A} (a : A) : never_panics (S := S) (mret a).
Proof. done. Qed.
Lemma never_panics_lift {A} (o : outcome A) : o ≠ Panic → never_panics (S := S) (lift o).
Proof. by intros Ho s. Qed.
(** The continuation may use what the first part can answer. *)
Lemma never_panics_bind_wp {A B} (m : M S A) (k : A → M S B) (Q : A → S → Prop) :
  never_panics m → (∀ s, wp m (ok_post Q) s) → (∀ a s, Q a s → (k a s).1 ≠ Panic) →
  never_panics (m ≫= k).
Proof.
  intros Hm HQ Hk s. specialize (Hm s). specialize (HQ s). unfold wp, mbind, M_bind in *.
  destruct (m s) as [[a|e|] s']; cbn in *; [by apply Hk|done..].
Qed.
Lemma never_panics_bind {A B} (m : M S A) (k : A → M S B) :
  never_panics m → (∀ a, never_panics (k a)) → never_panics (m ≫= k).
Proof.
  intros Hm Hk. apply (never_panics_bind_wp _ _ (λ _ _, True)); [done| |intros a s _; apply Hk].
  intros s. unfold wp. by destruct (m s) as [[] ?].
Qed.
Lemma never_panics_context {A} c (m : M S A) : never_panics m → never_panics (with_context c m).
Proof. intros Hm s. specialize (Hm s). unfold with_context. by destruct (m s) as [[] ?]. Qed.
Lemma never_panics_attempt {A} (m : M S A) : never_panics m → never_panics (attempt m).
Proof. intros Hm s. specialize (Hm s). unfold attempt. by destruct (m s) as [[] ?]. Qed.
Lemma never_panics_when b (m : M S unit) : (b = true → never_panics m) → never_panics (when b m).
Proof. destruct b; cbn; auto using never_panics_ret. Qed.
Lemma never_panics_for_each {A} (l : list A) (f : A → M S unit) :
  (∀ x, x ∈ l → never_panics (f x)) → never_panics (for_each l f).
Proof.
  induction l as [|x l IH]; intros Hf; cbn; [apply never_panics_ret|].
  apply never_panics_bind; [apply Hf; left|]. intros _. apply IH. intros y Hy. apply Hf. by right.
Qed.
End never_panics_rules.

(** Two computations are equivalent when they agree from every state. *)
#[global] Instance M_equiv {S A} : Equiv (M S A) := λ m m', ∀ s, m s = m' s.
#[global] Instance M_equivalence {S A} : Equivalence (≡@{M S A}).
Proof.
  split.
  - by intros m s.
  - intros m m' H s. by rewrite (H s).
  - intros m m' m'' H H' s. by rewrite (H s).
Qed.
#[global] Instance wp_proper {S A} :
  Proper ((≡) ==> (=) ==> (=) ==> iff) (@wp S A).
Proof. intros m m' Hm ? Q -> ? s ->. unfold wp. by rewrite (Hm s). Qed.
#[global] Instance M_bind_proper {S A B} :
  Proper (pointwise_relation A (≡) ==> (≡) ==> (≡)) (@mbind (M S) _ A B).
Proof.
  intros k k' Hk m m' Hm s. unfold mbind, M_bind. rewrite (Hm s).
  destruct (m' s) as [[] ?]; [apply Hk|done..].
Qed.

Lemma M_bind_assoc {S A B C} (m : M S A) (f : A → M S B) (g : B → M S C) :
  (m ≫= f) ≫= g ≡ m ≫= (λ a, f a ≫= g).
Proof. intros s. unfold mbind, M_bind. by destruct (m s) as [[] ?]. Qed.

(** ** Automation

    [gw] holds the facts that close side conditions across the development. *)
Create HintDb gw.
Create Rewrite HintDb gw.
#[export] Hint Resolve usize_bits_nonneg : gw.
#[export] Hint Resolve wp_ret wp_lift : gw.
#[export] Hint Resolve never_panics_ret : gw.

(** [lia] with division and remainder by literals. *)
Ltac zlia := Z.div_mod_to_equations; lia.

(** A [Forall] over an explicit list, element by element. *)
Ltac forall_cons := rewrite ?Forall_cons, ?Forall_nil; split_and!; [..|done].

(** Step through the head of a computation whose goal is an [ok_post]. *)
Ltac wp_step :=
  lazymatch goal with
  | |- wp (mbind _ _) (ok_post _) _ => apply wp_ok_bind
  | |- wp (with_context _ _) (ok_post _) _ => apply wp_ok_with_context
  | |- wp (when _ _) (ok_post _) _ => apply wp_ok_when; intros ?
  | |- wp (mret _) _ _ => apply wp_ret; cbn
  | |- wp (lift _) _ _ => apply wp_lift
  end.

(** Destruct the scrutinee of the first match of a hypothesis or the goal. *)
Ltac break_match :=
  match goal with
  | H : context [match ?x with _ => _ end] |- _ => destruct x eqn:?
  | |- context [match ?x with _ => _ end] => destruct x eqn:?
  end.
