(* ===== verification/Text.v ===== *)
(** * Strings of the standard library

    The operations of [str] and of integer formatting and parsing that the
    gateway uses: [split], [lines], [join], [starts_with], [Display] and
    [FromStr] of unsigned integers.  A [string] is its sequence of bytes. *)
From S2P Require Import Prelude.
From Stdlib Require Import Ascii.

Definition LF : ascii := "010".
Definition CR : ascii := "013".
Definition TAB : ascii := "009".

Local Open Scope string_scope.
Local Open Scope Z_scope.

(** Let concatenation compute on a visible first character. *)
#[global] Arguments String.append !_ _ /.


Definition char_str (c : ascii) : string := String c "".
Definition nl : string := char_str LF.

(** [c] occurs in [s]. *)
Fixpoint has_char (c : ascii) (s : string) : bool :=
  match s with
  | "" => false
  | String a s => bool_decide (a = c) || has_char c s
  end.

(** [str::split] on one character: always at least one piece. *)
Fixpoint split_on (c : ascii) (s : string) : list string :=
  match s with
  | "" => [""]
  | String a s =>
      if bool_decide (a = c) then "" :: split_on c s
      else match split_on c s with
           | [] => []
           | p :: ps => String a p :: ps
           end
  end.

(** One trailing carriage return removed. *)
Fixpoint strip_cr (s : string) : string :=
  match s with
  | "" => ""
  | String a "" => if bool_decide (a = CR) then "" else s
  | String a s => String a (strip_cr s)
  end.

(** [str::lines]: lines end in LF or CR LF, the final ending is optional. *)
Fixpoint line_pieces (ps : list string) : list string :=
  match ps with
  | [] => []
  | [p] => if bool_decide (p = "") then [] else [p]
  | p :: ps => strip_cr p :: line_pieces ps
  end.
Definition lines (s : string) : list string := line_pieces (split_on LF s).

(** [slice::join]. *)
Fixpoint join (sep : string) (l : list string) : string :=
  match l with
  | [] => ""
  | [s] => s
  | s :: l => s ++ sep ++ join sep l
  end.

(** Every line followed by LF, as a sequence of [writeln!] calls prints them. *)
Fixpoint unlines (l : list string) : string :=
  match l with
  | [] => ""
  | s :: l => s ++ nl ++ unlines l
  end.

Fixpoint starts_with (p s : string) : bool :=
  match p, s with
  | "", _ => true
  | String a p, String b s => bool_decide (a = b) && starts_with p s
  | String _ _, "" => false
  end.

(** [&s[n..]], which panics beyond the end. *)
Fixpoint slice_from (n : nat) (s : string) : outcome string :=
  match n, s with
  | O, _ => Ok s
  | S n, String _ s => slice_from n s
  | S _, "" => Panic
  end.

(** ** Decimal numbers *)
Definition digit_char (d : Z) : ascii := ascii_of_nat (48 + Z.to_nat d).
Definition char_digit (a : ascii) : option Z :=
  let n := Z.of_nat (nat_of_ascii a) in
  if decide (48 ≤ n ≤ 57) then Some (n - 48) else None.

Fixpoint dec_go (fuel : nat) (n : Z) : string :=
  match fuel with
  | O => ""
  | S fuel =>
      if decide (n < 10) then char_str (digit_char n)
      else dec_go fuel (n / 10) ++ char_str (digit_char (n mod 10))
  end.
(** [Display] of an unsigned integer; [log2 n + 1] digits are enough. *)
Definition dec (n : Z) : string := dec_go (S (Z.to_nat (Z.log2 n))) n.

Definition err_int_empty : error := EMsg "cannot parse integer from empty string".
Definition err_int_digit : error := EMsg "invalid digit found in string".
Definition err_int_overflow : error := EMsg "number too large to fit in target type".

Fixpoint parse_digits (w acc : Z) (s : string) : outcome Z :=
  match s with
  | "" => Ok acc
  | String a s =>
      match char_digit a with
      | None => Err err_int_digit
      | Some d =>
          if decide (in_width w (acc * 10 + d)) then parse_digits w (acc * 10 + d) s
          else Err err_int_overflow
      end
  end.

(** [FromStr] of the unsigned integer of width [w]. *)
Definition parse_uint (w : Z) (s : string) : outcome Z :=
  match s with
  | "" => Err err_int_empty
  | String "+" "" | String "-" "" => Err err_int_digit
  | String "+" s => parse_digits w 0 s
  | _ => parse_digits w 0 s
  end.

(** ** Lemmas *)
Lemma string_app_assoc (s1 s2 s3 : string) : (s1 ++ s2) ++ s3 = s1 ++ (s2 ++ s3).
Proof. induction s1 as [|a s1 IH]; cbn; [done|]. by rewrite IH. Qed.

Lemma string_app_nil_r (s : string) : s ++ "" = s.
Proof. induction s as [|a s IH]; cbn; [done|]. by rewrite IH. Qed.

Lemma string_app_length (s1 s2 : string) :
  String.length (s1 ++ s2) = (String.length s1 + String.length s2)%nat.
Proof. induction s1 as [|a s1 IH]; cbn; [done|]. by rewrite IH. Qed.

Lemma string_app_inj_r (s1 s2 t : string) : s1 ++ t = s2 ++ t → s1 = s2.
Proof.
  revert s2. induction s1 as [|a s1 IH]; intros [|b s2]; cbn; intros H; try done.
  - apply (f_equal String.length) in H. cbn in H. rewrite string_app_length in H. lia.
  - apply (f_equal String.length) in H. cbn in H. rewrite string_app_length in H. lia.
  - injection H as -> H. f_equal. by apply IH.
Qed.

Lemma has_char_app c s1 s2 : has_char c (s1 ++ s2) = has_char c s1 || has_char c s2.
Proof. induction s1 as [|a s1 IH]; cbn; [done|]. by rewrite IH, orb_assoc. Qed.

Lemma has_char_false_cons c a s :
  has_char c (String a s) = false ↔ a ≠ c ∧ has_char c s = false.
Proof. cbn. rewrite orb_false_iff, bool_decide_eq_false. done. Qed.

(** The last occurrence of a character splits a string in one way. *)
Lemma last_char_split c p1 p2 s1 s2 :
  has_char c s1 = false → has_char c s2 = false →
  p1 ++ String c s1 = p2 ++ String c s2 → p1 = p2 ∧ s1 = s2.
Proof.
  intros H1 H2. revert p2. induction p1 as [|a p1 IH]; intros [|b p2]; cbn; intros H;
    injection H; intros; subst.
  - done.
  - rewrite has_char_app, orb_false_iff in H1. cbn in H1. rewrite bool_decide_true in H1 by done.
    by destruct H1.
  - rewrite has_char_app, orb_false_iff in H2. cbn in H2. rewrite bool_decide_true in H2 by done.
    by destruct H2.
  - by destruct (IH p2) as [-> ->].
Qed.

Lemma starts_with_app p s : starts_with p (p ++ s) = true.
Proof. induction p as [|a p IH]; cbn; [done|]. by rewrite bool_decide_true, IH. Qed.

Lemma starts_with_spec p s : starts_with p s = true ↔ ∃ r, s = p ++ r.
Proof.
  split.
  - revert s. induction p as [|a p IH]; intros s; cbn; [eauto|].
    destruct s as [|b s]; [done|]. rewrite andb_true_iff, bool_decide_eq_true.
    intros [-> (r & ->)%IH]. eauto.
  - intros (r & ->). apply starts_with_app.
Qed.

Lemma slice_from_app p s : slice_from (String.length p) (p ++ s) = Ok s.
Proof. by induction p. Qed.

Lemma has_char_join c sep l :
  has_char c sep = false → Forall (λ s, has_char c s = false) l → has_char c (join sep l) = false.
Proof.
  intros Hsep. induction 1 as [|s l Hs Hl IH]; [done|]. destruct l as [|s' l]; [done|].
  change (join sep (s :: s' :: l)) with (s ++ sep ++ join sep (s' :: l)).
  by rewrite !has_char_app, Hs, Hsep, IH.
Qed.

(** *** Splitting *)
Lemma split_on_not_nil c s : split_on c s ≠ [].
Proof.
  induction s as [|a s IH]; cbn; [done|]. case_bool_decide; [done|].
  by destruct (split_on c s).
Qed.

Lemma split_on_none c s : has_char c s = false → split_on c s = [s].
Proof.
  induction s as [|a s IH]; [done|]. rewrite has_char_false_cons. intros [Ha Hs].
  cbn. by rewrite bool_decide_false, IH.
Qed.

Lemma split_on_app c s1 s2 :
  has_char c s1 = false →
  split_on c (s1 ++ String c s2) = s1 :: split_on c s2.
Proof.
  induction s1 as [|a s1 IH]; cbn; intros H; [by rewrite bool_decide_true|].
  apply orb_false_iff in H as [Ha%bool_decide_eq_false H].
  rewrite bool_decide_false by done. by rewrite IH.
Qed.

(** Joining with a character that no piece contains, then splitting. *)
Lemma split_on_join c l :
  l ≠ [] → Forall (λ s, has_char c s = false) l →
  split_on c (join (char_str c) l) = l.
Proof.
  induction l as [|s l IH]; [done|]. intros _ [Hs Hl]%Forall_cons_1.
  destruct l as [|s2 l]; [cbn [join]; by rewrite split_on_none|].
  change (join (char_str c) (s :: s2 :: l)) with (s ++ String c (join (char_str c) (s2 :: l))).
  rewrite split_on_app by done. by rewrite IH.
Qed.

Lemma split_on_unlines l :
  Forall (λ s, has_char LF s = false) l → split_on LF (unlines l) = (l ++ [""])%list.
Proof.
  induction l as [|s l IH]; [done|]. intros [Hs Hl]%Forall_cons_1.
  change (unlines (s :: l)) with (s ++ String LF (unlines l)).
  rewrite split_on_app by done. by rewrite IH.
Qed.

Lemma strip_cr_id s : has_char CR s = false → strip_cr s = s.
Proof.
  induction s as [|a s IH]; [done|]. rewrite has_char_false_cons. intros [Ha Hs].
  cbn. destruct s; [by rewrite bool_decide_false|]. by rewrite IH.
Qed.

Lemma line_pieces_terminated l :
  line_pieces (l ++ [""])%list = strip_cr <$> l.
Proof.
  induction l as [|s l IH]; [done|]. cbn. rewrite IH. by destruct l.
Qed.

(** Printing lines and reading them back. *)
Lemma lines_unlines l :
  Forall (λ s, has_char LF s = false) l →
  Forall (λ s, has_char CR s = false) l →
  lines (unlines l) = l.
Proof.
  intros HLF HCR. unfold lines. rewrite split_on_unlines, line_pieces_terminated by done.
  rewrite <-(list_fmap_id l) at 2. apply list_fmap_ext.
  intros i s Hi. apply strip_cr_id. by eapply Forall_lookup_1 in HCR.
Qed.

Lemma unlines_app l1 l2 : unlines (l1 ++ l2)%list = unlines l1 ++ unlines l2.
Proof.
  induction l1 as [|s l1 IH]; [done|]. cbn. by rewrite IH, string_app_assoc.
Qed.

Lemma join_nl_unlines l : l ≠ [] → join nl l ++ nl = unlines l.
Proof.
  induction l as [|s l IH]; [done|]. intros _.
  destruct l as [|s' l]; [done|].
  change (join nl (s :: s' :: l)) with (s ++ nl ++ join nl (s' :: l)).
  rewrite !string_app_assoc, IH by done. done.
Qed.

(** *** Decimal round trip *)
Lemma char_digit_digit_char d : 0 ≤ d < 10 → char_digit (digit_char d) = Some d.
Proof.
  intros Hd. unfold char_digit, digit_char. rewrite nat_ascii_embedding by lia.
  rewrite decide_True by lia. f_equal. lia.
Qed.

Lemma parse_digits_app w acc s1 s2 :
  parse_digits w acc (s1 ++ s2) = parse_digits w acc s1 ≫= λ v, parse_digits w v s2.
Proof.
  revert acc. induction s1 as [|a s1 IH]; intros acc; [done|].
  cbn. destruct (char_digit a); [|done]. by case_decide.
Qed.

Lemma dec_go_parse w fuel n :
  n < 2 ^ Z.of_nat fuel → in_width w n → parse_digits w 0 (dec_go fuel n) = Ok n.
Proof.
  revert n. induction fuel as [|fuel IH]; intros n Hf [Hn Hw]; [cbn in *; f_equal; lia|].
  cbn [dec_go]. case_decide as Hten.
  - unfold char_str. cbn [parse_digits].
    rewrite char_digit_digit_char by lia.
    rewrite decide_True by (unfold in_width; lia). done.
  - rewrite Nat2Z.inj_succ, Z.pow_succ_r in Hf by lia.
    rewrite parse_digits_app, IH.
    + cbn. rewrite char_digit_digit_char by zlia.
      rewrite decide_True by (unfold in_width; zlia). f_equal. zlia.
    + zlia.
    + unfold in_width. zlia.
Qed.

Lemma dec_fuel n : 0 ≤ n → n < 2 ^ Z.of_nat (S (Z.to_nat (Z.log2 n))).
Proof.
  intros Hn. pose proof (Z.log2_nonneg n).
  rewrite Nat2Z.inj_succ, Z2Nat.id by done.
  destruct (decide (n = 0)) as [->|]; [done|]. apply Z.log2_spec. lia.
Qed.

Lemma dec_go_head fuel n :
  0 ≤ n → fuel ≠ O →
  ∃ a s, dec_go fuel n = String a s ∧ is_Some (char_digit a).
Proof.
  revert n. induction fuel as [|fuel IH]; intros n Hn Hf; [done|].
  cbn [dec_go]. case_decide.
  - exists (digit_char n), "". rewrite char_digit_digit_char by lia. eauto.
  - destruct fuel as [|fuel].
    + exists (digit_char (n mod 10)), "". cbn [dec_go String.append].
      rewrite char_digit_digit_char by zlia. eauto.
    + destruct (IH (n / 10)) as (a & s & -> & Ha); [zlia|done|]. cbn [String.append]. eauto.
Qed.

Lemma dec_head n : 0 ≤ n → ∃ a s, dec n = String a s ∧ is_Some (char_digit a).
Proof. intros. by apply dec_go_head. Qed.

Lemma parse_uint_digits w a s :
  is_Some (char_digit a) → parse_uint w (String a s) = parse_digits w 0 (String a s).
Proof.
  intros [d Hd]. destruct (decide (a = "+"%char)) as [->|]; [done|].
  destruct (decide (a = "-"%char)) as [->|]; [done|].
  destruct a as [[] [] [] [] [] [] [] []]; try done; try (by destruct s).
Qed.

(** [n.to_string().parse() == Ok(n)] at every width that holds [n]. *)
Lemma parse_dec w n : in_width w n → parse_uint w (dec n) = Ok n.
Proof.
  intros [Hn Hw]. destruct (dec_head n Hn) as (a & s & Hd & Ha).
  rewrite Hd, parse_uint_digits, <-Hd by done.
  apply dec_go_parse; [by apply dec_fuel|done].
Qed.

Lemma dec_inj m n : 0 ≤ m → 0 ≤ n → dec m = dec n → m = n.
Proof.
  intros Hm Hn H. set (w := Z.succ (Z.log2 (Z.max 1 (Z.max m n)))).
  pose proof (Z.log2_spec (Z.max 1 (Z.max m n)) ltac:(lia)) as [_ Hw].
  assert (Hk : Ok m = Ok n) by
    (rewrite <-(parse_dec w m), H, (parse_dec w n); unfold in_width; [done|subst w; lia..]).
  by injection Hk.
Qed.

(** A decimal numeral is made of digits. *)
Lemma digit_char_ne c d : d < 10 → char_digit c = None → digit_char d ≠ c.
Proof.
  intros Hd Hc <-. destruct (decide (0 ≤ d)).
  - by rewrite char_digit_digit_char in Hc by lia.
  - unfold digit_char in Hc. by replace (Z.to_nat d) with O in Hc by lia.
Qed.

Lemma dec_char c n : char_digit c = None → has_char c (dec n) = false.
Proof.
  intros Hc. unfold dec. generalize (S (Z.to_nat (Z.log2 n))) as fuel. intros fuel.
  revert n. induction fuel as [|fuel IH]; intros n; [done|]. cbn [dec_go].
  case_decide; rewrite ?has_char_app, ?IH; cbn;
    rewrite bool_decide_false; auto; apply digit_char_ne; auto; zlia.
Qed.

(** A parsed number fits its width. *)
Lemma parse_digits_in_width w acc s v :
  in_width w acc → parse_digits w acc s = Ok v → in_width w v.
Proof.
  revert acc. induction s as [|a s IH]; cbn; intros acc Hacc; [by intros [= <-]|].
  repeat case_match; try done. by apply IH.
Qed.

Lemma parse_uint_in_width w s v : 0 ≤ w → parse_uint w s = Ok v → in_width w v.
Proof.
  intros Hw. assert (in_width w 0) by (split; [done|]; apply Z.pow_pos_nonneg; lia).
  unfold parse_uint. repeat case_match; try done; by apply parse_digits_in_width.
Qed.

#[export] Hint Rewrite string_app_assoc string_app_nil_r has_char_app : gw.
#[export] Hint Resolve dec_char parse_dec : gw.
