(* ===== verification/BTree.v ===== *)
(** * Ordered maps

    [BTreeMap<K, V>]: a finite map [gmap K V] iterated in key order.  The
    order of a key type is the class [KeyOrd]; [entries] is [iter()]. *)
From S2P Require Import Prelude.

(** The derived or standard [Ord] of a key type. *)
Class KeyOrd (K : Type) := {
  key_le : relation K;
  key_le_dec :: RelDecision key_le;
  key_le_po :: PartialOrder key_le;
  key_le_total :: Total key_le
}.

#[global] Instance Z_key_ord : KeyOrd Z := {| key_le := Z.le |}.
#[global] Instance string_key_ord : KeyOrd string := {| key_le := String.le |}.

Section entries.
Context `{Countable K, !KeyOrd K}.

Definition entry_le {V} (x y : K * V) : Prop := key_le x.1 y.1.
#[global] Instance entry_le_dec {V} : RelDecision (@entry_le V).
Proof. intros x y. unfold entry_le. apply _. Defined.
#[global] Instance entry_le_trans {V} : Transitive (@entry_le V).
Proof. intros x y z. unfold entry_le. apply transitivity. Qed.
#[global] Instance entry_le_tot {V} : Total (@entry_le V).
Proof. intros x y. apply (total key_le). Qed.

(** [iter()] *)
Definition entries {V} (m : gmap K V) : list (K * V) :=
  merge_sort entry_le (map_to_list m).
(** [keys()] and [values()] *)
Definition map_keys {V} (m : gmap K V) : list K := fst <$> entries m.
Definition map_values {V} (m : gmap K V) : list V := snd <$> entries m.

Lemma entries_perm {V} (m : gmap K V) : entries m ≡ₚ map_to_list m.
Proof. apply merge_sort_Permutation. Qed.

Lemma entries_sorted {V} (m : gmap K V) : StronglySorted entry_le (entries m).
Proof. apply (StronglySorted_merge_sort _). Qed.

Lemma elem_of_entries {V} (m : gmap K V) k v : (k, v) ∈ entries m ↔ m !! k = Some v.
Proof. rewrite entries_perm. apply elem_of_map_to_list. Qed.

Lemma NoDup_map_keys {V} (m : gmap K V) : NoDup (map_keys m).
Proof. unfold map_keys. rewrite entries_perm. apply NoDup_fst_map_to_list. Qed.

Lemma elem_of_map_keys {V} (m : gmap K V) k : k ∈ map_keys m ↔ is_Some (m !! k).
Proof.
  unfold map_keys. rewrite list_elem_of_fmap. split.
  - intros ([k' v] & -> & Hv). apply elem_of_entries in Hv. eauto.
  - intros [v Hv]. exists (k, v). by rewrite elem_of_entries.
Qed.

Lemma length_entries {V} (m : gmap K V) : length (entries m) = size m.
Proof. rewrite entries_perm. apply length_map_to_list. Qed.

Lemma entries_empty {V} : entries (∅ : gmap K V) = [].
Proof. unfold entries. by rewrite map_to_list_empty. Qed.

Lemma list_to_map_entries {V} (m : gmap K V) : list_to_map (entries m) = m.
Proof.
  rewrite <-(list_to_map_to_list m) at 2. apply list_to_map_proper; [|apply entries_perm].
  apply NoDup_map_keys.
Qed.

(** A sorted list without repeated keys is determined by its elements. *)
Lemma sorted_keys_unique {V} (l1 l2 : list (K * V)) :
  StronglySorted entry_le l1 → StronglySorted entry_le l2 →
  NoDup (fst <$> l1) → l1 ≡ₚ l2 → l1 = l2.
Proof.
  intros H1 H2 Hnd Hp. apply (StronglySorted_unique_strong entry_le); [|done..].
  intros [k v] [k' v'] Hk Hk' Hle Hle'. rewrite <-Hp in Hk'.
  assert (k = k') as <- by (by apply (anti_symm key_le)). f_equal.
  assert (Hm : (list_to_map l1 : gmap K V) !! k = Some v) by (by apply elem_of_list_to_map).
  assert (Hm' : (list_to_map l1 : gmap K V) !! k = Some v') by (by apply elem_of_list_to_map).
  congruence.
Qed.

Lemma entries_unique {V} (m : gmap K V) l :
  StronglySorted entry_le l → NoDup (fst <$> l) → list_to_map l = m → entries m = l.
Proof.
  intros Hs Hnd <-. symmetry. apply sorted_keys_unique; [done|apply entries_sorted|done|].
  rewrite entries_perm. symmetry. by apply map_to_list_to_map.
Qed.

(** Mapping the values keeps the iteration order. *)
Lemma entries_imap {V W} (f : K → V → W) (m : gmap K V) :
  entries (map_imap (λ k v, Some (f k v)) m) = (λ '(k, v), (k, f k v)) <$> entries m.
Proof.
  assert (Hfst : (fst <$> ((λ '(k, v), (k, f k v)) <$> entries m)) = map_keys m).
  { rewrite <-list_fmap_compose. apply list_fmap_ext. by intros i [k v]. }
  apply entries_unique.
  - pose proof (entries_sorted m) as Hs.
    clear Hfst. induction Hs as [|[k v] l Hl IH Hk]; cbn; [constructor|].
    constructor; [done|]. apply Forall_fmap. revert Hk. apply List.Forall_impl. by intros [k2 v2].
  - rewrite Hfst. apply NoDup_map_keys.
  - apply map_eq. intros k. apply option_eq. intros w.
    rewrite map_lookup_imap, <-elem_of_list_to_map by (rewrite Hfst; apply NoDup_map_keys).
    rewrite list_elem_of_fmap. split.
    + intros ([k' v] & [= -> ->] & Hv). apply elem_of_entries in Hv. by rewrite Hv.
    + destruct (m !! k) as [v|] eqn:Hv; cbn; [|done]. intros [= <-].
      exists (k, v). by rewrite elem_of_entries.
Qed.
End entries.

(** ** The entry interface *)
Section entry.
Context `{Countable K}.

(** [*entry(k).or_insert_with(d) = f(..)] *)
Definition entry_update {V} (k : K) (d : V) (f : V → V) (m : gmap K V) : gmap K V :=
  <[k := f (default d (m !! k))]> m.

Lemma lookup_entry_update {V} k d f (m : gmap K V) :
  entry_update k d f m !! k = Some (f (default d (m !! k))).
Proof. apply lookup_insert_eq. Qed.

Lemma lookup_entry_update_ne {V} k k' d f (m : gmap K V) :
  k ≠ k' → entry_update k d f m !! k' = m !! k'.
Proof. apply lookup_insert_ne. Qed.
End entry.

#[export] Hint Resolve entries_sorted NoDup_map_keys : gw.
#[export] Hint Rewrite @lookup_entry_update : gw.
