(* ===== verification/Net.v ===== *)
(** * Network addresses of the standard library

    [std::net::IpAddr] and [SocketAddr] with their [Display] and [FromStr]
    (the recursive descent parser of [core::net::parser]).  An address is its
    big-endian number: 32 bits for IPv4, 128 bits for IPv6. *)
From S2P Require Import Prelude Text.
From Stdlib Require Import Ascii.

Local Open Scope string_scope.
Local Open Scope Z_scope.

Inductive IpAddr : Type :=
| IpV4 (addr : Z)
| IpV6 (addr : Z).

Inductive SocketAddr : Type :=
| SockV4 (ip port : Z)
| SockV6 (ip port flowinfo scope_id : Z).

#[global] Instance IpAddr_eq_dec : EqDecision IpAddr.
Proof. solve_decision. Defined.
#[global] Instance SocketAddr_eq_dec : EqDecision SocketAddr.
Proof. solve_decision. Defined.

(** [Ipv4Addr::new(a, b, c, d)] *)
Definition ipv4 (a b c d : Z) : Z := ((a * 256 + b) * 256 + c) * 256 + d.

Definition sock_new (ip : IpAddr) (port : Z) : SocketAddr :=
  match ip with IpV4 a => SockV4 a port | IpV6 a => SockV6 a port 0 0 end.
Definition sock_ip (s : SocketAddr) : IpAddr :=
  match s with SockV4 a _ => IpV4 a | SockV6 a _ _ _ => IpV6 a end.
Definition sock_port (s : SocketAddr) : Z :=
  match s with SockV4 _ p | SockV6 _ p _ _ => p end.

(** ** Display *)
Definition octet (a : Z) (i : nat) : Z := a / 256 ^ Z.of_nat (3 - i) mod 256.
Definition segment (a : Z) (i : nat) : Z := a / 65536 ^ Z.of_nat (7 - i) mod 65536.

Definition ipv4_to_string (a : Z) : string :=
  dec (octet a 0) ++ "." ++ dec (octet a 1) ++ "." ++ dec (octet a 2) ++ "." ++ dec (octet a 3).

Definition hex_char (d : Z) : ascii :=
  if decide (d < 10) then digit_char d else ascii_of_nat (87 + Z.to_nat d).
Fixpoint hex_go (fuel : nat) (n : Z) : string :=
  match fuel with
  | O => ""
  | S fuel => if decide (n < 16) then char_str (hex_char n)
              else hex_go fuel (n / 16) ++ char_str (hex_char (n mod 16))
  end.
(** [{:x}] of a 16-bit segment: at most four digits. *)
Definition hex (n : Z) : string := hex_go 4 n.

(** The longest run of zero segments, the first of the longest ones. *)
Fixpoint zero_span (i : nat) (cur best : nat * nat) (segs : list Z) : nat * nat :=
  match segs with
  | [] => best
  | s :: segs =>
      if decide (s = 0) then
        let cur := if decide (cur.2 = O) then (i, 1%nat) else (cur.1, S cur.2) in
        zero_span (S i) cur (if decide (best.2 < cur.2)%nat then cur else best) segs
      else zero_span (S i) (O, O) best segs
  end.

Definition ipv6_to_string (a : Z) : string :=
  let segs := segment a <$> seq 0 8 in
  if decide (a / 2 ^ 32 = 65535) then "::ffff:" ++ ipv4_to_string (a mod 2 ^ 32)
  else
    let '(start, len) := zero_span 0 (O, O) (O, O) segs in
    if decide (1 < len)%nat then
      join ":" (hex <$> take start segs) ++ "::" ++ join ":" (hex <$> drop (start + len) segs)
    else join ":" (hex <$> segs).

Definition ip_to_string (ip : IpAddr) : string :=
  match ip with IpV4 a => ipv4_to_string a | IpV6 a => ipv6_to_string a end.

Definition sock_to_string (s : SocketAddr) : string :=
  match s with
  | SockV4 a p => ipv4_to_string a ++ ":" ++ dec p
  | SockV6 a p _ scope =>
      if decide (scope = 0) then "[" ++ ipv6_to_string a ++ "]:" ++ dec p
      else "[" ++ ipv6_to_string a ++ "%" ++ dec scope ++ "]:" ++ dec p
  end.

(** ** Parsing *)
Definition parser (A : Type) : Type := string → option (A * string).

Definition read_char (c : ascii) : parser unit := λ s,
  match s with
  | String a s => if decide (a = c) then Some (tt, s) else None
  | "" => None
  end.

Definition hex_digit (radix : Z) (a : ascii) : option Z :=
  let n := Z.of_nat (nat_of_ascii a) in
  let v := if decide (48 ≤ n ≤ 57) then n - 48
           else if decide (97 ≤ n ≤ 122) then n - 87
           else if decide (65 ≤ n ≤ 90) then n - 55 else radix in
  if decide (v < radix) then Some v else None.

Fixpoint read_digits (w radix acc : Z) (count : nat) (s : string) : option (Z * nat * string) :=
  match s with
  | "" => Some (acc, count, "")
  | String a s' =>
      match hex_digit radix a with
      | None => Some (acc, count, s)
      | Some d =>
          if decide (in_width w (acc * radix + d))
          then read_digits w radix (acc * radix + d) (S count) s' else None
      end
  end.

(** A number of at most [max] digits that fits [w] bits. *)
Definition read_number (w radix : Z) (max : option nat) (zero_prefix : bool) : parser Z := λ s,
  '(v, count, rest) ← read_digits w radix 0 0 s;
  if decide (count = O) then None
  else if from_option (λ m, bool_decide (m < count)%nat) false max then None
  else if negb zero_prefix && starts_with "0" s && bool_decide (1 < count)%nat then None
  else Some (v, rest).

(** [read_separator]: the separator precedes every element but the first. *)
Definition read_sep {A} (c : ascii) (first : bool) (p : parser A) : parser A := λ s,
  if first then p s else '(_, s) ← read_char c s; p s.

Definition read_ipv4 : parser Z := λ s,
  let part first := read_sep "." first (read_number 8 10 (Some 3%nat) false) in
  '(a, s) ← part true s; '(b, s) ← part false s;
  '(c, s) ← part false s; '(d, s) ← part false s;
  Some (ipv4 a b c d, s).

(** Up to [n] groups; a trailing embedded IPv4 address counts for two. *)
Fixpoint read_groups (n : nat) (first : bool) (s : string) : list Z * bool * string :=
  match n with
  | O => ([], false, s)
  | S n =>
      match (if decide (n = O) then None else read_sep ":" first read_ipv4 s) with
      | Some (a, s) => ([a / 65536; a mod 65536], true, s)
      | None =>
          match read_sep ":" first (read_number 16 16 (Some 4%nat) true) s with
          | Some (g, s) => let '(gs, v4, s) := read_groups n false s in (g :: gs, v4, s)
          | None => ([], false, s)
          end
      end
  end.

Definition of_groups (gs : list Z) : Z := foldl (λ acc g, acc * 65536 + g) 0 gs.

Definition read_ipv6 : parser Z := λ s,
  let '(head, v4, s) := read_groups 8 true s in
  if decide (length head = 8%nat) then Some (of_groups head, s)
  else if v4 then None
  else
    '(_, s) ← read_char ":" s; '(_, s) ← read_char ":" s;
    let '(tail, _, s) := read_groups (7 - length head) true s in
    Some (of_groups (head ++ replicate (8 - length head - length tail) 0 ++ tail)%list, s).

Definition read_port : parser Z := λ s,
  '(_, s) ← read_char ":" s; read_number 16 10 None true s.

Definition read_socket_v4 : parser SocketAddr := λ s,
  '(a, s) ← read_ipv4 s; '(p, s) ← read_port s; Some (SockV4 a p, s).

Definition read_scope : parser Z := λ s,
  '(_, s) ← read_char "%" s; read_number 32 10 None true s.

Definition read_socket_v6 : parser SocketAddr := λ s,
  '(_, s) ← read_char "[" s; '(a, s) ← read_ipv6 s;
  let '(scope, s) := default (0, s) (read_scope s) in
  '(_, s) ← read_char "]" s; '(p, s) ← read_port s;
  Some (SockV6 a p 0 scope, s).

Definition err_socket : error := EMsg "invalid socket address syntax".

(** [SocketAddr::from_str] consumes the whole text. *)
Definition parse_socket (s : string) : outcome SocketAddr :=
  match (match read_socket_v4 s with Some r => Some r | None => read_socket_v6 s end) with
  | Some (sock, "") => Ok sock
  | _ => Err err_socket
  end.

Example parse_socket_v4 : parse_socket "127.0.0.1:8000" = Ok (SockV4 (ipv4 127 0 0 1) 8000).
Proof. by vm_compute. Qed.
Example parse_socket_v6 : parse_socket "[fe80::1%3]:443" =
  Ok (SockV6 (of_groups [65152; 0; 0; 0; 0; 0; 0; 1]) 443 0 3).
Proof. by vm_compute. Qed.
Example show_socket_v6 : sock_to_string (SockV6 (of_groups [65152; 0; 0; 0; 0; 0; 0; 1]) 443 0 3) =
  "[fe80::1%3]:443".
Proof. by vm_compute. Qed.
Example parse_socket_mapped : parse_socket "[::ffff:10.0.0.1]:80" =
  Ok (SockV6 (65535 * 2 ^ 32 + ipv4 10 0 0 1) 80 0 0).
Proof. by vm_compute. Qed.
Example parse_socket_zero : parse_socket "127.0.0.01:8000" = Err err_socket.
Proof. by vm_compute. Qed.

(** ** Round trip of IPv4 socket addresses *)
Lemma hex_digit_10 a : hex_digit 10 a = char_digit a.
Proof.
  unfold hex_digit, char_digit. set (n := Z.of_nat (nat_of_ascii a)).
  destruct (decide (48 ≤ n ≤ 57)); [by rewrite decide_True by lia|].
  repeat case_decide; done || lia.
Qed.

Lemma read_digits_app w acc c s1 s2 r :
  read_digits w 10 acc c s1 = Some (r, "") →
  read_digits w 10 acc c (s1 ++ s2) = read_digits w 10 r.1 r.2 s2.
Proof.
  revert acc c. induction s1 as [|a s1 IH]; intros acc c; cbn.
  - by intros [= <-].
  - destruct (hex_digit 10 a); [|done]. case_decide; [|done]. apply IH.
Qed.

Lemma read_digits_dec_go w fuel n :
  n < 2 ^ Z.of_nat fuel → in_width w n →
  ∃ c, read_digits w 10 0 0 (dec_go fuel n) = Some (n, c, "") ∧
       (n ≠ 0 → c ≠ O ∧ 10 ^ Z.of_nat (c - 1) ≤ n) ∧ (fuel ≠ O → n = 0 → c = 1%nat).
Proof.
  revert n. induction fuel as [|fuel IH]; intros n Hf [Hn Hw].
  { cbn in Hf. replace n with 0 by lia. exists O. done. }
  cbn [dec_go]. case_decide as Hten.
  - exists 1%nat. cbn. rewrite hex_digit_10, char_digit_digit_char by lia.
    rewrite decide_True by done. split; [done|]. split; [|done]. cbn. lia.
  - rewrite Nat2Z.inj_succ, Z.pow_succ_r in Hf by lia.
    destruct (IH (n / 10)) as (c & Hc & Hpow & _); [zlia|unfold in_width; zlia|].
    exists (S c). rewrite (read_digits_app _ _ _ _ _ _ Hc).
    unfold char_str. cbn [read_digits fst snd].
    rewrite hex_digit_10, char_digit_digit_char by zlia.
    rewrite decide_True by (unfold in_width; zlia).
    split; [do 3 f_equal; zlia|]. split; [|zlia].
    intros _. split; [done|]. destruct Hpow as [Hc0 Hpow]; [zlia|].
    replace (Z.of_nat (S c - 1)) with (Z.succ (Z.of_nat (c - 1))) by lia.
    rewrite Z.pow_succ_r by lia. zlia.
Qed.

(** A continuation that the number parser stops at. *)
Definition stops (s : string) : Prop :=
  match s with "" => True | String a _ => char_digit a = None end.

Lemma read_digits_stops w acc c s : stops s → read_digits w 10 acc c s = Some (acc, c, s).
Proof. destruct s as [|a s]; cbn; [done|]. rewrite hex_digit_10. by intros ->. Qed.

Lemma dec_go_no_zero_prefix fuel n :
  1 ≤ n → n < 2 ^ Z.of_nat fuel → starts_with "0" (dec_go fuel n) = false.
Proof.
  assert (Hdig : ∀ d, 1 ≤ d < 10 → bool_decide ("0"%char = digit_char d) = false).
  { intros d Hd. apply bool_decide_eq_false. intros Hz.
    assert (Hd' : char_digit "0" = Some d) by (rewrite Hz; apply char_digit_digit_char; lia).
    cbv in Hd'. injection Hd'. lia. }
  revert n. induction fuel as [|fuel IH]; intros n Hn Hf; [done|].
  rewrite Nat2Z.inj_succ, Z.pow_succ_r in Hf by lia.
  cbn [dec_go]. case_decide.
  - cbn. by rewrite Hdig by lia.
  - specialize (IH (n / 10) ltac:(zlia) ltac:(zlia)).
    destruct (dec_go_head fuel (n / 10)) as (a & s & Hg & _); [zlia| |].
    { intros ->. cbn in Hf. lia. }
    rewrite Hg in IH |- *. done.
Qed.

Lemma read_number_dec w max zero_prefix n s :
  in_width w n → stops s → from_option (λ m, n < 10 ^ Z.of_nat m ∧ m ≠ O) True max →
  read_number w 10 max zero_prefix (dec n ++ s) = Some (n, s).
Proof.
  intros Hn Hs Hmax. pose proof (dec_fuel n (proj1 Hn)) as Hf.
  destruct (read_digits_dec_go w _ n Hf Hn) as (c & Hc & Hpos & Hzero).
  unfold read_number, dec. rewrite (read_digits_app _ _ _ _ _ _ Hc).
  cbn [fst snd]. rewrite read_digits_stops by done. cbn [mbind option_bind].
  assert (c ≠ O) by (destruct (decide (n = 0)) as [E|E]; [by rewrite Hzero | by apply Hpos]).
  rewrite decide_False by done.
  replace (from_option _ _ _) with false; cycle 1.
  { destruct max as [m|]; [|done]. cbn in *. symmetry. apply bool_decide_eq_false.
    destruct (decide (n = 0)) as [E|E]; [rewrite Hzero by done; lia|].
    destruct (Hpos E) as [_ Hpow]. intros Hmc.
    pose proof (Z.pow_le_mono_r 10 (Z.of_nat m) (Z.of_nat (c - 1))). lia. }
  destruct (decide (n = 0)) as [E|E].
  - rewrite Hzero by done. rewrite (bool_decide_false (1 < 1)%nat) by lia.
    by rewrite andb_false_r.
  - replace (starts_with "0" _) with false; [by rewrite andb_false_r|].
    symmetry. unfold in_width in Hn.
    pose proof (dec_go_no_zero_prefix _ n ltac:(lia) Hf) as H0.
    destruct (dec_go_head (S (Z.to_nat (Z.log2 n))) n) as (a & t & Hg & _); [lia|done|].
    rewrite Hg in H0 |- *. done.
Qed.

Lemma read_char_cons c s : read_char c (String c s) = Some (tt, s).
Proof. cbn. by rewrite decide_True. Qed.

Lemma octet_bound a i : 0 ≤ octet a i < 256.
Proof. unfold octet. apply Z.mod_pos_bound. lia. Qed.

Lemma ipv4_octets a :
  in_width 32 a → ipv4 (octet a 0) (octet a 1) (octet a 2) (octet a 3) = a.
Proof. unfold in_width, ipv4, octet. cbn. intros Ha. zlia. Qed.

Lemma read_ipv4_show a s :
  in_width 32 a → stops s → read_ipv4 (ipv4_to_string a ++ s) = Some (a, s).
Proof.
  intros Ha Hs. unfold read_ipv4, ipv4_to_string, read_sep.
  assert (Hoct : ∀ i t, stops t →
    read_number 8 10 (Some 3%nat) false (dec (octet a i) ++ t) = Some (octet a i, t)).
  { intros i t Ht. pose proof (octet_bound a i).
    apply read_number_dec; [unfold in_width; lia|done|cbn; lia]. }
  do 3 (rewrite ?string_app_assoc, Hoct by done;
        cbn -[dec read_char read_number ipv4 octet]; rewrite read_char_cons;
        cbn -[dec read_char read_number ipv4 octet]).
  rewrite Hoct by done. cbn -[ipv4]. by rewrite ipv4_octets.
Qed.

(** Every IPv4 socket address survives printing and parsing. *)
Lemma parse_socket_show_v4 a p :
  in_width 32 a → in_width 16 p →
  parse_socket (sock_to_string (SockV4 a p)) = Ok (SockV4 a p).
Proof.
  intros Ha Hp. unfold parse_socket, read_socket_v4, sock_to_string.
  rewrite read_ipv4_show by done. cbn -[dec read_number read_char].
  unfold read_port. rewrite read_char_cons. cbn -[dec read_number].
  by rewrite <-(string_app_nil_r (dec p)), read_number_dec.
Qed.

(** ** The text of an address has no control character or space *)
Definition control (c : ascii) : Prop := (nat_of_ascii c < 33)%nat.

Lemma control_LF : control LF.
Proof. apply Nat.ltb_lt. reflexivity. Qed.
Lemma control_CR : control CR.
Proof. apply Nat.ltb_lt. reflexivity. Qed.
Lemma control_TAB : control TAB.
Proof. apply Nat.ltb_lt. reflexivity. Qed.
#[export] Hint Resolve control_LF control_CR control_TAB : gw.

(** [alien c]: no text of an IP address contains [c]. *)
Definition alien (c : ascii) : Prop :=
  (nat_of_ascii c < 36)%nat ∨ nat_of_ascii c = 39%nat ∨ nat_of_ascii c = 59%nat ∨
  (90 < nat_of_ascii c < 97)%nat ∨ (122 < nat_of_ascii c)%nat.

Lemma control_alien c : control c → alien c.
Proof. unfold control, alien. lia. Qed.
#[export] Hint Resolve control_alien : gw.

Lemma alien_no_digit c : alien c → char_digit c = None.
Proof. intros Hc. unfold char_digit. rewrite decide_False; [done|]. unfold alien in Hc. lia. Qed.

Lemma control_no_digit c : control c → char_digit c = None.
Proof. auto using alien_no_digit with gw. Qed.

Lemma hex_char_ne c d : alien c → d < 16 → hex_char d ≠ c.
Proof.
  intros Hc Hd. unfold hex_char. case_decide.
  - apply digit_char_ne; [done|by apply alien_no_digit].
  - intros <-. unfold alien in Hc. rewrite nat_ascii_embedding in Hc by lia. lia.
Qed.

Lemma hex_go_alien fuel c n : alien c → has_char c (hex_go fuel n) = false.
Proof.
  intros Hc. revert n. induction fuel as [|fuel IH]; intros n; [done|]. cbn [hex_go].
  case_decide; rewrite ?has_char_app, ?IH; cbn;
    rewrite bool_decide_false; auto; apply hex_char_ne; auto; zlia.
Qed.
Lemma hex_alien c n : alien c → has_char c (hex n) = false.
Proof. apply hex_go_alien. Qed.

Fixpoint printable (s : string) : bool :=
  match s with
  | "" => true
  | String a s => (33 <=? nat_of_ascii a)%nat && printable s
  end.
(** Free of such characters. *)
Fixpoint bland (s : string) : bool :=
  match s with
  | "" => true
  | String a s =>
      (36 <=? nat_of_ascii a)%nat && negb (nat_of_ascii a =? 39)%nat && negb (nat_of_ascii a =? 59)%nat &&
      ((nat_of_ascii a <=? 90)%nat || (97 <=? nat_of_ascii a)%nat && (nat_of_ascii a <=? 122)%nat) && bland s
  end.

Lemma literal_control c s : control c → printable s = true → has_char c s = false.
Proof.
  intros Hc. induction s as [|a s IH]; [done|].
  intros [Ha%Nat.leb_le Hs]%andb_true_iff.
  apply has_char_false_cons. split; [|auto]. intros ->. unfold control in Hc. lia.
Qed.

Lemma literal_alien c s : alien c → bland s = true → has_char c s = false.
Proof.
  intros Hc. induction s as [|a s IH]; [done|]. cbn [bland].
  rewrite !andb_true_iff, orb_true_iff, !andb_true_iff, !negb_true_iff, !Nat.eqb_neq, !Nat.leb_le.
  intros [[[[Ha Hq] Hs'] Hb] Hs].
  apply has_char_false_cons. split; [|auto]. intros ->. unfold alien in Hc. lia.
Qed.

Lemma ipv4_text_alien c a : alien c → has_char c (ipv4_to_string a) = false.
Proof.
  intros Hc. unfold ipv4_to_string.
  rewrite !has_char_app, !(dec_char c) by by apply alien_no_digit.
  assert (has_char c "." = false) as -> by by apply literal_alien. done.
Qed.

Lemma hexes_alien c l : alien c → has_char c (join ":" (hex <$> l)) = false.
Proof.
  intros Hc. apply has_char_join; [by apply literal_alien|].
  apply Forall_fmap, Forall_true. intros n. by apply hex_alien.
Qed.

Lemma ipv6_text_alien c a : alien c → has_char c (ipv6_to_string a) = false.
Proof.
  intros Hc. unfold ipv6_to_string. case_decide.
  - rewrite has_char_app, ipv4_text_alien by done. rewrite orb_false_r. by apply literal_alien.
  - destruct (zero_span _ _ _ _) as [start len]. case_decide; [|by apply hexes_alien].
    rewrite !has_char_app, !hexes_alien by done. rewrite orb_false_r. by apply literal_alien.
Qed.

Lemma ip_text_alien c ip : alien c → has_char c (ip_to_string ip) = false.
Proof. destruct ip; [apply ipv4_text_alien|apply ipv6_text_alien]. Qed.

Lemma sock_text_control c s : control c → has_char c (sock_to_string s) = false.
Proof.
  intros Hc. assert (Hd := control_no_digit c Hc).
  assert (Hl : ∀ t, printable t = true → has_char c t = false)
    by (intros; by apply literal_control).
  destruct s as [a p|a p f sc]; cbn [sock_to_string]; [|case_decide];
    rewrite !has_char_app, ?ipv4_text_alien, ?ipv6_text_alien, ?dec_char by auto with gw;
    by rewrite ?Hl.
Qed.

#[export] Hint Resolve parse_socket_show_v4 octet_bound : gw.
