(* ===== verification/Crates.v ===== *)
(** * Interfaces of the third-party crates

    What the gateway calls and cannot be read here is an argument of the
    model: one class of operations per crate, and beside it a class of laws
    that states the documented behaviour the gateway relies on. *)
From S2P Require Import Prelude Text Net BTree.
From Stdlib Require Import Ascii.

Local Open Scope string_scope.
Local Open Scope Z_scope.

(** ** wireguard-keys: 32-byte keys printed in base64 *)
Class WireguardKeys := {
  Pubkey : Type;
  Privkey : Type;
  Secret : Type;
  Pubkey_eq_dec :: EqDecision Pubkey;
  Pubkey_countable :: Countable Pubkey;
  Pubkey_ord :: KeyOrd Pubkey;
  Privkey_eq_dec :: EqDecision Privkey;
  Secret_eq_dec :: EqDecision Secret;
  pubkey_to_string : Pubkey → string;
  privkey_to_string : Privkey → string;
  secret_to_string : Secret → string;
  pubkey_from_str : string → outcome Pubkey;
  privkey_from_str : string → outcome Privkey;
  secret_from_str : string → outcome Secret
}.

(** A key prints as one word, the same word [from_str] reads back, and the
    word is not one of the placeholders of [wg show dump]. *)
Class KeyText {K} (to_string : K → string) (from_str : string → outcome K) : Prop := {
  key_roundtrip k : from_str (to_string k) = Ok k;
  key_chars c k : c = LF ∨ c = CR ∨ c = TAB → has_char c (to_string k) = false;
  key_not_none k : to_string k ≠ "(none)"
}.
Class WireguardKeysOk (WK : WireguardKeys) : Prop := {
  pubkey_text :: KeyText pubkey_to_string pubkey_from_str;
  privkey_text :: KeyText privkey_to_string privkey_from_str;
  secret_text :: KeyText secret_to_string secret_from_str
}.

(** ** url *)
Class UrlCrate := {
  Url : Type;
  Url_eq_dec :: EqDecision Url;
  Url_countable :: Countable Url;
  Url_ord :: KeyOrd Url;
  url_scheme : Url → string;
  url_host_str : Url → option string;
  url_to_string : Url → string;
  url_parse : string → outcome Url
}.
(** A URL of a special scheme has a host. *)
Class UrlCrateOk (UC : UrlCrate) : Prop :=
  url_special_host u : url_scheme u = "http" ∨ url_scheme u = "https" → is_Some (url_host_str u).

(** ** ipnet: addresses with a prefix length *)
Class IpnetCrate := {
  Ipv4Net : Type;
  IpNet : Type;
  IpNet_eq_dec :: EqDecision IpNet;
  ipv4net_new : Z → Z → option Ipv4Net;
  ipv4net_addr : Ipv4Net → Z;
  ipv4net_prefix_len : Ipv4Net → Z;
  ipv4net_network : Ipv4Net → Z;
  ipv4_saturating_add : Z → Z → Z;
  ipnet_of_v4 : Ipv4Net → IpNet;
  ipnet_addr : IpNet → IpAddr;
  ipnet_trunc : IpNet → IpNet;
  ipnet_to_string : IpNet → string;
  ipnet_from_str : string → outcome IpNet
}.
Class IpnetCrateOk (IC : IpnetCrate) : Prop := {
  ipv4net_new_spec a p :
    0 ≤ p ≤ 32 → ∃ n, ipv4net_new a p = Some n ∧ ipv4net_addr n = a ∧ ipv4net_prefix_len n = p;
  ipv4net_network_spec n :
    0 ≤ ipv4net_prefix_len n ≤ 32 →
    ipv4net_network n =
      ipv4net_addr n - ipv4net_addr n mod 2 ^ (32 - ipv4net_prefix_len n);
  ipv4_saturating_add_spec a n :
    in_width 32 a → in_width 32 n → ipv4_saturating_add a n = Z.min (a + n) (2 ^ 32 - 1);
  ipnet_addr_of_v4 n : ipnet_addr (ipnet_of_v4 n) = IpV4 (ipv4net_addr n)
}.

(** The text of a network is one word that reads back as the network. *)
Definition ipnet_text_ok `{IC : IpnetCrate} (n : IpNet) : Prop :=
  ipnet_from_str (ipnet_to_string n) = Ok n ∧
  Forall (λ c, has_char c (ipnet_to_string n) = false) [LF; CR; TAB; ","%char] ∧
  ipnet_to_string n ≠ "(none)".

(** ** base32 *)
Class Base32Crate := base32_encode : string → string.
(** An encoding can be decoded. *)
Class Base32CrateOk (BC : Base32Crate) : Prop := base32_encode_inj :: Inj (=) (=) base32_encode.

(** It is written in the alphabet of RFC 4648. *)
Definition base32_char (a : ascii) : Prop :=
  (65 ≤ nat_of_ascii a ≤ 90)%nat ∨ (50 ≤ nat_of_ascii a ≤ 55)%nat.
Class Base32Text (BC : Base32Crate) : Prop :=
  base32_alphabet s c : has_char c (base32_encode s) = true → base32_char c.

(** ** regex: the first match of a pattern replaced *)
Class RegexCrate := {
  regex_replace (pattern text replacement : string) : string;
  (** a nonempty sequence of characters of the class [\d] *)
  digit_run : string → Prop
}.

Definition counter_pattern : string := "\[\d+:\d+\]$".
Definition counter_zero : string := "[0:0]".
Definition counter_text (d1 d2 : string) : string := "[" ++ d1 ++ ":" ++ d2 ++ "]".

(** What the pattern [counter_pattern] finds: a suffix [[digits:digits]]. *)
Class RegexCrateOk (RC : RegexCrate) : Prop := {
  regex_replace_counter line :
    (∃ pre d1 d2, digit_run d1 ∧ digit_run d2 ∧ line = pre ++ counter_text d1 d2 ∧
       regex_replace counter_pattern line counter_zero = pre ++ counter_zero) ∨
    ((∀ pre d1 d2, digit_run d1 → digit_run d2 → line ≠ pre ++ counter_text d1 d2) ∧
       regex_replace counter_pattern line counter_zero = line);
  digit_run_zero : digit_run "0";
  digit_run_chars d : digit_run d → has_char "[" d = false
}.
