(* ===== verification/Broadcast.v ===== *)
(** * Broadcast channels

    The interface of tokio's broadcast channel, which carries traffic and
    events from the watchdog to the connection: one class for the operations,
    one for their documented behaviour in terms of a [Queue] per receiver, and
    an executable instance.  The gateway keeps a sender for as long as it
    runs, so that a channel is never closed. *)
From S2P Require Import Prelude Text.

Local Open Scope string_scope.
Local Open Scope Z_scope.

(** ** What a receiver has before it *)
Section queue.
Context {A : Type}.
Implicit Types (a : A) (sent got : list A).

(** The values not yet received, and the number of those that were dropped to
    make room since the last one that was. *)
Record Queue := { q_missed : nat; q_unread : list A }.
Definition queue_new : Queue := {| q_missed := 0; q_unread := [] |}.

(** A value arrives at a receiver that holds back at most [cap] values. *)
Definition q_push (cap : Z) a (q : Queue) : Queue :=
  if decide (Z.of_nat (length (q_unread q)) < cap)
  then {| q_missed := q_missed q; q_unread := q_unread q ++ [a] |}
  else {| q_missed := Datatypes.S (q_missed q); q_unread := tail (q_unread q ++ [a]) |}.

Definition err_lagged (n : nat) : error := EMsg ("channel lagged by " ++ dec (Z.of_nat n)).
(** A value, or the news that some were dropped; [None] while there is neither. *)
Definition q_pop (q : Queue) : option (A + error) * Queue :=
  match q_missed q, q_unread q with
  | O, [] => (None, q)
  | O, a :: l => (Some (inl a), {| q_missed := 0; q_unread := l |})
  | n, l => (Some (inr (err_lagged n)), {| q_missed := 0; q_unread := l |})
  end.

(** [q] is what is left of the values [sent] to a receiver when it has taken
    [got], without having been told of a loss. *)
Definition tracks (cap : Z) (q : Queue) sent got : Prop :=
  ∃ lost, sent = (got ++ lost ++ q_unread q)%list ∧ length lost = q_missed q ∧
    (lost ≠ [] → cap < Z.of_nat (length sent)).

Lemma tracks_new cap : tracks cap queue_new [] [].
Proof. by exists []. Qed.

Lemma tracks_push cap q sent got a :
  tracks cap q sent got → tracks cap (q_push cap a q) (sent ++ [a]) got.
Proof.
  intros (lost & -> & Hl & Hc). unfold q_push. case_decide as Hroom.
  - exists lost. cbn. split; [by rewrite <-!app_assoc|]. split; [done|].
    intros Hne. specialize (Hc Hne). rewrite !length_app in *. lia.
  - assert (Htail : ∃ x, (q_unread q ++ [a])%list = x :: tail (q_unread q ++ [a])).
    { destruct (q_unread q) as [|x l]; by eexists. }
    destruct Htail as (x & Hx). exists (lost ++ [x])%list. cbn [q_unread q_missed].
    split; [by rewrite <-!app_assoc, Hx|]. split; [rewrite length_app; cbn; lia|].
    intros _. rewrite !length_app. cbn. lia.
Qed.

Lemma tracks_pop cap q sent got a q' :
  tracks cap q sent got → q_pop q = (Some (inl a), q') → tracks cap q' sent (got ++ [a]).
Proof.
  intros (lost & -> & Hl & Hc). unfold q_pop.
  destruct (q_missed q) eqn:Hm; [|done]. destruct (q_unread q) as [|x l] eqn:Hu; [done|].
  intros [= <- <-]. apply nil_length_inv in Hl as ->. exists []. cbn.
  rewrite <-app_assoc. split; [done|]. by split.
Qed.

Lemma q_pop_none q q' : q_pop q = (None, q') → q' = q ∧ q = queue_new.
Proof.
  unfold q_pop. destruct q as [[|n] [|a l]]; cbn; try done. by intros [= <-].
Qed.

(** Whatever was lost: what was taken is an initial part of what was sent. *)
Lemma tracks_prefix cap q sent got : tracks cap q sent got → got `prefix_of` sent.
Proof. intros (lost & -> & _). by eexists. Qed.

(** Nothing is lost among the first [cap] values. *)
Lemma tracks_lossless cap q sent got :
  tracks cap q sent got → Z.of_nat (length sent) ≤ cap →
  sent = (got ++ q_unread q)%list ∧ q_missed q = O.
Proof.
  intros (lost & Hs & Hl & Hc) Hle. destruct lost as [|x lost]; [by split|].
  specialize (Hc ltac:(done)). lia.
Qed.
End queue.
Arguments Queue : clear implicits.

(** ** The channel *)
Class BroadcastCrate := {
  Chan : Type → Type;
  Receiver : Type;
  channel {A} (capacity : Z) : Chan A;
  chan_subscribe {A} (c : Chan A) : Receiver * Chan A;
  chan_drop {A} (r : Receiver) (c : Chan A) : Chan A;
  chan_send {A} (a : A) (c : Chan A) : (unit + error) * Chan A;
  chan_recv {A} (r : Receiver) (c : Chan A) : option (A + error) * Chan A
}.

(** Every receiver has a queue of its own; sending fails when there is none. *)
Class BroadcastOk (B : BroadcastCrate) := {
  capacity {A} : Chan A → Z;
  queue_of {A} : Receiver → Chan A → option (Queue A);
  channel_capacity {A} n : 0 < n → n ≤ capacity (channel (A := A) n);
  channel_unheard {A} n r : queue_of r (channel (A := A) n) = None;
  subscribe_spec {A} (c : Chan A) r c' : chan_subscribe c = (r, c') →
    capacity c' = capacity c ∧ queue_of r c = None ∧ queue_of r c' = Some queue_new ∧
    ∀ r', r' ≠ r → queue_of r' c' = queue_of r' c;
  drop_spec {A} r (c : Chan A) :
    capacity (chan_drop r c) = capacity c ∧ queue_of r (chan_drop r c) = None ∧
    ∀ r', r' ≠ r → queue_of r' (chan_drop r c) = queue_of r' c;
  send_spec {A} a (c : Chan A) :
    capacity (chan_send a c).2 = capacity c ∧
    ∀ r, queue_of r (chan_send a c).2 = q_push (capacity c) a <$> queue_of r c;
  send_heard {A} a (c : Chan A) r : is_Some (queue_of r c) → (chan_send a c).1 = inl tt;
  send_unheard {A} a (c : Chan A) : (∀ r, queue_of r c = None) → ∃ e, (chan_send a c).1 = inr e;
  recv_spec {A} r (c : Chan A) q : queue_of r c = Some q →
    (chan_recv r c).1 = (q_pop q).1 ∧ capacity (chan_recv r c).2 = capacity c ∧
    queue_of r (chan_recv r c).2 = Some (q_pop q).2
}.

(** ** An executable channel *)
Section sample.
Record SampleChan (A : Type) := {
  sc_capacity : Z;
  sc_queues : gmap positive (Queue A)
}.
#[local] Arguments sc_capacity {A}.
#[local] Arguments sc_queues {A}.
Definition sc_with {A} (qs : gmap positive (Queue A)) (c : SampleChan A) : SampleChan A := {|
  sc_capacity := sc_capacity c; sc_queues := qs |}.

Definition sample_broadcast : BroadcastCrate := {|
  Chan := SampleChan;
  Receiver := positive;
  channel A n := {| sc_capacity := n; sc_queues := ∅ |};
  chan_subscribe A c := (fresh (dom (sc_queues c)), sc_with (<[fresh (dom (sc_queues c)) := queue_new]> (sc_queues c)) c);
  chan_drop A r c := sc_with (delete r (sc_queues c)) c;
  chan_send A a c :=
    (if decide (sc_queues c = ∅) then inr (EMsg "channel closed") else inl tt,
     sc_with (q_push (sc_capacity c) a <$> sc_queues c) c);
  chan_recv A r c :=
    match sc_queues c !! r with
    | Some q => let '(x, q) := q_pop q in (x, sc_with (<[r := q]> (sc_queues c)) c)
    | None => (None, c)
    end
|}.

#[global] Instance sample_broadcast_ok : BroadcastOk sample_broadcast.
Proof.
  refine {| capacity A (c : Chan (BroadcastCrate := sample_broadcast) A) := sc_capacity (c : SampleChan A);
            queue_of A (r : Receiver (BroadcastCrate := sample_broadcast)) (c : Chan (BroadcastCrate := sample_broadcast) A) :=
              sc_queues (c : SampleChan A) !! (r : positive) |}; cbn.
  - done.
  - intros A n r. apply lookup_empty.
  - intros A c r c' [= <- <-]. split; [done|]. cbn. set (r := fresh _).
    split; [apply not_elem_of_dom, is_fresh|]. split; [apply lookup_insert_eq|].
    intros r' Hr. by apply lookup_insert_ne.
  - intros A r c. split; [done|]. split; [apply lookup_delete_eq|]. intros r' Hr. by apply lookup_delete_ne.
  - intros A a c. split; [done|]. intros r. by rewrite lookup_fmap.
  - intros A a c r [q Hq]. rewrite decide_False; [done|]. intros He. by rewrite He, lookup_empty in Hq.
  - intros A a c Hc. rewrite decide_True; [by eexists|]. by apply map_empty.
  - intros A r c q Hq. rewrite Hq. destruct (q_pop q) as [x q'] eqn:Hp. cbn. rewrite lookup_insert_eq. done.
Defined.
End sample.
