(* ===== verification/Samples.v ===== *)
(** * Concrete instances of the crate interfaces

    One executable instance per class of [Crates], with the proof that it
    satisfies the laws: the witnesses of the properties evaluate on them, and
    they show that the laws can hold together.  Nothing else depends on them. *)
From stdpp Require Import countable finite.
From Stdlib Require Import Ascii.
From S2P Require Import Prelude Text Net BTree Crates.

Local Open Scope string_scope.
Local Open Scope Z_scope.

(** ** Three keys, printed as one letter *)
Inductive sample_key := KA | KB | KC.
#[global] Instance sample_key_eq_dec : EqDecision sample_key.
Proof. solve_decision. Defined.
Definition key_code (k : sample_key) : Z := match k with KA => 0 | KB => 1 | KC => 2 end.
Definition key_of_code (z : Z) : option sample_key :=
  if decide (z = 0) then Some KA else if decide (z = 1) then Some KB
  else if decide (z = 2) then Some KC else None.
#[global] Instance sample_key_countable : Countable sample_key.
Proof. refine (inj_countable key_code key_of_code _). by intros []. Defined.
#[global] Instance sample_key_ord : KeyOrd sample_key.
Proof.
  refine {| key_le := λ a b, key_code a ≤ key_code b |}.
  - intros a b. apply _.
  - split; [split; [intros a; lia | intros a b c; lia] |].
    intros [] []; cbn; intros; done || lia.
  - intros a b. lia.
Defined.

Definition key_text (k : sample_key) : string := match k with KA => "a" | KB => "b" | KC => "c" end.
Definition key_parse (s : string) : outcome sample_key :=
  if decide (s = "a") then Ok KA else if decide (s = "b") then Ok KB
  else if decide (s = "c") then Ok KC else Err (EMsg "invalid key").

Definition sample_keys : WireguardKeys := {|
  Pubkey := sample_key; Privkey := sample_key; Secret := sample_key;
  pubkey_to_string := key_text; privkey_to_string := key_text; secret_to_string := key_text;
  pubkey_from_str := key_parse; privkey_from_str := key_parse; secret_from_str := key_parse
|}.
Lemma sample_key_text : KeyText key_text key_parse.
Proof.
  split; [by intros []| |by intros []].
  intros c k [-> | [-> | ->]]; by destruct k.
Qed.
Lemma sample_keys_ok : WireguardKeysOk sample_keys.
Proof. split; exact sample_key_text. Qed.

(** ** URLs as their text *)
Fixpoint before_char (c : ascii) (s : string) : string :=
  match s with
  | "" => ""
  | String a s => if decide (a = c) then "" else String a (before_char c s)
  end.
Fixpoint after_char (c : ascii) (s : string) : string :=
  match s with
  | "" => ""
  | String a s => if decide (a = c) then s else after_char c s
  end.

Definition sample_url : UrlCrate := {|
  Url := string;
  url_scheme := before_char ":";
  url_host_str := λ u, Some (before_char "/" (after_char "/" (after_char "/" u)));
  url_to_string := λ u, u;
  url_parse := λ s, if has_char ":" s then Ok s else Err (EMsg "relative URL without a base")
|}.
Lemma sample_url_ok : UrlCrateOk sample_url.
Proof. intros u _. by eexists. Qed.

(** ** Networks as an address and a prefix length *)
Inductive sample_net := SNet (addr : IpAddr) (prefix : Z).
#[global] Instance sample_net_eq_dec : EqDecision sample_net.
Proof. solve_decision. Defined.

Definition net_text (n : sample_net) : string :=
  match n with SNet a p => ip_to_string a ++ "/" ++ dec p end.
Definition net_parse (s : string) : outcome sample_net :=
  match read_ipv4 s with
  | Some (a, String "/" s) => p ← parse_uint 8 s; Ok (SNet (IpV4 a) p)
  | _ => Err (EMsg "invalid IP address syntax")
  end.
Definition net_mask (a w p : Z) : Z := a - a mod 2 ^ (w - p).

Definition sample_ipnet : IpnetCrate := {|
  Ipv4Net := Z * Z;
  IpNet := sample_net;
  ipv4net_new := λ a p, if decide (p ≤ 32) then Some (a, p) else None;
  ipv4net_addr := fst;
  ipv4net_prefix_len := snd;
  ipv4net_network := λ n, net_mask n.1 32 n.2;
  ipv4_saturating_add := λ a n, Z.min (a + n) (2 ^ 32 - 1);
  ipnet_of_v4 := λ n, SNet (IpV4 n.1) n.2;
  ipnet_addr := λ n, match n with SNet a _ => a end;
  ipnet_trunc := λ n, match n with
                      | SNet (IpV4 a) p => SNet (IpV4 (net_mask a 32 p)) p
                      | SNet (IpV6 a) p => SNet (IpV6 (net_mask a 128 p)) p
                      end;
  ipnet_to_string := net_text;
  ipnet_from_str := net_parse
|}.
Lemma sample_ipnet_ok : IpnetCrateOk sample_ipnet.
Proof.
  split; cbn; try done.
  intros a p Hp. rewrite decide_True by lia. by eexists.
Qed.

(** ** Base32 of RFC 4648, without padding *)
Definition byte_bits (a : ascii) : list bool :=
  let '(Ascii b0 b1 b2 b3 b4 b5 b6 b7) := a in [b7; b6; b5; b4; b3; b2; b1; b0].
Fixpoint text_bits (s : string) : list bool :=
  match s with "" => [] | String a r => byte_bits a ++ text_bits r end%list.
Definition bits_char (b4 b3 b2 b1 b0 : bool) : ascii :=
  let n := (16 * Nat.b2n b4 + 8 * Nat.b2n b3 + 4 * Nat.b2n b2 + 2 * Nat.b2n b1 + Nat.b2n b0)%nat in
  ascii_of_nat (if (n <? 26)%nat then 65 + n else 24 + n)%nat.
(** Five bits a character, the last filled up with zeros. *)
Fixpoint bits_text (l : list bool) : string :=
  match l with
  | [] => ""
  | b4 :: b3 :: b2 :: b1 :: b0 :: l => String (bits_char b4 b3 b2 b1 b0) (bits_text l)
  | [b4; b3; b2; b1] => char_str (bits_char b4 b3 b2 b1 false)
  | [b4; b3; b2] => char_str (bits_char b4 b3 b2 false false)
  | [b4; b3] => char_str (bits_char b4 b3 false false false)
  | [b4] => char_str (bits_char b4 false false false false)
  end.
Definition sample_base32 : Base32Crate := λ s, bits_text (text_bits s).

Definition char_bits (a : ascii) : list bool :=
  let n := nat_of_ascii a in
  let n := if (65 <=? n)%nat then (n - 65)%nat else (n - 24)%nat in
  (λ i, Nat.testbit n i) <$> [4; 3; 2; 1; 0]%nat.
Fixpoint decode_bits (s : string) : list bool :=
  match s with "" => [] | String a r => char_bits a ++ decode_bits r end%list.

Lemma char_bits_char b4 b3 b2 b1 b0 : char_bits (bits_char b4 b3 b2 b1 b0) = [b4; b3; b2; b1; b0].
Proof. by destruct b4, b3, b2, b1, b0. Qed.

Lemma decode_bits_text fuel l :
  (length l ≤ fuel)%nat → ∃ k, (k < 5)%nat ∧ decode_bits (bits_text l) = (l ++ replicate k false)%list.
Proof.
  revert l. induction fuel as [|fuel IH]; intros l Hl.
  { destruct l; [|cbn in Hl; lia]. by exists 0%nat; split; [lia|]. }
  destruct l as [|b4 [|b3 [|b2 [|b1 [|b0 l]]]]]; cbn [bits_text char_str decode_bits];
    rewrite ?char_bits_char.
  1: exists 0%nat. 2: exists 4%nat. 3: exists 3%nat. 4: exists 2%nat. 5: exists 1%nat.
  1-5: by split; [lia|].
  destruct (IH l) as (k & Hk & ->); [cbn in Hl; lia|]. by exists k.
Qed.

Lemma text_bits_length s : length (text_bits s) = (8 * String.length s)%nat.
Proof. induction s as [|[] s IH]; [done|]. cbn -[Nat.mul]. rewrite IH. cbn. lia. Qed.

Lemma text_bits_inj s t : text_bits s = text_bits t → s = t.
Proof.
  revert t. induction s as [|[] s IH]; intros [|[] t]; [done..|].
  cbn. intros [= -> -> -> -> -> -> -> -> H]. by rewrite (IH t H).
Qed.

Lemma sample_base32_ok : Base32CrateOk sample_base32.
Proof.
  intros s t H. unfold sample_base32, base32_encode in H.
  destruct (decode_bits_text _ (text_bits s) (Nat.le_refl _)) as (k & Hk & Hs).
  destruct (decode_bits_text _ (text_bits t) (Nat.le_refl _)) as (j & Hj & Ht).
  rewrite H, Ht in Hs. apply text_bits_inj. symmetry.
  pose proof (f_equal length Hs) as Hl. rewrite !length_app, !length_replicate, !text_bits_length in Hl.
  apply app_inj_1 in Hs as [Hs _]; [done|]. rewrite !text_bits_length. lia.
Qed.

Lemma bits_char_char b4 b3 b2 b1 b0 : base32_char (bits_char b4 b3 b2 b1 b0).
Proof. destruct b4, b3, b2, b1, b0; vm_compute; lia. Qed.

Lemma bits_text_chars fuel l c :
  (length l ≤ fuel)%nat → has_char c (bits_text l) = true → base32_char c.
Proof.
  revert l. induction fuel as [|fuel IH]; intros l Hl; [by destruct l; [|cbn in Hl; lia]|].
  assert (Hc : ∀ b4 b3 b2 b1 b0 s, has_char c (String (bits_char b4 b3 b2 b1 b0) s) = true →
    has_char c s = true ∨ base32_char c).
  { intros *. cbn [has_char]. case_bool_decide as He; [|by left].
    intros _. right. rewrite <-He. apply bits_char_char. }
  destruct l as [|b4 [|b3 [|b2 [|b1 [|b0 l]]]]]; cbn [bits_text char_str]; [done|..];
    intros H; apply Hc in H as [H|H]; try done.
  apply IH in H; [done|]. cbn in Hl. lia.
Qed.
Lemma sample_base32_text : Base32Text sample_base32.
Proof. intros s c. by apply (bits_text_chars (length (text_bits s))). Qed.

Fixpoint digits (s : string) : bool :=
  match s with
  | "" => true
  | String a s => bool_decide (is_Some (char_digit a)) && digits s
  end.
Definition sample_run (s : string) : Prop := s ≠ "" ∧ digits s = true.

(** The text of a counter, if [s] is one: digits, colon, digits, bracket. *)
Definition is_counter (s : string) : bool :=
  match s with
  | String "[" s =>
      match split_on ":" s with
      | [d1; d2] =>
          match split_on "]" d2 with
          | [d2; ""] => bool_decide (d1 ≠ "") && digits d1 && bool_decide (d2 ≠ "") && digits d2
          | _ => false
          end
      | _ => false
      end
  | _ => false
  end.
Fixpoint replace_counter (r s : string) : string :=
  if is_counter s then r
  else match s with "" => "" | String a s => String a (replace_counter r s) end.
Definition sample_regex : RegexCrate := {|
  regex_replace := λ _ s r, replace_counter r s;
  digit_run := sample_run
|}.

Lemma digits_char c d : digits d = true → char_digit c = None → has_char c d = false.
Proof.
  intros Hd Hc. induction d as [|a d IH]; [done|]. cbn in Hd.
  apply andb_true_iff in Hd as [Ha%bool_decide_eq_true Hd].
  apply has_char_false_cons. split; [|auto]. intros ->. rewrite Hc in Ha. by destruct Ha.
Qed.

Lemma join_split_on (c : ascii) (s : string) : join (char_str c) (split_on c s) = s.
Proof.
  induction s as [|a s IH]; [done|]. cbn [split_on].
  pose proof (split_on_not_nil c s). case_bool_decide as Ha.
  - subst. destruct (split_on c s) as [|p ps]; [done|].
    change (join (char_str c) ("" :: p :: ps)) with (String c (join (char_str c) (p :: ps))).
    by rewrite IH.
  - destruct (split_on c s) as [|p ps]; [done|]. rewrite <-IH. by destruct ps.
Qed.

Lemma is_counter_spec s :
  is_counter s = true ↔ ∃ d1 d2, sample_run d1 ∧ sample_run d2 ∧ s = counter_text d1 d2.
Proof.
  split.
  - destruct s as [|a s]; [done|]. destruct (decide (a = "["%char)) as [->|Ha]; cycle 1.
    { destruct a as [[] [] [] [] [] [] [] []]; done. }
    cbn. pose proof (join_split_on ":" s) as Hs.
    destruct (split_on ":" s) as [|d1 [|e [|]]]; try done.
    pose proof (join_split_on "]" e) as He.
    destruct (split_on "]" e) as [|d2 [|f [|? ?]]]; try (done || by destruct f).
    destruct f; [|done]. rewrite !andb_true_iff, !bool_decide_eq_true.
    intros [[[H1 H2] H3] H4]. exists d1, d2. split; [done|]. split; [done|].
    by rewrite <-Hs, <-He.
  - intros (d1 & d2 & [H1 H1'] & [H2 H2'] & ->). unfold counter_text. cbn.
    rewrite split_on_app by by apply digits_char.
    rewrite split_on_none by (rewrite has_char_app; cbn; rewrite orb_false_r; by apply digits_char).
    change (d2 ++ "]") with (d2 ++ String "]" "").
    rewrite split_on_app by by apply digits_char. cbn.
    by rewrite !bool_decide_true, H1', H2' by done.
Qed.

Lemma replace_counter_eq r s :
  replace_counter r s =
    if is_counter s then r
    else match s with "" => "" | String a s => String a (replace_counter r s) end.
Proof. by destruct s. Qed.

(** A counter cannot start before the last opening bracket. *)
Lemma is_counter_cons_app a pre d1 d2 :
  sample_run d1 → sample_run d2 → is_counter (String a pre ++ counter_text d1 d2) = false.
Proof.
  intros [_ H1] [_ H2]. destruct (is_counter _) eqn:Hc; [|done].
  apply is_counter_spec in Hc as (e1 & e2 & [_ He1] & [_ He2] & He).
  apply (f_equal (λ s, match s with String _ t => has_char "[" t | "" => false end)) in He.
  unfold counter_text in He. cbn in He.
  rewrite has_char_app in He. cbn in He. rewrite orb_true_r in He.
  rewrite !has_char_app in He. cbn in He.
  rewrite has_char_app, !(digits_char "[") in He by done. done.
Qed.

Lemma replace_counter_app r pre d1 d2 :
  sample_run d1 → sample_run d2 → replace_counter r (pre ++ counter_text d1 d2) = pre ++ r.
Proof.
  intros H1 H2. induction pre as [|a pre IH].
  - rewrite replace_counter_eq. cbn [String.append].
    by rewrite (proj2 (is_counter_spec _)) by eauto.
  - rewrite replace_counter_eq, is_counter_cons_app by done.
    cbn [String.append]. by rewrite IH.
Qed.

Lemma replace_counter_cases r s :
  (∃ pre d1 d2, sample_run d1 ∧ sample_run d2 ∧ s = pre ++ counter_text d1 d2) ∨
  ((∀ pre d1 d2, sample_run d1 → sample_run d2 → s ≠ pre ++ counter_text d1 d2) ∧
   replace_counter r s = s).
Proof.
  induction s as [|a s IH]; rewrite replace_counter_eq.
  - right. split; [|done]. by intros [|b pre] d1 d2 _ _.
  - destruct (is_counter (String a s)) eqn:Hc.
    { apply is_counter_spec in Hc as (d1 & d2 & H1 & H2 & ->). left. by exists "", d1, d2. }
    destruct IH as [(pre & d1 & d2 & H1 & H2 & ->) | [Hno ->]].
    { left. by exists (String a pre), d1, d2. }
    right. split; [|done]. intros [|b pre] d1 d2 H1 H2 He.
    + rewrite (proj2 (is_counter_spec _)) in Hc; [done|by eauto].
    + injection He as -> He. exact (Hno _ _ _ H1 H2 He).
Qed.

Lemma sample_regex_ok : RegexCrateOk sample_regex.
Proof.
  split; cbn.
  - intros line. destruct (replace_counter_cases counter_zero line)
      as [(pre & d1 & d2 & H1 & H2 & ->) | H]; [|by right].
    left. exists pre, d1, d2. by rewrite replace_counter_app.
  - done.
  - intros d [_ Hd]. by apply digits_char.
Qed.
