(* ===== verification/Client.v ===== *)
(** * The client crate: configuration, messages and traffic accounting

    Models client/src/lib.rs: the configuration maps and their partial
    update, the events and messages exchanged with the manager, and the
    traffic ledger ([TrafficInfo], [NetworkTraffic], [DeviceTraffic]). *)
From S2P Require Import Prelude BTree Net Crates Samples.

Local Open Scope Z_scope.

(** ** Configuration *)
Section config.
Context `{WK : WireguardKeys} `{UC : UrlCrate} `{IC : IpnetCrate}.

Record PeerState := {
  ps_preshared_key : option Secret;
  ps_allowed_ips : list IpNet;
  ps_endpoint : option SocketAddr
}.

Record NetworkState := {
  private_key : Privkey;
  listen_port : Z;
  mtu : Z;
  address : list IpNet;
  peers : gmap Pubkey PeerState;
  proxy : gmap Url (list SocketAddr)
}.

Definition default_mtu : Z := 1420.

(** The JSON object of a network, with the fields that may be left out;
    [of_fields] fills in the [serde(default)] values. *)
Record NetworkFields := {
  nf_private_key : Privkey;
  nf_listen_port : option Z;
  nf_mtu : option Z;
  nf_address : list IpNet;
  nf_peers : gmap Pubkey PeerState;
  nf_proxy : gmap Url (list SocketAddr)
}.
Definition of_fields (f : NetworkFields) : NetworkState := {|
  private_key := nf_private_key f;
  listen_port := default 0 (nf_listen_port f);
  mtu := default default_mtu (nf_mtu f);
  address := nf_address f;
  peers := nf_peers f;
  proxy := nf_proxy f
|}.

(** [state.listen_port = port] *)
Definition with_listen_port (n : NetworkState) (port : Z) : NetworkState := {|
  private_key := private_key n; listen_port := port; mtu := mtu n;
  address := address n; peers := peers n; proxy := proxy n
|}.

Definition GatewayConfig : Type := gmap Z NetworkState.
Definition GatewayConfigPartial : Type := gmap Z (option NetworkState).

(** One iteration of the loop of [GatewayConfig::apply_partial]. *)
Definition apply_change (c : GatewayConfig) (change : Z * option NetworkState) : GatewayConfig :=
  match change with
  | (port, None) => delete port (c : gmap Z NetworkState)
  | (port, Some network) => <[port := network]> (c : gmap Z NetworkState)
  end.

Definition apply_partial (c : GatewayConfig) (partial : GatewayConfigPartial) : GatewayConfig :=
  foldl apply_change c (entries (partial : gmap Z (option NetworkState))).
End config.

(** ** Messages *)
Section messages.
Context `{WK : WireguardKeys} `{UC : UrlCrate} `{IC : IpnetCrate}.

Record GatewayPeerConnectedEvent := {
  pc_network : Pubkey; pc_peer : Pubkey; pc_endpoint : SocketAddr }.
Record GatewayPeerDisconnectedEvent := { pd_network : Pubkey; pd_peer : Pubkey }.
Record GatewayPeerEndpointEvent := {
  pe_network : Pubkey; pe_peer : Pubkey; pe_endpoint : SocketAddr }.

Inductive GatewayEvent :=
| PeerConnected (e : GatewayPeerConnectedEvent)
| PeerDisconnected (e : GatewayPeerDisconnectedEvent)
| Endpoint (e : GatewayPeerEndpointEvent).

Inductive GatewayRequest :=
| ReqApply (config : GatewayConfig)
| ReqApplyPartial (config : GatewayConfigPartial)
| ReqShutdown.
End messages.

#[global] Instance connected_eq_dec `{WireguardKeys} : EqDecision GatewayPeerConnectedEvent.
Proof. solve_decision. Defined.
#[global] Instance disconnected_eq_dec `{WireguardKeys} : EqDecision GatewayPeerDisconnectedEvent.
Proof. solve_decision. Defined.
#[global] Instance endpoint_eq_dec `{WireguardKeys} : EqDecision GatewayPeerEndpointEvent.
Proof. solve_decision. Defined.
#[global] Instance GatewayEvent_eq_dec `{WireguardKeys} : EqDecision GatewayEvent.
Proof. solve_decision. Defined.

(** ** Traffic *)
Record Traffic := { rx : Z; tx : Z }.
#[global] Instance Traffic_eq_dec : EqDecision Traffic.
Proof. solve_decision. Defined.

Definition Traffic_new (rx tx : Z) : Traffic := {| rx := rx; tx := tx |}.
Definition Traffic_default : Traffic := {| rx := 0; tx := 0 |}.

Section traffic.
Context `{T : Target}.

(** [impl Add]: receive first. *)
Definition Traffic_plus (a b : Traffic) : outcome Traffic :=
  r ← usize_add (rx a) (rx b); t ← usize_add (tx a) (tx b); Ok {| rx := r; tx := t |}.
(** [impl AddAssign]: transmit first. *)
Definition Traffic_add_assign (a b : Traffic) : outcome Traffic :=
  t ← usize_add (tx a) (tx b); r ← usize_add (rx a) (rx b); Ok {| rx := r; tx := t |}.
(** [Traffic::add]: receive first. *)
Definition Traffic_add (a b : Traffic) : outcome Traffic :=
  r ← usize_add (rx a) (rx b); t ← usize_add (tx a) (tx b); Ok {| rx := r; tx := t |}.

Context `{WK : WireguardKeys}.

Record DeviceTraffic := { dt_traffic : Traffic; dt_times : gmap Z Traffic }.
Definition DeviceTraffic_default : DeviceTraffic :=
  {| dt_traffic := Traffic_default; dt_times := ∅ |}.
Definition DeviceTraffic_add (d : DeviceTraffic) (time : Z) (t : Traffic) : outcome DeviceTraffic :=
  total ← Traffic_add_assign (dt_traffic d) t;
  Ok {| dt_traffic := total; dt_times := <[time := t]> (dt_times d) |}.

Record NetworkTraffic := { nt_traffic : Traffic; nt_devices : gmap Pubkey DeviceTraffic }.
Definition NetworkTraffic_default : NetworkTraffic :=
  {| nt_traffic := Traffic_default; nt_devices := ∅ |}.
Definition NetworkTraffic_add (n : NetworkTraffic) (device : Pubkey) (time : Z) (t : Traffic)
    : outcome NetworkTraffic :=
  total ← Traffic_add_assign (nt_traffic n) t;
  dt ← DeviceTraffic_add (default DeviceTraffic_default (nt_devices n !! device)) time t;
  Ok {| nt_traffic := total; nt_devices := <[device := dt]> (nt_devices n) |}.

Record TrafficInfo := {
  start_time : Z;
  stop_time : Z;
  ti_traffic : Traffic;
  ti_networks : gmap Pubkey NetworkTraffic
}.
Definition TrafficInfo_new (start : Z) : TrafficInfo :=
  {| start_time := start; stop_time := start; ti_traffic := Traffic_default; ti_networks := ∅ |}.
Definition TrafficInfo_add (i : TrafficInfo) (network device : Pubkey) (time : Z) (t : Traffic)
    : outcome TrafficInfo :=
  total ← Traffic_add_assign (ti_traffic i) t;
  nt ← NetworkTraffic_add (default NetworkTraffic_default (ti_networks i !! network)) device time t;
  Ok {| start_time := start_time i;
        stop_time := Z.max (stop_time i) time;
        ti_traffic := total;
        ti_networks := <[network := nt]> (ti_networks i) |}.
End traffic.

Section responses.
Context `{WK : WireguardKeys}.
Inductive GatewayResponse :=
| RespTraffic (t : TrafficInfo)
| RespEvent (e : GatewayEvent)
| RespApply (result : unit + string).
End responses.

(** ** The partial update as a change of single ports *)
Section config_lemmas.
Context `{WK : WireguardKeys} `{UC : UrlCrate} `{IC : IpnetCrate}.

Lemma lookup_apply_change (c : gmap Z NetworkState) port on p :
  (apply_change c (port, on) : gmap Z NetworkState) !! p =
    if decide (p = port) then on else c !! p.
Proof.
  destruct on; cbn; case_decide; subst; by simplify_map_eq.
Qed.

Lemma lookup_foldl_change (c : gmap Z NetworkState) l p :
  NoDup (fst <$> l) →
  (foldl apply_change c l : gmap Z NetworkState) !! p =
    default (c !! p) ((list_to_map l : gmap Z (option NetworkState)) !! p).
Proof.
  revert c. induction l as [|[port on] l IH]; intros c Hnd; [done|].
  cbn in Hnd. apply NoDup_cons in Hnd as [Hport Hnd].
  cbn [foldl]. rewrite IH by done. rewrite lookup_apply_change.
  cbn [list_to_map foldr]. unfold list_to_map at 2. cbn.
  destruct (decide (p = port)) as [->|Hne].
  - rewrite lookup_insert_eq. by rewrite not_elem_of_list_to_map_1.
  - by rewrite lookup_insert_ne.
Qed.

(** A partial configuration overrides port by port: a port listed with
    a network gets that network, a port listed with [None] is removed, and
    a port that is not listed keeps what it had. *)
Theorem apply_partial_lookup (c : GatewayConfig) (partial : GatewayConfigPartial) p :
  (apply_partial c partial : gmap Z NetworkState) !! p =
    match (partial : gmap Z (option NetworkState)) !! p with
    | Some (Some network) => Some network
    | Some None => None
    | None => (c : gmap Z NetworkState) !! p
    end.
Proof.
  unfold apply_partial. rewrite lookup_foldl_change by apply NoDup_map_keys.
  rewrite list_to_map_entries. by destruct ((partial : gmap Z _) !! p) as [[]|].
Qed.
End config_lemmas.

(** ** The traffic ledger

    Abstract specification of [TrafficInfo]: the list of all items added so
    far.  Every total is the sum of the items it covers, at [usize] width. *)
Section ledger.
Context `{TargetOk} `{WK : WireguardKeys}.

Record item := { it_network : Pubkey; it_device : Pubkey; it_time : Z; it_traffic : Traffic }.

Definition wrap (z : Z) : Z := z mod 2 ^ usize_bits.
Definition total (l : list item) : Traffic := {|
  rx := wrap (foldr Z.add 0 ((rx ∘ it_traffic) <$> l));
  tx := wrap (foldr Z.add 0 ((tx ∘ it_traffic) <$> l))
|}.
Definition of_network (n : Pubkey) (l : list item) : list item :=
  filter (λ i, it_network i = n) l.
Definition of_device (d : Pubkey) (l : list item) : list item :=
  filter (λ i, it_device i = d) l.
Definition at_time (t : Z) (l : list item) : list item := filter (λ i, it_time i = t) l.

(** The code's sequence of [TrafficInfo::add] calls. *)
Fixpoint add_items (i : TrafficInfo) (l : list item) : outcome TrafficInfo :=
  match l with
  | [] => Ok i
  | x :: l =>
      i ← TrafficInfo_add i (it_network x) (it_device x) (it_time x) (it_traffic x);
      add_items i l
  end.

Definition device_repr (d : option DeviceTraffic) (l : list item) : Prop :=
  match d with
  | None => l = []
  | Some d => l ≠ [] ∧ dt_traffic d = total l ∧
              ∀ t, dt_times d !! t = it_traffic <$> last (at_time t l)
  end.
Definition network_repr (n : option NetworkTraffic) (l : list item) : Prop :=
  match n with
  | None => l = []
  | Some n => l ≠ [] ∧ nt_traffic n = total l ∧
              ∀ d, device_repr (nt_devices n !! d) (of_device d l)
  end.
Definition info_repr (start : Z) (i : TrafficInfo) (l : list item) : Prop :=
  start_time i = start ∧
  stop_time i = foldr Z.max start (it_time <$> l) ∧
  ti_traffic i = total l ∧
  ∀ n, network_repr (ti_networks i !! n) (of_network n l).

Lemma total_nil : total [] = Traffic_default.
Proof. reflexivity. Qed.

Lemma foldr_add_snoc l z : foldr Z.add 0 (l ++ [z]) = foldr Z.add 0 l + z.
Proof. induction l as [|y l IH]; cbn; lia. Qed.

Lemma foldr_max_snoc l z s : foldr Z.max s (l ++ [z]) = Z.max (foldr Z.max s l) z.
Proof. induction l as [|y l IH]; cbn; lia. Qed.

Lemma add_assign_total l x t :
  Traffic_add_assign (total l) (it_traffic x) = Ok t → t = total (l ++ [x]).
Proof.
  unfold Traffic_add_assign, usize_add. intros Ht.
  apply bind_Ok in Ht as (r & Hr & Ht). apply bind_Ok in Ht as (s & Hs & [= <-]).
  apply at_width_mod in Hr as ->; [|auto with gw].
  apply at_width_mod in Hs as ->; [|auto with gw].
  unfold total, wrap. rewrite !fmap_app. cbn. rewrite !foldr_add_snoc.
  by rewrite !Z.add_mod_idemp_l by (pose proof usize_bits_nonneg; apply Z.pow_nonzero; lia).
Qed.

Lemma filter_none (P : item → Prop) `{∀ x, Decision (P x)} l :
  (∀ x, x ∈ l → ¬ P x) → filter P l = [].
Proof.
  induction l as [|x l IH]; intros Hl; [done|].
  rewrite filter_cons_False by (apply Hl; left). apply IH. intros y Hy. apply Hl. by right.
Qed.

Lemma filter_item_snoc (P : item → Prop) {HP : ∀ i, Decision (P i)} (earlier : list item) (i : item) :
  (P i → filter P (earlier ++ [i]) = filter P earlier ++ [i]) ∧
  (¬ P i → filter P (earlier ++ [i]) = filter P earlier).
Proof.
  rewrite filter_app. split; intros Hi.
  - by rewrite (filter_cons_True P i []).
  - by rewrite (filter_cons_False P i []), app_nil_r.
Qed.

Lemma device_add_repr d l x d' :
  device_repr d l →
  DeviceTraffic_add (default DeviceTraffic_default d) (it_time x) (it_traffic x) = Ok d' →
  device_repr (Some d') (l ++ [x]).
Proof.
  intros Hd Hadd. unfold DeviceTraffic_add in Hadd.
  apply bind_Ok in Hadd as (t & Ht & [= <-]). cbn.
  assert (Htot : dt_traffic (default DeviceTraffic_default d) = total l).
  { destruct d as [d|]; cbn in *; [apply Hd|by subst]. }
  rewrite Htot in Ht. apply add_assign_total in Ht as ->.
  split; [by destruct l|]. split; [done|]. intros u.
  unfold at_time. destruct (decide (it_time x = u)) as [Hu|Hu].
  - rewrite (proj1 (filter_item_snoc (λ i, it_time i = u) l x)) by done.
    rewrite last_snoc. subst u. by rewrite lookup_insert_eq.
  - rewrite (proj2 (filter_item_snoc (λ i, it_time i = u) l x)) by done.
    rewrite lookup_insert_ne by done.
    destruct d as [d|]; cbn in *; [apply Hd|]. subst. by rewrite lookup_empty.
Qed.

Lemma network_add_repr n l x n' :
  network_repr n l →
  NetworkTraffic_add (default NetworkTraffic_default n) (it_device x) (it_time x) (it_traffic x)
    = Ok n' →
  network_repr (Some n') (l ++ [x]).
Proof.
  intros Hn Hadd. unfold NetworkTraffic_add in Hadd.
  apply bind_Ok in Hadd as (t & Ht & Hadd). apply bind_Ok in Hadd as (d & Hd & [= <-]). cbn.
  assert (Htot : nt_traffic (default NetworkTraffic_default n) = total l).
  { destruct n as [n|]; cbn in *; [apply Hn|by subst]. }
  assert (Hdev : ∀ e, device_repr (nt_devices (default NetworkTraffic_default n) !! e)
                                  (of_device e l)).
  { intros e. destruct n as [n|]; cbn in *; [apply Hn|subst; cbn]. by rewrite lookup_empty. }
  rewrite Htot in Ht. apply add_assign_total in Ht as ->.
  split; [by destruct l|]. split; [done|]. intros e.
  unfold of_device. destruct (decide (it_device x = e)) as [He|He].
  - rewrite (proj1 (filter_item_snoc (λ i, it_device i = e) l x)) by done.
    subst e. rewrite lookup_insert_eq. eapply device_add_repr; [apply Hdev|done].
  - rewrite (proj2 (filter_item_snoc (λ i, it_device i = e) l x)) by done.
    rewrite lookup_insert_ne by done. apply Hdev.
Qed.

Lemma info_add_repr start i l x i' :
  info_repr start i l →
  TrafficInfo_add i (it_network x) (it_device x) (it_time x) (it_traffic x) = Ok i' →
  info_repr start i' (l ++ [x]).
Proof.
  intros (Hstart & Hstop & Htot & Hnet) Hadd. unfold TrafficInfo_add in Hadd.
  apply bind_Ok in Hadd as (t & Ht & Hadd). apply bind_Ok in Hadd as (n & Hn & [= <-]).
  rewrite Htot in Ht. apply add_assign_total in Ht as ->. unfold info_repr; cbn.
  split; [done|]. split; [rewrite Hstop, fmap_app; symmetry; apply foldr_max_snoc|]. split; [done|].
  intros m. unfold of_network. destruct (decide (it_network x = m)) as [Hm|Hm].
  - rewrite (proj1 (filter_item_snoc (λ i, it_network i = m) l x)) by done.
    subst m. rewrite lookup_insert_eq. eapply network_add_repr; [apply Hnet|done].
  - rewrite (proj2 (filter_item_snoc (λ i, it_network i = m) l x)) by done.
    rewrite lookup_insert_ne by done. apply Hnet.
Qed.

Lemma info_new_repr start : info_repr start (TrafficInfo_new start) [].
Proof. split; [done|]. split; [done|]. split; [done|]. intros n. cbn. by rewrite lookup_empty. Qed.

Lemma add_items_repr start i l l' i' :
  info_repr start i l → add_items i l' = Ok i' → info_repr start i' (l ++ l').
Proof.
  revert i l. induction l' as [|x l' IH]; intros i l Hi; cbn.
  - intros [= <-]. by rewrite app_nil_r.
  - intros Hadd. apply bind_Ok in Hadd as (j & Hj & Hadd).
    rewrite cons_middle, app_assoc. eapply IH; [|done]. by eapply info_add_repr.
Qed.

(** C21: [TrafficInfo] implements the ledger of the items added to it: the
    overall, per network and per device totals are the sums of exactly the
    items they cover, wrapped at [usize] width, a network or device has an
    entry exactly when an item names it, [stop_time] is the latest time, and
    a device's time slot holds the last item added for that time. *)
Theorem traffic_info_ledger start l i :
  add_items (TrafficInfo_new start) l = Ok i → info_repr start i l.
Proof. intros Hadd. by eapply (add_items_repr start _ []); [apply info_new_repr|]. Qed.

Lemma sum_perm (l l' : list Z) : l ≡ₚ l' → foldr Z.add 0 l = foldr Z.add 0 l'.
Proof. induction 1; cbn; lia. Qed.

Lemma times_perm (m : gmap Z Traffic) (l : list item) :
  NoDup (it_time <$> l) →
  (∀ t, m !! t = it_traffic <$> last (at_time t l)) →
  map_to_list m ≡ₚ (λ i, (it_time i, it_traffic i)) <$> l.
Proof.
  intros Hnd Hm.
  assert (Hfst : ((λ i, (it_time i, it_traffic i)) <$> l).*1 = it_time <$> l).
  { by rewrite <-list_fmap_compose. }
  assert (Hnd' := Hnd). rewrite <-Hfst in Hnd'.
  etrans; [|by apply (map_to_list_to_map (M := gmap Z))].
  f_equiv. apply map_eq. intros t. rewrite Hm. apply option_eq. intros v.
  rewrite <-elem_of_list_to_map by done. clear Hnd'.
  rewrite list_elem_of_fmap. unfold at_time. clear Hm m Hfst. split.
  - intros (i & Hi & ->)%fmap_Some_1. apply last_Some in Hi as (l' & Hi).
    assert (Hin : i ∈ filter (λ i, it_time i = t) l) by (rewrite Hi; set_solver).
    apply list_elem_of_filter in Hin as [<- Hin]. eauto.
  - intros (i & [= -> ->] & Hi). apply list_elem_of_split in Hi as (l1 & l2 & ->).
    rewrite fmap_app, fmap_cons in Hnd. apply NoDup_app in Hnd as (_ & Hn1 & Hn2).
    apply NoDup_cons in Hn2 as [Hn2 _].
    rewrite filter_app, filter_cons_True by done.
    assert (filter (λ j, it_time j = it_time i) l2 = []) as ->.
    { apply filter_none. intros j Hj Ht. apply Hn2. rewrite <-Ht. by apply list_elem_of_fmap_2. }
    by rewrite last_snoc.
Qed.

(** When no two items of a device fall in the same second, the device's
    time slots add up to its total: no traffic is lost in the break-down. *)
Theorem device_times_sum start l i n nt d dt :
  add_items (TrafficInfo_new start) l = Ok i →
  ti_networks i !! n = Some nt → nt_devices nt !! d = Some dt →
  NoDup (it_time <$> of_device d (of_network n l)) →
  let slots := (map_to_list (dt_times dt)).*2 in
  dt_traffic dt = {| rx := wrap (foldr Z.add 0 (rx <$> slots));
                     tx := wrap (foldr Z.add 0 (tx <$> slots)) |}.
Proof.
  intros Hadd Hnt Hdt Hnd slots.
  assert (Hrepr : info_repr start i l) by (by eapply (add_items_repr start _ []); [apply info_new_repr|]).
  destruct Hrepr as (_ & _ & _ & Hnet). specialize (Hnet n). rewrite Hnt in Hnet.
  destruct Hnet as (_ & _ & Hdev). specialize (Hdev d). rewrite Hdt in Hdev.
  destruct Hdev as (_ & -> & Htimes).
  assert (Hslots : slots ≡ₚ it_traffic <$> of_device d (of_network n l)).
  { subst slots. rewrite (times_perm _ _ Hnd Htimes), <-list_fmap_compose. done. }
  unfold total. f_equal; f_equal; symmetry;
    rewrite list_fmap_compose; apply sum_perm; by rewrite Hslots.
Qed.

(** A second item for the same second replaces the slot of the first while
    both are counted in the total. *)
Lemma device_add_same_time d time a b d1 d2 :
  DeviceTraffic_add d time a = Ok d1 → DeviceTraffic_add d1 time b = Ok d2 →
  dt_times d2 = <[time := b]> (dt_times d).
Proof.
  unfold DeviceTraffic_add. intros (t & _ & [= <-])%bind_Ok (u & _ & [= <-])%bind_Ok.
  apply insert_insert_eq.
Qed.
End ledger.

(** ** Witnesses *)
Definition sample_items : list (@item sample_keys) :=
  let it n d t r s := Build_item (WK := sample_keys) n d t (Traffic_new r s) in
  [it KA KB 10 5 7; it KA KC 12 1 2; it KB KA 11 9 9; it KA KB 13 4 4].

Definition sample_info : @TrafficInfo sample_keys :=
  ok_default (TrafficInfo_new 0) (add_items (T := release64) (TrafficInfo_new 0) sample_items).
Definition sample_network : @NetworkTraffic sample_keys :=
  default NetworkTraffic_default (ti_networks sample_info !! (KA : @Pubkey sample_keys)).
Definition sample_device : DeviceTraffic :=
  default DeviceTraffic_default (nt_devices sample_network !! (KB : @Pubkey sample_keys)).

Lemma traffic_info_ledger_witness :
  info_repr (T := release64) 0 sample_info sample_items ∧
  ti_traffic sample_info = Traffic_new 19 22 ∧ stop_time sample_info = 13.
Proof.
  split; [|by vm_compute].
  apply (traffic_info_ledger (T := release64)), ok_default_spec. by vm_compute.
Defined.

Lemma device_times_sum_witness :
  dt_traffic sample_device = {| rx := 9; tx := 11 |}.
Proof.
  rewrite (device_times_sum (T := release64) 0 sample_items sample_info
            (KA : @Pubkey sample_keys) sample_network (KB : @Pubkey sample_keys) sample_device).
  - by vm_compute.
  - apply ok_default_spec. by vm_compute.
  - apply default_spec. by vm_compute.
  - apply default_spec. by vm_compute.
  - apply (bool_decide_unpack _). by vm_compute.
Defined.
