(* ===== verification/Types.v ===== *)
(** * Derived configuration: interface texts, port mappings, forwarding

    Models the first half of src/types.rs: [NetworkStateExt],
    [PeerStateExt] and [Forwarding], with the constants of src/gateway.rs
    they use. *)
From S2P Require Import Prelude Text BTree Net Crates Samples Client.
From Stdlib Require Import Ascii.

Local Open Scope string_scope.
Local Open Scope Z_scope.

Definition NETNS_PREFIX : string := "network-".
Definition VETH_PREFIX : string := "veth".
Definition WIREGUARD_PREFIX : string := "wg".
Definition PORT_MAPPING_START : Z := 2000.

Record PortMapping := { port_in : Z; port_out : Z; ip_out : IpAddr }.
Record PortConfig := {
  interface_in : string;
  interface_out : string;
  ip_source : IpAddr;
  mappings : list PortMapping
}.

(** [writeln!(config, ..)] *)
Definition writeln (config line : string) : string := config ++ line ++ nl.

Section types.
Context `{T : Target} `{WK : WireguardKeys} `{UC : UrlCrate} `{IC : IpnetCrate}.

(** The lazily built bridge network 172.99.0.1/16 *)
Definition BRIDGE_NET : outcome Ipv4Net := unwrap (ipv4net_new (ipv4 172 99 0 1) 16).

Definition netns_name (n : NetworkState) : string := NETNS_PREFIX ++ dec (listen_port n).
Definition wgif_name (n : NetworkState) : string := WIREGUARD_PREFIX ++ dec (listen_port n).
Definition veth_name (n : NetworkState) : string := VETH_PREFIX ++ dec (listen_port n).

Definition veth_ipv4net (n : NetworkState) : outcome Ipv4Net :=
  bridge ← BRIDGE_NET;
  let addr := ipv4net_network bridge in
  let addr := ipv4_saturating_add addr (listen_port n) in
  unwrap (ipv4net_new addr (ipv4net_prefix_len bridge)).

(** [PeerState::to_config] *)
Definition peer_to_config (p : PeerState) (public_key : Pubkey) : string :=
  let config := "" in
  let config := writeln config "[Peer]" in
  let config := writeln config ("PublicKey = " ++ pubkey_to_string public_key) in
  let config := writeln config
    ("AllowedIPs = " ++ join ", " ((λ ip, ipnet_to_string (ipnet_trunc ip)) <$> ps_allowed_ips p)) in
  let config :=
    match ps_preshared_key p with
    | Some k => writeln config ("PresharedKey = " ++ secret_to_string k)
    | None => config
    end in
  let config :=
    match ps_endpoint p with
    | Some endpoint => writeln config ("Endpoint = " ++ sock_to_string endpoint)
    | None => config
    end in
  writeln config "PersistentKeepalive = 25".

(** [NetworkState::to_config] *)
Definition to_config (n : NetworkState) : string :=
  let config := "" in
  let config := writeln config "[Interface]" in
  let config := writeln config ("ListenPort = " ++ dec (listen_port n)) in
  let config := writeln config ("PrivateKey = " ++ privkey_to_string (private_key n)) in
  foldl (λ config '(pubkey, peer), writeln config (nl ++ peer_to_config peer pubkey))
    config (entries (peers n)).

(** All proxied sockets with their URL, in key order: [flatten()]. *)
Definition proxied (n : NetworkState) : list (Url * SocketAddr) :=
  flat_map (λ entry : Url * list SocketAddr, (λ a, (entry.1, a)) <$> entry.2) (entries (proxy n)).

(** One port of the gateway per proxied socket, numbered across all URLs. *)
Definition port_mappings (n : NetworkState) : outcome (list (Url * Z * SocketAddr)) :=
  collect (λ entry : Z * (Url * SocketAddr),
      let '(i, (url, addr)) := entry in
      port ← u16_add PORT_MAPPING_START (cast_width 16 i);
      Ok (url, port, addr))
    (enumerate (proxied n)).

Definition port_config (n : NetworkState) : outcome PortConfig :=
  source ← unwrap (head (address n));
  ms ← port_mappings n;
  Ok {| interface_in := veth_name n;
        interface_out := wgif_name n;
        ip_source := ipnet_addr source;
        mappings := (λ '(_, port, sock),
          {| port_in := port; port_out := sock_port sock; ip_out := sock_ip sock |}) <$> ms |}.

(** ** Forwarding *)
Record Forwarding := {
  https_forwarding : gmap string string;
  https_upstream : gmap string (list SocketAddr);
  http_forwarding : gmap string string;
  http_upstream : gmap string (list SocketAddr);
  ssh_forwarding : gmap string SocketAddr
}.
Definition Forwarding_new : Forwarding := {|
  https_forwarding := ∅; https_upstream := ∅;
  http_forwarding := ∅; http_upstream := ∅; ssh_forwarding := ∅ |}.

Context `{BC : Base32Crate}.

(** The two maps of one scheme, updated by [add_https] and [add_http]. *)
Definition add_upstream (prefix host : string) (socket : SocketAddr)
    (fwd : gmap string string) (ups : gmap string (list SocketAddr))
    : gmap string string * gmap string (list SocketAddr) :=
  let upstream := default (prefix ++ base32_encode host) (fwd !! host) in
  (<[host := upstream]> fwd, entry_update upstream [] (λ servers, servers ++ [socket])%list ups).

Definition add_https (f : Forwarding) (url : Url) (socket : SocketAddr) : outcome Forwarding :=
  host ← unwrap (url_host_str url);
  let '(fwd, ups) := add_upstream "https_" host socket (https_forwarding f) (https_upstream f) in
  Ok {| https_forwarding := fwd; https_upstream := ups;
        http_forwarding := http_forwarding f; http_upstream := http_upstream f;
        ssh_forwarding := ssh_forwarding f |}.

Definition add_http (f : Forwarding) (url : Url) (socket : SocketAddr) : outcome Forwarding :=
  host ← unwrap (url_host_str url);
  let '(fwd, ups) := add_upstream "http_" host socket (http_forwarding f) (http_upstream f) in
  Ok {| https_forwarding := https_forwarding f; https_upstream := https_upstream f;
        http_forwarding := fwd; http_upstream := ups;
        ssh_forwarding := ssh_forwarding f |}.

Definition add_ssh (f : Forwarding) (_ : Url) (_ : SocketAddr) : outcome Forwarding := Ok f.

(** [Forwarding::add]: unrecognized schemes are only logged. *)
Definition Forwarding_add (f : Forwarding) (network : NetworkState) : outcome Forwarding :=
  ms ← port_mappings network;
  ofold (λ f '(url, port, _),
    net ← veth_ipv4net network;
    let sock := sock_new (IpV4 (ipv4net_addr net)) port in
    if decide (url_scheme url = "https") then add_https f url sock
    else if decide (url_scheme url = "http") then add_http f url sock
    else if decide (url_scheme url = "ssh") then add_ssh f url sock
    else Ok f) f ms.

Definition add_custom (f : Forwarding) (url : Url) (socket : SocketAddr) : outcome Forwarding :=
  if decide (url_scheme url = "https") then add_https f url socket
  else if decide (url_scheme url = "http") then add_http f url socket
  else Ok f.

(** The forwarding of all networks and of the custom command-line entries. *)
Definition forwarding_of (networks : list NetworkState) (custom : list (Url * SocketAddr))
    : outcome Forwarding :=
  forwarding ← ofold Forwarding_add Forwarding_new networks;
  ofold (λ f '(url, socket), add_custom f url socket) forwarding custom.
End types.

(** ** Port mappings *)
Section port_mappings.
Context `{T : Target} `{WK : WireguardKeys} `{UC : UrlCrate} `{IC : IpnetCrate}.

(** The numbers that fit between the first mapped port and the last port. *)
Definition MAX_MAPPINGS : Z := 63536.

Definition numbered (f : nat → Z) (l : list (Url * SocketAddr)) : list (Url * Z * SocketAddr) :=
  imap (λ i entry, (entry.1, f i, entry.2)) l.
Definition mapped_port (m : Url * Z * SocketAddr) : Z := m.1.2.

Lemma port_mappings_collect (f : nat → Z) n :
  (∀ i, (i < length (proxied n))%nat →
    u16_add PORT_MAPPING_START (cast_width 16 (Z.of_nat i)) = Ok (f i)) →
  port_mappings n = Ok (numbered f (proxied n)).
Proof.
  unfold port_mappings. generalize (proxied n) as l. intros l Hf. apply collect_Ok.
  apply Forall2_same_length_lookup_2; unfold enumerate, numbered; [by rewrite !length_imap|].
  intros i x y. rewrite !list_lookup_imap, !fmap_Some.
  intros ([u a] & Hi & ->) (e & Hi' & ->). rewrite Hi in Hi'. injection Hi' as <-.
  apply lookup_lt_Some in Hi. by rewrite Hf.
Qed.

Lemma mapping_port_fits n i :
  Z.of_nat (length (proxied n)) ≤ 63536 → (i < length (proxied n))%nat →
  u16_add PORT_MAPPING_START (cast_width 16 (Z.of_nat i)) = Ok (PORT_MAPPING_START + Z.of_nat i).
Proof.
  intros Hlen Hi. unfold cast_width, u16_add, PORT_MAPPING_START.
  rewrite Z.mod_small by lia. apply at_width_id. unfold in_width. lia.
Qed.

Lemma mapping_port_overflow :
  overflow_checks = true → u16_add PORT_MAPPING_START (cast_width 16 MAX_MAPPINGS) = Panic.
Proof. intros Hchk. apply at_width_checked; [done|]. unfold in_width. by intros [_ H]. Qed.

Lemma mapped_ports f l : mapped_port <$> numbered f l = f <$> seq 0 (length l).
Proof.
  apply list_eq. intros i. unfold numbered.
  rewrite list_lookup_fmap, list_lookup_imap, list_lookup_fmap.
  destruct (decide (i < length l)%nat) as [Hi|Hi].
  - rewrite lookup_seq_lt by done. apply lookup_lt_is_Some in Hi as [x ->]. done.
  - rewrite lookup_ge_None_2 by lia. rewrite lookup_seq_ge by lia. done.
Qed.

Lemma port_mappings_numbered n :
  Z.of_nat (length (proxied n)) ≤ MAX_MAPPINGS →
  port_mappings n = Ok (numbered (λ i, PORT_MAPPING_START + Z.of_nat i) (proxied n)).
Proof.
  unfold MAX_MAPPINGS. intros Hlen. apply port_mappings_collect.
  intros i. by apply mapping_port_fits.
Qed.

(** C28: up to 63536 proxied sockets every one gets its own port, in order,
    from 2000 on and within the u16 range; the next one overflows the port
    number, which panics when overflow checks are on. *)
Theorem port_mappings_bounds n :
  (Z.of_nat (length (proxied n)) ≤ MAX_MAPPINGS →
     ∃ ms, port_mappings n = Ok ms ∧
       ms = numbered (λ i, PORT_MAPPING_START + Z.of_nat i) (proxied n) ∧
       NoDup (mapped_port <$> ms) ∧
       Forall (λ p, PORT_MAPPING_START ≤ p < 2 ^ 16) (mapped_port <$> ms)) ∧
  (MAX_MAPPINGS < Z.of_nat (length (proxied n)) → overflow_checks = true →
     port_mappings n = Panic).
Proof.
  split.
  - intros Hlen. eexists. split; [by apply port_mappings_numbered|].
    unfold MAX_MAPPINGS in Hlen. split; [done|]. rewrite mapped_ports. split.
    + apply NoDup_fmap_2; [|apply NoDup_seq]. intros i j. lia.
    + apply Forall_fmap, Forall_forall. intros i Hi%elem_of_seq.
      cbn. unfold PORT_MAPPING_START. lia.
  - unfold MAX_MAPPINGS. intros Hlen Hchk. unfold port_mappings.
    destruct (lookup_lt_is_Some_2 (proxied n) (Z.to_nat MAX_MAPPINGS)) as [[u a] Hx];
      [unfold MAX_MAPPINGS; lia|].
    apply (collect_Panic _ _ (MAX_MAPPINGS, (u, a))).
    + intros [i [v b]] e _. cbn. unfold u16_add, at_width. by repeat case_match.
    + apply list_elem_of_lookup. exists (Z.to_nat MAX_MAPPINGS).
      unfold enumerate. rewrite list_lookup_imap, Hx. done.
    + by rewrite mapping_port_overflow.
Qed.
End port_mappings.

(** ** Names and addresses *)
Section names.
Context `{WK : WireguardKeys} `{UC : UrlCrate} `{ICO : !IpnetCrateOk IC}.

(** The first address of the bridge network. *)
Definition bridge_base : Z := ipv4 172 99 0 0.

Lemma BRIDGE_NET_spec :
  ∃ b, BRIDGE_NET = Ok b ∧ ipv4net_addr b = bridge_base + 1 ∧ ipv4net_prefix_len b = 16 ∧
       ipv4net_network b = bridge_base.
Proof.
  destruct (ipv4net_new_spec (ipv4 172 99 0 1) 16 ltac:(lia)) as (b & Hb & Ha & Hp).
  exists b. unfold BRIDGE_NET. rewrite Hb. split; [done|].
  split; [by rewrite Ha|]. split; [done|].
  rewrite ipv4net_network_spec by lia. by rewrite Ha, Hp.
Qed.

Lemma veth_ipv4net_spec n :
  in_width 16 (listen_port n) →
  ∃ a, veth_ipv4net n = Ok a ∧ ipv4net_addr a = bridge_base + listen_port n ∧
       ipv4net_prefix_len a = 16.
Proof.
  intros [Hp0 Hp]. destruct BRIDGE_NET_spec as (b & Hb & Haddr & Hlen & Hnet).
  unfold veth_ipv4net. rewrite Hb. cbn. rewrite Hnet, Hlen.
  rewrite ipv4_saturating_add_spec by (unfold in_width, bridge_base, ipv4; lia).
  rewrite Z.min_l by (unfold bridge_base, ipv4; lia).
  destruct (ipv4net_new_spec (bridge_base + listen_port n) 16 ltac:(lia)) as (a & -> & Ha & Hl).
  by exists a.
Qed.

(** C29: every network gets a bridge-side address: it is computed without
    failing, lies in 172.99.0.0/16, two networks share it exactly when they
    share their port, and it is the bridge's own address exactly for port 1. *)
Theorem veth_address_unique n m :
  in_width 16 (listen_port n) → in_width 16 (listen_port m) →
  ∃ a b bridge, veth_ipv4net n = Ok a ∧ veth_ipv4net m = Ok b ∧ BRIDGE_NET = Ok bridge ∧
    ipv4net_addr a / 2 ^ 16 = ipv4 0 0 172 99 ∧
    (ipv4net_addr a = ipv4net_addr b ↔ listen_port n = listen_port m) ∧
    (ipv4net_addr a = ipv4net_addr bridge ↔ listen_port n = 1).
Proof.
  intros Hn Hm. destruct (veth_ipv4net_spec n Hn) as (a & Ha & Haddr & _).
  destruct (veth_ipv4net_spec m Hm) as (b & Hb & Hbddr & _).
  destruct BRIDGE_NET_spec as (br & Hbr & Hbaddr & _).
  exists a, b, br. rewrite Haddr, Hbddr, Hbaddr. unfold in_width in *.
  repeat split; try done; try lia. unfold bridge_base, ipv4. zlia.
Qed.

Lemma netns_name_inj n m :
  0 ≤ listen_port n → 0 ≤ listen_port m → netns_name n = netns_name m → listen_port n = listen_port m.
Proof. intros Hn Hm H. apply dec_inj; [done..|]. by apply (inj (String.append NETNS_PREFIX)). Qed.

Lemma netns_name_prefix n : starts_with NETNS_PREFIX (netns_name n) = true.
Proof. apply starts_with_app. Qed.
End names.

(** ** Forwarding *)
Section forwarding.
Context `{BCO : !Base32CrateOk BC}.

Definition backends (h : string) (rs : list (string * SocketAddr)) : list SocketAddr :=
  (filter (λ r, r.1 = h) rs).*2.
Definition none_if_nil {A} (l : list A) : option (list A) :=
  match l with [] => None | _ => Some l end.

(** What the two maps of a scheme stand for: the sockets of every host, in
    order, under an upstream name derived from the host. *)
Record scheme_repr (prefix : string) (fwd : gmap string string)
    (ups : gmap string (list SocketAddr)) (rs : list (string * SocketAddr)) : Prop := {
  scheme_fwd h : fwd !! h = (λ _, prefix ++ base32_encode h) <$> none_if_nil (backends h rs);
  scheme_ups h : ups !! (prefix ++ base32_encode h) = none_if_nil (backends h rs);
  scheme_names name : is_Some (ups !! name) → ∃ h, name = prefix ++ base32_encode h
}.

Lemma scheme_repr_nil prefix : scheme_repr prefix ∅ ∅ [].
Proof. split; [done..|]. intros name. rewrite lookup_empty. by intros [? [=]]. Qed.

Lemma backends_snoc h rs r :
  backends h (rs ++ [r]) = (backends h rs ++ if decide (r.1 = h) then [r.2] else [])%list.
Proof.
  unfold backends. rewrite filter_app, fmap_app. f_equal. cbn.
  by case_decide.
Qed.

Lemma default_none_if_nil {A} (l : list A) : default [] (none_if_nil l) = l.
Proof. by destruct l. Qed.
Lemma none_if_nil_snoc {A} (l : list A) x : none_if_nil (l ++ [x]) = Some (l ++ [x])%list.
Proof. by destruct l. Qed.

Lemma add_upstream_repr prefix fwd ups rs h s fwd' ups' :
  scheme_repr prefix fwd ups rs → add_upstream prefix h s fwd ups = (fwd', ups') →
  scheme_repr prefix fwd' ups' (rs ++ [(h, s)]).
Proof.
  intros [Hf Hu Hn]. unfold add_upstream.
  replace (default _ (fwd !! h)) with (prefix ++ base32_encode h)
    by (rewrite Hf; by destruct (none_if_nil _)).
  intros [= <- <-]. split.
  - intros k. rewrite backends_snoc. cbn. case_decide as Hk.
    + subst k. by rewrite lookup_insert_eq, none_if_nil_snoc.
    + by rewrite lookup_insert_ne, app_nil_r, Hf.
  - intros k. rewrite backends_snoc. cbn. case_decide as Hk.
    + subst k. by rewrite lookup_entry_update, Hu, default_none_if_nil, none_if_nil_snoc.
    + rewrite lookup_entry_update_ne, app_nil_r, Hu; [done|].
      intros He%(inj (String.append prefix))%(inj base32_encode). done.
  - intros name. unfold entry_update. intros Hs.
    destruct (decide (prefix ++ base32_encode h = name)) as [<-|Hne]; [by eexists|].
    rewrite lookup_insert_ne in Hs by done. auto.
Qed.
End forwarding.

Section forwarding_spec.
Context `{T : Target} `{WK : WireguardKeys} `{UCO : !UrlCrateOk UC} `{ICO : !IpnetCrateOk IC}
        `{BCO : !Base32CrateOk BC}.

(** One request path: a scheme and a host lead to a socket. *)
Record route := { r_scheme : string; r_host : string; r_sock : SocketAddr }.
Definition of_scheme (scheme : string) (rs : list route) : list (string * SocketAddr) :=
  (λ r, (r_host r, r_sock r)) <$> filter (λ r, r_scheme r = scheme) rs.

Definition forwarding_repr (f : Forwarding) (rs : list route) : Prop :=
  scheme_repr "https_" (https_forwarding f) (https_upstream f) (of_scheme "https" rs) ∧
  scheme_repr "http_" (http_forwarding f) (http_upstream f) (of_scheme "http" rs) ∧
  ssh_forwarding f = ∅.

Definition url_route (url : Url) (sock : SocketAddr) : route :=
  {| r_scheme := url_scheme url; r_host := default "" (url_host_str url); r_sock := sock |}.
Definition network_routes (n : NetworkState) : list route :=
  imap (λ i entry, url_route entry.1
          (SockV4 (bridge_base + listen_port n) (PORT_MAPPING_START + Z.of_nat i))) (proxied n).

Lemma of_scheme_snoc scheme rs r :
  of_scheme scheme (rs ++ [r]) =
    (of_scheme scheme rs ++ if decide (r_scheme r = scheme) then [(r_host r, r_sock r)] else [])%list.
Proof.
  unfold of_scheme. rewrite filter_app, fmap_app. f_equal. cbn. by case_decide.
Qed.

Lemma forwarding_new_repr : forwarding_repr Forwarding_new [].
Proof. split; [apply scheme_repr_nil|]. split; [apply scheme_repr_nil|done]. Qed.

Lemma add_https_repr f rs url s :
  url_scheme url = "https" → forwarding_repr f rs →
  ∃ f', add_https f url s = Ok f' ∧ forwarding_repr f' (rs ++ [url_route url s]).
Proof.
  intros Hs (H1 & H2 & H3). destruct (url_special_host url (or_intror Hs)) as [h Hh].
  unfold add_https. rewrite Hh. cbn.
  eexists. split; [done|]. unfold forwarding_repr. rewrite !of_scheme_snoc. cbn.
  rewrite Hs, Hh, decide_True, decide_False, app_nil_r by done.
  split; [|by split]. by eapply add_upstream_repr.
Qed.

Lemma add_http_repr f rs url s :
  url_scheme url = "http" → forwarding_repr f rs →
  ∃ f', add_http f url s = Ok f' ∧ forwarding_repr f' (rs ++ [url_route url s]).
Proof.
  intros Hs (H1 & H2 & H3). destruct (url_special_host url (or_introl Hs)) as [h Hh].
  unfold add_http. rewrite Hh. cbn.
  eexists. split; [done|]. unfold forwarding_repr. rewrite !of_scheme_snoc. cbn.
  rewrite Hs, Hh, decide_False, decide_True, app_nil_r by done.
  split; [done|]. split; [|done]. by eapply add_upstream_repr.
Qed.

Lemma add_other_repr f rs url s :
  url_scheme url ≠ "https" → url_scheme url ≠ "http" → forwarding_repr f rs →
  forwarding_repr f (rs ++ [url_route url s]).
Proof.
  intros Hs Hs' (H1 & H2 & H3). unfold forwarding_repr. rewrite !of_scheme_snoc. cbn.
  by rewrite !decide_False, !app_nil_r.
Qed.

Lemma add_custom_repr f rs url s :
  forwarding_repr f rs →
  ∃ f', add_custom f url s = Ok f' ∧ forwarding_repr f' (rs ++ [url_route url s]).
Proof.
  intros Hf. unfold add_custom. case_decide; [by apply add_https_repr|].
  case_decide; [by apply add_http_repr|]. exists f. split; [done|]. by apply add_other_repr.
Qed.

(** A loop that adds one route per element. *)
Lemma ofold_repr {A} (step : Forwarding → A → outcome Forwarding) (r : A → route) f rs l :
  (∀ f rs x, x ∈ l → forwarding_repr f rs →
     ∃ f', step f x = Ok f' ∧ forwarding_repr f' (rs ++ [r x])) →
  forwarding_repr f rs →
  ∃ f', ofold step f l = Ok f' ∧ forwarding_repr f' (rs ++ (r <$> l)).
Proof.
  revert f rs. induction l as [|x l IH]; intros f rs Hstep Hf.
  - exists f. by rewrite app_nil_r.
  - destruct (Hstep f rs x) as (f' & Hx & Hf'); [left|done|].
    destruct (IH f' (rs ++ [r x])%list) as (f'' & Hl & Hf''); [|done|].
    { intros g gs y Hy. apply Hstep. by right. }
    exists f''. cbn. rewrite Hx. split; [done|]. by rewrite <-app_assoc in Hf''.
Qed.

Definition mappable (n : NetworkState) : Prop :=
  in_width 16 (listen_port n) ∧ Z.of_nat (length (proxied n)) ≤ MAX_MAPPINGS.

Lemma Forwarding_add_repr f rs n :
  mappable n → forwarding_repr f rs →
  ∃ f', Forwarding_add f n = Ok f' ∧ forwarding_repr f' (rs ++ network_routes n).
Proof.
  intros [Hport Hlen] Hf. unfold Forwarding_add.
  rewrite port_mappings_numbered by done. cbn.
  destruct (veth_ipv4net_spec n Hport) as (a & Ha & Haddr & _).
  replace (network_routes n) with
    ((λ m : Url * Z * SocketAddr, url_route m.1.1 (SockV4 (ipv4net_addr a) m.1.2)) <$>
       numbered (λ i, PORT_MAPPING_START + Z.of_nat i) (proxied n)); cycle 1.
  { unfold network_routes, numbered. rewrite fmap_imap, Haddr. done. }
  apply ofold_repr; [|done]. intros g gs [[url port] sock] _ Hg. cbn. rewrite Ha. cbn.
  case_decide; [by apply add_https_repr|]. case_decide; [by apply add_http_repr|].
  exists g. case_decide; (split; [done|]; by apply add_other_repr).
Qed.
End forwarding_spec.

Section forwarding_theorem.
Context `{T : Target} `{WK : WireguardKeys} `{UCO : !UrlCrateOk UC} `{ICO : !IpnetCrateOk IC}
        `{BCO : !Base32CrateOk BC}.

Lemma forwarding_of_repr networks custom :
  Forall mappable networks →
  ∃ f, forwarding_of networks custom = Ok f ∧
    forwarding_repr f (flat_map network_routes networks ++ (uncurry url_route <$> custom)).
Proof.
  intros Hn. unfold forwarding_of.
  enough (∃ f, ofold Forwarding_add Forwarding_new networks = Ok f ∧
               forwarding_repr f (flat_map network_routes networks)) as (f & -> & Hf).
  { cbn. apply ofold_repr; [|done]. intros g gs [url s] _ Hg. by apply add_custom_repr. }
  change (flat_map network_routes networks) with ([] ++ flat_map network_routes networks)%list.
  generalize forwarding_new_repr. generalize Forwarding_new as f, (@nil route) as rs.
  induction Hn as [|n networks Hn Hns IH]; intros f rs Hf; cbn.
  - exists f. by rewrite app_nil_r.
  - destruct (Forwarding_add_repr f rs n Hn Hf) as (f' & -> & Hf'). cbn.
    destruct (IH f' _ Hf') as (f'' & -> & Hf''). exists f''. split; [done|].
    by rewrite app_assoc.
Qed.
(** C20: building the forwarding of a whole configuration never fails when
    every network has a u16 port and at most 63536 proxied sockets, and what
    it builds is the routing table: for each scheme the upstream of a host
    lists exactly the gateway sockets of the URLs with that host, in order,
    and no other upstream exists. *)
Theorem forwarding_of_routes networks custom :
  Forall mappable networks →
  ∃ f, forwarding_of networks custom = Ok f ∧
    forwarding_repr f (flat_map network_routes networks ++ (uncurry url_route <$> custom)).
Proof. apply forwarding_of_repr. Qed.
End forwarding_theorem.

(** ** The WireGuard configuration text

    A reader of the format of wg(8), sections of [key = value] lines, as the
    specification of [to_config]. *)
Definition section : Type := string * list (string * string).

Fixpoint cut (c : ascii) (s : string) : option (string * string) :=
  match s with
  | "" => None
  | String a s =>
      if decide (a = c) then Some ("", s)
      else '(k, v) ← cut c s; Some (String a k, v)
  end.

Inductive conf_line := Blank | Header (name : string) | Entry (key value : string).
Definition read_header (s : string) : option conf_line :=
  '(name, rest) ← cut "]" s; if decide (rest = "") then Some (Header name) else None.
Definition read_entry (s : string) : option conf_line :=
  '(k, rest) ← cut " " s; '(eq, v) ← cut " " rest;
  if decide (eq = "=") then Some (Entry k v) else None.
Definition read_line (s : string) : option conf_line :=
  match s with
  | "" => Some Blank
  | String a t => if decide (a = "["%char) then read_header t else read_entry s
  end.
Definition read_step (line : string) (acc : option (list (string * string) * list section))
    : option (list (string * string) * list section) :=
  '(pending, done) ← acc; l ← read_line line;
  match l with
  | Blank => Some (pending, done)
  | Header h => Some ([], (h, pending) :: done)
  | Entry k v => Some ((k, v) :: pending, done)
  end.
Definition read_conf (text : string) : option (list section) :=
  '(pending, done) ← foldr read_step (Some ([], [])) (lines text);
  if decide (pending = []) then Some done else None.

Section config_text.
Context `{WKO : !WireguardKeysOk WK} `{UC : UrlCrate} `{IC : IpnetCrate}.

Definition peer_fields (k : Pubkey) (p : PeerState) : list (string * string) :=
  [("PublicKey", pubkey_to_string k);
   ("AllowedIPs", join ", " ((λ ip, ipnet_to_string (ipnet_trunc ip)) <$> ps_allowed_ips p))] ++
  from_option (λ s, [("PresharedKey", secret_to_string s)]) [] (ps_preshared_key p) ++
  from_option (λ e, [("Endpoint", sock_to_string e)]) [] (ps_endpoint p) ++
  [("PersistentKeepalive", "25")].
Definition conf_sections (n : NetworkState) : list section :=
  ("Interface", [("ListenPort", dec (listen_port n));
                 ("PrivateKey", privkey_to_string (private_key n))]) ::
  ((λ '(k, p), ("Peer", peer_fields k p)) <$> entries (peers n)).

Definition entry_line (e : string * string) : string := e.1 ++ " = " ++ e.2.
Definition section_lines (s : section) : list string :=
  ("[" ++ s.1 ++ "]") :: (entry_line <$> s.2).
(** A peer section is set off by blank lines. *)
Definition config_lines (n : NetworkState) : list string :=
  section_lines ("Interface", [("ListenPort", dec (listen_port n));
                               ("PrivateKey", privkey_to_string (private_key n))]) ++
  flat_map (λ kp : Pubkey * PeerState,
    "" :: section_lines ("Peer", peer_fields kp.1 kp.2) ++ [""])%list (entries (peers n)).

Lemma peer_to_config_lines k p :
  peer_to_config p k = unlines (section_lines ("Peer", peer_fields k p)).
Proof.
  unfold peer_to_config, section_lines, peer_fields, writeln, entry_line.
  destruct (ps_preshared_key p), (ps_endpoint p); cbn;
    rewrite ?string_app_assoc; cbn; rewrite ?string_app_assoc; done.
Qed.

Lemma to_config_lines n : to_config n = unlines (config_lines n).
Proof.
  unfold to_config, config_lines. rewrite unlines_app.
  match goal with |- foldl _ ?c _ = ?u ++ _ => replace c with u end; cycle 1.
  { unfold section_lines, writeln, entry_line. cbn.
    rewrite ?string_app_assoc. cbn. by rewrite ?string_app_assoc. }
  generalize (unlines (section_lines ("Interface",
    [("ListenPort", dec (listen_port n)); ("PrivateKey", privkey_to_string (private_key n))]))) as c.
  induction (entries (peers n)) as [|[k p] l IH]; intros c; cbn [foldl flat_map].
  - by rewrite string_app_nil_r.
  - rewrite IH, unlines_app, <-string_app_assoc. f_equal.
    unfold writeln. rewrite peer_to_config_lines, !string_app_assoc. f_equal.
    cbn [fst snd]. set (ls := section_lines ("Peer", peer_fields k p)).
    change (unlines ("" :: ls ++ [""])%list) with (nl ++ unlines (ls ++ [""])%list).
    by rewrite unlines_app.
Qed.

(** The words of a configuration stay on their line. *)
Definition clean (s : string) : Prop := has_char LF s = false ∧ has_char CR s = false.
Definition entry_ok (e : string * string) : Prop :=
  clean e.1 ∧ clean e.2 ∧ has_char " " e.1 = false ∧
  match e.1 with "" => False | String a _ => a ≠ "["%char end.
Definition section_ok (s : section) : Prop :=
  clean s.1 ∧ has_char "]" s.1 = false ∧ Forall entry_ok s.2.

Lemma cut_app c s1 s2 : has_char c s1 = false → cut c (s1 ++ String c s2) = Some (s1, s2).
Proof.
  induction s1 as [|a s1 IH]; intros H; cbn.
  - by rewrite decide_True.
  - apply has_char_false_cons in H as [Ha H]. by rewrite decide_False, IH.
Qed.

Lemma read_line_header s : has_char "]" s = false → read_line ("[" ++ s ++ "]") = Some (Header s).
Proof.
  intros Hs. cbn. unfold read_header. change (s ++ "]") with (s ++ String "]" "").
  by rewrite cut_app.
Qed.

Lemma read_line_entry e : entry_ok e → read_line (entry_line e) = Some (Entry e.1 e.2).
Proof.
  destruct e as [[|a k] v]; intros (_ & _ & Hk & Ha); [done|]. cbn [fst snd] in *.
  unfold entry_line; cbn [fst snd].
  change (String a k ++ " = " ++ v) with (String a k ++ String " " ("=" ++ String " " v)).
  transitivity (read_entry (String a k ++ String " " ("=" ++ String " " v))).
  - cbn [String.append read_line]. by rewrite decide_False.
  - unfold read_entry. rewrite cut_app by done. cbn [mbind option_bind].
    by rewrite cut_app.
Qed.

Lemma read_entries es acc :
  Forall entry_ok es →
  foldr read_step acc (entry_line <$> es) = '(p, d) ← acc; Some (es ++ p, d)%list.
Proof.
  induction 1 as [|e es He Hes IH]; cbn; [by destruct acc as [[]|]|].
  rewrite IH. destruct acc as [[p d]|]; [|done]. cbn. rewrite read_line_entry by done.
  by destruct e.
Qed.

Lemma read_section s d :
  section_ok s → foldr read_step (Some ([], d)) (section_lines s) = Some ([], s :: d).
Proof.
  intros (Hname & Hb & Hs). cbn [section_lines foldr].
  rewrite read_entries by done. cbn [mbind option_bind]. rewrite app_nil_r.
  unfold read_step. cbn [mbind option_bind]. rewrite read_line_header by done. by destruct s.
Qed.

Lemma clean_app s1 s2 : clean s1 → clean s2 → clean (s1 ++ s2).
Proof. intros [H1 H2] [H3 H4]. split; rewrite has_char_app; by rewrite ?H1, ?H2, ?H3, ?H4. Qed.

Lemma section_lines_clean s : section_ok s → Forall clean (section_lines s).
Proof.
  intros ((H1 & H2) & _ & Hs). apply Forall_cons. split.
  - by apply (clean_app "["), clean_app.
  - apply Forall_fmap. eapply Forall_impl; [done|]. intros e (Hk & Hv & _).
    by apply clean_app, clean_app.
Qed.

Lemma clean_literal s : printable s = true → clean s.
Proof. intros Hs. split; apply literal_control; auto with gw. Qed.

Lemma clean_dec n : clean (dec n).
Proof. by split; apply dec_char. Qed.

Lemma clean_sock s : clean (sock_to_string s).
Proof. split; apply sock_text_control; auto with gw. Qed.

Lemma clean_key {K} (to_string : K → string) from_str k :
  KeyText to_string from_str → clean (to_string k).
Proof. intros H. split; apply (key_chars (from_str := from_str)); auto. Qed.

Lemma entry_ok_intro name v :
  clean v → printable name = true → has_char " " name = false →
  match name with "" => False | String a _ => a ≠ "["%char end → entry_ok (name, v).
Proof. intros. split; [by apply clean_literal|done]. Qed.

Definition peer_clean (p : PeerState) : Prop :=
  Forall (λ ip, clean (ipnet_to_string (ipnet_trunc ip))) (ps_allowed_ips p).

Lemma peer_section_ok k p : peer_clean p → section_ok ("Peer", peer_fields k p).
Proof.
  intros Hp. split; [by apply clean_literal|]. split; [done|].
  unfold peer_fields. cbn [snd]. rewrite !Forall_app.
  repeat apply conj; [|destruct (ps_preshared_key p)|destruct (ps_endpoint p)|]; cbn;
    repeat (apply Forall_cons; split || apply Forall_nil_2 || apply Forall_nil); auto;
    apply entry_ok_intro; eauto using clean_key, clean_sock, pubkey_text, secret_text.
  - split; apply has_char_join; try done;
      apply Forall_fmap; eapply Forall_impl; try done; intros ip; by intros [??].
  - by apply clean_literal.
Qed.

(** C22: the text written for a network reads back, as a WireGuard
    configuration, to one [Interface] section with the port and the private
    key followed by one [Peer] section per peer in key order, with its key,
    its allowed networks, and its preshared key and endpoint when it has them. *)
Theorem to_config_sections n :
  (∀ k p, peers n !! k = Some p → peer_clean p) →
  read_conf (to_config n) = Some (conf_sections n).
Proof.
  intros Hp. set (ps := (λ '(k, p), ("Peer", peer_fields k p)) <$> entries (peers n)).
  assert (Hps : Forall section_ok ps).
  { apply Forall_fmap, Forall_forall. intros [k p] Hkp. cbn.
    apply peer_section_ok, (Hp k). by apply elem_of_entries. }
  set (i := ("Interface", [("ListenPort", dec (listen_port n));
              ("PrivateKey", privkey_to_string (private_key n))]) : section).
  assert (Hi : section_ok i).
  { split; [by apply clean_literal|]. split; [done|].
    cbn. repeat (apply Forall_cons; split); [..|constructor];
      apply entry_ok_intro; eauto using clean_dec, clean_key, privkey_text. }
  assert (Hlines : config_lines n =
    (section_lines i ++ flat_map (λ s, "" :: section_lines s ++ [""]) ps)%list).
  { unfold config_lines. f_equal. subst ps. clear.
    induction (entries (peers n)) as [|[k p] l IH]; [done|]. cbn [flat_map fmap list_fmap].
    by rewrite IH. }
  assert (Hclean : Forall clean (config_lines n)).
  { rewrite Hlines. clear Hlines. apply Forall_app. split; [by apply section_lines_clean|].
    clearbody ps. induction Hps as [|s l Hs Hl IH]; [constructor|]. cbn [flat_map].
    apply Forall_app. split; [|done]. apply Forall_cons. split; [by split|].
    apply Forall_app. split; [by apply section_lines_clean|].
    apply Forall_singleton. by split. }
  unfold read_conf. rewrite to_config_lines, lines_unlines;
    [|eapply Forall_impl; [done|]; by intros ? []..].
  rewrite Hlines, foldr_app.
  assert (Hfold : foldr read_step (Some ([], [])) (flat_map (λ s, "" :: section_lines s ++ [""]) ps)
    = Some ([], ps)).
  { clear Hlines Hclean. clearbody ps. induction Hps as [|s l Hs Hl IH]; [done|]. cbn [flat_map].
    rewrite foldr_app, IH. cbn [foldr]. rewrite foldr_app. cbn [foldr].
    unfold read_step at 1 3. cbn [mbind option_bind read_line].
    by rewrite read_section. }
  rewrite Hfold, read_section by done. done.
Qed.
End config_text.

(** ** Witnesses *)
Section witnesses.
#[local] Existing Instances sample_keys sample_url sample_ipnet sample_base32.
#[local] Existing Instances sample_keys_ok sample_url_ok sample_ipnet_ok sample_base32_ok.

Definition sample_peer : PeerState := {|
  ps_preshared_key := Some (KC : Secret);
  ps_allowed_ips := [SNet (IpV4 (ipv4 10 0 0 2)) 32 : IpNet; SNet (IpV4 (ipv4 10 1 0 9)) 16];
  ps_endpoint := Some (SockV4 (ipv4 170 24 12 42) 41213)
|}.
Definition sample_network_state (port : Z) : NetworkState := {|
  private_key := (KA : Privkey);
  listen_port := port;
  mtu := 1400;
  address := [SNet (IpV4 (ipv4 10 0 0 1)) 16 : IpNet];
  peers := {[ (KB : Pubkey) := sample_peer ]};
  proxy := {[ ("https://git.a.com" : Url) := [SockV4 (ipv4 10 0 0 1) 8000; SockV4 (ipv4 10 0 0 2) 5000];
              ("http://chat.a.com" : Url) := [SockV4 (ipv4 10 0 0 2) 7000];
              ("ssh://git.a.com" : Url) := [SockV4 (ipv4 10 0 0 2) 22] ]}
|}.
(** A network that asks for one mapping too many. *)
Definition crowded_network : NetworkState := {|
  private_key := (KA : Privkey); listen_port := 1; mtu := 1400; address := []; peers := ∅;
  proxy := {[ ("https://a.com" : Url) := replicate (Z.to_nat 63537) (SockV4 0 0) ]}
|}.

Lemma port_mappings_bounds_witness :
  is_ok (port_mappings (T := debug64) (sample_network_state 12312)) = true ∧
  port_mappings (T := debug64) crowded_network = Panic.
Proof.
  split.
  - destruct (port_mappings_bounds (T := debug64) (sample_network_state 12312)) as [H _].
    destruct H as (ms & -> & _); [by vm_compute|done].
  - apply (port_mappings_bounds (T := debug64) crowded_network); [by vm_compute|done].
Defined.

Lemma veth_address_unique_witness :
  ∃ a b bridge, veth_ipv4net (sample_network_state 12312) = Ok a ∧
    veth_ipv4net (sample_network_state 1) = Ok b ∧ BRIDGE_NET = Ok bridge ∧
    ipv4net_addr a / 2 ^ 16 = ipv4 0 0 172 99 ∧
    (ipv4net_addr a = ipv4net_addr b ↔ 12312 = 1) ∧
    (ipv4net_addr a = ipv4net_addr bridge ↔ 12312 = 1).
Proof.
  apply (veth_address_unique (sample_network_state 12312) (sample_network_state 1));
    by vm_compute.
Defined.

Lemma forwarding_of_routes_witness :
  ∃ f, forwarding_of (T := release64) [sample_network_state 12312; sample_network_state 7]
         [("https://x.org" : Url, SockV4 (ipv4 127 0 0 1) 80)] = Ok f ∧
    forwarding_repr f
      (flat_map network_routes [sample_network_state 12312; sample_network_state 7] ++
       (uncurry url_route <$> [("https://x.org" : Url, SockV4 (ipv4 127 0 0 1) 80)])).
Proof.
  apply (forwarding_of_routes (T := release64)).
  repeat (apply Forall_cons; split); [by vm_compute..|constructor].
Defined.

Lemma to_config_sections_witness :
  read_conf (to_config (sample_network_state 12312)) = Some (conf_sections (sample_network_state 12312)).
Proof.
  apply to_config_sections. intros k p Hp. cbn in Hp.
  apply lookup_singleton_Some in Hp as [_ <-].
  unfold peer_clean. repeat (apply Forall_cons; split); [by vm_compute..|constructor].
Defined.
End witnesses.
