(* ===== verification/Tera.v ===== *)
(** * The template language

    The part of tera's language that the templates of the gateway use:
    variables with dotted paths, loops over arrays and over the entries of
    objects in the order of their keys, and white space control.  [compile]
    reads a template and [eval] renders it on data; that the engine does the
    same on what they accept is the documented behaviour that [TeraOk]
    states. *)
From S2P Require Import Prelude Text BTree.
From Stdlib Require Import Ascii.

Local Open Scope string_scope.

(** ** Data, as serde presents it *)
Inductive tvalue :=
| VStr (s : string)
| VNum (n : Z)
| VArr (l : list tvalue)
| VObj (fields : list (string * tvalue)).

(** No object has a key twice. *)
Inductive proper : tvalue → Prop :=
| proper_str s : proper (VStr s)
| proper_num n : proper (VNum n)
| proper_arr l : Forall proper l → proper (VArr l)
| proper_obj fields : NoDup fields.*1 → Forall (λ f, proper f.2) fields → proper (VObj fields).

(** ** Templates *)
Inductive tmpl :=
| TEnd
| TText (s : string) (rest : tmpl)
| TVar (path : list string) (rest : tmpl)
| TFor (key : option string) (value : string) (path : list string) (body rest : tmpl).

Fixpoint assoc {A} (x : string) (l : list (string * A)) : option A :=
  match l with
  | [] => None
  | (y, a) :: l => if String.eqb x y then Some a else assoc x l
  end.
Fixpoint field (path : list string) (v : tvalue) : option tvalue :=
  match path with
  | [] => Some v
  | x :: path => match v with VObj fields => assoc x fields ≫= field path | _ => None end
  end.
Definition variable (path : list string) (env : list (string * tvalue)) : option tvalue :=
  match path with [] => None | x :: path => assoc x env ≫= field path end.
Definition show (v : tvalue) : option string :=
  match v with VStr s => Some s | VNum n => Some (dec n) | _ => None end.

(** One round of a loop after the other. *)
Definition each {A} (f : A → option string) (l : list A) : option string :=
  foldr (λ x acc, s ← f x; rest ← acc; Some (s ++ rest)) (Some "") l.

(** The fields of an object, as serde_json keeps them. *)
Definition sorted (fields : list (string * tvalue)) : list (string * tvalue) := merge_sort entry_le fields.

(** [None] is an error: an unknown variable or data of another kind. *)
Fixpoint eval (t : tmpl) (env : list (string * tvalue)) : option string :=
  match t with
  | TEnd => Some ""
  | TText s rest => rest ← eval rest env; Some (s ++ rest)
  | TVar path rest =>
      v ← variable path env; s ← show v; rest ← eval rest env; Some (s ++ rest)
  | TFor key value path body rest =>
      v ← variable path env;
      s ← match key, v with
          | None, VArr l => each (λ x, eval body ((value, x) :: env)) l
          | Some key, VObj l => each (λ '(k, x), eval body ((key, VStr k) :: (value, x) :: env)) (sorted l)
          | _, _ => None
          end;
      rest ← eval rest env; Some (s ++ rest)
  end.

(** ** Reading a template *)
Definition is_blank (a : ascii) : bool :=
  Ascii.eqb a " " || Ascii.eqb a LF || Ascii.eqb a CR || Ascii.eqb a TAB.
Fixpoint trim_start (s : string) : string :=
  match s with String a r => if is_blank a then trim_start r else s | "" => "" end.
Fixpoint trim_end (s : string) : string :=
  match s with
  | "" => ""
  | String a r =>
      let r := trim_end r in
      if is_blank a && String.eqb r "" then "" else String a r
  end.
Fixpoint words_go (s word : string) : list string :=
  match s with
  | "" => [word]
  | String a r => if is_blank a then word :: words_go r "" else words_go r (word ++ char_str a)
  end.
Definition words (s : string) : list string := filter (λ w, w ≠ "") (words_go s "").

(** The text up to an opening [{{] or [{%], and what follows it. *)
Fixpoint find_open (s : string) : string * option (bool * string) :=
  match s with
  | "" => ("", None)
  | String a t =>
      match t with
      | "" => (s, None)
      | String b r =>
          if Ascii.eqb a "{" && Ascii.eqb b "{" then ("", Some (true, r))
          else if Ascii.eqb a "{" && Ascii.eqb b "%" then ("", Some (false, r))
          else let '(text, o) := find_open t in (String a text, o)
      end
  end.
(** The inside of a tag, up to the closing [}}] or [%}]. *)
Fixpoint find_close (c : ascii) (s : string) : option (string * string) :=
  match s with
  | "" => None
  | String a t =>
      match t with
      | "" => None
      | String b r =>
          if Ascii.eqb a c && Ascii.eqb b "}" then Some ("", r)
          else '(inner, r) ← find_close c t; Some (String a inner, r)
      end
  end.

(** The dashes that ask for white space to be stripped. *)
Definition dash_start (s : string) : bool * string :=
  match s with String a r => if Ascii.eqb a "-" then (true, r) else (false, s) | "" => (false, s) end.
Fixpoint dash_end (s : string) : bool * string :=
  match s with
  | "" => (false, "")
  | String a "" => if Ascii.eqb a "-" then (true, "") else (false, s)
  | String a r => let '(d, r) := dash_end r in (d, String a r)
  end.

Inductive piece :=
| PText (s : string)
| PTag (variable before after : bool) (words : list string).

Fixpoint pieces (fuel : nat) (s : string) : option (list piece) :=
  match fuel with
  | O => None
  | S fuel =>
      match find_open s with
      | (text, None) => Some [PText text]
      | (text, Some (is_variable, r)) =>
          '(inner, r) ← find_close (if is_variable then "}" else "%") r;
          let '(before, inner) := dash_start inner in
          let '(after, inner) := dash_end inner in
          rest ← pieces fuel r;
          Some (PText text :: PTag is_variable before after (words inner) :: rest)
      end
  end.
(** [{%-] strips the text before it and [-%}] the text after it. *)
Fixpoint strip (after : bool) (ps : list piece) : list piece :=
  match ps with
  | [] => []
  | PText s :: rest =>
      let s := if after then trim_start s else s in
      let s := match rest with PTag _ true _ _ :: _ => trim_end s | _ => s end in
      PText s :: strip false rest
  | PTag v b a ws :: rest => PTag v b a ws :: strip a rest
  end.

(** Names, and the words that are none. *)
Definition is_letter (a : ascii) : bool :=
  let n := nat_of_ascii a in
  (65 <=? n)%nat && (n <=? 90)%nat || (97 <=? n)%nat && (n <=? 122)%nat || Ascii.eqb a "_".
Fixpoint name_chars (s : string) : bool :=
  match s with "" => true | String a r => (is_letter a || bool_decide (is_Some (char_digit a))) && name_chars r end.
Definition keywords : list string :=
  ["true"; "false"; "True"; "False"; "and"; "or"; "not"; "is"; "in"; "self"; "super"; "loop"; "__tera_context"].
Definition is_name (s : string) : bool :=
  match s with "" => false | String a _ => is_letter a && name_chars s && bool_decide (s ∉ keywords) end.
Definition name_of (s : string) : option string := if is_name s then Some s else None.
Definition path_of (s : string) : option (list string) :=
  let path := split_on "." s in if forallb is_name path then Some path else None.
(** A name with the comma that separates it from the next one. *)
Fixpoint before_comma (s : string) : option string :=
  match s with
  | "" => None
  | String a "" => if Ascii.eqb a "," then Some "" else None
  | String a r => String a <$> before_comma r
  end.

(** A sequence of pieces up to the end, or to the end of the loop it is in. *)
Fixpoint parse (fuel : nat) (in_loop : bool) (ps : list piece) : option (tmpl * list piece) :=
  match fuel with
  | O => None
  | S fuel =>
      match ps with
      | [] => if in_loop then None else Some (TEnd, [])
      | PText s :: ps => '(t, ps) ← parse fuel in_loop ps; Some (TText s t, ps)
      | PTag true _ _ [x] :: ps =>
          x ← path_of x; '(t, ps) ← parse fuel in_loop ps; Some (TVar x t, ps)
      | PTag false _ _ ["endfor"] :: ps => if in_loop then Some (TEnd, ps) else None
      | PTag false _ _ ["for"; x; "in"; p] :: ps =>
          x ← name_of x; p ← path_of p;
          '(body, ps) ← parse fuel true ps;
          '(t, ps) ← parse fuel in_loop ps;
          Some (TFor None x p body t, ps)
      | PTag false _ _ ["for"; k; x; "in"; p] :: ps =>
          k ← before_comma k ≫= name_of; x ← name_of x; p ← path_of p;
          '(body, ps) ← parse fuel true ps;
          '(t, ps) ← parse fuel in_loop ps;
          Some (TFor (Some k) x p body t, ps)
      | _ => None
      end
  end.

(** Characters the fragment has: printable ones and [is_blank]. *)
Fixpoint plain_text (s : string) : bool :=
  match s with
  | "" => true
  | String a r => (is_blank a || (32 <=? nat_of_ascii a)%nat && (nat_of_ascii a <=? 126)%nat) && plain_text r
  end.
(** [{#] opens a comment, which the fragment has none of. *)
Fixpoint no_comment (s : string) : bool :=
  match s with
  | "" => true
  | String a r => negb (Ascii.eqb a "{" && starts_with "#" r) && no_comment r
  end.

(** A tag takes at least four characters, a piece at least one step. *)
Definition compile (text : string) : option tmpl :=
  guard (plain_text text = true ∧ no_comment text = true);;
  ps ← pieces (S (String.length text)) text;
  '(t, _) ← parse (S (length ps)) false (strip false ps);
  Some t.

#[global] Arguments compile : simpl never.

(** ** The engine *)
Class Tera := {
  tera_engine : Type;
  tera_context : Type;
  tera_add_raw_templates : list (string * string) → outcome tera_engine;
  context_from_serialize : tvalue → outcome tera_context;
  tera_engine_render : tera_engine → string → tera_context → outcome string
}.
(** The output of a template with one of these endings is escaped. *)
Definition escaped (name : string) : bool :=
  existsb (λ ending, bool_decide (slice_from (String.length name - String.length ending) name = Ok ending))
    [".html"; ".htm"; ".xml"].

(** Templates of the fragment are accepted and render as [eval] says. *)
Class TeraOk (TE : Tera) : Prop := {
  tera_accepts ts : Forall (λ nt, is_Some (compile nt.2)) ts → ∃ e, tera_add_raw_templates ts = Ok e;
  tera_serializes fields : ∃ ctx, context_from_serialize (VObj fields) = Ok ctx;
  tera_renders ts e name text t fields ctx out :
    NoDup ts.*1 → escaped name = false → proper (VObj fields) → tera_add_raw_templates ts = Ok e → (name, text) ∈ ts → compile text = Some t →
    context_from_serialize (VObj fields) = Ok ctx → eval t fields = Some out →
    tera_engine_render e name ctx = Ok out
}.

(** An engine for the fragment. *)
Definition compile_named (nt : string * string) : outcome (string * tmpl) :=
  match compile nt.2 with Some t => Ok (nt.1, t) | None => Err (EMsg "Failed to parse") end.
Definition sample_tera : Tera := {|
  tera_engine := list (string * tmpl);
  tera_context := list (string * tvalue);
  tera_add_raw_templates := collect compile_named;
  context_from_serialize v := match v with VObj fields => Ok fields | _ => Err (EMsg "not an object") end;
  tera_engine_render e name ctx :=
    match assoc name e ≫= λ t, eval t ctx with Some s => Ok s | None => Err (EMsg "Failed to render") end
|}.

Lemma assoc_NoDup {A} x (a : A) l : NoDup l.*1 → (x, a) ∈ l → assoc x l = Some a.
Proof.
  induction l as [|[y b] l IH]; cbn; [set_solver|]. intros [Hy Hn]%NoDup_cons [[= -> ->]|Hin]%elem_of_cons.
  - by rewrite String.eqb_refl.
  - destruct (String.eqb_spec x y) as [->|]; [|by apply IH].
    destruct Hy. apply list_elem_of_fmap. by exists (y, a).
Qed.

(** What the engine keeps of its templates. *)
Lemma compiled_templates ts e :
  collect compile_named ts = Ok e →
  e.*1 = ts.*1 ∧ ∀ name text t, (name, text) ∈ ts → compile text = Some t → (name, t) ∈ e.
Proof.
  intros H%collect_Ok. induction H as [|[n x] [n' t'] ts e Hx _ [Hk IH]]; [split; [done|set_solver]|].
  unfold compile_named in Hx. cbn in Hx.
  destruct (compile x) as [u|] eqn:Hu; [|done]. injection Hx as <- <-. cbn. rewrite Hk. split; [done|].
  intros name text t [[= -> ->]|Hin]%elem_of_cons Ht.
  - rewrite Ht in Hu. injection Hu as ->. by left.
  - right. by eapply IH.
Qed.

Lemma sample_tera_ok : TeraOk sample_tera.
Proof.
  split.
  - intros ts Hts. cbn. induction Hts as [|[name text] ts [t Ht] _ [e He]]; [by eexists|].
    exists ((name, t) :: e). apply collect_Ok. constructor; [|by apply collect_Ok].
    unfold compile_named. cbn in Ht |- *. by rewrite Ht.
  - intros fields. by eexists.
  - intros ts e name text t fields ctx out Hn _ _ He Hin Ht [= <-] Hout. cbn in *.
    apply compiled_templates in He as [Hk He].
    rewrite (assoc_NoDup name t e) by (rewrite ?Hk; eauto). cbn. by rewrite Hout.
Qed.
