(* ===== verification/Render.v ===== *)
(** * The three templates

    Models templates/iptables.save.tera, templates/nginx.conf.tera and
    templates/sites.nginx.conf.tera: their texts as the program embeds them
    ([IPTABLES_SAVE], [NGINX_CONF], [SITES_NGINX_CONF]), the data they are
    rendered on as [Serialize] presents it, and [TERA_TEMPLATES] of
    src/gateway.rs.  [render_iptables], [render_nginx] and [render_sites] say
    what comes out; [eval_iptables], [eval_nginx] and [eval_sites] prove it
    from the language of [Tera]. *)
From S2P Require Import Prelude Text BTree Net Crates Samples Client Types Tera.
From Stdlib Require Import Ascii.

Local Open Scope string_scope.
Local Open Scope Z_scope.

(** ** Template texts

    [{% for x in xs %} .. {% endfor %}] *)
Definition tfor {A} (xs : list A) (body : A → string) : string :=
  foldr (λ x s, body x ++ s) "" xs.

Definition prerouting (c : PortConfig) (m : PortMapping) : string :=
  "-A PREROUTING -i " ++ interface_in c ++ " -p tcp -m tcp --dport " ++ dec (port_in m) ++
  " -j DNAT --to-destination " ++ ip_to_string (ip_out m) ++ ":" ++ dec (port_out m).
Definition postrouting (c : PortConfig) (m : PortMapping) : string :=
  "-A POSTROUTING -o " ++ interface_out c ++ " -p tcp -m tcp --dport " ++ dec (port_out m) ++
  " -j SNAT --to-source " ++ ip_to_string (ip_source c).
Definition chains : list string :=
  [":PREROUTING ACCEPT [0:0]"; ":INPUT ACCEPT [0:0]"; ":OUTPUT ACCEPT [0:0]"; ":POSTROUTING ACCEPT [0:0]"].

Definition render_iptables (c : PortConfig) : string :=
  unlines ("*nat" :: chains) ++
  tfor (mappings c) (λ m, prerouting c m ++ nl) ++
  tfor (mappings c) (λ m, postrouting c m ++ nl) ++
  "COMMIT" ++ nl.

Definition render_nginx (f : Forwarding) : string :=
  "stream {" ++ nl ++
  "  map $ssl_preread_server_name $https_backend { " ++
  tfor (entries (https_forwarding f)) (λ '(domain, upstream),
    nl ++ "    " ++ domain ++ " " ++ upstream ++ ";") ++ nl ++
  "  }" ++ nl ++
  "  " ++ tfor (entries (https_upstream f)) (λ '(upstream, servers), nl ++
    "  upstream " ++ upstream ++ " { " ++
    tfor servers (λ server, nl ++ "    server " ++ sock_to_string server ++ ";") ++ nl ++
    "  }" ++ nl ++
    "  ") ++ nl ++
  "  server {" ++ nl ++
  "    listen 443;" ++ nl ++
  "    proxy_connect_timeout 1s;" ++ nl ++
  "    proxy_timeout 60s;" ++ nl ++
  "    proxy_pass $https_backend;" ++ nl ++
  "    ssl_preread on;" ++ nl ++
  "  }" ++ nl ++
  "}" ++ nl.

(** [-%}] and [{%-] strip the white space next to them. *)
Definition render_sites (f : Forwarding) : string :=
  tfor (entries (http_upstream f)) (λ '(upstream, servers),
    "upstream " ++ upstream ++ " {" ++
    tfor servers (λ server, nl ++ "  server " ++ sock_to_string server ++ ";") ++ nl ++
    "}" ++ nl ++ nl) ++
  tfor (entries (http_forwarding f)) (λ '(domain, upstream), nl ++
    "server {" ++ nl ++
    "  server_name " ++ domain ++ ";" ++ nl ++
    "  listen 80;" ++ nl ++
    "  #listen [::]:80 ipv6only=off;" ++ nl ++
    nl ++
    "  location / {" ++ nl ++
    "    proxy_set_header Host $host;" ++ nl ++
    "    proxy_set_header X-Real-IP $remote_addr;" ++ nl ++
    "    proxy_pass http://" ++ upstream ++ ";" ++ nl ++
    "  }" ++ nl ++
    "}" ++ nl) ++ nl.

(** ** The template files *)
Definition IPTABLES_SAVE : string :=
"*nat
:PREROUTING ACCEPT [0:0]
:INPUT ACCEPT [0:0]
:OUTPUT ACCEPT [0:0]
:POSTROUTING ACCEPT [0:0]
{% for mapping in mappings %}-A PREROUTING -i {{ interface_in }} -p tcp -m tcp --dport {{ mapping.port_in }} -j DNAT --to-destination {{ mapping.ip_out }}:{{ mapping.port_out }}
{% endfor %}{% for mapping in mappings %}-A POSTROUTING -o {{ interface_out }} -p tcp -m tcp --dport {{ mapping.port_out }} -j SNAT --to-source {{ ip_source }}
{% endfor %}COMMIT
".
Definition NGINX_CONF : string :=
"stream {
  map $ssl_preread_server_name $https_backend { {% for domain, upstream in https_forwarding %}
    {{ domain }} {{ upstream }};{% endfor %}
  }
  {% for upstream, servers in https_upstream %}
  upstream {{ upstream }} { {% for server in servers %}
    server {{ server }};{% endfor %}
  }
  {% endfor %}
  server {
    listen 443;
    proxy_connect_timeout 1s;
    proxy_timeout 60s;
    proxy_pass $https_backend;
    ssl_preread on;
  }
}
".
Definition SITES_NGINX_CONF : string :=
"{% for upstream, servers in http_upstream -%}
upstream {{ upstream }} {
  {%- for server in servers %}
  server {{ server }};
  {%- endfor %}
}

{% endfor %}
{%- for domain, upstream  in http_forwarding %}
server {
  server_name {{ domain }};
  listen 80;
  #listen [::]:80 ipv6only=off;

  location / {
    proxy_set_header Host $host;
    proxy_set_header X-Real-IP $remote_addr;
    proxy_pass http://{{ upstream }};
  }
}
{% endfor %}
".

(** What the texts are, read as templates. *)
Definition iptables_template : tmpl := Eval vm_compute in default TEnd (compile IPTABLES_SAVE).
Definition nginx_template : tmpl := Eval vm_compute in default TEnd (compile NGINX_CONF).
Definition sites_template : tmpl := Eval vm_compute in default TEnd (compile SITES_NGINX_CONF).

Lemma compile_iptables : compile IPTABLES_SAVE = Some iptables_template.
Proof. by vm_compute. Qed.
Lemma compile_nginx : compile NGINX_CONF = Some nginx_template.
Proof. by vm_compute. Qed.
Lemma compile_sites : compile SITES_NGINX_CONF = Some sites_template.
Proof. by vm_compute. Qed.

(** The derived [Serialize] instances. *)
Definition serialize_mapping (m : PortMapping) : tvalue :=
  VObj [("port_in", VNum (port_in m)); ("port_out", VNum (port_out m)); ("ip_out", VStr (ip_to_string (ip_out m)))].
Definition serialize_ports (c : PortConfig) : list (string * tvalue) :=
  [("interface_in", VStr (interface_in c)); ("interface_out", VStr (interface_out c));
   ("ip_source", VStr (ip_to_string (ip_source c))); ("mappings", VArr (serialize_mapping <$> mappings c))].
Definition serialize_names (m : gmap string string) : tvalue := VObj ((λ '(k, v), (k, VStr v)) <$> entries m).
Definition serialize_servers (m : gmap string (list SocketAddr)) : tvalue :=
  VObj ((λ '(k, l), (k, VArr (VStr ∘ sock_to_string <$> l))) <$> entries m).
Definition serialize_forwarding (f : Forwarding) : list (string * tvalue) :=
  [("https_forwarding", serialize_names (https_forwarding f)); ("https_upstream", serialize_servers (https_upstream f));
   ("http_forwarding", serialize_names (http_forwarding f)); ("http_upstream", serialize_servers (http_upstream f));
   ("ssh_forwarding", VObj ((λ '(k, a), (k, VStr (sock_to_string a))) <$> entries (ssh_forwarding f)))].

(** *** Rendering the templates *)
Lemma each_tfor {A B} (f : A → option string) (g : B → A) (body : B → string) l :
  (∀ x, f (g x) = Some (body x)) → each f (g <$> l) = Some (tfor l body).
Proof. intros Hf. induction l as [|x l IH]; cbn; [done|]. unfold each in IH. by rewrite Hf, IH. Qed.

Lemma sorted_entries {V} (f : string → V → tvalue) (m : gmap string V) :
  sorted ((λ '(k, v), (k, f k v)) <$> entries m) = (λ '(k, v), (k, f k v)) <$> entries m.
Proof.
  rewrite <-entries_imap. unfold sorted. apply sorted_keys_unique.
  - apply (StronglySorted_merge_sort _).
  - apply entries_sorted.
  - rewrite merge_sort_Permutation. apply NoDup_map_keys.
  - apply merge_sort_Permutation.
Qed.

Lemma tfor_ext {A} (l : list A) f g : (∀ x, f x = g x) → tfor l f = tfor l g.
Proof. intros H. unfold tfor. induction l as [|x l IH]; cbn; [done|]. by rewrite H, IH. Qed.

(** The engine's text against the text written out. *)
Ltac is_pair x := lazymatch type of x with prod _ _ => idtac end.
Ltac same_text_go :=
  lazymatch goal with
  | |- String ?a _ = String _ _ => apply (f_equal (String a)); same_text_go
  | |- tfor ?l _ +:+ _ = tfor ?l _ +:+ _ => apply f_equal2; [same_rounds|same_text_go]
  | |- tfor ?l _ = tfor ?l _ => same_rounds
  | |- ?x +:+ _ = ?x +:+ _ => apply (f_equal (String.append x)); same_text_go
  | |- _ => reflexivity
  end
with same_rounds :=
  apply tfor_ext; let x := fresh "x" in intros x; try (is_pair x; destruct x as [? ?]); same_text
with same_text :=
  repeat (rewrite ?string_app_assoc, ?string_app_nil_r; progress cbn [String.append nl char_str unlines chains LF]);
  rewrite ?string_app_assoc, ?string_app_nil_r; same_text_go.

Lemma each_entries {V} (f : string * tvalue → option string) (h : string → V → tvalue) (body : string → V → string) l :
  (∀ k v, f (k, h k v) = Some (body k v)) →
  each f ((λ '(k, v), (k, h k v)) <$> l) = Some (tfor l (λ '(k, v), body k v)).
Proof. intros Hf. apply each_tfor. by intros [k v]. Qed.

(** A loop renders when its rounds do. *)
Ltac rounds :=
  cbn -[each String.append sorted dec];
  lazymatch goal with
  | |- context [each _ _] =>
      first [erewrite each_entries by (intros ??; rounds) | erewrite each_tfor by (intros ?; rounds)]; rounds
  | |- _ => reflexivity
  end.

(** The engine's texts are the texts above. *)
Lemma eval_iptables c : eval iptables_template (serialize_ports c) = Some (render_iptables c).
Proof.
  unfold iptables_template. etransitivity; [rounds|]. apply (f_equal Some).
  unfold render_iptables, prerouting, postrouting. same_text.
Qed.
Lemma eval_nginx f : eval nginx_template (serialize_forwarding f) = Some (render_nginx f).
Proof.
  unfold nginx_template. cbn -[each String.append sorted].
  unfold serialize_servers, serialize_names. rewrite !sorted_entries.
  etransitivity; [rounds|]. apply (f_equal Some). unfold render_nginx. same_text.
Qed.
Lemma eval_sites f : eval sites_template (serialize_forwarding f) = Some (render_sites f).
Proof.
  unfold sites_template. cbn -[each String.append sorted].
  unfold serialize_servers, serialize_names. rewrite !sorted_entries.
  etransitivity; [rounds|]. apply (f_equal Some). unfold render_sites. same_text.
Qed.

(** ** The engine of the program

    [TERA_TEMPLATES] is built on first use; a template that cannot be read
    panics. *)
Definition templates : list (string * string) :=
  [("iptables.save", IPTABLES_SAVE); ("nginx.conf", NGINX_CONF); ("sites.nginx.conf", SITES_NGINX_CONF)].

Section engine.
Context `{TE : Tera}.

Definition TERA_TEMPLATES : outcome tera_engine :=
  match tera_add_raw_templates templates with Ok tera => Ok tera | _ => Panic end.
Definition tera_render (name : string) (context : tera_context) : outcome string :=
  tera ← TERA_TEMPLATES; tera_engine_render tera name context.
Definition context_of_ports (c : PortConfig) : outcome tera_context :=
  context_from_serialize (VObj (serialize_ports c)).
Definition context_of_forwarding (f : Forwarding) : outcome tera_context :=
  context_from_serialize (VObj (serialize_forwarding f)).
End engine.

Lemma proper_ports c : proper (VObj (serialize_ports c)).
Proof.
  constructor; [by apply (bool_decide_unpack _)|]. repeat constructor. cbn.
  apply Forall_fmap, Forall_true. intros m. constructor; [|repeat constructor].
  by apply (bool_decide_unpack _).
Qed.

Lemma proper_entries {V} (h : string → V → tvalue) (m : gmap string V) :
  (∀ k v, proper (h k v)) → proper (VObj ((λ '(k, v), (k, h k v)) <$> entries m)).
Proof.
  intros Hh. constructor.
  - rewrite <-list_fmap_compose.
    rewrite (list_fmap_ext _ fst) by (by intros ? [] ?). apply NoDup_map_keys.
  - apply Forall_fmap, Forall_true. intros [k v]. apply Hh.
Qed.

Lemma proper_forwarding f : proper (VObj (serialize_forwarding f)).
Proof.
  constructor; [by apply (bool_decide_unpack _)|].
  repeat apply Forall_cons_2; [| | | | |by apply Forall_nil_2]; cbn; apply proper_entries; intros k v;
    constructor; apply Forall_fmap, Forall_true; constructor.
Qed.

Section rendering.
Context `{TEO : !TeraOk TE}.

Lemma templates_accepted : ∃ e, tera_add_raw_templates templates = Ok e ∧ TERA_TEMPLATES = Ok e.
Proof.
  destruct (tera_accepts templates) as [e He].
  - repeat constructor; cbn; rewrite ?compile_iptables, ?compile_nginx, ?compile_sites; by eexists.
  - exists e. unfold TERA_TEMPLATES. by rewrite He.
Qed.

Lemma tera_render_text name text t fields ctx out :
  (name, text) ∈ templates → compile text = Some t → proper (VObj fields) →
  context_from_serialize (VObj fields) = Ok ctx → eval t fields = Some out → tera_render name ctx = Ok out.
Proof.
  intros Hin Ht Hp Hctx Hout. destruct templates_accepted as (e & He & Hr).
  unfold tera_render. rewrite Hr. cbn. eapply tera_renders; try done.
  - by apply (bool_decide_unpack _).
  - revert Hin. unfold templates. rewrite !elem_of_cons, elem_of_nil.
    by intros [[= -> _]|[[= -> _]|[[= -> _]|[]]]]; vm_compute.
Qed.

Lemma tera_ports c :
  ∃ ctx, context_of_ports c = Ok ctx ∧ tera_render "iptables.save" ctx = Ok (render_iptables c).
Proof.
  destruct (tera_serializes (serialize_ports c)) as [ctx Hctx]. exists ctx. split; [done|].
  eapply tera_render_text; [|apply compile_iptables|apply proper_ports|done|apply eval_iptables]. by left.
Qed.

Lemma tera_forwarding f :
  ∃ ctx, context_of_forwarding f = Ok ctx ∧ tera_render "nginx.conf" ctx = Ok (render_nginx f) ∧
    tera_render "sites.nginx.conf" ctx = Ok (render_sites f).
Proof.
  destruct (tera_serializes (serialize_forwarding f)) as [ctx Hctx]. exists ctx. split; [done|].
  split; eapply tera_render_text;
    [|apply compile_nginx|apply proper_forwarding|done|apply eval_nginx|
     |apply compile_sites|apply proper_forwarding|done|apply eval_sites]; [by right; left|by right; right; left].
Qed.
End rendering.
