(* ===== verification/Templates.v ===== *)
(** * The packet rules of a network

    [clean_iptables] of src/gateway.rs and the save file it makes of the
    rendered template, read back as the rules it stands for. *)
From S2P Require Import Prelude Text BTree Net Crates Samples Client Types Tera Render.
From Stdlib Require Import Ascii.

Local Open Scope string_scope.
Local Open Scope Z_scope.

(** ** Cleaning a save file *)
Section clean.
Context `{RC : RegexCrate}.

Definition is_comment (line : string) : bool := starts_with "#" line.
Definition replace_packet_counter (line : string) : string :=
  regex_replace counter_pattern line counter_zero.

Definition clean_iptables (input : string) : string :=
  let cleaned := lines input in
  let cleaned := filter (λ line, is_comment line = false) cleaned in
  let cleaned := filter (λ line, line ≠ "") cleaned in
  join nl (replace_packet_counter <$> cleaned) ++ nl.
End clean.

Section savefile.
Context `{T : Target} `{WK : WireguardKeys} `{UC : UrlCrate} `{IC : IpnetCrate} `{RC : RegexCrate} `{TE : Tera}.

(** The packet rules of a network: the rendered and cleaned save file. *)
Definition iptables_savefile (network : NetworkState) : outcome string :=
  config ← port_config network;
  context ← context_of_ports config;
  savefile ← tera_render "iptables.save" context;
  Ok (clean_iptables savefile).

End savefile.

(** ** What cleaning keeps *)
Section cleaning.
Context `{RCO : !RegexCrateOk RC}.

Lemma replace_counter pre d1 d2 :
  digit_run d1 → digit_run d2 →
  replace_packet_counter (pre ++ counter_text d1 d2) = pre ++ counter_zero.
Proof.
  intros H1 H2. unfold replace_packet_counter.
  destruct (regex_replace_counter (pre ++ counter_text d1 d2))
    as [(pre' & e1 & e2 & He1 & He2 & He & ->) | [Hno _]]; [|by destruct (Hno pre d1 d2)].
  f_equal. symmetry. unfold counter_text in He.
  refine (proj1 (last_char_split "[" pre pre' (d1 ++ ":" ++ d2 ++ "]") (e1 ++ ":" ++ e2 ++ "]") _ _ He));
    rewrite !has_char_app; cbn; by rewrite !digit_run_chars.
Qed.

(** Lines that differ in their packet counters only. *)
Definition same_line (x y : string) : Prop :=
  x = y ∨ ∃ pre d1 d2 e1 e2, digit_run d1 ∧ digit_run d2 ∧ digit_run e1 ∧ digit_run e2 ∧
    x = pre ++ counter_text d1 d2 ∧ y = pre ++ counter_text e1 e2.

Lemma replace_cases line :
  ∃ pre s t, line = pre ++ s ∧ replace_packet_counter line = pre ++ t ∧
    ((s = "" ∧ t = "") ∨ ∃ d1 d2, digit_run d1 ∧ digit_run d2 ∧ s = counter_text d1 d2 ∧ t = counter_zero).
Proof.
  unfold replace_packet_counter.
  destruct (regex_replace_counter line) as [(pre & d1 & d2 & H1 & H2 & Hl & ->) | [_ ->]].
  - exists pre, (counter_text d1 d2), counter_zero. split; [done|]. split; [done|].
    right. by exists d1, d2.
  - exists line, "", "". rewrite string_app_nil_r. auto.
Qed.

Lemma replace_idemp line :
  replace_packet_counter (replace_packet_counter line) = replace_packet_counter line.
Proof.
  destruct (replace_cases line) as (pre & s & t & -> & Hr & [[-> ->]|(d1 & d2 & _ & _ & -> & ->)]);
    rewrite Hr.
  - by rewrite string_app_nil_r in *.
  - apply (replace_counter pre "0" "0"); apply digit_run_zero.
Qed.

Lemma replace_head line :
  (replace_packet_counter line = "" ↔ line = "") ∧
  is_comment (replace_packet_counter line) = is_comment line.
Proof.
  destruct (replace_cases line) as (pre & s & t & -> & -> & [[-> ->]|(d1 & d2 & _ & _ & -> & ->)]);
    by destruct pre.
Qed.

Lemma replace_char c line :
  has_char c counter_zero = false → has_char c line = false →
  has_char c (replace_packet_counter line) = false.
Proof.
  destruct (replace_cases line) as (pre & s & t & -> & -> & Hst). rewrite !has_char_app.
  intros Hc [-> Hs]%orb_false_iff. by destruct Hst as [[-> ->]|(d1 & d2 & _ & _ & -> & ->)].
Qed.

Lemma same_line_spec x y : same_line x y ↔ replace_packet_counter x = replace_packet_counter y.
Proof.
  split.
  - intros [->|(pre & d1 & d2 & e1 & e2 & ? & ? & ? & ? & -> & ->)]; [done|].
    by rewrite !replace_counter.
  - destruct (replace_cases x) as (p & s & t & -> & -> & Hx).
    destruct (replace_cases y) as (q & u & v & -> & -> & Hy).
    assert (Hz := digit_run_zero).
    destruct Hx as [[-> ->]|(d1 & d2 & ? & ? & -> & ->)], Hy as [[-> ->]|(e1 & e2 & ? & ? & -> & ->)];
      rewrite ?string_app_nil_r.
    + by left.
    + intros ->. right. by exists q, "0", "0", e1, e2.
    + intros <-. right. by exists p, d1, d2, "0", "0".
    + intros ->%string_app_inj_r. right. by exists q, d1, d2, e1, e2.
Qed.

Definition dropped (line : string) : Prop := line = "" ∨ is_comment line = true.

(** Two save files that differ in comments, blank lines and counters only. *)
Inductive noise : list string → list string → Prop :=
| noise_nil : noise [] []
| noise_left x l l' : dropped x → noise l l' → noise (x :: l) l'
| noise_right x l l' : dropped x → noise l l' → noise l (x :: l')
| noise_line x y l l' : same_line x y → noise l l' → noise (x :: l) (y :: l').

(** The lines that cleaning keeps. *)
Fixpoint kept (l : list string) : list string :=
  match l with
  | [] => []
  | x :: l => if is_comment x || bool_decide (x = "") then kept l
              else replace_packet_counter x :: kept l
  end.

Lemma kept_dropped x l : dropped x → kept (x :: l) = kept l.
Proof. intros [-> | Hx]; [done|]. cbn [kept]. by rewrite Hx. Qed.

Lemma kept_solid x l : is_comment x = false → x ≠ "" → kept (x :: l) = replace_packet_counter x :: kept l.
Proof. intros Hx Hne. cbn [kept]. by rewrite Hx, bool_decide_false. Qed.

Lemma dropped_or_solid x : dropped x ∨ is_comment x = false ∧ x ≠ "".
Proof.
  destruct (is_comment x) eqn:Hx; [by left; right|].
  destruct (decide (x = "")); [by left; left|by right].
Qed.

Lemma kept_cons x l : dropped x ∨ kept (x :: l) = replace_packet_counter x :: kept l.
Proof. destruct (dropped_or_solid x) as [|[]]; [by left|right; by apply kept_solid]. Qed.

Lemma kept_noise l l' : kept l = kept l' ↔ noise l l'.
Proof.
  split.
  - revert l'. induction l as [|x l IH]; intros l'.
    + induction l' as [|y l' IH']; [constructor|]. intros H.
      destruct (kept_cons y l') as [Hy|Hy]; [|by rewrite Hy in H].
      rewrite kept_dropped in H by done. apply noise_right; auto.
    + intros H. destruct (kept_cons x l) as [Hx|Hx].
      { rewrite kept_dropped in H by done. apply noise_left; auto. }
      rewrite Hx in H. clear Hx. revert H.
      induction l' as [|y l' IH']; [done|]. intros H.
      destruct (kept_cons y l') as [Hy|Hy].
      { rewrite kept_dropped in H by done. apply noise_right; auto. }
      rewrite Hy in H. injection H as H1 H2. apply noise_line; [by apply same_line_spec|auto].
  - induction 1 as [|x l l' Hx _ IH|x l l' Hx _ IH|x y l l' Hxy _ IH]; [done|..].
    + by rewrite kept_dropped.
    + by rewrite kept_dropped.
    + destruct (replace_head x) as [Hx Hxc], (replace_head y) as [Hy Hyc].
      apply same_line_spec in Hxy. cbn [kept]. rewrite IH, <-Hxc, <-Hyc, Hxy.
      destruct (is_comment (replace_packet_counter y)); cbn [orb]; [done|].
      rewrite Hxy in Hx. repeat case_bool_decide; naive_solver.
Qed.

Definition plain (line : string) : Prop := has_char LF line = false ∧ has_char CR line = false.

Lemma kept_plain l : Forall plain l → Forall plain (kept l) ∧ "" ∉ kept l.
Proof.
  induction 1 as [|x l [Hx1 Hx2] Hl IH]; [split; [done|set_solver]|].
  destruct (kept_cons x l) as [Hx|Hx]; [by rewrite kept_dropped|].
  destruct (replace_head x) as [He _]. destruct (decide (x = "")) as [->|Hne]; [done|].
  rewrite Hx. split; [apply Forall_cons; split; [|by apply IH]|set_solver].
  split; by apply replace_char.
Qed.

Lemma kept_idemp l : kept (kept l) = kept l.
Proof.
  induction l as [|x l IH]; [done|].
  destruct (dropped_or_solid x) as [Hx|[Hx Hne]]; [by rewrite kept_dropped|].
  rewrite kept_solid by done. destruct (replace_head x) as [He Hc].
  rewrite kept_solid, replace_idemp, IH; [done|by rewrite Hc|by rewrite He].
Qed.

Lemma clean_kept l : Forall plain l → clean_iptables (unlines l) = join nl (kept l) ++ nl.
Proof.
  intros Hl. unfold clean_iptables. rewrite lines_unlines;
    [|eapply Forall_impl; [done|]; by intros ? []..].
  f_equal. f_equal. clear Hl. induction l as [|x l IH]; [done|].
  rewrite filter_cons. destruct (dropped_or_solid x) as [Hx|[Hx Hne]].
  - rewrite kept_dropped by done. destruct Hx as [->|Hx].
    + rewrite decide_True by done. by rewrite filter_cons, decide_False by naive_solver.
    + by rewrite decide_False by (by rewrite Hx).
  - rewrite kept_solid, decide_True, filter_cons, decide_True by done. by rewrite fmap_cons, IH.
Qed.

(** Cleaned text is itself a save file, or empty. *)
Lemma clean_kept_lines l :
  Forall plain l → lines (clean_iptables (unlines l)) = if decide (kept l = []) then [""] else kept l.
Proof.
  intros Hl. rewrite clean_kept by done. case_decide as Hk; [by rewrite Hk|].
  rewrite join_nl_unlines by done. destruct (kept_plain l Hl) as [Hp _].
  apply lines_unlines; eapply Forall_impl; try done; by intros ? [].
Qed.

Lemma clean_idemp l :
  Forall plain l → clean_iptables (clean_iptables (unlines l)) = clean_iptables (unlines l).
Proof.
  intros Hl. destruct (decide (kept l = [])) as [Hk|Hk].
  - rewrite (clean_kept l), Hk by done. change (join nl [] ++ nl) with (unlines [""]).
    rewrite clean_kept; [done|]. by apply Forall_singleton.
  - destruct (kept_plain l Hl) as [Hp _].
    rewrite (clean_kept l), join_nl_unlines, clean_kept, kept_idemp by done.
    by rewrite join_nl_unlines.
Qed.

(** C19: cleaning forgets comments, blank lines and packet counters, and
    nothing else: two save files become equal exactly when they differ in
    those only.  Cleaning twice is cleaning once. *)
Theorem clean_iptables_quotient l l' :
  Forall plain l → Forall plain l' →
  (clean_iptables (unlines l) = clean_iptables (unlines l') ↔ noise l l') ∧
  clean_iptables (clean_iptables (unlines l)) = clean_iptables (unlines l).
Proof.
  intros Hl Hl'. rewrite <-kept_noise. split; [split|].
  - intros H. apply (f_equal lines) in H. rewrite !clean_kept_lines in H by done.
    destruct (kept_plain l Hl) as [_ Hn], (kept_plain l' Hl') as [_ Hn'].
    repeat case_decide; [congruence|..|done]; exfalso.
    + apply Hn'. rewrite <-H. set_solver.
    + apply Hn. rewrite H. set_solver.
  - intros H. by rewrite !clean_kept, H.
  - by apply clean_idemp.
Qed.
End cleaning.

(** ** The packet rules of a network

    A reader of the rule lines of iptables-save(8), as the specification of
    the rendered save file.  It takes the targets of the rules as they are
    written; that they can be read as addresses is stated apart. *)
Inductive nat_rule : Type :=
| Dnat (iface : string) (port : Z) (dest : string)
| Snat (iface : string) (port : Z) (source : string).

Definition read_rule (line : string) : option nat_rule :=
  match split_on " " line with
  | [a; chain; dir; iface; p; proto; m; mod_; dport; port; j; target; to; addr] =>
      if decide ([a; p; proto; m; mod_; dport; j] = ["-A"; "-p"; "tcp"; "-m"; "tcp"; "--dport"; "-j"])
      then match parse_uint 16 port with
           | Ok port =>
               if decide ([chain; dir; target; to] = ["PREROUTING"; "-i"; "DNAT"; "--to-destination"])
               then Some (Dnat iface port addr)
               else if decide ([chain; dir; target; to] = ["POSTROUTING"; "-o"; "SNAT"; "--to-source"])
               then Some (Snat iface port addr)
               else None
           | _ => None
           end
      else None
  | _ => None
  end.
Definition rules_of (save : string) : list nat_rule := omap read_rule (lines save).

(** The first rule that applies decides. *)
Fixpoint dnat_target (rules : list nat_rule) (iface : string) (port : Z) : option string :=
  match rules with
  | [] => None
  | Dnat i p dest :: rules =>
      if decide (i = iface ∧ p = port) then Some dest else dnat_target rules iface port
  | _ :: rules => dnat_target rules iface port
  end.
Fixpoint snat_source (rules : list nat_rule) (iface : string) (port : Z) : option string :=
  match rules with
  | [] => None
  | Snat o p source :: rules =>
      if decide (o = iface ∧ p = port) then Some source else snat_source rules iface port
  | _ :: rules => snat_source rules iface port
  end.

Definition word (s : string) : Prop := ∀ c, alien c → has_char c s = false.

Lemma word_bland s : bland s = true → word s.
Proof. intros Hs c Hc. by apply literal_alien. Qed.
Lemma word_dec n : word (dec n).
Proof. intros c Hc. by apply dec_char, alien_no_digit. Qed.
Lemma word_ip ip : word (ip_to_string ip).
Proof. intros c. apply ip_text_alien. Qed.
Lemma word_app s t : word s → word t → word (s ++ t).
Proof. intros Hs Ht c Hc. by rewrite has_char_app, Hs, Ht. Qed.
#[local] Hint Resolve word_bland word_dec word_ip word_app : gw.

(** A line of words. *)
Definition line_of (words : list string) : string := join " " words.

Lemma split_line ws : ws ≠ [] → Forall word ws → split_on " " (line_of ws) = ws.
Proof.
  intros Hne Hws. unfold line_of. change " " with (char_str " ").
  apply split_on_join; [done|]. eapply Forall_impl; [done|].
  intros w Hw. apply Hw. left. apply Nat.ltb_lt. reflexivity.
Qed.

Lemma line_plain c ws : alien c → c ≠ " "%char → Forall word ws → has_char c (line_of ws) = false.
Proof.
  intros Hc Hne Hws. apply has_char_join.
  - cbn. by rewrite bool_decide_false by done.
  - eapply Forall_impl; [done|]. intros w Hw. by apply Hw.
Qed.

Definition prerouting_words (c : PortConfig) (m : PortMapping) : list string :=
  ["-A"; "PREROUTING"; "-i"; interface_in c; "-p"; "tcp"; "-m"; "tcp"; "--dport"; dec (port_in m);
   "-j"; "DNAT"; "--to-destination"; ip_to_string (ip_out m) ++ ":" ++ dec (port_out m)].
Definition postrouting_words (c : PortConfig) (m : PortMapping) : list string :=
  ["-A"; "POSTROUTING"; "-o"; interface_out c; "-p"; "tcp"; "-m"; "tcp"; "--dport"; dec (port_out m);
   "-j"; "SNAT"; "--to-source"; ip_to_string (ip_source c)].

Lemma prerouting_line c m : prerouting c m = line_of (prerouting_words c m).
Proof. unfold prerouting. cbn. by rewrite ?string_app_assoc. Qed.
Lemma postrouting_line c m : postrouting c m = line_of (postrouting_words c m).
Proof. unfold postrouting. cbn. by rewrite ?string_app_assoc. Qed.

Definition ports_words (c : PortConfig) : Prop := word (interface_in c) ∧ word (interface_out c).

Lemma prerouting_words_ok c m : ports_words c → Forall word (prerouting_words c m).
Proof. intros [Hi Ho]. unfold prerouting_words. forall_cons; auto with gw. Qed.
Lemma postrouting_words_ok c m : ports_words c → Forall word (postrouting_words c m).
Proof. intros [Hi Ho]. unfold postrouting_words. forall_cons; auto with gw. Qed.

Definition rule_lines (c : PortConfig) : list string :=
  ((prerouting c <$> mappings c) ++ (postrouting c <$> mappings c))%list.
Definition iptables_lines (c : PortConfig) : list string :=
  ("*nat" :: chains ++ rule_lines c ++ ["COMMIT"])%list.

Lemma tfor_unlines {A} (xs : list A) (f : A → string) : tfor xs (λ x, f x ++ nl) = unlines (f <$> xs).
Proof. induction xs as [|x xs IH]; [done|]. cbn. by rewrite <-IH, string_app_assoc. Qed.

Lemma render_iptables_lines c : render_iptables c = unlines (iptables_lines c).
Proof.
  unfold render_iptables, iptables_lines, rule_lines. rewrite !tfor_unlines.
  change ("COMMIT" ++ nl) with (unlines ["COMMIT"]).
  rewrite <-!unlines_app. by rewrite <-(app_assoc (prerouting c <$> _)).
Qed.

Lemma rule_line_char a c : ports_words c → alien a → a ≠ " "%char →
  Forall (λ l, has_char a l = false) (rule_lines c).
Proof.
  intros Hc Ha Hne. unfold rule_lines. apply Forall_app.
  split; apply Forall_fmap, Forall_true; intros m; unfold compose.
  - rewrite prerouting_line. by apply line_plain, prerouting_words_ok.
  - rewrite postrouting_line. by apply line_plain, postrouting_words_ok.
Qed.

Lemma iptables_plain c : ports_words c → Forall plain (iptables_lines c).
Proof.
  intros Hc. unfold iptables_lines. apply Forall_cons. split; [done|].
  apply Forall_app. split; [unfold chains; forall_cons; done|].
  apply Forall_app. split; [|by apply Forall_singleton].
  apply Forall_and. split; apply rule_line_char; auto with gw; done.
Qed.

Section rules.
Context `{RCO : !RegexCrateOk RC}.

Lemma replace_no_bracket line : has_char "]" line = false → replace_packet_counter line = line.
Proof.
  destruct (replace_cases line) as (pre & s & t & -> & -> & [[-> ->]|(d1 & d2 & _ & _ & -> & ->)]);
    [done|]. unfold counter_text. rewrite !has_char_app. cbn. by rewrite !orb_true_r.
Qed.

Lemma kept_id l : Forall (λ x, is_comment x = false ∧ x ≠ "" ∧ replace_packet_counter x = x) l → kept l = l.
Proof.
  induction 1 as [|x l (Hx & Hne & Hr) Hl IH]; [done|].
  by rewrite kept_solid, Hr, IH.
Qed.

(** The rendered rules are in clean form. *)
Lemma clean_render c :
  ports_words c → clean_iptables (render_iptables c) = render_iptables c.
Proof.
  intros Hc. rewrite render_iptables_lines, clean_kept by by apply iptables_plain.
  rewrite kept_id; [by rewrite join_nl_unlines|].
  unfold iptables_lines. apply Forall_cons. split.
  { split; [done|]. split; [done|]. by apply replace_no_bracket. }
  apply Forall_app. split.
  - assert (Hz := digit_run_zero). unfold chains.
    repeat (apply Forall_cons; split); [..|by constructor]; (split; [done|]; split; [done|]).
    + by apply (replace_counter ":PREROUTING ACCEPT " "0" "0").
    + by apply (replace_counter ":INPUT ACCEPT " "0" "0").
    + by apply (replace_counter ":OUTPUT ACCEPT " "0" "0").
    + by apply (replace_counter ":POSTROUTING ACCEPT " "0" "0").
  - apply Forall_app. split.
    + assert (Hb : Forall (λ l, has_char "]" l = false) (rule_lines c)).
      { apply rule_line_char; [done| |done]. do 3 right. left. split; apply Nat.ltb_lt; reflexivity. }
      unfold rule_lines in *. rewrite !Forall_app, !Forall_fmap in *. destruct Hb as [H1 H2].
      split; [eapply Forall_impl; [exact H1|]|eapply Forall_impl; [exact H2|]];
        intros m Hm; (split; [done|]; split; [done|]); by apply replace_no_bracket.
    + apply Forall_singleton. split; [done|]. split; [done|]. by apply replace_no_bracket.
Qed.
End rules.

(** *** Reading the rules back *)
Definition dest_text (ip : IpAddr) (port : Z) : string := ip_to_string ip ++ ":" ++ dec port.
Definition dnat_rule (c : PortConfig) (m : PortMapping) : nat_rule :=
  Dnat (interface_in c) (port_in m) (dest_text (ip_out m) (port_out m)).
Definition snat_rule (c : PortConfig) (m : PortMapping) : nat_rule :=
  Snat (interface_out c) (port_out m) (ip_to_string (ip_source c)).

Lemma read_prerouting c m :
  ports_words c → in_width 16 (port_in m) → read_rule (prerouting c m) = Some (dnat_rule c m).
Proof.
  intros Hc Hp. unfold read_rule.
  rewrite prerouting_line, split_line by (done || by apply prerouting_words_ok).
  unfold prerouting_words. by rewrite !decide_True, parse_dec by done.
Qed.

Lemma read_postrouting c m :
  ports_words c → in_width 16 (port_out m) → read_rule (postrouting c m) = Some (snat_rule c m).
Proof.
  intros Hc Hp. unfold read_rule.
  rewrite postrouting_line, split_line by (done || by apply postrouting_words_ok).
  unfold postrouting_words. by rewrite decide_True, parse_dec, decide_False, decide_True by done.
Qed.

Definition mapping_ok (m : PortMapping) : Prop := in_width 16 (port_in m) ∧ in_width 16 (port_out m).

Lemma omap_fmap_Some {A B C} (f : B → option C) (g : A → B) (h : A → C) l :
  Forall (λ x, f (g x) = Some (h x)) l → omap f (g <$> l) = h <$> l.
Proof. induction 1 as [|x l Hx Hl IH]; [done|]. cbn. by rewrite Hx, IH. Qed.

Lemma rules_of_render c :
  ports_words c → Forall mapping_ok (mappings c) →
  rules_of (render_iptables c) = ((dnat_rule c <$> mappings c) ++ (snat_rule c <$> mappings c))%list.
Proof.
  intros Hc Hm. unfold rules_of. rewrite render_iptables_lines, lines_unlines;
    [|by eapply Forall_impl; [by apply iptables_plain|]; intros ? []..].
  unfold iptables_lines, rule_lines.
  change (omap read_rule ("*nat" :: chains ++ ?l)%list) with (omap read_rule l).
  rewrite !omap_app, (omap_fmap_Some _ _ (dnat_rule c)), (omap_fmap_Some _ _ (snat_rule c)).
  - by rewrite app_nil_r.
  - eapply Forall_impl; [done|]. intros m []. by apply read_postrouting.
  - eapply Forall_impl; [done|]. intros m []. by apply read_prerouting.
Qed.

Lemma dnat_target_snat c ms iface p : dnat_target (snat_rule c <$> ms) iface p = None.
Proof. by induction ms. Qed.
Lemma snat_source_dnat c ms rs iface p :
  snat_source ((dnat_rule c <$> ms) ++ rs) iface p = snat_source rs iface p.
Proof. by induction ms. Qed.

(** Rules numbered from [k] on are looked up by position. *)
Lemma dnat_target_numbered i (dests : list string) k rs iface p :
  (∀ q, dnat_target rs iface q = None) →
  dnat_target (imap (λ j d, Dnat i (k + Z.of_nat j) d) dests ++ rs) iface p =
  if decide (iface = i ∧ k ≤ p) then dests !! Z.to_nat (p - k) else None.
Proof.
  intros Hrs. revert k. induction dests as [|d dests IH]; intros k.
  { cbn. rewrite Hrs. by case_decide. }
  rewrite imap_cons. cbn [app dnat_target]. rewrite Z.add_0_r.
  rewrite (imap_ext _ (λ j d, Dnat i ((k + 1) + Z.of_nat j) d)); cycle 1.
  { intros j t _. unfold compose. f_equal. lia. }
  rewrite IH. destruct (decide (i = iface ∧ k = p)) as [[<- <-]|Hd].
  - rewrite decide_True by (split; [done|lia]).
    by rewrite Z.sub_diag.
  - destruct (decide (iface = i ∧ k + 1 ≤ p)) as [[-> Hp]|Hp].
    + rewrite decide_True by (split; [done|lia]).
      by replace (Z.to_nat (p - k)) with (S (Z.to_nat (p - (k + 1)))) by lia.
    + rewrite decide_False; [done|]. intros [-> Hkp]. apply Hp. split; [done|].
      destruct (decide (k = p)); [by destruct Hd|lia].
Qed.

Lemma snat_source_ports c ms iface p :
  snat_source (snat_rule c <$> ms) iface p =
  if decide (iface = interface_out c ∧ p ∈ port_out <$> ms)
  then Some (ip_to_string (ip_source c)) else None.
Proof.
  induction ms as [|m ms IH]; cbn [fmap list_fmap snat_source snat_rule].
  - rewrite decide_False; [done|]. set_solver.
  - rewrite IH. repeat case_decide; try done; set_solver.
Qed.

Lemma imap_fmap_args {A B C} (f : nat → A → C) (g : nat → B → C) (h : A → B) l :
  (∀ i x, f i x = g i (h x)) → imap f l = imap g (h <$> l).
Proof.
  intros Hf. apply list_eq. intros i. rewrite !list_lookup_imap, list_lookup_fmap.
  destruct (l !! i); [|done]. cbn. by rewrite Hf.
Qed.

Section packets.
Context `{T : Target} `{WK : WireguardKeys} `{UC : UrlCrate} `{ICO : !IpnetCrateOk IC}
        `{RCO : !RegexCrateOk RC} `{TEO : !TeraOk TE}.

(** A network the packet rules can serve. *)
Definition servable (n : NetworkState) : Prop :=
  mappable n ∧ address n ≠ [] ∧ Forall (λ e, in_width 16 (sock_port e.2)) (proxied n).

Definition ports_of (n : NetworkState) (source : IpNet) : PortConfig := {|
  interface_in := veth_name n;
  interface_out := wgif_name n;
  ip_source := ipnet_addr source;
  mappings := imap (λ i s, {| port_in := PORT_MAPPING_START + Z.of_nat i;
                              port_out := sock_port s; ip_out := sock_ip s |}) (proxied n).*2
|}.

Lemma port_config_spec n source :
  mappable n → head (address n) = Some source → port_config n = Ok (ports_of n source).
Proof.
  intros [_ Hlen] Hs. unfold port_config. rewrite Hs, port_mappings_numbered by done.
  cbn. unfold ports_of. do 2 f_equal. unfold numbered. rewrite fmap_imap.
  by apply imap_fmap_args.
Qed.

Lemma ports_of_words n source : ports_words (ports_of n source).
Proof. split; apply word_app; auto using word_bland, word_dec. Qed.

Lemma ports_of_mappings n source : servable n → Forall mapping_ok (mappings (ports_of n source)).
Proof.
  intros ((_ & Hlen) & _ & Hp). apply Forall_lookup. intros i m. cbn.
  rewrite list_lookup_imap, list_lookup_fmap, fmap_Some. intros (s & Hs & ->).
  apply fmap_Some in Hs as (e & He & ->). split; cbn.
  - apply lookup_lt_Some in He. unfold PORT_MAPPING_START, MAX_MAPPINGS, in_width in *. lia.
  - by eapply Forall_lookup_1 in Hp.
Qed.

Lemma iptables_savefile_spec n source :
  servable n → head (address n) = Some source →
  iptables_savefile n = Ok (render_iptables (ports_of n source)).
Proof.
  intros (Hm & _) Hs. unfold iptables_savefile. rewrite (port_config_spec n source Hm Hs).
  cbn [mbind outcome_bind]. destruct (tera_ports (ports_of n source)) as (ctx & -> & Hr).
  cbn [mbind outcome_bind]. rewrite Hr. cbn [mbind outcome_bind].
  rewrite (clean_render _ (ports_of_words n source)). reflexivity.
Qed.

(** The save file is clean already. *)
Lemma clean_savefile n save : servable n → iptables_savefile n = Ok save → clean_iptables save = save.
Proof.
  intros Hn. pose proof Hn as (_ & Ha & _). destruct (address n) as [|source l] eqn:Hs; [done|].
  rewrite (iptables_savefile_spec n source Hn) by by rewrite Hs. intros [= <-].
  apply clean_render, ports_of_words.
Qed.

Lemma packet_rules_spec n :
  servable n →
  ∃ save source, iptables_savefile n = Ok save ∧ head (address n) = Some source ∧
    (∀ iface p, dnat_target (rules_of save) iface p =
       if decide (iface = veth_name n ∧ PORT_MAPPING_START ≤ p)
       then (λ e, dest_text (sock_ip e.2) (sock_port e.2)) <$>
              proxied n !! Z.to_nat (p - PORT_MAPPING_START)
       else None) ∧
    (∀ iface p, snat_source (rules_of save) iface p =
       if decide (iface = wgif_name n ∧ p ∈ (λ e, sock_port e.2) <$> proxied n)
       then Some (ip_to_string (ipnet_addr source)) else None).
Proof.
  intros Hn. pose proof Hn as (_ & Ha & _).
  destruct (address n) as [|source addrs] eqn:Hs; [done|].
  assert (Hhead : head (address n) = Some source) by by rewrite Hs.
  exists (render_iptables (ports_of n source)), source.
  split; [by apply iptables_savefile_spec|]. split; [done|].
  rewrite rules_of_render by (apply ports_of_words || by apply ports_of_mappings).
  split; intros iface p.
  - cbn [ports_of mappings interface_in]. rewrite fmap_imap.
    rewrite (imap_fmap_args _ (λ j d, Dnat (veth_name n) (PORT_MAPPING_START + Z.of_nat j) d)
               (λ s, dest_text (sock_ip s) (sock_port s))) by done.
    rewrite dnat_target_numbered by (intros; apply dnat_target_snat).
    case_decide; [|done]. rewrite !list_lookup_fmap. by destruct (proxied n !! _).
  - rewrite snat_source_dnat, snat_source_ports. cbn [ports_of mappings interface_out ip_source].
    rewrite fmap_imap, (imap_ext _ (const sock_port)) by done.
    by rewrite imap_const, <-list_fmap_compose.
Qed.

(** The target of an IPv4 socket reads back as the socket. *)
Lemma dest_text_v4 a p : in_width 32 a → in_width 16 p → parse_socket (dest_text (IpV4 a) p) = Ok (SockV4 a p).
Proof. apply parse_socket_show_v4. Qed.
(** The target of an IPv6 socket is written without brackets, so that it
    never reads as one. *)
Lemma read_char_absent c s : has_char c s = false → read_char c s = None.
Proof. destruct s as [|b s]; [done|]. cbn. intros [Hb _]%orb_false_iff. case_decide; [|done]. subst. by rewrite bool_decide_eq_true_2 in Hb. Qed.
Lemma dest_text_v6 ip p b q f sc : parse_socket (dest_text ip p) ≠ Ok (SockV6 b q f sc).
Proof.
  assert (Hb : has_char "["%char (dest_text ip p) = false).
  { assert (alien "["%char) as Ha by (right; right; right; left; split; apply Nat.ltb_lt; reflexivity).
    unfold dest_text. rewrite has_char_app, ip_text_alien by done. cbn. by apply dec_char, alien_no_digit. }
  unfold parse_socket, read_socket_v4, read_socket_v6. rewrite (read_char_absent "["%char (dest_text ip p)) by done.
  destruct (read_ipv4 (dest_text ip p)) as [[a s]|]; [|done]. cbn. destruct (read_port s) as [[port rest]|]; [|done]. cbn. by destruct rest.
Qed.

(** C18: the packet rules written for a network send what arrives on the
    bridge side at its [i]-th port, 2000 + i, to the [i]-th proxied socket,
    and nothing else; what leaves for the port of a proxied socket gets the
    network's own first address as its source, and nothing else does.  The
    target of an IPv4 socket reads back as that very socket. *)
Theorem packet_rules n :
  servable n →
  ∃ save source, iptables_savefile n = Ok save ∧ head (address n) = Some source ∧
    (∀ iface p, dnat_target (rules_of save) iface p =
       if decide (iface = veth_name n ∧ PORT_MAPPING_START ≤ p)
       then (λ e, dest_text (sock_ip e.2) (sock_port e.2)) <$>
              proxied n !! Z.to_nat (p - PORT_MAPPING_START)
       else None) ∧
    (∀ iface p, snat_source (rules_of save) iface p =
       if decide (iface = wgif_name n ∧ p ∈ (λ e, sock_port e.2) <$> proxied n)
       then Some (ip_to_string (ipnet_addr source)) else None) ∧
    (∀ i url a q, proxied n !! i = Some (url, SockV4 a q) → in_width 32 a →
       ∃ dest, dnat_target (rules_of save) (veth_name n) (PORT_MAPPING_START + Z.of_nat i) = Some dest ∧
         parse_socket dest = Ok (SockV4 a q)).
Proof.
  intros Hn. destruct (packet_rules_spec n Hn) as (save & source & Hsave & Hsource & Hd & Hs).
  exists save, source. do 4 (split; [done|]). intros i url a q Hi Ha. exists (dest_text (IpV4 a) q).
  split; [|apply dest_text_v4; [done|]].
  - rewrite Hd, decide_True by (split; [done|lia]).
    replace (Z.to_nat (PORT_MAPPING_START + Z.of_nat i - PORT_MAPPING_START)) with i by lia. by rewrite Hi.
  - destruct Hn as (_ & _ & HF). rewrite Forall_forall in HF. exact (HF _ (list_elem_of_lookup_2 _ _ _ Hi)).
Qed.
End packets.

(** ** Requests *)
Section requests.
Context `{T : Target} `{WK : WireguardKeys} `{UCO : !UrlCrateOk UC} `{ICO : !IpnetCrateOk IC}
        `{BCO : !Base32CrateOk BC} `{RCO : !RegexCrateOk RC} `{TEO : !TeraOk TE}.

(** Where NGINX sends a request: the servers of the upstream of the host. *)
Definition https_servers (f : Forwarding) (host : string) : list SocketAddr :=
  default [] (https_forwarding f !! host ≫= λ upstream, https_upstream f !! upstream).
Definition http_servers (f : Forwarding) (host : string) : list SocketAddr :=
  default [] (http_forwarding f !! host ≫= λ upstream, http_upstream f !! upstream).

(** A server entry [gw] for URLs of [scheme] and [host]: the gateway side of
    a proxied socket, which the packet rules of its network lead to, or a
    custom target. *)
Definition serves (networks : list NetworkState) (custom : list (Url * SocketAddr))
    (scheme host : string) (gw : SocketAddr) : Prop :=
  (∃ n i url sock save, n ∈ networks ∧ proxied n !! i = Some (url, sock) ∧
     url_scheme url = scheme ∧ url_host_str url = Some host ∧
     gw = SockV4 (bridge_base + listen_port n) (PORT_MAPPING_START + Z.of_nat i) ∧
     iptables_savefile n = Ok save ∧
     dnat_target (rules_of save) (veth_name n) (sock_port gw) =
       Some (dest_text (sock_ip sock) (sock_port sock))) ∨
  (∃ url, (url, gw) ∈ custom ∧ url_scheme url = scheme ∧ url_host_str url = Some host).

Lemma scheme_servers prefix fwd ups rs host :
  scheme_repr prefix fwd ups rs →
  default [] (fwd !! host ≫= λ upstream, ups !! upstream) = backends host rs.
Proof.
  intros [Hf Hu _]. rewrite Hf. destruct (backends host rs) eqn:Hb; [done|].
  cbn. by rewrite Hu, Hb.
Qed.

Lemma elem_of_backends host scheme rs gw :
  gw ∈ backends host (of_scheme scheme rs) ↔
  ∃ r, r ∈ rs ∧ r_scheme r = scheme ∧ r_host r = host ∧ r_sock r = gw.
Proof.
  unfold backends, of_scheme. rewrite list_elem_of_fmap. split.
  - intros ([h g] & -> & [Hh Hr]%list_elem_of_filter). cbn in *. subst h.
    apply list_elem_of_fmap in Hr as (r & [= -> ->] & [Hs Hr]%list_elem_of_filter). eauto.
  - intros (r & Hr & Hs & Hh & Hg). exists (host, gw). split; [done|].
    apply list_elem_of_filter. split; [done|]. apply list_elem_of_fmap.
    exists r. rewrite Hh, Hg. split; [done|]. by apply list_elem_of_filter.
Qed.

Lemma dnat_target_savefile n i url sock :
  servable n → proxied n !! i = Some (url, sock) →
  ∃ save, iptables_savefile n = Ok save ∧
    dnat_target (rules_of save) (veth_name n) (PORT_MAPPING_START + Z.of_nat i) =
      Some (dest_text (sock_ip sock) (sock_port sock)).
Proof.
  intros Hn Hi. destruct (packet_rules_spec n Hn) as (save & source & Hsave & _ & Hd & _).
  exists save. split; [done|]. rewrite Hd, decide_True by (split; [done|lia]).
  replace (Z.to_nat _) with i by lia. by rewrite Hi.
Qed.

Lemma url_route_host scheme url host :
  scheme = "http" ∨ scheme = "https" → url_scheme url = scheme →
  default "" (url_host_str url) = host ↔ url_host_str url = Some host.
Proof.
  intros Hs <-. destruct (url_special_host url Hs) as [h ->]. cbn. naive_solver.
Qed.

Lemma elem_of_routes networks custom r :
  r ∈ (flat_map network_routes networks ++ (uncurry url_route <$> custom))%list ↔
  (∃ n i url sock, n ∈ networks ∧ proxied n !! i = Some (url, sock) ∧
     r = url_route url (SockV4 (bridge_base + listen_port n) (PORT_MAPPING_START + Z.of_nat i))) ∨
  (∃ url gw, (url, gw) ∈ custom ∧ r = url_route url gw).
Proof.
  rewrite elem_of_app, list_elem_of_In, in_flat_map, list_elem_of_fmap. f_equiv.
  - split.
    + intros (n & Hn & Hr). apply list_elem_of_In in Hn, Hr.
      apply list_elem_of_lookup in Hr as [i Hr]. unfold network_routes in Hr.
      rewrite list_lookup_imap in Hr. apply fmap_Some in Hr as ([url sock] & Hi & ->). eauto 8.
    + intros (n & i & url & sock & Hn & Hi & ->). exists n.
      split; [by apply list_elem_of_In|]. apply list_elem_of_In, list_elem_of_lookup. exists i. unfold network_routes.
      by rewrite list_lookup_imap, Hi.
  - split; [intros ([url gw] & -> & Hin); eauto|]. intros (url & gw & Hin & ->). by exists (url, gw).
Qed.

Lemma servers_serve networks custom scheme host gw :
  scheme = "http" ∨ scheme = "https" → Forall servable networks →
  gw ∈ backends host (of_scheme scheme
         (flat_map network_routes networks ++ (uncurry url_route <$> custom))) ↔
  serves networks custom scheme host gw.
Proof.
  intros Hs Hn. rewrite elem_of_backends. unfold serves. setoid_rewrite elem_of_routes. split.
  - intros (r & [(n & i & url & sock & Hin & Hi & ->)|(url & gw' & Hin & ->)] & Hsch & Hh & Hg);
      cbn in Hsch, Hh, Hg; apply (url_route_host scheme) in Hh; try done; subst gw; [left|right; eauto].
    rewrite Forall_forall in Hn.
    destruct (dnat_target_savefile n i url sock (Hn n Hin) Hi) as (save & ? & ?).
    exists n, i, url, sock, save. done.
  - intros [(n & i & url & sock & save & Hin & Hi & Hsch & Hh & -> & _)|(url & Hin & Hsch & Hh)].
    + eexists. split; [left; eauto 8|]. cbn. rewrite (url_route_host scheme); auto.
    + eexists. split; [right; eauto|]. cbn. rewrite (url_route_host scheme); auto.
Qed.

(** For every host the forwarding sends HTTPS (and HTTP) requests exactly to
    the entries the networks and the custom forwarding list for that host and
    scheme; each entry of a network is a socket on the network's bridge
    address that the packet rules of the same network lead to the proxied
    socket. *)
Lemma requests_reach networks custom :
  Forall servable networks →
  ∃ f, forwarding_of networks custom = Ok f ∧
    ∀ host gw,
      (gw ∈ https_servers f host ↔ serves networks custom "https" host gw) ∧
      (gw ∈ http_servers f host ↔ serves networks custom "http" host gw).
Proof.
  intros Hn. destruct (forwarding_of_repr networks custom) as (f & Hf & Hs & Hp & _).
  { eapply Forall_impl; [done|]. by intros n []. }
  exists f. split; [done|]. intros host gw. unfold https_servers, http_servers.
  erewrite !scheme_servers by done. split; apply servers_serve; auto.
Qed.
End requests.

(** ** Witnesses *)
Section witnesses.
#[local] Existing Instances sample_keys sample_url sample_ipnet sample_base32 sample_regex sample_tera.
#[local] Existing Instances sample_keys_ok sample_url_ok sample_ipnet_ok sample_base32_ok
  sample_regex_ok sample_tera_ok.

Definition noisy_save : list string :=
  ["# Generated by iptables-save"; "*nat"; ":PREROUTING ACCEPT [12:720]"; "COMMIT"; ""; "# Completed"].
Definition quiet_save : list string := ["*nat"; ":PREROUTING ACCEPT [0:0]"; "COMMIT"].

Lemma plain_list l : forallb (λ s, negb (has_char LF s) && negb (has_char CR s)) l = true → Forall plain l.
Proof.
  intros H%Is_true_true%forallb_True. eapply Forall_impl; [exact H|]. intros s.
  rewrite Is_true_true, andb_true_iff, !negb_true_iff. done.
Qed.

Lemma clean_iptables_quotient_witness :
  (clean_iptables (unlines noisy_save) = clean_iptables (unlines quiet_save) ↔ noise noisy_save quiet_save) ∧
  clean_iptables (clean_iptables (unlines noisy_save)) = clean_iptables (unlines noisy_save).
Proof. apply clean_iptables_quotient; by apply plain_list. Defined.

Lemma sample_servable port : in_width 16 port → servable (sample_network_state port).
Proof.
  intros Hp. split; [split; [done|by vm_compute]|]. split; [done|].
  apply Forall_forall. intros e He.
  assert (Forall (λ e, in_width 16 (sock_port e.2)) (proxied (sample_network_state 1))) as Hall.
  { repeat (apply Forall_cons; split); [by vm_compute..|constructor]. }
  rewrite Forall_forall in Hall. by apply Hall.
Qed.

Lemma packet_rules_witness :
  ∃ save source, iptables_savefile (T := release64) (sample_network_state 7) = Ok save ∧
    head (address (sample_network_state 7)) = Some source ∧
    (∀ iface p, dnat_target (rules_of save) iface p =
       if decide (iface = veth_name (sample_network_state 7) ∧ PORT_MAPPING_START ≤ p)
       then (λ e, dest_text (sock_ip e.2) (sock_port e.2)) <$>
              proxied (sample_network_state 7) !! Z.to_nat (p - PORT_MAPPING_START)
       else None) ∧
    (∀ iface p, snat_source (rules_of save) iface p =
       if decide (iface = wgif_name (sample_network_state 7) ∧
                  p ∈ (λ e, sock_port e.2) <$> proxied (sample_network_state 7))
       then Some (ip_to_string (ipnet_addr source)) else None) ∧
    (∀ i url a q, proxied (sample_network_state 7) !! i = Some (url, SockV4 a q) → in_width 32 a →
       ∃ dest, dnat_target (rules_of save) (veth_name (sample_network_state 7)) (PORT_MAPPING_START + Z.of_nat i)
           = Some dest ∧ parse_socket dest = Ok (SockV4 a q)).
Proof. apply (packet_rules (T := release64)), sample_servable. by vm_compute. Defined.

Definition sample_custom : list (Url * SocketAddr) := [("https://x.org" : Url, SockV4 (ipv4 127 0 0 1) 80)].

Lemma requests_reach_witness :
  ∃ f, forwarding_of (T := release64) [sample_network_state 12312; sample_network_state 7] sample_custom = Ok f ∧
    ∀ host gw,
      (gw ∈ https_servers f host ↔
         serves (T := release64) [sample_network_state 12312; sample_network_state 7] sample_custom "https" host gw) ∧
      (gw ∈ http_servers f host ↔
         serves (T := release64) [sample_network_state 12312; sample_network_state 7] sample_custom "http" host gw).
Proof.
  apply (requests_reach (T := release64)). repeat (apply Forall_cons; split); [..|constructor];
    apply sample_servable; by vm_compute.
Defined.
End witnesses.
