(* ===== verification/Nginx.v ===== *)
(** * What NGINX makes of the forwarding

    A reader of the configuration files that the templates produce, as the
    specification of [apply_nginx]: [read_nginx] reads the syntax of an NGINX
    configuration (words, directives, blocks, comments), [tls_backend] and
    [web_backend] are the part of its meaning the gateway relies on.  Reading
    back the rendered files gives the servers of the forwarding. *)
From S2P Require Import Prelude Text BTree Net Crates Samples Client Types Tera Render Templates.
From Stdlib Require Import Ascii.

Local Open Scope string_scope.
Local Open Scope Z_scope.

(** ** Words and delimiters *)
Inductive class := Blank | Semi | Open | Close | Hash | Quote | Other.
Definition class_of (a : ascii) : class :=
  if is_blank a then Blank
  else if Ascii.eqb a ";" then Semi
  else if Ascii.eqb a "{" then Open
  else if Ascii.eqb a "}" then Close
  else if Ascii.eqb a "#" then Hash
  else if Ascii.eqb a "034" || Ascii.eqb a "'" || Ascii.eqb a "\" then Quote
  else Other.

(** Quoted words, and brackets inside a word, are not read. *)
Inductive token := TWord (w : string) | TSemi | TOpen | TClose | TBad.
Definition flush (cur : string) (ts : list token) : list token :=
  match cur with "" => ts | _ => TWord cur :: ts end.

(** [cur] is the word begun. *)
Fixpoint lex (s cur : string) (comment : bool) : list token :=
  match s with
  | "" => flush cur []
  | String a r =>
      if comment then lex r "" (negb (Ascii.eqb a LF))
      else
        match class_of a, cur with
        | Blank, _ => flush cur (lex r "" false)
        | Semi, _ => flush cur (TSemi :: lex r "" false)
        | Open, "" => TOpen :: lex r "" false
        | Close, "" => TClose :: lex r "" false
        | Hash, "" => lex r "" true
        | Hash, _ | Other, _ => lex r (cur ++ char_str a) false
        | _, _ => [TBad]
        end
  end.

(** ** Directives and blocks *)
Inductive directive :=
| Simple (name : string) (args : list string)
| Block (name : string) (args : list string) (body : list directive).

Fixpoint span_words (ts : list token) : list string * list token :=
  match ts with
  | TWord w :: ts => let '(ws, ts) := span_words ts in (w :: ws, ts)
  | _ => ([], ts)
  end.
Fixpoint parse_conf (fuel : nat) (inside : bool) (ts : list token) : option (list directive * list token) :=
  match fuel with
  | O => None
  | S fuel =>
      match span_words ts with
      | ([], []) => if inside then None else Some ([], [])
      | ([], TClose :: ts) => if inside then Some ([], ts) else None
      | (name :: args, TSemi :: ts) =>
          '(ds, ts) ← parse_conf fuel inside ts; Some (Simple name args :: ds, ts)
      | (name :: args, TOpen :: ts) =>
          '(body, ts) ← parse_conf fuel true ts;
          '(ds, ts) ← parse_conf fuel inside ts;
          Some (Block name args body :: ds, ts)
      | _ => None
      end
  end.
Definition read_nginx (s : string) : option (list directive) :=
  let ts := lex s "" false in fst <$> parse_conf (S (length ts)) false ts.

(** ** What the directives say *)
Definition args_of (name : string) (ds : list directive) : list (list string) :=
  omap (λ d, match d with
             | Simple n args => if decide (n = name) then Some args else None
             | Block _ _ _ => None
             end) ds.
Definition arg (name : string) (ds : list directive) : option string :=
  match args_of name ds with [x] :: _ => Some x | _ => None end.
Definition says (name : string) (args : list string) (ds : list directive) : bool :=
  bool_decide (args ∈ args_of name ds).
Definition blocks (name : string) (args : list string) (ds : list directive) : list (list directive) :=
  omap (λ d, match d with
             | Simple _ _ => None
             | Block n a body => if decide (n = name ∧ a = args) then Some body else None
             end) ds.
Definition servers_of (upstream : list directive) : list string :=
  omap head (args_of "server" upstream).

(** The value of a [map] block for a name; the words of the block that are
    no names, and [default] for the names that are not listed. *)
Definition map_words : list string := ["default"; "hostnames"; "include"; "volatile"].
Definition map_value (table : list directive) (name : string) : option string :=
  match (if decide (name ∈ map_words) then None else arg name table) with
  | Some value => Some value
  | None => arg "default" table
  end.

(** Where a TLS connection to port 443 with server name [host] goes. *)
Definition tls_backend (conf : list directive) (host : string) : option (list string) :=
  stream ← head (blocks "stream" [] conf);
  server ← head (filter (λ b, says "listen" ["443"] b && says "ssl_preread" ["on"] b = true) (blocks "server" [] stream));
  target ← arg "proxy_pass" server;
  table ← head (blocks "map" ["$ssl_preread_server_name"; target] stream);
  upstream ← map_value table host;
  servers_of <$> head (blocks "upstream" [upstream] stream).

Fixpoint after_prefix (p s : string) : option string :=
  match p, s with
  | "", _ => Some s
  | String a p, String b s => if Ascii.eqb a b then after_prefix p s else None
  | _, "" => None
  end.
(** Where a request on port 80 for [host] goes, if the file has a server for
    the host; the server for other hosts may be in another file. *)
Definition web_backend (conf : list directive) (host : string) : option (list string) :=
  server ← head (filter (λ b, says "listen" ["80"] b && says "server_name" [host] b = true) (blocks "server" [] conf));
  location ← head (blocks "location" ["/"] server);
  target ← arg "proxy_pass" location;
  upstream ← after_prefix "http://" target;
  servers_of <$> head (blocks "upstream" [upstream] conf).

(** ** Reading back *)
Fixpoint tokens (d : directive) : list token :=
  match d with
  | Simple name args => (TWord <$> name :: args) ++ [TSemi]
  | Block name args body => (TWord <$> name :: args) ++ TOpen :: flat_map tokens body ++ [TClose]
  end%list.

Lemma span_words_app ws ts :
  (∀ w r, ts ≠ TWord w :: r) → span_words ((TWord <$> ws) ++ ts)%list = (ws, ts).
Proof.
  intros Hts. induction ws as [|w ws IH]; cbn; [|by rewrite IH].
  destruct ts as [|[] ts]; try done. by destruct (Hts w ts).
Qed.

(** What ends a list of directives. *)
Definition conf_end (inside : bool) (rest : list token) : list token := if inside then TClose :: rest else [].

Lemma parse_tokens fuel ds inside rest :
  (length (flat_map tokens ds) < fuel)%nat →
  parse_conf fuel inside (flat_map tokens ds ++ conf_end inside rest)%list =
    Some (ds, if inside then rest else []).
Proof.
  revert ds inside rest. induction fuel as [|fuel IH]; intros ds inside rest Hl; [lia|].
  destruct ds as [|[name args|name args body] ds]; [by destruct inside|..].
  - cbn [flat_map tokens] in *. rewrite !length_app, length_fmap in Hl. cbn [length] in Hl.
    rewrite <-!app_assoc. cbn [parse_conf]. rewrite span_words_app by done. cbn [app].
    by rewrite IH by lia.
  - cbn [flat_map tokens] in *. rewrite !length_app, length_fmap in Hl. cbn [length] in Hl.
    rewrite length_app in Hl. cbn [length] in Hl.
    rewrite <-!app_assoc. cbn [parse_conf]. rewrite span_words_app by done. cbn [app].
    rewrite <-app_assoc. cbn [app].
    change (TClose :: flat_map tokens ds ++ conf_end inside rest)%list
      with (conf_end true (flat_map tokens ds ++ conf_end inside rest)).
    rewrite IH by lia. cbn [mbind option_bind]. by rewrite IH by lia.
Qed.

Lemma read_tokens s ds : lex s "" false = flat_map tokens ds → read_nginx s = Some ds.
Proof.
  intros H. unfold read_nginx. rewrite H.
  pose proof (parse_tokens (S (length (flat_map tokens ds))) ds false [] (Nat.lt_succ_diag_r _)) as Hp.
  cbn [conf_end] in Hp. rewrite app_nil_r in Hp. by rewrite Hp.
Qed.

(** *** Words of the files *)
Definition plain_word (w : string) : Prop := w ≠ "" ∧ ∀ c, class_of c ≠ Other → has_char c w = false.

Lemma class_cases c : class_of c ≠ Other → alien c ∧ "["%char ≠ c ∧ "]"%char ≠ c ∧ ":"%char ≠ c ∧ "%"%char ≠ c.
Proof.
  intros Hc. assert (Hin : c ∈ [" "%char; LF; CR; TAB; ";"%char; "{"%char; "}"%char; "#"%char; "034"%char; "'"%char; "092"%char]).
  { revert Hc. unfold class_of, is_blank.
    repeat match goal with
    | |- context [Ascii.eqb c ?d] => destruct (Ascii.eqb_spec c d) as [->|]; [intros _; set_solver|]
    end. done. }
  revert Hin. rewrite !elem_of_cons, elem_of_nil. unfold alien.
  intros Hin. repeat destruct Hin as [->|Hin]; try done; (split; [vm_compute; lia|done]).
Qed.

Lemma lex_plain w r cur : (∀ c, class_of c ≠ Other → has_char c w = false) →
  lex (w ++ r) cur false = lex r (cur ++ w) false.
Proof.
  revert cur. induction w as [|a w IH]; intros cur Hw; [by rewrite string_app_nil_r|].
  assert (Ha : class_of a = Other).
  { destruct (class_of a) eqn:Ha; try done; exfalso;
      (assert (Hc : has_char a (String a w) = false) by (apply Hw; by rewrite Ha));
      by apply has_char_false_cons in Hc as [? _]. }
  change (lex (String a w ++ r) cur false) with (match class_of a, cur with
        | Blank, _ => flush cur (lex (w ++ r) "" false)
        | Semi, _ => flush cur (TSemi :: lex (w ++ r) "" false)
        | Open, "" => TOpen :: lex (w ++ r) "" false
        | Close, "" => TClose :: lex (w ++ r) "" false
        | Hash, "" => lex (w ++ r) "" true
        | Hash, _ | Other, _ => lex (w ++ r) (cur ++ char_str a) false
        | _, _ => [TBad]
        end).
  rewrite Ha, IH; [by rewrite string_app_assoc|].
  intros c Hc. by apply Hw, has_char_false_cons in Hc as [_ ?].
Qed.

Lemma lex_word w r cur : plain_word w → lex (w ++ r) cur false = lex r (cur ++ w) false.
Proof. intros []. by apply lex_plain. Qed.

Lemma plain_sock s : plain_word (sock_to_string s).
Proof.
  split.
  - destruct s as [a p|a p f sc]; cbn; [|by case_decide].
    unfold ipv4_to_string. intros H. apply (f_equal (has_char ".")) in H. rewrite !has_char_app in H.
    cbn in H. by rewrite !orb_true_r in H.
  - intros c (Hc & H1 & H2 & H3 & H4)%class_cases. assert (Hd := alien_no_digit c Hc).
    destruct s as [a p|a p f sc]; cbn [sock_to_string]; [|case_decide];
      rewrite !has_char_app, ?ipv4_text_alien, ?ipv6_text_alien, ?dec_char by done; cbn [has_char orb];
      rewrite ?bool_decide_false by done; done.
Qed.

Fixpoint others (s : string) : bool :=
  match s with "" => true | String a r => match class_of a with Other => others r | _ => false end end.
Lemma plain_literal w : w ≠ "" → others w = true → plain_word w.
Proof.
  intros Hne Hw. split; [done|]. intros c Hc. clear Hne. induction w as [|a w IH]; [done|].
  cbn in Hw. destruct (class_of a) eqn:Ha; try done. apply has_char_false_cons. split; [|auto]. by intros ->.
Qed.

Lemma plain_base32 `{BT : Base32Text} prefix s :
  plain_word prefix → plain_word (prefix ++ base32_encode s).
Proof.
  intros [Hne Hp]. split; [by destruct prefix|]. intros c Hc. rewrite has_char_app, Hp by done. cbn.
  destruct (has_char c (base32_encode s)) eqn:Hb; [|done]. exfalso.
  apply base32_alphabet in Hb. apply class_cases in Hc as [Hc _]. revert Hb Hc.
  unfold base32_char, alien. lia.
Qed.

(** A DNS name in lower case that the [map] block of NGINX takes for one. *)
Fixpoint host_chars (s : string) : bool :=
  match s with
  | "" => true
  | String a r =>
      let n := nat_of_ascii a in
      ((97 <=? n)%nat && (n <=? 122)%nat || (45 <=? n)%nat && (n <=? 46)%nat || (48 <=? n)%nat && (n <=? 57)%nat) &&
      host_chars r
  end.
Definition hostname (s : string) : bool :=
  negb (starts_with "." s) && host_chars s && bool_decide (s ∉ "" :: map_words).

Lemma plain_host h : hostname h = true → plain_word h ∧ h ∉ map_words.
Proof.
  unfold hostname. rewrite !andb_true_iff, bool_decide_eq_true. intros [[_ Hh] Hn].
  split; [split; [set_solver|]|set_solver]. intros c [Hc _]%class_cases. clear Hn.
  induction h as [|a h IH]; [done|]. cbn [host_chars] in Hh.
  rewrite !andb_true_iff, !orb_true_iff, !andb_true_iff, !Nat.leb_le in Hh. destruct Hh as [Ha Hh].
  apply has_char_false_cons. split; [|auto]. intros ->. unfold alien in Hc. lia.
Qed.

(** The loops of the templates. *)
Lemma lex_tfor {A} (l : list A) body d r :
  (∀ x r, x ∈ l → lex (body x ++ r) "" false = tokens (d x) ++ lex r "" false)%list →
  lex (tfor l body ++ r) "" false = (flat_map tokens (d <$> l) ++ lex r "" false)%list.
Proof.
  unfold tfor. intros H. induction l as [|x l IH]; [done|]. cbn [foldr fmap list_fmap flat_map].
  rewrite string_app_assoc, H by (by left). rewrite IH, app_assoc; [done|].
  intros y r' Hy. apply H. by right.
Qed.

(** ** The files of a forwarding *)
Definition server_line (s : SocketAddr) : directive := Simple "server" [sock_to_string s].
Definition upstream_block (upstream : string) (servers : list SocketAddr) : directive :=
  Block "upstream" [upstream] (server_line <$> servers).
Definition stream_server : list directive :=
  [Simple "listen" ["443"]; Simple "proxy_connect_timeout" ["1s"]; Simple "proxy_timeout" ["60s"];
   Simple "proxy_pass" ["$https_backend"]; Simple "ssl_preread" ["on"]].
Definition table (m : gmap string string) : list directive :=
  (λ '(domain, upstream), Simple domain [upstream]) <$> entries m.
Definition upstreams (m : gmap string (list SocketAddr)) : list directive :=
  (λ '(upstream, servers), upstream_block upstream servers) <$> entries m.
Definition stream_body (f : Forwarding) : list directive :=
  ([Block "map" ["$ssl_preread_server_name"; "$https_backend"] (table (https_forwarding f))] ++
   upstreams (https_upstream f) ++ [Block "server" [] stream_server])%list.
Definition stream_conf (f : Forwarding) : list directive := [Block "stream" [] (stream_body f)].
Definition site (domain upstream : string) : list directive :=
  [Simple "server_name" [domain]; Simple "listen" ["80"];
   Block "location" ["/"]
     [Simple "proxy_set_header" ["Host"; "$host"]; Simple "proxy_set_header" ["X-Real-IP"; "$remote_addr"];
      Simple "proxy_pass" ["http://" ++ upstream]]].
Definition sites (m : gmap string string) : list directive :=
  (λ '(domain, upstream), Block "server" [] (site domain upstream)) <$> entries m.
Definition sites_conf (f : Forwarding) : list directive :=
  (upstreams (http_upstream f) ++ sites (http_forwarding f))%list.

(** Names that are words. *)
Definition plain_names (fwd : gmap string string) (ups : gmap string (list SocketAddr)) : Prop :=
  (∀ h u, fwd !! h = Some u → plain_word h ∧ plain_word u) ∧ (∀ u l, ups !! u = Some l → plain_word u).

Lemma flush_word w ts : plain_word w → flush w ts = TWord w :: ts.
Proof. intros [Hne _]. by destruct w. Qed.

(** Walks through text: literals by computation, words by their lemma. *)
Ltac lexing :=
  repeat first
    [ progress cbn [String.append lex class_of is_blank Ascii.eqb Bool.eqb orb andb negb nl char_str flush LF CR TAB]
    | rewrite string_app_assoc
    | rewrite lex_word by (first [assumption | apply plain_sock])
    | rewrite flush_word by (first [assumption | apply plain_sock]) ].

Lemma lex_upstream u servers r :
  (tokens (upstream_block u servers) ++ lex r "" false =
     TWord "upstream" :: TWord u :: TOpen :: flat_map tokens (server_line <$> servers) ++ TClose :: lex r "" false)%list.
Proof. cbn. by rewrite <-app_assoc. Qed.

Lemma lex_stream_file f :
  plain_names (https_forwarding f) (https_upstream f) →
  lex (render_nginx f) "" false = flat_map tokens (stream_conf f).
Proof.
  intros [Hf Hu]. unfold render_nginx. lexing.
  rewrite (lex_tfor _ _ (λ '(domain, upstream), Simple domain [upstream])); cycle 1.
  { intros [d u] r [Hd Hp]%elem_of_entries%Hf. by lexing. }
  lexing.
  rewrite (lex_tfor _ _ (λ '(upstream, servers), upstream_block upstream servers)); cycle 1.
  { intros [u l] r Hp%elem_of_entries%Hu. rewrite lex_upstream. lexing.
    rewrite (lex_tfor _ _ server_line); [by lexing|]. intros s r' _. by lexing. }
  lexing. unfold stream_conf, stream_body. cbn [flat_map tokens fmap list_fmap app].
  rewrite app_nil_r, !flat_map_app, <-!app_assoc. done.
Qed.

Lemma lex_sites_file f :
  plain_names (http_forwarding f) (http_upstream f) →
  lex (render_sites f) "" false = flat_map tokens (sites_conf f).
Proof.
  intros [Hf Hu]. unfold render_sites.
  rewrite (lex_tfor _ _ (λ '(upstream, servers), upstream_block upstream servers)); cycle 1.
  { intros [u l] r Hp%elem_of_entries%Hu. rewrite lex_upstream. lexing.
    rewrite (lex_tfor _ _ server_line); [by lexing|]. intros s r' _. by lexing. }
  rewrite (lex_tfor _ _ (λ '(domain, upstream), Block "server" [] (site domain upstream))); cycle 1.
  { intros [d u] r [Hd Hp]%elem_of_entries%Hf. by lexing. }
  lexing. unfold sites_conf. by rewrite flat_map_app, app_nil_r.
Qed.

(** ** The meaning of the files *)
Lemma blocks_app name args ds ds' : blocks name args (ds ++ ds') = (blocks name args ds ++ blocks name args ds')%list.
Proof. apply omap_app. Qed.

Lemma blocks_other {A} (g : A → directive) name args l :
  (∀ x, blocks name args [g x] = []) → blocks name args (g <$> l) = [].
Proof.
  intros Hg. induction l as [|x l IH]; [done|]. rewrite fmap_cons.
  change (g x :: (g <$> l)) with ([g x] ++ (g <$> l))%list. by rewrite blocks_app, Hg.
Qed.

Lemma servers_of_lines l : servers_of (server_line <$> l) = sock_to_string <$> l.
Proof. unfold servers_of. induction l as [|x l IH]; [done|]. cbn. by rewrite <-IH. Qed.

Lemma arg_table (m : gmap string string) h : arg h (table m) = m !! h.
Proof.
  rewrite <-(list_to_map_entries m) at 2. unfold arg, table.
  induction (entries m) as [|[d u] l IH]; [done|]. cbn.
  case_decide as Hd; [by rewrite Hd, lookup_insert_eq|]. by rewrite lookup_insert_ne.
Qed.

Lemma upstream_servers (m : gmap string (list SocketAddr)) u :
  servers_of <$> head (blocks "upstream" [u] (upstreams m)) = list_fmap _ _ sock_to_string <$> m !! u.
Proof.
  rewrite <-(list_to_map_entries m) at 2. unfold upstreams.
  induction (entries m) as [|[d l] r IH]; [done|]. cbn. case_decide as Hd.
  - destruct Hd as [_ [= ->]]. rewrite lookup_insert_eq. cbn. by rewrite servers_of_lines.
  - rewrite lookup_insert_ne by naive_solver. exact IH.
Qed.

Lemma tls_backend_table f host :
  tls_backend (stream_conf f) host =
    (u ← map_value (table (https_forwarding f)) host; list_fmap _ _ sock_to_string <$> https_upstream f !! u).
Proof.
  assert (Hs : blocks "server" [] (stream_body f) = [stream_server]).
  { unfold stream_body, upstreams. by rewrite !blocks_app, (blocks_other _ "server") by by intros []. }
  assert (Ht : blocks "map" ["$ssl_preread_server_name"; "$https_backend"] (stream_body f) = [table (https_forwarding f)]).
  { unfold stream_body. rewrite !blocks_app. unfold upstreams. by rewrite (blocks_other _ "map") by by intros []. }
  assert (Hu : ∀ u, blocks "upstream" [u] (stream_body f) = blocks "upstream" [u] (upstreams (https_upstream f))).
  { intros u. unfold stream_body. rewrite !blocks_app. cbn. by rewrite app_nil_r. }
  unfold tls_backend. change (head (blocks "stream" [] (stream_conf f))) with (Some (stream_body f)).
  cbn [mbind option_bind]. rewrite Hs.
  change (head (filter _ [stream_server])) with (Some stream_server). cbn [mbind option_bind].
  change (arg "proxy_pass" stream_server) with (Some "$https_backend"). cbn [mbind option_bind].
  rewrite Ht. cbn [head mbind option_bind]. destruct (map_value _ host); [|done].
  cbn [mbind option_bind]. by rewrite Hu, upstream_servers.
Qed.

Lemma tls_backend_conf f host :
  https_forwarding f !! "default" = None → host ∉ map_words →
  tls_backend (stream_conf f) host =
    (u ← https_forwarding f !! host; list_fmap _ _ sock_to_string <$> https_upstream f !! u).
Proof.
  intros Hd Hh. rewrite tls_backend_table. unfold map_value. rewrite decide_False, !arg_table, Hd by done.
  by destruct (https_forwarding f !! host).
Qed.

Lemma named_site (m : gmap string string) host :
  head (filter (λ b, says "listen" ["80"] b && says "server_name" [host] b = true) (blocks "server" [] (sites m))) =
    site host <$> m !! host.
Proof.
  rewrite <-(list_to_map_entries m) at 2. unfold sites.
  induction (entries m) as [|[d u] l IH]; [done|]. cbn [fmap list_fmap blocks omap list_omap].
  rewrite decide_True by done. rewrite filter_cons.
  assert (Hs : says "listen" ["80"] (site d u) && says "server_name" [host] (site d u) = bool_decide (d = host)).
  { unfold says. cbn. apply bool_decide_ext. set_solver. }
  rewrite Hs. destruct (decide (d = host)) as [->|Hne].
  - rewrite decide_True by (by apply bool_decide_eq_true). cbn. by rewrite lookup_insert_eq.
  - rewrite decide_False by (rewrite bool_decide_eq_true; done). cbn [list_to_map foldr]. by rewrite lookup_insert_ne.
Qed.

Lemma web_backend_conf f host :
  web_backend (sites_conf f) host =
    (u ← http_forwarding f !! host; list_fmap _ _ sock_to_string <$> http_upstream f !! u).
Proof.
  assert (Hs : blocks "server" [] (sites_conf f) = blocks "server" [] (sites (http_forwarding f))).
  { unfold sites_conf. rewrite blocks_app. unfold upstreams. by rewrite (blocks_other _ "server") by by intros []. }
  assert (Hu : ∀ u, blocks "upstream" [u] (sites_conf f) = blocks "upstream" [u] (upstreams (http_upstream f))).
  { intros u. unfold sites_conf. rewrite blocks_app. unfold sites.
    by rewrite (blocks_other _ "upstream"), app_nil_r by by intros []. }
  unfold web_backend. rewrite Hs, named_site. destruct (http_forwarding f !! host) as [u|]; [|done].
  cbn [mbind option_bind fmap option_fmap option_map].
  change (head (blocks "location" ["/"] (site host u))) with (Some
     [Simple "proxy_set_header" ["Host"; "$host"]; Simple "proxy_set_header" ["X-Real-IP"; "$remote_addr"];
      Simple "proxy_pass" ["http://" ++ u]]). cbn [mbind option_bind].
  change (arg "proxy_pass" _) with (Some ("http://" ++ u)). cbn [mbind option_bind after_prefix String.append Ascii.eqb Bool.eqb].
  by rewrite Hu, upstream_servers.
Qed.

(** ** Requests *)
Section requests.
Context `{T : Target} `{WK : WireguardKeys} `{UCO : !UrlCrateOk UC} `{ICO : !IpnetCrateOk IC}
        `{BCO : !Base32CrateOk BC} `{BT : !Base32Text BC} `{RCO : !RegexCrateOk RC} `{TEO : !TeraOk TE}.

(** The web hosts that a configuration mentions are names. *)
Definition named_url (url : Url) : Prop :=
  url_scheme url ∈ ["http"; "https"] → ∀ host, url_host_str url = Some host → hostname host = true.
Definition named (networks : list NetworkState) (custom : list (Url * SocketAddr)) : Prop :=
  Forall (λ n, Forall (λ e, named_url e.1) (proxied n)) networks ∧ Forall (λ e, named_url e.1) custom.

Lemma named_routes networks custom r :
  named networks custom →
  r ∈ (flat_map network_routes networks ++ (uncurry url_route <$> custom))%list →
  r_scheme r = "http" ∨ r_scheme r = "https" → hostname (r_host r) = true.
Proof.
  intros [Hn Hc] Hr Hs. rewrite Forall_forall in Hn. rewrite Forall_forall in Hc.
  assert (Hu : ∃ url gw, named_url url ∧ r = url_route url gw).
  { apply elem_of_routes in Hr as [(n & i & url & sock & Hin & Hi & ->)|(url & gw & Hin & ->)]; eexists _, _; split; try done.
    - apply Hn in Hin. rewrite Forall_forall in Hin. by apply (Hin (url, sock)), list_elem_of_lookup; exists i.
    - by apply (Hc (url, gw)). }
  destruct Hu as (url & gw & Hu & ->). cbn in *.
  destruct (url_special_host url Hs) as [host Hh]. rewrite Hh. cbn. apply Hu; [set_solver|done].
Qed.

Lemma plain_scheme scheme prefix fwd ups rs :
  scheme_repr prefix fwd ups (of_scheme scheme rs) → plain_word prefix →
  (∀ r, r ∈ rs → r_scheme r = scheme → hostname (r_host r) = true) →
  plain_names fwd ups ∧ fwd !! "default" = None.
Proof.
  intros [Hf _ Hn] Hp Hh.
  assert (Hk : ∀ h u, fwd !! h = Some u → hostname h = true ∧ u = prefix ++ base32_encode h).
  { intros h u. rewrite Hf. destruct (backends h _) as [|gw l] eqn:Hb; cbn; [done|]. intros [= <-]. split; [|done].
    assert (Hin : gw ∈ backends h (of_scheme scheme rs)) by (rewrite Hb; left).
    apply elem_of_backends in Hin as (r & Hr & Hs & <- & _). by apply Hh. }
  split; [split|].
  - intros h u [Hhost ->]%Hk. split; [by apply plain_host|by apply plain_base32].
  - intros u l Hu. destruct (Hn u) as [h ->]; [by eexists|]. by apply plain_base32.
  - destruct (fwd !! "default") eqn:Hd; [|done]. by apply Hk in Hd as [? _].
Qed.

Lemma elem_of_servers fwd ups (host server : string) :
  server ∈ default [] (u ← fwd !! host; list_fmap _ _ sock_to_string <$> ups !! u) ↔
  ∃ gw, server = sock_to_string gw ∧ gw ∈ default [] ((fwd : gmap string string) !! host ≫= λ u, (ups : gmap string (list SocketAddr)) !! u).
Proof.
  destruct (fwd !! host) as [u|]; cbn; [|set_solver].
  destruct (ups !! u) as [l|]; cbn; [apply list_elem_of_fmap|set_solver].
Qed.

(** The two files rendered for NGINX are valid configurations; for every
    server name the servers to which NGINX then sends TLS connections on port
    443 and web requests on port 80 are exactly the entries that the networks
    and the custom forwarding list for that name and scheme. *)
Lemma nginx_serves networks custom :
  Forall servable networks → named networks custom →
  ∃ f, forwarding_of networks custom = Ok f ∧
    read_nginx (render_nginx f) = Some (stream_conf f) ∧ read_nginx (render_sites f) = Some (sites_conf f) ∧
    ∀ host server, host ∉ map_words →
      (server ∈ default [] (tls_backend (stream_conf f) host) ↔
         ∃ gw, server = sock_to_string gw ∧ serves networks custom "https" host gw) ∧
      (server ∈ default [] (web_backend (sites_conf f) host) ↔
         ∃ gw, server = sock_to_string gw ∧ serves networks custom "http" host gw).
Proof.
  intros Hn Hnamed. destruct (forwarding_of_repr networks custom) as (f & Hf & Hs & Hp & _).
  { eapply Forall_impl; [done|]. by intros n []. }
  destruct (plain_scheme _ _ _ _ _ Hs) as [Htls Hd]; [by apply plain_literal|intros; eapply named_routes; eauto|].
  destruct (plain_scheme _ _ _ _ _ Hp) as [Hweb _]; [by apply plain_literal|intros; eapply named_routes; eauto|].
  exists f. split; [done|].
  split; [by apply read_tokens, lex_stream_file|]. split; [by apply read_tokens, lex_sites_file|].
  intros host server Hw. rewrite tls_backend_conf, web_backend_conf by done.
  rewrite !elem_of_servers. destruct (requests_reach networks custom Hn) as (g & Hg & Hr).
  rewrite Hf in Hg. injection Hg as <-.
  split; f_equiv; intros gw; destruct (Hr host gw) as [H1 H2]; [by rewrite <-H1|by rewrite <-H2].
Qed.
End requests.

(** A URL with host [default] takes the connections of every name that is
    not listed: NGINX reads its line of the [map] block as the default. *)
Lemma default_host_captures f host u l :
  https_forwarding f !! "default" = Some u → https_upstream f !! u = Some l →
  https_forwarding f !! host = None →
  tls_backend (stream_conf f) host = Some (sock_to_string <$> l).
Proof.
  intros Hd Hu Hh. rewrite tls_backend_table. unfold map_value. rewrite !arg_table, Hh, Hd.
  case_decide; cbn [mbind option_bind]; by rewrite Hu.
Qed.
