(* ===== verification/Stats.v ===== *)
(** * Statistics read from [wg show dump]

    Models the second half of src/types.rs: [NetworkStats], [PeerStats] and
    their parsers. *)
From S2P Require Import Prelude Text BTree Net Crates Samples.
From Stdlib Require Import Ascii.

Local Open Scope string_scope.
Local Open Scope Z_scope.

(** [SystemTime], as nanoseconds since [UNIX_EPOCH]; the clock counts whole
    seconds in an [i64]. *)
Definition SystemTime : Type := Z.
Definition nanos : Z := 1000000000.
Definition unix_epoch_checked_add (secs : Z) : option SystemTime :=
  if decide (secs < 2 ^ 63) then Some (secs * nanos) else None.

Section stats.
Context `{T : Target} `{WK : WireguardKeys} `{IC : IpnetCrate}.

Record PeerStats := {
  peer_public_key : Pubkey;
  preshared_key : option Secret;
  endpoint : option SocketAddr;
  allowed_ips : list IpNet;
  latest_handshake : option SystemTime;
  transfer_rx : Z;
  transfer_tx : Z;
  persistent_keepalive : option Z
}.

Record NetworkStats := {
  stats_private_key : Privkey;
  stats_public_key : Pubkey;
  stats_listen_port : Z;
  stats_fwmark : option Z;
  stats_peers : list PeerStats
}.

Definition transfer (p : PeerStats) : Z * Z := (transfer_rx p, transfer_tx p).

Definition err_line_len : error := EMsg "Wrong network stats line len".
Definition err_no_line : error := EMsg "Missing network line".
Definition err_handshake : error := EMsg "Error parsing latest handshake time".

Definition PeerStats_from_str (output : string) : outcome PeerStats :=
  match split_on TAB output with
  | [c0; c1; c2; c3; c4; c5; c6; c7] =>
      public ← pubkey_from_str c0;
      preshared ← (if decide (c1 = "(none)") then Ok None
                   else k ← secret_from_str c1; Ok (Some k));
      endpoint ← (if decide (c2 = "(none)") then Ok None
                  else e ← context "Parsing endpoint" (parse_socket c2); Ok (Some e));
      allowed ← (if decide (c3 = "(none)") then Ok []
                 else context "Parsing IpNet" (collect ipnet_from_str (split_on "," c3)));
      handshake ← (timestamp ← parse_uint 64 c4;
                   if decide (timestamp > 0)
                   then t ← ok_or err_handshake (unix_epoch_checked_add timestamp); Ok (Some t)
                   else Ok None);
      received ← parse_uint usize_bits c5;
      sent ← parse_uint usize_bits c6;
      keepalive ← (if decide (c7 = "off") then Ok None
                   else k ← parse_uint usize_bits c4; Ok (Some k));
      Ok {| peer_public_key := public; preshared_key := preshared; endpoint := endpoint;
            allowed_ips := allowed; latest_handshake := handshake;
            transfer_rx := received; transfer_tx := sent; persistent_keepalive := keepalive |}
  | _ => Err err_line_len
  end.

Definition NetworkStats_from_str (output : string) : outcome NetworkStats :=
  match lines output with
  | [] => Err err_no_line
  | network_stats :: rest =>
      match split_on TAB network_stats with
      | [c0; c1; c2; c3] =>
          private ← privkey_from_str c0;
          public ← pubkey_from_str c1;
          port ← parse_uint 16 c2;
          fwmark ← (if decide (c3 = "off") then Ok None
                    else m ← parse_uint 16 c3; Ok (Some m));
          peers ← collect PeerStats_from_str rest;
          Ok {| stats_private_key := private; stats_public_key := public;
                stats_listen_port := port; stats_fwmark := fwmark; stats_peers := peers |}
      | _ => Err err_line_len
      end
  end.
End stats.

(** ** The dump format

    What [wg show dump] prints, from wg(8): the specification of the parsers. *)
Section dump.
Context `{T : Target} `{WK : WireguardKeys} `{IC : IpnetCrate}.

Definition or_word {A} (word : string) (f : A → string) (o : option A) : string :=
  match o with Some a => f a | None => word end.
Definition nets_text (l : list IpNet) : string :=
  match l with [] => "(none)" | _ => join "," (ipnet_to_string <$> l) end.

Definition peer_columns (p : PeerStats) : list string :=
  [pubkey_to_string (peer_public_key p);
   or_word "(none)" secret_to_string (preshared_key p);
   or_word "(none)" sock_to_string (endpoint p);
   nets_text (allowed_ips p);
   dec (default 0 (latest_handshake p) / nanos);
   dec (transfer_rx p);
   dec (transfer_tx p);
   or_word "off" dec (persistent_keepalive p)].
(** A mark is printed in hexadecimal. *)
Definition mark_text (m : Z) : string := "0x" ++ hex_go 8 m.
Definition network_columns (s : NetworkStats) : list string :=
  [privkey_to_string (stats_private_key s);
   pubkey_to_string (stats_public_key s);
   dec (stats_listen_port s);
   or_word "off" mark_text (stats_fwmark s)].
Definition columns (l : list string) : string := join (char_str TAB) l.
Definition dump (s : NetworkStats) : string :=
  unlines (columns (network_columns s) :: (columns ∘ peer_columns <$> stats_peers s)).

#[global] Instance ipnet_text_ok_dec n : Decision (ipnet_text_ok n).
Proof. unfold ipnet_text_ok. apply _. Defined.

(** Statistics the kernel can report. *)
Definition peer_stats_ok (p : PeerStats) : Prop :=
  (∀ e, endpoint p = Some e → parse_socket (sock_to_string e) = Ok e) ∧
  Forall ipnet_text_ok (allowed_ips p) ∧
  (∀ t, latest_handshake p = Some t → ∃ secs, t = secs * nanos ∧ 0 < secs < 2 ^ 32) ∧
  in_width usize_bits (transfer_rx p) ∧ in_width usize_bits (transfer_tx p) ∧
  (∀ k, persistent_keepalive p = Some k → in_width 16 k).
Definition network_stats_ok (s : NetworkStats) : Prop :=
  in_width 16 (stats_listen_port s) ∧
  Forall peer_stats_ok (stats_peers s).

(** The keepalive column is not read: a peer that has one is given the
    seconds of its latest handshake instead. *)
Definition keepalive_misread (p : PeerStats) : PeerStats := {|
  peer_public_key := peer_public_key p; preshared_key := preshared_key p;
  endpoint := endpoint p; allowed_ips := allowed_ips p;
  latest_handshake := latest_handshake p;
  transfer_rx := transfer_rx p; transfer_tx := transfer_tx p;
  persistent_keepalive :=
    (λ _, default 0 (latest_handshake p) / nanos) <$> persistent_keepalive p |}.
End dump.

Section roundtrip.
Context `{TargetOk} `{WKO : !WireguardKeysOk WK} `{IC : IpnetCrate}.

Lemma dec_not_word n word : 0 ≤ n → match word with "" => False | String a _ => char_digit a = None end →
  dec n ≠ word.
Proof.
  intros Hn Hw He. destruct (dec_head n Hn) as (a & s & Hd & [d Ha]).
  rewrite <-He, Hd in Hw. congruence.
Qed.

Lemma parse_usize_dec n : in_width usize_bits n → parse_uint usize_bits (dec n) = Ok n.
Proof. apply parse_dec. Qed.

Lemma read_preshared (o : option Secret) :
  (if decide (or_word "(none)" secret_to_string o = "(none)") then Ok None
   else k ← secret_from_str (or_word "(none)" secret_to_string o); Ok (Some k)) = Ok o.
Proof.
  destruct o as [k|]; cbn; [|done]. destruct secret_text as [Hrt _ Hnone].
  by rewrite decide_False, Hrt.
Qed.

Lemma read_endpoint (o : option SocketAddr) :
  (∀ e, o = Some e → parse_socket (sock_to_string e) = Ok e) →
  (if decide (or_word "(none)" sock_to_string o = "(none)") then Ok None
   else e ← context "Parsing endpoint" (parse_socket (or_word "(none)" sock_to_string o));
        Ok (Some e)) = Ok o.
Proof.
  intros Ho. destruct o as [e|]; cbn; [|done]. specialize (Ho e eq_refl).
  rewrite decide_False, Ho; [done|]. intros He. by rewrite He in Ho.
Qed.

Lemma nets_text_some l : l ≠ [] → Forall ipnet_text_ok l → nets_text l ≠ "(none)".
Proof.
  intros Hl Hok. destruct Hok as [|n l (_ & _ & Hn) Hok]; [done|].
  destruct l as [|m l]; [done|]. intros He.
  assert (Hc : has_char "," (nets_text (n :: m :: l)) = true).
  { unfold nets_text. cbn [fmap list_fmap].
    change (join "," (ipnet_to_string n :: ipnet_to_string m :: (ipnet_to_string <$> l)))
      with (ipnet_to_string n ++ String "," (join "," (ipnet_to_string m :: (ipnet_to_string <$> l)))).
    rewrite has_char_app. cbn. by rewrite orb_true_r. }
  by rewrite He in Hc.
Qed.

Lemma read_nets l :
  Forall ipnet_text_ok l →
  (if decide (nets_text l = "(none)") then Ok []
   else context "Parsing IpNet" (collect ipnet_from_str (split_on "," (nets_text l)))) = Ok l.
Proof.
  intros Hok. destruct (decide (l = [])) as [->|Hl]; [done|].
  rewrite decide_False by by apply nets_text_some.
  replace (nets_text l) with (join (char_str ",") (ipnet_to_string <$> l)) by by destruct l.
  rewrite split_on_join; cycle 1.
  { by destruct l. }
  { apply Forall_fmap. eapply Forall_impl; [done|]. intros n (_ & Hc & _).
    by apply Forall_app in Hc || (repeat (apply Forall_cons in Hc as [? Hc])). }
  apply context_Ok, collect_Ok. rewrite Forall2_fmap_l. apply Forall_Forall2_diag.
  eapply Forall_impl; [done|]. by intros n [? _].
Qed.

Lemma read_handshake (o : option SystemTime) :
  (∀ t, o = Some t → ∃ secs, t = secs * nanos ∧ 0 < secs < 2 ^ 32) →
  (timestamp ← parse_uint 64 (dec (default 0 o / nanos));
   if decide (timestamp > 0)
   then t ← ok_or err_handshake (unix_epoch_checked_add timestamp); Ok (Some t)
   else Ok None) = Ok o.
Proof.
  intros Ho. destruct o as [t|]; [|by vm_compute].
  destruct (Ho t eq_refl) as (secs & -> & Hs). cbn [default from_option id].
  rewrite Z.div_mul by done. rewrite parse_dec by (unfold in_width; lia). cbn [mbind outcome_bind].
  rewrite decide_True by lia. unfold unix_epoch_checked_add. by rewrite decide_True by lia.
Qed.

Lemma handshake_usize (o : option SystemTime) :
  (∀ t, o = Some t → ∃ secs, t = secs * nanos ∧ 0 < secs < 2 ^ 32) →
  in_width usize_bits (default 0 o / nanos).
Proof.
  intros Ho. assert (Hw : 2 ^ 32 ≤ 2 ^ usize_bits) by (destruct usize_bits_cases as [-> | ->]; lia).
  destruct o as [t|]; cbn; [|unfold in_width; rewrite Z.div_0_l by done; lia].
  destruct (Ho t eq_refl) as (secs & -> & Hs). rewrite Z.div_mul by done. unfold in_width. lia.
Qed.
End roundtrip.

Section roundtrip_theorem.
Context `{TargetOk} `{WKO : !WireguardKeysOk WK} `{IC : IpnetCrate}.

(** A column has no tab and no line ending. *)
Definition column_ok (s : string) : Prop :=
  Forall (λ c, has_char c s = false) [TAB; LF; CR].

Lemma column_control s : (∀ c, control c → has_char c s = false) → column_ok s.
Proof. intros Hs. repeat constructor; apply Hs; auto with gw. Qed.

Lemma column_dec n : column_ok (dec n).
Proof. apply column_control. intros c Hc. by apply dec_char, control_no_digit. Qed.

Lemma column_mark m : column_ok (mark_text m).
Proof.
  apply column_control. intros c Hc. unfold mark_text. rewrite has_char_app, hex_go_alien by auto with gw.
  by rewrite (literal_control c "0x").
Qed.

Lemma column_key {K} (to_string : K → string) from_str k :
  KeyText to_string from_str → column_ok (to_string k).
Proof. intros Hk. repeat constructor; apply (key_chars (from_str := from_str)); auto. Qed.

Lemma column_or_word {A} word (f : A → string) o :
  column_ok word → (∀ a, column_ok (f a)) → column_ok (or_word word f o).
Proof. by destruct o; cbn. Qed.

Lemma column_literal s : printable s = true → column_ok s.
Proof. intros Hs. apply column_control. intros c Hc. by apply literal_control. Qed.

Lemma column_nets l : Forall ipnet_text_ok l → column_ok (nets_text l).
Proof.
  intros Hl. unfold nets_text. destruct l as [|n l]; [by apply column_literal|].
  unfold column_ok. rewrite Forall_forall. intros c Hc. apply has_char_join.
  - by rewrite !elem_of_cons in Hc; destruct Hc as [-> | [-> | [-> | ?%elem_of_nil]]].
  - apply Forall_fmap. eapply Forall_impl; [done|]. intros m (_ & Hm & _).
    rewrite Forall_forall in Hm. apply Hm. set_solver.
Qed.

Lemma peer_columns_ok p : Forall ipnet_text_ok (allowed_ips p) → Forall column_ok (peer_columns p).
Proof.
  intros Hnets. unfold peer_columns.
  forall_cons; repeat apply column_or_word; intros; try (by apply column_literal);
    eauto using column_dec, column_key, pubkey_text, secret_text, column_nets.
  apply column_control. intros c. apply sock_text_control.
Qed.

Lemma network_columns_ok s : Forall column_ok (network_columns s).
Proof.
  unfold network_columns. forall_cons; repeat apply column_or_word; intros; try (by apply column_literal);
    eauto using column_dec, column_key, pubkey_text, privkey_text, column_mark.
Qed.

Lemma split_columns l : l ≠ [] → Forall column_ok l → split_on TAB (columns l) = l.
Proof.
  intros Hl Hok. apply split_on_join; [done|]. eapply Forall_impl; [done|].
  by intros s [? _]%Forall_cons.
Qed.

Lemma columns_char c l : c ∈ [LF; CR] → Forall column_ok l → has_char c (columns l) = false.
Proof.
  intros Hc Hl. apply has_char_join.
  - by rewrite !elem_of_cons in Hc; destruct Hc as [-> | [-> | ?%elem_of_nil]].
  - eapply Forall_impl; [done|]. intros s Hs. unfold column_ok in Hs.
    rewrite Forall_forall in Hs. apply Hs. set_solver.
Qed.

Lemma PeerStats_roundtrip p :
  peer_stats_ok p → PeerStats_from_str (columns (peer_columns p)) = Ok (keepalive_misread p).
Proof.
  intros (He & Hn & Hh & Hrx & Htx & Hk). unfold PeerStats_from_str.
  rewrite split_columns by (done || by apply peer_columns_ok). unfold peer_columns.
  destruct pubkey_text as [Hpub _ _]. rewrite Hpub. cbn [mbind outcome_bind].
  rewrite read_preshared. cbn [mbind outcome_bind]. rewrite read_endpoint by done.
  cbn [mbind outcome_bind]. rewrite read_nets by done. cbn [mbind outcome_bind].
  pose proof (read_handshake _ Hh) as Hhs. cbn [mbind outcome_bind] in Hhs. rewrite Hhs.
  rewrite !parse_usize_dec by (done || by apply handshake_usize).
  unfold keepalive_misread. destruct (persistent_keepalive p) as [k|] eqn:Hka; [|done].
  cbn [or_word]. rewrite decide_False; [done|].
  apply dec_not_word; [by apply (Hk k)|done].
Qed.

Lemma read_mark (o : option Z) :
  (if decide (or_word "off" mark_text o = "off") then Ok None
   else m ← parse_uint 16 (or_word "off" mark_text o); Ok (Some m)) =
  match o with Some _ => Err err_int_digit | None => Ok None end.
Proof. by destruct o. Qed.

(** C23: the output of [wg show dump] is read back exactly, the port, keys,
    endpoints, networks, handshake times and counters of every peer, except
    for two columns: a peer that has a keepalive interval is given the seconds
    of its latest handshake as that interval, and the output for an interface
    with a firewall mark, which is printed in hexadecimal, is refused. *)
Theorem NetworkStats_dump_roundtrip s :
  network_stats_ok s →
  NetworkStats_from_str (dump s) =
    match stats_fwmark s with
    | Some _ => Err err_int_digit
    | None => Ok {|
        stats_private_key := stats_private_key s; stats_public_key := stats_public_key s;
        stats_listen_port := stats_listen_port s; stats_fwmark := None;
        stats_peers := keepalive_misread <$> stats_peers s |}
    end.
Proof.
  intros (Hport & Hpeers). unfold NetworkStats_from_str, dump.
  assert (Hcols : ∀ p, p ∈ stats_peers s → Forall column_ok (peer_columns p)).
  { intros p Hp. rewrite Forall_forall in Hpeers. apply peer_columns_ok, (Hpeers p Hp). }
  assert (Hchar : ∀ c, c ∈ [LF; CR] → Forall (λ l, has_char c l = false)
    (columns (network_columns s) :: (columns ∘ peer_columns <$> stats_peers s))).
  { intros c Hc. apply Forall_cons. split; [by apply columns_char, network_columns_ok|].
    apply Forall_fmap, Forall_forall. intros p Hp. by apply columns_char, Hcols. }
  rewrite lines_unlines by (apply Hchar; set_solver).
  rewrite split_columns by (done || by apply network_columns_ok). unfold network_columns.
  destruct privkey_text as [Hpriv _ _], pubkey_text as [Hpub _ _].
  rewrite Hpriv. cbn [mbind outcome_bind]. rewrite Hpub. cbn [mbind outcome_bind].
  rewrite parse_dec by done. cbn [mbind outcome_bind].
  rewrite read_mark. destruct (stats_fwmark s) as [m|]; [done|]. cbn [mbind outcome_bind].
  rewrite (collect_fmap_Ok _ _ keepalive_misread); [done|].
  intros p Hp. rewrite Forall_forall in Hpeers. by apply PeerStats_roundtrip, Hpeers.
Qed.
End roundtrip_theorem.

(** ** Types *)
Section typed.
Context `{TargetOk} `{WK : WireguardKeys} `{IC : IpnetCrate}.

Definition peer_typed (p : PeerStats) : Prop :=
  in_width usize_bits (transfer_rx p) ∧ in_width usize_bits (transfer_tx p) ∧
  (∀ k, persistent_keepalive p = Some k → in_width usize_bits k) ∧
  (∀ t, latest_handshake p = Some t → ∃ secs, t = secs * nanos ∧ 0 < secs < 2 ^ 63).

Lemma PeerStats_typed output p : PeerStats_from_str output = Ok p → peer_typed p.
Proof.
  unfold PeerStats_from_str. intros Hp.
  destruct (split_on TAB output) as [|c0 [|c1 [|c2 [|c3 [|c4 [|c5 [|c6 [|c7 [|? ?]]]]]]]]]; try done.
  apply bind_Ok in Hp as (public & _ & Hp). apply bind_Ok in Hp as (preshared & _ & Hp).
  apply bind_Ok in Hp as (e & _ & Hp). apply bind_Ok in Hp as (allowed & _ & Hp).
  apply bind_Ok in Hp as (handshake & Hh & Hp). apply bind_Ok in Hp as (received & Hr & Hp).
  apply bind_Ok in Hp as (sent & Hs & Hp). apply bind_Ok in Hp as (keepalive & Hk & [= <-]).
  unfold peer_typed; cbn. split_and!.
  - by eapply parse_uint_in_width; [auto with gw|].
  - by eapply parse_uint_in_width; [auto with gw|].
  - intros k ->. case_decide; [done|]. apply bind_Ok in Hk as (k' & Hk & [= ->]).
    by eapply parse_uint_in_width; [auto with gw|].
  - intros t ->. apply bind_Ok in Hh as (secs & _ & Hh).
    destruct (decide (secs > 0)) as [Hpos|]; [|done].
    apply bind_Ok in Hh as (t' & Ht & [= ->]). apply ok_or_Ok in Ht.
    unfold unix_epoch_checked_add in Ht.
    destruct (decide (secs < 2 ^ 63)) as [Hmax|]; [|done]. injection Ht as <-.
    exists secs. split; [done|lia].
Qed.

(** C30: the parser of the statistics delivers what its types promise: ports
    and marks of 16 bits, counters and intervals of the width of [usize],
    handshake times after the epoch that [SystemTime] can hold, and one peer
    for every line after the first. *)
Theorem NetworkStats_typed output s :
  NetworkStats_from_str output = Ok s →
  in_width 16 (stats_listen_port s) ∧ (∀ m, stats_fwmark s = Some m → in_width 16 m) ∧
  Forall peer_typed (stats_peers s) ∧ length (lines output) = S (length (stats_peers s)).
Proof.
  unfold NetworkStats_from_str. intros Hs. destruct (lines output) as [|first rest]; [done|].
  destruct (split_on TAB first) as [|c0 [|c1 [|c2 [|c3 [|? ?]]]]]; try done.
  apply bind_Ok in Hs as (private & _ & Hs). apply bind_Ok in Hs as (public & _ & Hs).
  apply bind_Ok in Hs as (port & Hport & Hs). apply bind_Ok in Hs as (mark & Hmark & Hs).
  apply bind_Ok in Hs as (peers & Hpeers & [= <-]). cbn. split_and!.
  - by eapply parse_uint_in_width; [|].
  - intros m ->. case_decide; [done|]. apply bind_Ok in Hmark as (m' & Hm & [= ->]).
    by eapply parse_uint_in_width; [|].
  - apply collect_Ok in Hpeers. clear -Hpeers H. induction Hpeers as [|l p ls ps Hp _ IH]; [done|].
    apply Forall_cons. split; [by eapply PeerStats_typed|done].
  - f_equal. symmetry. by eapply collect_length.
Qed.
End typed.

(** ** Witness *)
Section witnesses.
#[local] Existing Instances sample_keys sample_ipnet release64 release64_ok sample_keys_ok.

Definition sample_peer_stats : PeerStats := {|
  peer_public_key := (KB : Pubkey); preshared_key := Some (KC : Secret);
  endpoint := Some (SockV4 (ipv4 170 24 12 42) 41213);
  allowed_ips := [SNet (IpV4 (ipv4 10 0 0 2)) 32 : IpNet; SNet (IpV4 (ipv4 10 0 0 3)) 32];
  latest_handshake := Some (1658000000 * nanos);
  transfer_rx := 1234; transfer_tx := 98765;
  persistent_keepalive := Some 25 |}.
Definition sample_stats : NetworkStats := {|
  stats_private_key := (KA : Privkey); stats_public_key := (KA : Pubkey);
  stats_listen_port := 12312; stats_fwmark := None;
  stats_peers := [sample_peer_stats] |}.

Lemma sample_stats_ok : network_stats_ok sample_stats.
Proof.
  split; [by vm_compute|]. cbn [sample_stats stats_peers]. forall_cons.
  unfold peer_stats_ok, sample_peer_stats; cbn [allowed_ips endpoint latest_handshake
    transfer_rx transfer_tx persistent_keepalive]. split_and!.
  - intros e [= <-]. by vm_compute.
  - apply (bool_decide_unpack _). by vm_compute.
  - intros t [= <-]. by exists 1658000000.
  - by vm_compute.
  - by vm_compute.
  - intros k [= <-]. by vm_compute.
Qed.

Lemma NetworkStats_dump_roundtrip_witness :
  persistent_keepalive <$> stats_peers sample_stats = [Some 25] ∧
  (λ r, persistent_keepalive <$> stats_peers r) <$> NetworkStats_from_str (dump sample_stats) =
    Ok [Some 1658000000].
Proof.
  split; [done|]. rewrite (NetworkStats_dump_roundtrip sample_stats) by apply sample_stats_ok.
  by vm_compute.
Defined.

(** The same with a mark: the text is refused. *)
Definition marked_stats : NetworkStats := {|
  stats_private_key := (KA : Privkey); stats_public_key := (KA : Pubkey);
  stats_listen_port := 12312; stats_fwmark := Some 51820; stats_peers := [] |}.
Example marked_stats_refused : NetworkStats_from_str (dump marked_stats) = Err err_int_digit.
Proof. reflexivity. Qed.

Definition read_back : NetworkStats := ok_default sample_stats (NetworkStats_from_str (dump sample_stats)).
Lemma NetworkStats_typed_witness :
  in_width 16 (stats_listen_port read_back) ∧ (∀ m, stats_fwmark read_back = Some m → in_width 16 m) ∧
  Forall peer_typed (stats_peers read_back) ∧
  length (lines (dump sample_stats)) = S (length (stats_peers read_back)).
Proof. apply NetworkStats_typed, ok_default_spec. vm_compute. reflexivity. Defined.
End witnesses.
