(* ===== verification/Options.v ===== *)
(** * Command-line options

    Models the options of src/lib.rs and the parser of the custom forwarding
    entries. *)
From S2P Require Import Prelude Text Net Crates Samples.
From Stdlib Require Import Ascii.

Local Open Scope string_scope.
Local Open Scope Z_scope.

(** Lengths of the two broadcast queues. *)
Definition BROADCAST_QUEUE_TRAFFIC : Z := 16.
Definition BROADCAST_QUEUE_EVENTS : Z := 16.

Section options.
Context `{UC : UrlCrate}.

(** [Options]; the watchdog interval in seconds. *)
Record Options := {
  opt_token : string;
  opt_watchdog : Z;
  opt_custom_forwarding : list (Url * SocketAddr);
  opt_manager : Url;
  opt_identity : string
}.

Definition parse_custom_forwarding (text : string) : outcome (Url * SocketAddr) :=
  let parts := split_on "=" text in
  url_part ← ok_or (EMsg "Missing URL part") (head parts);
  url ← context "While parsing forwarding URL" (url_parse url_part);
  socket_part ← ok_or (EMsg "Missing socket part") (head (tail parts));
  socket ← parse_socket socket_part;
  Ok (url, socket).

(** An entry [url=socket] is read as that URL and that socket; whatever
    follows a second equals sign is ignored, and without an equals sign the
    entry is refused. *)
Theorem parse_custom_forwarding_entry url sock rest :
  has_char "=" (url_to_string url) = false → url_parse (url_to_string url) = Ok url →
  has_char "=" (sock_to_string sock) = false → parse_socket (sock_to_string sock) = Ok sock →
  parse_custom_forwarding (url_to_string url ++ "=" ++ sock_to_string sock) = Ok (url, sock) ∧
  parse_custom_forwarding (url_to_string url ++ "=" ++ sock_to_string sock ++ "=" ++ rest) = Ok (url, sock) ∧
  parse_custom_forwarding (url_to_string url) = Err (EMsg "Missing socket part").
Proof.
  intros Hu Hup Hs Hsp. unfold parse_custom_forwarding.
  change ("=" ++ sock_to_string sock) with (String "=" (sock_to_string sock)).
  change ("=" ++ sock_to_string sock ++ "=" ++ rest)
    with (String "=" (sock_to_string sock ++ String "=" rest)).
  rewrite !split_on_app, (split_on_none _ (url_to_string url)), (split_on_none _ (sock_to_string _))
    by done.
  cbn. rewrite Hup. cbn. by rewrite Hsp.
Qed.
End options.

Lemma parse_custom_forwarding_entry_witness :
  parse_custom_forwarding (UC := sample_url) "https://a.com=127.0.0.1:8000" =
    Ok ("https://a.com" : @Url sample_url, SockV4 (ipv4 127 0 0 1) 8000) ∧
  parse_custom_forwarding (UC := sample_url) "https://a.com=127.0.0.1:8000=x" =
    Ok ("https://a.com" : @Url sample_url, SockV4 (ipv4 127 0 0 1) 8000) ∧
  parse_custom_forwarding (UC := sample_url) "https://a.com" = Err (EMsg "Missing socket part").
Proof.
  apply (parse_custom_forwarding_entry (UC := sample_url)
    ("https://a.com" : @Url sample_url) (SockV4 (ipv4 127 0 0 1) 8000) "x"); by vm_compute.
Defined.

(** A URL with a query string is cut at its first equals sign. *)
Example query_url_refused :
  parse_custom_forwarding (UC := sample_url) "https://a.com/?k=v=127.0.0.1:8000" = Err err_socket.
Proof. by vm_compute. Qed.
