(* ===== verification/Host.v ===== *)
(** * The machine the gateway runs on

    The functions of fractal-networking-wrappers, [tokio::fs::write], the
    clock and the broadcast queues, as operations [Op] with the type of their
    answers.  A [Host] answers them: it is a parameter, so a result about
    every host covers every failure and every interference from outside.
    What the operations do to a kernel is the subject of Kernel.v. *)
From S2P Require Import Prelude Text BTree Net Crates Client Stats.

Local Open Scope string_scope.
Local Open Scope Z_scope.

Section host.
Context `{WK : WireguardKeys} `{UC : UrlCrate} `{IC : IpnetCrate}.

Record NetnsItem := { item_name : string; item_id : option Z }.
Record InterfaceShow := { show_mtu : option Z; show_is_down : bool }.

(** A network namespace of the host, [None] for the root one. *)
Definition nsname : Type := option string.

Inductive Op : Type :=
| NetnsList
| NetnsExists (netns : string)
| WireguardExists (netns wgif : string)
| WireguardStats (netns wgif : string)
| InterfaceInfo (ns : nsname) (interface : string)
| AddrList (ns : nsname) (interface : string)
| BridgeExists (ns : nsname) (name : string)
| VethExists (netns name : string)
| LinkGetMaster (ns : nsname) (interface : string)
| IptablesSave (ns : nsname)
| NetnsAdd (netns : string)
| NetnsDel (netns : string)
| NetnsWriteFile (netns path content : string)
| WireguardCreate (ns : nsname) (wgif : string)
| WireguardSyncconf (netns wgif : string)
| InterfaceMtu (ns : nsname) (interface : string) (mtu : Z)
| InterfaceUp (ns : nsname) (interface : string)
| AddrAdd (ns : nsname) (interface : string) (addr : IpNet)
| BridgeAdd (ns : nsname) (name : string)
| VethAdd (netns inner outer : string)
| LinkSetMaster (ns : nsname) (interface master : string)
| IptablesRestore (ns : nsname) (save : string)
| FsWrite (path content : string)
| NginxReload
| SendTraffic (traffic : TrafficInfo)
| SendEvent (event : GatewayEvent).

Definition resp (o : Op) : Type :=
  match o with
  | NetnsList => list NetnsItem
  | NetnsExists _ | WireguardExists _ _ | BridgeExists _ _ | VethExists _ _ => bool
  | WireguardStats _ _ => NetworkStats
  | InterfaceInfo _ _ => InterfaceShow
  | AddrList _ _ => list IpNet
  | LinkGetMaster _ _ => option string
  | IptablesSave _ => string
  | _ => unit
  end.

(** An operation that only reads. *)
Definition is_query (o : Op) : bool :=
  match o with
  | NetnsList | NetnsExists _ | WireguardExists _ _ | WireguardStats _ _ | InterfaceInfo _ _
  | AddrList _ _ | BridgeExists _ _ | VethExists _ _ | LinkGetMaster _ _ | IptablesSave _ => true
  | _ => false
  end.

(** An operation that leaves interfaces, addresses, namespaces and packet
    rules alone: it reads, writes a file, or makes a daemon read its file. *)
Definition is_calm (o : Op) : bool :=
  is_query o ||
  match o with
  | NetnsWriteFile _ _ _ | WireguardSyncconf _ _ | FsWrite _ _ | NginxReload => true
  | _ => false
  end.
End host.

(** A host with state [S]: operations may fail with an error; whether a path
    is a file and the clock can always be read. *)
Class Host `{WireguardKeys} `{IpnetCrate} (S : Type) := {
  exec (o : Op) : S → (resp o + error) * S;
  path_is_file (path : string) : S → bool;
  now : S → SystemTime * S
}.

(** ** Programs that call the host

    The state of a program is the host, the operations issued so far, and the
    configuration behind [Global]'s lock. *)
Section programs.
Context `{WK : WireguardKeys} `{UC : UrlCrate} `{IC : IpnetCrate} {S : Type} `{HS : !Host S}.

Record World := { w_host : S; w_log : list Op; w_config : gmap Z NetworkState }.

Definition prog (A : Type) : Type := M World A.

Definition call (o : Op) : M World (resp o) := λ w,
  let '(r, s) := exec o (w_host w) in
  (match r with inl a => Ok a | inr e => Err e end,
   {| w_host := s; w_log := w_log w ++ [o]; w_config := w_config w |}).

Definition get_config : M World (gmap Z NetworkState) := λ w, (Ok (w_config w), w).
Definition set_config (c : gmap Z NetworkState) : M World unit := λ w,
  (Ok tt, {| w_host := w_host w; w_log := w_log w; w_config := c |}).
(** The same program, after something else has changed the host. *)
Definition rehost (s : S) (w : World) : World := {| w_host := s; w_log := w_log w; w_config := w_config w |}.
Definition ask_file (path : string) : M World bool := λ w, (Ok (path_is_file path (w_host w)), w).
Definition ask_now : M World SystemTime := λ w,
  let '(t, s) := now (w_host w) in
  (Ok t, {| w_host := s; w_log := w_log w; w_config := w_config w |}).

(** ** What a program may issue

    [emits φ m]: from every world and whatever the host answers, the
    operations [m] adds to the log satisfy [φ]. *)
Definition emits_from (φ : Op → Prop) {A} (m : M World A) (w : World) : Prop :=
  ∃ l, w_log (m w).2 = (w_log w ++ l)%list ∧ Forall φ l.
Definition emits (φ : Op → Prop) {A} (m : M World A) : Prop := ∀ w, emits_from φ m w.

(** [keeps_config m]: [m] does not touch the configuration. *)
Definition keeps_config {A} (m : M World A) : Prop := ∀ w, w_config (m w).2 = w_config w.

(** The host after answering the operations [l], with readings of the clock
    in between, and [runs m]: that is all [m] does to the host, however it
    ends. *)
Inductive hsteps : S → list Op → S → Prop :=
| hsteps_nil s : hsteps s [] s
| hsteps_exec o s l s' : hsteps (exec o s).2 l s' → hsteps s (o :: l) s'
| hsteps_now s l s' : hsteps (now s).2 l s' → hsteps s l s'.
Definition runs {A} (m : M World A) : Prop := ∀ w,
  ∃ l, w_log (m w).2 = (w_log w ++ l)%list ∧ hsteps (w_host w) l (w_host (m w).2).

Lemma hsteps_app s1 l1 s2 l2 s3 : hsteps s1 l1 s2 → hsteps s2 l2 s3 → hsteps s1 (l1 ++ l2) s3.
Proof. induction 1; intros H3; [done|constructor; auto..]. Qed.
End programs.
Arguments World {_ _ _} S.

Lemma rehost_same `{WireguardKeys} `{UrlCrate} `{IpnetCrate} {S} (w : World S) : rehost (w_host w) w = w.
Proof. by destruct w. Qed.

Section emits_rules.
Context `{WK : WireguardKeys} `{UC : UrlCrate} `{IC : IpnetCrate} {S : Type} `{HS : !Host S}.
Implicit Types φ : Op → Prop.

Lemma emits_silent φ {A} (m : M (World S) A) : (∀ w, w_log (m w).2 = w_log w) → emits φ m.
Proof. intros Hm w. exists []. by rewrite Hm, app_nil_r. Qed.

Lemma emits_ret φ {A} (a : A) : emits (S := S) φ (mret a).
Proof. by apply emits_silent. Qed.
Lemma emits_lift φ {A} (o : outcome A) : emits (S := S) φ (lift o).
Proof. by apply emits_silent. Qed.
Lemma emits_get_config φ : emits φ (get_config (S := S)).
Proof. by apply emits_silent. Qed.
Lemma emits_set_config φ c : emits φ (set_config (S := S) c).
Proof. by apply emits_silent. Qed.
Lemma emits_ask_file φ p : emits φ (ask_file p).
Proof. by apply emits_silent. Qed.
Lemma emits_ask_now φ : emits φ ask_now.
Proof. apply emits_silent. intros w. unfold ask_now. by destruct (now _). Qed.

Lemma emits_call φ o : φ o → emits φ (call o).
Proof.
  intros Ho w. exists [o]. unfold call. destruct (exec o (w_host w)) as [r s]. cbn.
  split; [done|]. by apply Forall_singleton.
Qed.

(** The continuation may use what the first part can answer. *)
Lemma emits_bind_wp φ {A B} (m : M (World S) A) (k : A → M (World S) B) (Q : A → Prop) :
  emits φ m → (∀ w, wp m (ok_post (λ a _, Q a)) w) → (∀ a, Q a → emits φ (k a)) →
  emits φ (m ≫= k).
Proof.
  intros Hm HQ Hk w. destruct (Hm w) as (l & Hl & Hφ). specialize (HQ w).
  unfold emits_from, wp, mbind, M_bind in *. destruct (m w) as [[a|e|] w'] eqn:Hw; cbn in *; [|by exists l..].
  destruct (Hk a HQ w') as (l' & Hl' & Hφ'). exists (l ++ l')%list.
  rewrite Hl', Hl, app_assoc. split; [done|]. by apply Forall_app.
Qed.

Lemma emits_bind φ {A B} (m : M (World S) A) (k : A → M (World S) B) :
  emits φ m → (∀ a, emits φ (k a)) → emits φ (m ≫= k).
Proof.
  intros Hm Hk. apply (emits_bind_wp φ m k (λ _, True)); [done| |auto].
  intros w. unfold wp. by destruct (m w) as [[] ?].
Qed.

Lemma emits_context φ {A} c (m : M (World S) A) : emits φ m → emits φ (with_context c m).
Proof.
  intros Hm w. specialize (Hm w). unfold emits_from, with_context in *. by destruct (m w) as [o w'].
Qed.

Lemma emits_attempt φ {A} (m : M (World S) A) : emits φ m → emits φ (attempt m).
Proof. intros Hm w. specialize (Hm w). unfold emits_from, attempt in *. by destruct (m w) as [[] w']. Qed.

Lemma emits_when φ b (m : M (World S) unit) : (b = true → emits φ m) → emits φ (when b m).
Proof. destruct b; cbn; auto using emits_ret. Qed.

Lemma emits_for_each φ {A} (l : list A) (f : A → M (World S) unit) :
  (∀ x, x ∈ l → emits φ (f x)) → emits φ (for_each l f).
Proof.
  induction l as [|x l IH]; intros Hf; cbn; [apply emits_ret|].
  apply emits_bind; [apply Hf; left|]. intros _. apply IH. intros y Hy. apply Hf. by right.
Qed.

Lemma emits_mono φ ψ {A} (m : M (World S) A) : emits φ m → (∀ o, φ o → ψ o) → emits ψ m.
Proof.
  intros Hm Hφ w. destruct (Hm w) as (l & Hl & HF). exists l. split; [done|].
  by eapply Forall_impl.
Qed.

(** *** The configuration is only set by [set_config] *)
Lemma keeps_call o : keeps_config (call o).
Proof. intros w. unfold call. by destruct (exec o (w_host w)). Qed.
Lemma keeps_ret {A} (a : A) : keeps_config (S := S) (mret a).
Proof. done. Qed.
Lemma keeps_lift {A} (o : outcome A) : keeps_config (S := S) (lift o).
Proof. done. Qed.
Lemma keeps_bind {A B} (m : M (World S) A) (k : A → M (World S) B) :
  keeps_config m → (∀ a, keeps_config (k a)) → keeps_config (m ≫= k).
Proof.
  intros Hm Hk w. specialize (Hm w). unfold mbind, M_bind.
  destruct (m w) as [[a|e|] w']; cbn in *; [|done..]. by rewrite Hk.
Qed.
Lemma keeps_context {A} c (m : M (World S) A) : keeps_config m → keeps_config (with_context c m).
Proof. intros Hm w. specialize (Hm w). unfold with_context. by destruct (m w). Qed.
Lemma keeps_when b (m : M (World S) unit) : keeps_config m → keeps_config (when b m).
Proof. by destruct b; cbn. Qed.
Lemma keeps_for_each {A} (l : list A) (f : A → M (World S) unit) :
  (∀ x, keeps_config (f x)) → keeps_config (for_each l f).
Proof. intros Hf. induction l as [|x l IH]; [done|]. apply keeps_bind; auto. Qed.

(** *** The host only changes by operations *)
Lemma runs_silent {A} (m : M (World S) A) :
  (∀ w, w_log (m w).2 = w_log w ∧ w_host (m w).2 = w_host w) → runs m.
Proof. intros Hm w. destruct (Hm w) as [Hl Hh]. exists []. rewrite Hl, Hh, app_nil_r. split; [done|constructor]. Qed.
Lemma runs_ret {A} (a : A) : runs (S := S) (mret a).
Proof. by apply runs_silent. Qed.
Lemma runs_lift {A} (o : outcome A) : runs (S := S) (lift o).
Proof. by apply runs_silent. Qed.
Lemma runs_get_config : runs (S := S) get_config.
Proof. by apply runs_silent. Qed.
Lemma runs_set_config c : runs (S := S) (set_config c).
Proof. by apply runs_silent. Qed.
Lemma runs_ask_file p : runs (ask_file p).
Proof. by apply runs_silent. Qed.
Lemma runs_ask_now : runs ask_now.
Proof.
  intros w. exists []. unfold ask_now. destruct (now (w_host w)) as [t s] eqn:Hn. cbn. rewrite app_nil_r.
  split; [done|]. apply hsteps_now. rewrite Hn. constructor.
Qed.
Lemma runs_call o : runs (call o).
Proof.
  intros w. exists [o]. unfold call. destruct (exec o (w_host w)) as [r s] eqn:He. cbn.
  split; [done|]. apply hsteps_exec. rewrite He. constructor.
Qed.
Lemma runs_bind {A B} (m : M (World S) A) (k : A → M (World S) B) :
  runs m → (∀ a, runs (k a)) → runs (m ≫= k).
Proof.
  intros Hm Hk w. destruct (Hm w) as (l & Hl & Hs). unfold mbind, M_bind.
  destruct (m w) as [[a|e|] w1]; cbn in *; [|by exists l..].
  destruct (Hk a w1) as (l' & Hl' & Hs'). exists (l ++ l')%list.
  rewrite Hl', Hl, app_assoc. split; [done|]. by eapply hsteps_app.
Qed.
Lemma runs_context {A} c (m : M (World S) A) : runs m → runs (with_context c m).
Proof. intros Hm w. specialize (Hm w). unfold with_context. by destruct (m w). Qed.
Lemma runs_when b (m : M (World S) unit) : runs m → runs (when b m).
Proof. destruct b; cbn; auto using runs_ret. Qed.
Lemma runs_for_each {A} (l : list A) (f : A → M (World S) unit) :
  (∀ x, runs (f x)) → runs (for_each l f).
Proof. intros Hf. induction l as [|x l IH]; [apply runs_ret|]. apply runs_bind; auto. Qed.

(** The operations in the log, when they are known to be of a kind. *)
Lemma runs_emits φ {A} (m : M (World S) A) w :
  runs m → emits φ m →
  ∃ l, w_log (m w).2 = (w_log w ++ l)%list ∧ hsteps (w_host w) l (w_host (m w).2) ∧ Forall φ l.
Proof.
  intros Hr He. destruct (Hr w) as (l & Hl & Hs). destruct (He w) as (l' & Hl' & HF).
  rewrite Hl in Hl'. apply app_inv_head in Hl' as <-. by exists l.
Qed.
End emits_rules.

#[export] Hint Resolve emits_ret emits_lift emits_get_config emits_set_config emits_ask_file
  emits_ask_now emits_call emits_bind emits_context emits_attempt emits_when emits_for_each
  keeps_call keeps_ret keeps_lift keeps_bind keeps_context keeps_when keeps_for_each
  runs_ret runs_lift runs_get_config runs_set_config runs_ask_file runs_ask_now runs_call runs_bind
  runs_context runs_when runs_for_each : gw.

(** The type of an answer hides its operation from unification. *)
Ltac emits_op := lazymatch goal with |- emits _ (call ?o) => apply (emits_call _ o) end.

(** Walk through a program, leaving a goal for each operation it issues. *)
Ltac emits_step :=
  lazymatch goal with
  | |- emits _ (mbind _ _) => apply emits_bind; [|intros]
  | |- emits _ (with_context _ _) => apply emits_context
  | |- emits _ (attempt _) => apply emits_attempt
  | |- emits _ (when _ _) => apply emits_when; intros
  | |- emits _ (for_each _ _) => apply emits_for_each; intros
  | |- emits _ (call ?o) => apply (emits_call _ o)
  | |- emits _ (if ?b then _ else _) => destruct b
  | |- emits _ (match ?x with _ => _ end) => destruct x
  | |- emits _ (let '_ := ?x in _) => destruct x
  | |- emits _ _ => solve [auto with gw]
  end.
Ltac emits_all := repeat emits_step.

Ltac keeps_step :=
  lazymatch goal with
  | |- keeps_config (mbind _ _) => apply keeps_bind; [|intros]
  | |- keeps_config (with_context _ _) => apply keeps_context
  | |- keeps_config (when _ _) => apply keeps_when
  | |- keeps_config (for_each _ _) => apply keeps_for_each; intros
  | |- keeps_config (call ?o) => apply (keeps_call o)
  | |- keeps_config (if ?b then _ else _) => destruct b
  | |- keeps_config (match ?x with _ => _ end) => destruct x
  | |- keeps_config _ => solve [auto with gw]
  end.
Ltac keeps_all := repeat keeps_step.

Ltac runs_step :=
  lazymatch goal with
  | |- runs (mbind _ _) => apply runs_bind; [|intros]
  | |- runs (with_context _ _) => apply runs_context
  | |- runs (when _ _) => apply runs_when
  | |- runs (for_each _ _) => apply runs_for_each; intros
  | |- runs (call ?o) => apply (runs_call o)
  | |- runs (if ?b then _ else _) => destruct b
  | |- runs (match ?x with _ => _ end) => destruct x
  | |- runs _ => solve [auto with gw]
  end.
Ltac runs_all := repeat runs_step.
