(* ===== verification/Kernel.v ===== *)
(** * A reference kernel

    What the operations of Host.v do to namespaces, interfaces, packet rules
    and files, as their documentation says: [kstep] relates the state before
    a successful operation, its answer, and the state after.  [HostOk] states
    that a host follows it; nothing is assumed of failing operations. *)
From S2P Require Import Prelude Text BTree Net Crates Samples Client Types Tera Render Templates Stats Options Host.
From Stdlib Require Import Ascii.

Local Open Scope string_scope.
Local Open Scope Z_scope.

Definition NGINX_MODULE_PATH : string := "/etc/nginx/modules-enabled/gateway.conf".
Definition NGINX_SITE_PATH : string := "/etc/nginx/sites-enabled/gateway.conf".
Definition wg_conf_path (wgif : string) : string := "wireguard/" ++ wgif ++ ".conf".

Inductive link_kind := Wireguard | Bridge | Veth | OtherLink.
#[global] Instance link_kind_eq_dec : EqDecision link_kind.
Proof. solve_decision. Defined.

Section kernel.
Context `{WK : WireguardKeys} `{UC : UrlCrate} `{IC : IpnetCrate} `{RC : RegexCrate}.

Record Link := {
  l_kind : link_kind;
  l_mtu : option Z;
  l_up : bool;
  l_addrs : list IpNet;
  l_master : option string;
  l_peer : option string        (* the namespace of the other end of a veth pair *)
}.

(** Links by namespace and name; packet rules as last restored; the files of
    namespaces, what was last synced to WireGuard interfaces, the files of
    the machine, and the two files NGINX has loaded. *)
Record Kernel := {
  k_netns : gset string;
  k_links : gmap (nsname * string) Link;
  k_rules : gmap nsname string;
  k_confs : gmap (string * string) string;
  k_wg : gmap (string * string) string;
  k_files : gmap string string;
  k_nginx : option string * option string
}.

Definition link_mtu (m : Z) (l : Link) : Link := {|
  l_kind := l_kind l; l_mtu := Some m; l_up := l_up l; l_addrs := l_addrs l;
  l_master := l_master l; l_peer := l_peer l |}.
Definition link_up (l : Link) : Link := {|
  l_kind := l_kind l; l_mtu := l_mtu l; l_up := true; l_addrs := l_addrs l;
  l_master := l_master l; l_peer := l_peer l |}.
Definition link_addr (a : IpNet) (l : Link) : Link := {|
  l_kind := l_kind l; l_mtu := l_mtu l; l_up := l_up l; l_addrs := l_addrs l ++ [a];
  l_master := l_master l; l_peer := l_peer l |}.
Definition link_master (m : string) (l : Link) : Link := {|
  l_kind := l_kind l; l_mtu := l_mtu l; l_up := l_up l; l_addrs := l_addrs l;
  l_master := Some m; l_peer := l_peer l |}.

Definition with_links (f : gmap (nsname * string) Link → gmap (nsname * string) Link) (k : Kernel) : Kernel := {|
  k_netns := k_netns k; k_links := f (k_links k); k_rules := k_rules k; k_confs := k_confs k;
  k_wg := k_wg k; k_files := k_files k; k_nginx := k_nginx k |}.
Definition with_rules (f : gmap nsname string → gmap nsname string) (k : Kernel) : Kernel := {|
  k_netns := k_netns k; k_links := k_links k; k_rules := f (k_rules k); k_confs := k_confs k;
  k_wg := k_wg k; k_files := k_files k; k_nginx := k_nginx k |}.
Definition with_confs (f : gmap (string * string) string → gmap (string * string) string) (k : Kernel) : Kernel := {|
  k_netns := k_netns k; k_links := k_links k; k_rules := k_rules k; k_confs := f (k_confs k);
  k_wg := k_wg k; k_files := k_files k; k_nginx := k_nginx k |}.
Definition with_wg (f : gmap (string * string) string → gmap (string * string) string) (k : Kernel) : Kernel := {|
  k_netns := k_netns k; k_links := k_links k; k_rules := k_rules k; k_confs := k_confs k;
  k_wg := f (k_wg k); k_files := k_files k; k_nginx := k_nginx k |}.
Definition with_files (f : gmap string string → gmap string string) (k : Kernel) : Kernel := {|
  k_netns := k_netns k; k_links := k_links k; k_rules := k_rules k; k_confs := k_confs k;
  k_wg := k_wg k; k_files := f (k_files k); k_nginx := k_nginx k |}.
Definition with_nginx (n : option string * option string) (k : Kernel) : Kernel := {|
  k_netns := k_netns k; k_links := k_links k; k_rules := k_rules k; k_confs := k_confs k;
  k_wg := k_wg k; k_files := k_files k; k_nginx := n |}.

Definition with_link (key : nsname * string) (f : Link → Link) (k k' : Kernel) : Prop :=
  ∃ l, k_links k !! key = Some l ∧ k' = with_links (<[key := f l]>) k.

Definition link_exists (kind : link_kind) (key : nsname * string) (k : Kernel) : bool :=
  from_option (λ l, bool_decide (l_kind l = kind)) false (k_links k !! key).

(** Nothing outside the namespace [ns] changes, links apart. *)
Definition only_netns (ns : string) (k k' : Kernel) : Prop :=
  (∀ n, n ≠ Some ns → k_rules k' !! n = k_rules k !! n) ∧
  (∀ key, key.1 ≠ ns → k_confs k' !! key = k_confs k !! key) ∧
  (∀ key, key.1 ≠ ns → k_wg k' !! key = k_wg k !! key) ∧
  k_files k' = k_files k ∧ k_nginx k' = k_nginx k.
(** The links outside [ns] that satisfy [P] stay. *)
Definition links_stay (ns : string) (P : Link → Prop) (k k' : Kernel) : Prop := ∀ key l,
  key.1 ≠ Some ns → P l → k_links k !! key = Some l → k_links k' !! key = Some l.
(** [l] does not vanish with the namespace [ns]. *)
Definition not_paired (ns : string) (l : Link) : Prop := ¬ (l_kind l = Veth ∧ l_peer l = Some ns).

(** A successful operation, by its documentation. *)
Definition kstep (o : Op) (k : Kernel) : resp o → Kernel → Prop :=
  match o as o return resp o → Kernel → Prop with
  | NetnsList => λ r k', k' = k ∧ ∀ ns, ns ∈ item_name <$> r ↔ ns ∈ k_netns k
  | NetnsExists ns => λ r k', k' = k ∧ r = bool_decide (ns ∈ k_netns k)
  | WireguardExists ns i => λ r k', k' = k ∧ r = link_exists Wireguard (Some ns, i) k
  | WireguardStats _ _ => λ r k', k' = k
  | InterfaceInfo ns i => λ r k', k' = k ∧ ∃ l, k_links k !! (ns, i) = Some l ∧
      show_mtu r = l_mtu l ∧ show_is_down r = negb (l_up l)
  | AddrList ns i => λ r k', k' = k ∧ ∃ l, k_links k !! (ns, i) = Some l ∧ ∀ a, a ∈ r ↔ a ∈ l_addrs l
  | BridgeExists ns i => λ r k', k' = k ∧ r = link_exists Bridge (ns, i) k
  | VethExists ns i => λ r k', k' = k ∧ r = link_exists Veth (Some ns, i) k
  | LinkGetMaster ns i => λ r k', k' = k ∧ ∃ l, k_links k !! (ns, i) = Some l ∧ r = l_master l
  | IptablesSave ns => λ r k', k' = k ∧
      clean_iptables r = clean_iptables (default "" (k_rules k !! ns))
  | NetnsAdd ns => λ _ k', (ns ∉ k_netns k) ∧ k_netns k' = k_netns k ∪ {[ns]} ∧
      only_netns ns k k' ∧ links_stay ns (λ _, True) k k'
  | NetnsDel ns => λ _ k', k_netns k' = k_netns k ∖ {[ns]} ∧
      only_netns ns k k' ∧ links_stay ns (not_paired ns) k k'
  | NetnsWriteFile ns path content => λ _ k', k' = with_confs (<[(ns, path) := content]>) k
  | WireguardCreate ns i => λ _ k', k_links k !! (ns, i) = None ∧
      ∃ l, l_kind l = Wireguard ∧ k' = with_links (<[(ns, i) := l]>) k
  | WireguardSyncconf ns i => λ _ k', ∃ conf, k_confs k !! (ns, wg_conf_path i) = Some conf ∧
      k' = with_wg (<[(ns, i) := conf]>) k
  | InterfaceMtu ns i m => λ _ k', with_link (ns, i) (link_mtu m) k k'
  | InterfaceUp ns i => λ _ k', with_link (ns, i) link_up k k'
  | AddrAdd ns i a => λ _ k', with_link (ns, i) (link_addr a) k k'
  | BridgeAdd ns i => λ _ k', k_links k !! (ns, i) = None ∧
      ∃ l, l_kind l = Bridge ∧ k' = with_links (<[(ns, i) := l]>) k
  | VethAdd ns inner outer => λ _ k',
      k_links k !! (Some ns, inner) = None ∧ k_links k !! (None, outer) = None ∧
      ∃ l l', l_kind l = Veth ∧ l_kind l' = Veth ∧ l_peer l' = Some ns ∧
        k' = with_links (λ ls, <[(None, outer) := l']> (<[(Some ns, inner) := l]> ls)) k
  | LinkSetMaster ns i m => λ _ k', with_link (ns, i) (link_master m) k k'
  | IptablesRestore ns save => λ _ k', k' = with_rules (<[ns := save]>) k
  | FsWrite path content => λ _ k', k' = with_files (<[path := content]>) k
  | NginxReload => λ _ k', k' = with_nginx (k_files k !! NGINX_MODULE_PATH, k_files k !! NGINX_SITE_PATH) k
  | SendTraffic _ | SendEvent _ => λ _ k', k' = k
  end.
End kernel.

(** A host whose successful operations follow the reference kernel. *)
Class HostOk `{WireguardKeys} `{IpnetCrate} `{RegexCrate} (S : Type) `{!Host S} := {
  view : S → Kernel;
  host_step o s r s' : exec o s = (inl r, s') → kstep o (view s) r (view s');
  host_now s t s' : now s = (t, s') → view s' = view s
}.
