(* ===== verification/Machine.v ===== *)
(** * An executable machine

    A host that follows the reference kernel and can be run, to evaluate the
    programs on: operations fail when their documentation says so, and the
    broadcast queues refuse a message when nobody listens. *)
From S2P Require Import Prelude Text BTree Net Crates Samples Client Types Tera Render Templates Stats Options Host Kernel.

Local Open Scope string_scope.
Local Open Scope Z_scope.

Section machine.
Context `{WK : WireguardKeys} `{UC : UrlCrate} `{IC : IpnetCrate} `{RC : RegexCrate}.

Record Machine := {
  m_kernel : Kernel;
  m_clock : Z;                                    (* nanoseconds since the epoch *)
  m_tick : Z;                                     (* how far a reading advances the clock *)
  m_stats : gmap (string * string) NetworkStats;  (* what [wg show dump] tells *)
  m_traffic_heard : bool;
  m_events_heard : bool
}.
Definition with_kernel (k : Kernel) (m : Machine) : Machine := {|
  m_kernel := k; m_clock := m_clock m; m_tick := m_tick m; m_stats := m_stats m;
  m_traffic_heard := m_traffic_heard m; m_events_heard := m_events_heard m |}.

Definition answer {A} (a : A) (k : Kernel) : option (A * Kernel) := Some (a, k).
Definition guard_do (b : bool) (k : Kernel) : option (unit * Kernel) := if b then Some (tt, k) else None.
Definition link_do (key : nsname * string) (f : Link → Link) (k : Kernel) : option (unit * Kernel) :=
  l ← k_links k !! key; Some (tt, with_links (<[key := f l]>) k).
Definition fresh_link (kind : link_kind) (peer : option string) : Link := {|
  l_kind := kind; l_mtu := Some 1420; l_up := false; l_addrs := []; l_master := None; l_peer := peer |}.
Definition absent (key : nsname * string) (k : Kernel) : bool := bool_decide (k_links k !! key = None).
Definition set_netns (ns : gset string) (k : Kernel) : Kernel := {|
  k_netns := ns; k_links := k_links k; k_rules := k_rules k; k_confs := k_confs k;
  k_wg := k_wg k; k_files := k_files k; k_nginx := k_nginx k |}.

(** The operations on the kernel; [None] is an error. *)
Definition kexec (o : Op) : Kernel → option (resp o * Kernel) :=
  match o as o return Kernel → option (resp o * Kernel) with
  | NetnsList => λ k, answer ((λ ns, {| item_name := ns; item_id := None |}) <$> elements (k_netns k)) k
  | NetnsExists ns => λ k, answer (bool_decide (ns ∈ k_netns k)) k
  | WireguardExists ns i => λ k, answer (link_exists Wireguard (Some ns, i) k) k
  | WireguardStats ns i => λ k, None
  | InterfaceInfo ns i => λ k,
      l ← k_links k !! (ns, i); answer {| show_mtu := l_mtu l; show_is_down := negb (l_up l) |} k
  | AddrList ns i => λ k, l ← k_links k !! (ns, i); answer (l_addrs l) k
  | BridgeExists ns i => λ k, answer (link_exists Bridge (ns, i) k) k
  | VethExists ns i => λ k, answer (link_exists Veth (Some ns, i) k) k
  | LinkGetMaster ns i => λ k, l ← k_links k !! (ns, i); answer (l_master l) k
  | IptablesSave ns => λ k, answer (default "" (k_rules k !! ns)) k
  | NetnsAdd ns => λ k, guard_do (bool_decide (ns ∉ k_netns k)) (set_netns (k_netns k ∪ {[ns]}) k)
  | NetnsDel ns => λ k, guard_do (bool_decide (ns ∈ k_netns k))
      (set_netns (k_netns k ∖ {[ns]}) (with_links (filter (λ kl : nsname * string * Link,
         kl.1.1 ≠ Some ns ∧ ¬ (l_kind kl.2 = Veth ∧ l_peer kl.2 = Some ns))) k))
  | NetnsWriteFile ns path content => λ k, Some (tt, with_confs (<[(ns, path) := content]>) k)
  | WireguardCreate ns i => λ k,
      guard_do (absent (ns, i) k) (with_links (<[(ns, i) := fresh_link Wireguard None]>) k)
  | WireguardSyncconf ns i => λ k,
      conf ← k_confs k !! (ns, wg_conf_path i); Some (tt, with_wg (<[(ns, i) := conf]>) k)
  | InterfaceMtu ns i m => link_do (ns, i) (link_mtu m)
  | InterfaceUp ns i => link_do (ns, i) link_up
  | AddrAdd ns i a => link_do (ns, i) (link_addr a)
  | BridgeAdd ns i => λ k,
      guard_do (absent (ns, i) k) (with_links (<[(ns, i) := fresh_link Bridge None]>) k)
  | VethAdd ns inner outer => λ k,
      guard_do (absent (Some ns, inner) k && absent (None, outer) k)
        (with_links (λ ls, <[(None, outer) := fresh_link Veth (Some ns)]>
                             (<[(Some ns, inner) := fresh_link Veth None]> ls)) k)
  | LinkSetMaster ns i m => link_do (ns, i) (link_master m)
  | IptablesRestore ns save => λ k, Some (tt, with_rules (<[ns := save]>) k)
  | FsWrite path content => λ k, Some (tt, with_files (<[path := content]>) k)
  | NginxReload => λ k,
      Some (tt, with_nginx (k_files k !! NGINX_MODULE_PATH, k_files k !! NGINX_SITE_PATH) k)
  | SendTraffic _ | SendEvent _ => λ k, Some (tt, k)
  end.

Definition refusal : error := EMsg "operation failed".
Definition mexec (o : Op) (m : Machine) : (resp o + error) * Machine :=
  match o as o return (resp o + error) * Machine with
  | WireguardStats ns i =>
      (match m_stats m !! (ns, i) with Some s => inl s | None => inr refusal end, m)
  | SendTraffic _ => (if m_traffic_heard m then inl tt else inr (EMsg "sending on a closed channel"), m)
  | SendEvent _ => (if m_events_heard m then inl tt else inr (EMsg "sending on a closed channel"), m)
  | o => match kexec o (m_kernel m) with
         | Some (r, k) => (inl r, with_kernel k m)
         | None => (inr refusal, m)
         end
  end.

#[global] Instance machine_host : Host Machine := {|
  exec := mexec;
  path_is_file path m := bool_decide (is_Some (k_files (m_kernel m) !! path));
  now m := (m_clock m, {| m_kernel := m_kernel m; m_clock := m_clock m + m_tick m; m_tick := m_tick m;
    m_stats := m_stats m; m_traffic_heard := m_traffic_heard m; m_events_heard := m_events_heard m |})
|}.

Lemma kexec_step o k r k' : kexec o k = Some (r, k') → kstep o k r k'.
Proof.
  destruct o; cbn; unfold answer, guard_do, link_do, with_link, absent; cbn; intros H;
    simplify_option_eq; try done; try (by eauto).
  - split; [done|]. intros ns. rewrite <-list_fmap_compose, list_elem_of_fmap. cbn. split.
    + by intros (n & -> & Hn%elem_of_elements).
    + intros Hn. exists ns. split; [done|]. by apply elem_of_elements.
  - split; [done|]. split; [done|]. split; [by repeat split|]. by intros key l.
  - split; [done|]. split; [by repeat split|].
    intros [n i] l Hn Hp Hl. cbn in *. apply map_lookup_filter_Some. split; [done|]. by split.
  - case_match; simplify_eq. split; [by eapply bool_decide_eq_true_1|]. by eexists (fresh_link _ _).
  - case_match; simplify_eq. split; [by eapply bool_decide_eq_true_1|]. by eexists (fresh_link _ _).
  - destruct (bool_decide _ && bool_decide _) eqn:Hb; simplify_eq. apply andb_true_iff in Hb as [H1 H2].
    split; [by eapply bool_decide_eq_true_1|]. split; [by eapply bool_decide_eq_true_1|].
    by eexists (fresh_link _ _), (fresh_link _ _).
Qed.

Lemma mexec_step o m r m' : mexec o m = (inl r, m') → kstep o (m_kernel m) r (m_kernel m').
Proof.
  destruct o; unfold mexec;
    try (destruct (kexec _ (m_kernel m)) as [[r' k]|] eqn:Hk; [|done];
         intros H; simplify_eq; by apply kexec_step in Hk);
    repeat case_match; intros; by simplify_eq.
Qed.

#[global] Instance machine_ok : HostOk Machine.
Proof. refine {| view := m_kernel; host_step := mexec_step |}. by intros s t s' [= <- <-]. Defined.
End machine.

(** A machine whose queues are always heard, or never, and whose clock is
    past the epoch. *)
Section station.
Context `{WK : WireguardKeys} `{UC : UrlCrate} `{IC : IpnetCrate} `{RC : RegexCrate}.
Inductive Station (heard : bool) : Type := station (m : Machine).
Definition st_machine {heard} (s : Station heard) : Machine := let 'station _ m := s in m.

#[global] Instance station_host heard : Host (Station heard) := {|
  exec o s :=
    match o as o return (resp o + error) * Station heard with
    | SendTraffic _ | SendEvent _ =>
        (if heard then inl tt else inr (EMsg "sending on a closed channel"), s)
    | o => let '(r, m) := exec o (st_machine s) in (r, station heard m)
    end;
  path_is_file path s := path_is_file path (st_machine s);
  now s := let '(t, m) := now (st_machine s) in (Z.abs t, station heard m)
|}.
End station.

(** An empty machine. *)
Definition empty_kernel `{WireguardKeys} `{IpnetCrate} : Kernel := {|
  k_netns := ∅; k_links := ∅; k_rules := ∅; k_confs := ∅; k_wg := ∅; k_files := ∅; k_nginx := (None, None) |}.

(** ** Samples *)
Section samples.
#[local] Existing Instances sample_keys sample_url sample_ipnet sample_base32 sample_regex sample_tera.

Definition empty_machine : Machine := {|
  m_kernel := empty_kernel; m_clock := 10 ^ 18; m_tick := 10 ^ 9; m_stats := ∅;
  m_traffic_heard := true; m_events_heard := true |}.
Definition world_on (m : Machine) : World Machine := {| w_host := m; w_log := []; w_config := ∅ |}.
Definition sample_options : Options := {|
  opt_token := "token"; opt_watchdog := 60; opt_custom_forwarding := sample_custom;
  opt_manager := "https://manager.org" : Url; opt_identity := "gateway" |}.

(** Two networks, as the manager sends them: the listen port is the key. *)
Definition sample_config : GatewayConfig :=
  ({[ 12312 := sample_network_state 0; 7 := sample_network_state 0 ]} : gmap Z NetworkState).
End samples.
