(* ===== verification/Logic.v ===== *)
(** * Reasoning about programs on a host that follows the kernel

    Successful runs as sequences of kernel steps ([traced]), triples over the
    kernel state, and [Fact]s about single parts of it with the operations
    that leave them true ([stable]). *)
From S2P Require Import Prelude Text BTree Net Crates Samples Client Types Tera Render Templates Stats Options Host Kernel.

Local Open Scope string_scope.
Local Open Scope Z_scope.

Section traces.
Context `{WK : WireguardKeys} `{UC : UrlCrate} `{IC : IpnetCrate} `{RC : RegexCrate}
        {S : Type} `{HS : !Host S} `{HO : !HostOk S}.

Inductive ksteps : Kernel → list Op → Kernel → Prop :=
| ksteps_nil k : ksteps k [] k
| ksteps_cons o r k1 k2 l k3 : kstep o k1 r k2 → ksteps k2 l k3 → ksteps k1 (o :: l) k3.

Lemma ksteps_app k1 l1 k2 l2 k3 : ksteps k1 l1 k2 → ksteps k2 l2 k3 → ksteps k1 (l1 ++ l2) k3.
Proof. induction 1; intros H3; [done|]. econstructor; eauto. Qed.

Definition kernel_of (w : World S) : Kernel := view (w_host w).

(** A successful run of [m] is a sequence of kernel steps, those it logs. *)
Definition traced {A} (m : M (World S) A) : Prop := ∀ w a w',
  m w = (Ok a, w') →
  ∃ l, w_log w' = (w_log w ++ l)%list ∧ ksteps (kernel_of w) l (kernel_of w').

Lemma traced_silent {A} (m : M (World S) A) :
  (∀ w, w_log (m w).2 = w_log w ∧ kernel_of (m w).2 = kernel_of w) → traced m.
Proof.
  intros Hm w a w' Hw. specialize (Hm w). rewrite Hw in Hm. destruct Hm as [Hl Hk]. cbn in Hl, Hk.
  exists []. rewrite Hl, Hk, app_nil_r. split; [done|constructor].
Qed.

Lemma traced_ret {A} (a : A) : traced (mret a).
Proof. by apply traced_silent. Qed.
Lemma traced_lift {A} (o : outcome A) : traced (lift o).
Proof. by apply traced_silent. Qed.
Lemma traced_get_config : traced get_config.
Proof. by apply traced_silent. Qed.
Lemma traced_set_config c : traced (set_config c).
Proof. by apply traced_silent. Qed.
Lemma traced_ask_file p : traced (ask_file p).
Proof. by apply traced_silent. Qed.

Lemma call_Ok o w r w' :
  call o w = (Ok r, w') →
  w_log w' = (w_log w ++ [o])%list ∧ kstep o (kernel_of w) r (kernel_of w').
Proof.
  unfold call. destruct (exec o (w_host w)) as [[a|e] s] eqn:He; intros [= -> <-].
  split; [done|]. by apply (host_step o _ _ _ He).
Qed.

Lemma traced_call o : traced (call o).
Proof.
  intros w r w' [Hl Hk]%call_Ok. exists [o]. split; [done|]. econstructor; [done|constructor].
Qed.

Lemma traced_bind {A B} (m : M (World S) A) (k : A → M (World S) B) :
  traced m → (∀ a, traced (k a)) → traced (m ≫= k).
Proof.
  intros Hm Hk w b w' (a & w1 & H1 & H2)%bind_Ok_inv.
  destruct (Hm _ _ _ H1) as (l1 & Hl1 & Hs1). destruct (Hk _ _ _ _ H2) as (l2 & Hl2 & Hs2).
  exists (l1 ++ l2)%list. rewrite Hl2, Hl1, app_assoc. split; [done|]. by eapply ksteps_app.
Qed.

Lemma traced_context {A} c (m : M (World S) A) : traced m → traced (with_context c m).
Proof. intros Hm w a w' H%context_Ok_inv. by eapply Hm. Qed.
Lemma traced_when b (m : M (World S) unit) : traced m → traced (when b m).
Proof. destruct b; cbn; auto using traced_ret. Qed.
Lemma traced_for_each {A} (l : list A) (f : A → M (World S) unit) :
  (∀ x, traced (f x)) → traced (for_each l f).
Proof. intros Hf. induction l as [|x l IH]; [apply traced_ret|]. apply traced_bind; auto. Qed.
End traces.

#[export] Hint Resolve traced_ret traced_lift traced_get_config traced_set_config traced_ask_file
  traced_call traced_bind traced_context traced_when traced_for_each : gw.

Ltac traced_step :=
  lazymatch goal with
  | |- traced (mbind _ _) => apply traced_bind; [|intros]
  | |- traced (with_context _ _) => apply traced_context
  | |- traced (when _ _) => apply traced_when
  | |- traced (for_each _ _) => apply traced_for_each; intros
  | |- traced (call ?o) => apply (traced_call o)
  | |- traced (if ?b then _ else _) => destruct b
  | |- traced (match ?x with _ => _ end) => destruct x
  | |- traced _ => solve [auto with gw]
  end.
Ltac traced_all := repeat traced_step.

(** ** Triples *)
Section triples.
Context `{WK : WireguardKeys} `{UC : UrlCrate} `{IC : IpnetCrate} `{RC : RegexCrate}
        {S : Type} `{HS : !Host S} `{HO : !HostOk S}.
Implicit Types P : Kernel → Prop.

(** From a kernel state with [P], a successful run of [m] ends with [Q]. *)
Definition triple {A} P (m : M (World S) A) (Q : A → Kernel → Prop) : Prop := ∀ w a w',
  P (kernel_of w) → m w = (Ok a, w') → Q a (kernel_of w').

Lemma triple_conseq {A} P P' (m : M (World S) A) Q Q' :
  triple P m Q → (∀ k, P' k → P k) → (∀ a k, Q a k → Q' a k) → triple P' m Q'.
Proof. intros Hm HP HQ w a w' Hw Ha. eapply HQ, Hm; eauto. Qed.
Lemma triple_bind {A B} P (m : M (World S) A) R (k : A → M (World S) B) Q :
  triple P m R → (∀ a, triple (R a) (k a) Q) → triple P (m ≫= k) Q.
Proof. intros Hm Hk w b w' Hw (a & w1 & H1 & H2)%bind_Ok_inv. eapply Hk; [|done]. by eapply Hm. Qed.
Lemma triple_call P o (Q : resp o → Kernel → Prop) :
  (∀ k r k', P k → kstep o k r k' → Q r k') → triple P (call o) Q.
Proof. intros H w r w' Hw [_ Hs]%call_Ok. by eapply H. Qed.
Lemma triple_ret {A} (a : A) P (Q : A → Kernel → Prop) : (∀ k, P k → Q a k) → triple P (mret a) Q.
Proof. intros H w b w' Hw [= <- <-]. auto. Qed.
Lemma triple_lift {A} (o : outcome A) P (Q : A → Kernel → Prop) :
  (∀ k a, P k → o = Ok a → Q a k) → triple P (lift o) Q.
Proof. intros H w b w' Hw [= Ho <-]. auto. Qed.
Lemma triple_context {A} c P (m : M (World S) A) Q : triple P m Q → triple P (with_context c m) Q.
Proof. intros Hm w a w' Hw H%context_Ok_inv. by eapply Hm. Qed.
Lemma triple_for_each_app {A} (l1 l2 : list A) (f : A → M (World S) unit) P Q :
  triple P (for_each l1 f;; for_each l2 f) Q → triple P (for_each (l1 ++ l2) f) Q.
Proof. intros Ht w a w' Hw Hr. rewrite for_each_app in Hr. by eapply Ht. Qed.
Lemma triple_when b P (m : M (World S) unit) (Q : unit → Kernel → Prop) :
  (b = true → triple P m Q) → (b = false → ∀ k, P k → Q tt k) → triple P (when b m) Q.
Proof. destruct b; cbn; intros H1 H2; [auto|]. apply triple_ret. auto. Qed.
End triples.

(** The type of an answer hides its operation from unification. *)
Ltac triple_op := lazymatch goal with |- triple _ (call ?o) _ => apply (triple_call _ o); cbn end.

(** ** Facts *)
Section facts.
Context `{WK : WireguardKeys} `{UC : UrlCrate} `{IC : IpnetCrate} `{RC : RegexCrate}.

Inductive Fact : Type :=
| FNs (ns : string)
| FLink (ns : nsname) (i : string) (P : Link → Prop)
| FConf (ns path content : string)
| FWg (ns i conf : string)
| FRules (ns : nsname) (save : string).

Definition holds (F : Fact) (k : Kernel) : Prop :=
  match F with
  | FNs ns => ns ∈ k_netns k
  | FLink ns i P => ∃ l, k_links k !! (ns, i) = Some l ∧ P l
  | FConf ns path content => k_confs k !! (ns, path) = Some content
  | FWg ns i conf => k_wg k !! (ns, i) = Some conf
  | FRules ns save => clean_iptables (default "" (k_rules k !! ns)) = clean_iptables save
  end.

Definition survives (F : Fact) (ns : string) : Prop :=
  match F with
  | FNs n | FConf n _ _ | FWg n _ _ => n ≠ ns
  | FLink n _ P => n ≠ Some ns ∧ ∀ l, P l → l_kind l ≠ Veth
  | FRules n _ => n ≠ Some ns
  end.
Definition link_stable (F : Fact) (key : nsname * string) (f : Link → Link) : Prop :=
  match F with FLink n j P => (n, j) = key → ∀ l, P l → P (f l) | _ => True end.

(** The operations that leave a fact true. *)
Definition stable (F : Fact) (o : Op) : Prop :=
  match o with
  | NetnsDel ns => survives F ns
  | NetnsAdd ns => match F with FNs _ => True | FLink n _ _ => n ≠ Some ns | _ => survives F ns end
  | InterfaceMtu ns i m => link_stable F (ns, i) (link_mtu m)
  | InterfaceUp ns i => link_stable F (ns, i) link_up
  | AddrAdd ns i a => link_stable F (ns, i) (link_addr a)
  | LinkSetMaster ns i m => link_stable F (ns, i) (link_master m)
  | NetnsWriteFile ns path content =>
      match F with FConf n p c => (n, p) = (ns, path) → c = content | _ => True end
  | WireguardSyncconf ns i => match F with FWg n j _ => (n, j) ≠ (ns, i) | _ => True end
  | IptablesRestore ns save => match F with FRules n s => n = ns → s = save | _ => True end
  | _ => True
  end.

Lemma link_new key l F k :
  k_links k !! key = None → holds F k → holds F (with_links (<[key := l]>) k).
Proof.
  intros Hk. destruct F; cbn; try done. intros (l' & Hl' & HP). exists l'. split; [|done].
  rewrite lookup_insert_ne; [done|]. congruence.
Qed.

Lemma link_changed key f F k k' :
  with_link key f k k' → link_stable F key f → holds F k → holds F k'.
Proof.
  intros (l & Hl & ->). destruct F as [|n j P| | |]; cbn; try done. intros HP (l' & Hl' & HPl).
  destruct (decide ((n, j) = key)) as [<-|Hne].
  - rewrite lookup_insert_eq. exists (f l). split; [done|].
    apply HP; [done|]. congruence.
  - rewrite lookup_insert_ne by done. eauto.
Qed.

Lemma netns_changed ns P F k k' :
  only_netns ns k k' → links_stay ns P k k' →
  match F with
  | FNs n => n ∈ k_netns k → n ∈ k_netns k'
  | FLink n _ Q => n ≠ Some ns ∧ ∀ l, Q l → P l
  | _ => survives F ns
  end → holds F k → holds F k'.
Proof.
  intros (Hr & Hc & Hw & _) Hl. destruct F as [n|n i Q|n p c|n i c|n s]; cbn.
  - auto.
  - intros [Hn HP] (l & Hk & HQ). exists l. split; [|done]. apply Hl; auto.
  - intros Hn. by rewrite Hc.
  - intros Hn. by rewrite Hw.
  - intros Hn Hs. by rewrite Hr.
Qed.

(** Two facts about one link are a fact about it. *)
Lemma link_and ns i P Q k :
  holds (FLink ns i P) k → holds (FLink ns i Q) k → holds (FLink ns i (λ l, P l ∧ Q l)) k.
Proof. intros (l & Hl & HP) (l' & Hl' & HQ). cbn. exists l. split; [done|]. split; congruence. Qed.

Lemma holds_step F o k r k' : kstep o k r k' → stable F o → holds F k → holds F k'.
Proof.
  destruct o; cbn [kstep stable]; intros Hk Hs HF;
    try lazymatch type of Hk with k' = k ∧ _ => by destruct Hk as [-> _] end; try (by subst k');
    try (by eapply link_changed).
  - destruct Hk as (_ & Hn & Ho & Hl). eapply netns_changed; [done..| |done].
    destruct F; try done. set_solver.
  - destruct Hk as (Hn & Ho & Hl). eapply netns_changed; [done..| |done].
    destruct F as [n|n i P| | |]; try done; [cbn in Hs; set_solver|].
    destruct Hs as [Hne HP]. split; [done|]. intros l Hl' [Hv _]. by apply (HP l).
  - subst k'. destruct F as [| |n p c| |]; try done. cbn in *.
    destruct (decide ((n, p) = (netns, path))) as [Heq|Hne].
    + rewrite Heq, lookup_insert_eq. by rewrite Hs.
    + by rewrite lookup_insert_ne.
  - destruct Hk as (Hn & l & _ & ->). by apply link_new.
  - destruct Hk as (conf & _ & ->). destruct F; try done. cbn in *. by rewrite lookup_insert_ne.
  - destruct Hk as (Hn & l & _ & ->). by apply link_new.
  - destruct Hk as (Hn1 & Hn2 & l & l' & _ & _ & _ & ->).
    apply (link_new (Some netns, inner) l) in HF; [|done].
    apply (link_new (None, outer) l') in HF; [done|].
    cbn. by rewrite lookup_insert_ne.
  - subst k'. destruct F as [| | | |n s]; try done. cbn in *.
    destruct (decide (n = ns)) as [<-|Hne].
    + rewrite lookup_insert_eq. by rewrite Hs.
    + by rewrite lookup_insert_ne.
Qed.

Lemma holds_steps F k l k' : ksteps k l k' → Forall (stable F) l → holds F k → holds F k'.
Proof.
  induction 1 as [|o r k1 k2 l k3 Hs _ IH]; [done|]. intros [Ho Hl]%Forall_cons_1 HF.
  apply IH; [done|]. by eapply holds_step.
Qed.

(** Namespaces appear only by [NetnsAdd]. *)
Lemma ksteps_netns (P : string → Prop) k l k' :
  ksteps k l k' → Forall (λ o, match o with NetnsAdd ns => P ns | _ => True end) l →
  ∀ ns, ns ∈ k_netns k' → ns ∈ k_netns k ∨ P ns.
Proof.
  induction 1 as [|o r k1 k2 l k3 Hs _ IH]; [by left|]. intros [Ho Hl]%Forall_cons_1 ns Hns.
  destruct (IH Hl ns Hns) as [Hns2|]; [|by right]. clear IH Hl Hns.
  destruct o; cbn [kstep] in Hs; unfold with_link in Hs; destruct_and?; naive_solver set_solver.
Qed.
End facts.

(** ** Establishing and keeping facts *)
Section achieves.
Context `{WK : WireguardKeys} `{UC : UrlCrate} `{IC : IpnetCrate} `{RC : RegexCrate}
        {S : Type} `{HS : !Host S} `{HO : !HostOk S}.

Definition keeps {A} (m : M (World S) A) (F : Fact) : Prop := traced m ∧ emits (stable F) m.
Definition achieves {A} (m : M (World S) A) (F : Fact) : Prop := triple (λ _, True) m (λ _, holds F).

Lemma keeps_triple {A} (m : M (World S) A) F : keeps m F → triple (holds F) m (λ _, holds F).
Proof.
  intros [Ht He] w a w' Hw Hm. destruct (Ht _ _ _ Hm) as (l & Hl & Hs).
  destruct (He w) as (l' & Hl' & HF). rewrite Hm in Hl'. cbn in Hl'. rewrite Hl in Hl'.
  apply app_inv_head in Hl' as <-. by eapply holds_steps.
Qed.

Lemma triple_first {A B} P (m : M (World S) A) (k : A → M (World S) B) F :
  triple P m (λ _, holds F) → (∀ a, keeps (k a) F) → triple P (m ≫= k) (λ _, holds F).
Proof. intros Hm Hk. eapply triple_bind; [exact Hm|]. intros a. by apply keeps_triple. Qed.
Lemma achieves_first {A B} (m : M (World S) A) (k : A → M (World S) B) F :
  achieves m F → (∀ a, keeps (k a) F) → achieves (m ≫= k) F.
Proof. apply triple_first. Qed.
Lemma achieves_then {A B} (m : M (World S) A) (k : A → M (World S) B) F :
  (∀ a, achieves (k a) F) → achieves (m ≫= k) F.
Proof. intros Hk. eapply (triple_bind _ _ (λ _ _, True)); [done|]. exact Hk. Qed.
(** A step that creates what is missing, followed by more. *)
Lemma achieves_ensure (ask : M (World S) bool) make (rest : M (World S) unit) F :
  achieves (b ← ask; when (negb b) make) F → keeps rest F →
  achieves (b ← ask; when (negb b) make;; rest) F.
Proof.
  intros Hm Hr w a w' _ H. rewrite <-(M_bind_assoc ask (λ b, when (negb b) make) (λ _, rest) w) in H.
  revert H. apply (achieves_first _ _ _ Hm (λ _, Hr)). done.
Qed.
Lemma achieves_context {A} c (m : M (World S) A) F : achieves m F → achieves (with_context c m) F.
Proof. apply triple_context. Qed.

Lemma achieves_from {A} (m : M (World S) A) P F :
  achieves m F → triple P m (λ _, holds F).
Proof. intros Hm w a w' _. by apply Hm. Qed.

Lemma fact_for_each {A} (l : list A) (f : A → M (World S) unit) F :
  (∀ x, x ∈ l → keeps (f x) F) → keeps (for_each l f) F.
Proof.
  intros Hf. split; [|apply emits_for_each; intros; by apply Hf].
  induction l as [|x l IH]; [apply traced_ret|].
  apply traced_bind; [apply Hf; left|]. intros _. apply IH. intros y Hy. apply Hf. by right.
Qed.

(** A loop achieves what one of its iterations achieves and the later ones keep. *)
Lemma achieves_for_each {A} before x after (f : A → M (World S) unit) F :
  achieves (f x) F → (∀ y, y ∈ after → keeps (f y) F) → achieves (for_each (before ++ x :: after) f) F.
Proof.
  intros Hx Ha. apply triple_for_each_app. apply achieves_then. intros _. cbn [for_each]. apply achieves_first; [done|]. intros _.
  by apply fact_for_each.
Qed.
End achieves.
