(* ===== verification/Gateway.v ===== *)
(** * Applying a configuration

    Models src/gateway.rs: [apply], [apply_partial] and the steps they are
    made of, as programs over a [Host].  The theorems here hold for every
    host: they are about the operations issued and the configuration kept. *)
From S2P Require Import Prelude Text BTree Net Crates Samples Client Types Tera Render Templates Stats Options Host Kernel Machine.
From Stdlib Require Import Ascii.

Local Open Scope string_scope.
Local Open Scope Z_scope.

Definition BRIDGE_INTERFACE : string := "ensbr0".

(** The iteration order of a [HashSet] is not specified. *)
Class HashOrder := hash_iter : gset string → list string.
Class HashOrderOk (HO : HashOrder) : Prop := hash_iter_perm s : hash_iter s ≡ₚ elements s.
Definition sample_order : HashOrder := λ s, elements s.
Lemma sample_order_ok : HashOrderOk sample_order.
Proof. by intros s. Qed.

Section gateway.
Context `{T : Target} `{WK : WireguardKeys} `{UC : UrlCrate} `{IC : IpnetCrate} `{BC : Base32Crate}
        `{RC : RegexCrate} `{TE : Tera} `{HO : HashOrder} {S : Type} `{HS : !Host S}.

Definition apply_addr (ns : nsname) (interface : string) (target : list IpNet) : M (World S) unit :=
  current ← call (AddrList ns interface);
  for_each target (λ addr, when (bool_decide (addr ∉ (current : list IpNet))) (call (AddrAdd ns interface addr))).

Definition apply_interface_up (ns : nsname) (interface : string) : M (World S) unit :=
  status ← call (InterfaceInfo ns interface);
  when (show_is_down status) (call (InterfaceUp ns interface)).

Definition apply_link_master (ns : nsname) (interface master : string) : M (World S) unit :=
  current ← call (LinkGetMaster ns interface);
  when (bool_decide ((current : option string) = None) || bool_decide ((current : option string) ≠ Some master))
    (with_context "Setting master of interface" (call (LinkSetMaster ns interface master))).

Definition apply_bridge (_ : string) (addr : list IpNet) : M (World S) unit :=
  exists_ ← call (BridgeExists None BRIDGE_INTERFACE);
  when (negb exists_) (call (BridgeAdd None BRIDGE_INTERFACE));;
  with_context "Setting up bridge interface" (apply_addr None BRIDGE_INTERFACE addr);;
  with_context "Bringing bridge interface up" (apply_interface_up None BRIDGE_INTERFACE).

Definition apply_netns (network : NetworkState) : M (World S) unit :=
  let netns := netns_name network in
  exists_ ← call (NetnsExists netns);
  when (negb exists_) (call (NetnsAdd netns)).

Definition apply_wireguard (network : NetworkState) : M (World S) unit :=
  let netns := netns_name network in
  let wgif := wgif_name network in
  exists_ ← call (WireguardExists netns wgif);
  when (negb exists_) (call (WireguardCreate (Some netns) wgif));;
  show ← call (InterfaceInfo (Some netns) wgif);
  m ← lift (ok_or (EMsg "Missing MTU for WireGuard network") (show_mtu show));
  when (bool_decide (m ≠ mtu network)) (call (InterfaceMtu (Some netns) wgif (mtu network)));;
  with_context "Setting wireguard interface UP" (apply_interface_up (Some netns) wgif);;
  call (NetnsWriteFile netns (wg_conf_path wgif) (to_config network));;
  with_context "Applying wireguard interface addresses"
    (apply_addr (Some netns) wgif (address network));;
  call (WireguardSyncconf netns wgif).

Definition apply_veth (network : NetworkState) : M (World S) unit :=
  let netns := netns_name network in
  let veth := veth_name network in
  exists_ ← call (VethExists netns veth);
  when (negb exists_) (call (VethAdd netns veth veth));;
  addr ← lift (veth_ipv4net network);
  with_context "Applying veth addr" (apply_addr (Some netns) veth [ipnet_of_v4 addr]);;
  with_context "Setting veth master" (apply_link_master None veth BRIDGE_INTERFACE);;
  with_context "Making inner veth interface UP" (apply_interface_up (Some netns) veth);;
  with_context "Marking outer veth interface UP" (apply_interface_up None veth).

Definition apply_forwarding (network : NetworkState) : M (World S) unit :=
  let netns := netns_name network in
  savefile ← lift (iptables_savefile network);
  current ← call (IptablesSave (Some netns));
  let current := clean_iptables current in
  when (bool_decide (savefile ≠ current)) (call (IptablesRestore (Some netns) savefile)).

(** The [iptables_lock] held around the last step guards no data. *)
Definition apply_network (network : NetworkState) : M (World S) unit :=
  apply_netns network;;
  apply_wireguard network;;
  apply_veth network;;
  apply_forwarding network.

Definition apply_nginx (networks : list NetworkState) (options : Options) : M (World S) unit :=
  forwarding ← lift (forwarding_of networks (opt_custom_forwarding options));
  context ← lift (context_of_forwarding forwarding);
  config ← lift (tera_render "nginx.conf" context);
  call (FsWrite NGINX_MODULE_PATH config);;
  config ← lift (tera_render "sites.nginx.conf" context);
  call (FsWrite NGINX_SITE_PATH config);;
  call NginxReload.

Definition startup (options : Options) : M (World S) unit :=
  is_file ← ask_file NGINX_MODULE_PATH;
  when (negb is_file) (apply_nginx [] options).

(** The networks of a configuration, each with the port it is listed under. *)
Definition networks_of (config : gmap Z NetworkState) : list NetworkState :=
  (λ '(port, state), with_listen_port state port) <$> entries config.

Definition setup_bridge : M (World S) unit :=
  bridge ← lift BRIDGE_NET;
  with_context "Creating bridge interface" (apply_bridge BRIDGE_INTERFACE [ipnet_of_v4 bridge]).

Definition apply (options : Options) (config : GatewayConfig) : M (World S) unit :=
  set_config config;;
  let state := networks_of config in
  setup_bridge;;
  items ← call NetnsList;
  let netns_list : gset string := list_to_set (item_name <$> (items : list NetnsItem)) in
  let netns_expected : gset string := list_to_set (netns_name <$> state) in
  for_each (filter (λ netns, netns ∉ netns_expected) (hash_iter netns_list)) (λ netns,
    when (starts_with NETNS_PREFIX netns)
      (with_context "Removing surplus network namespace" (call (NetnsDel netns))));;
  for_each state apply_network;;
  with_context "Applying nginx configuration" (apply_nginx state options).

(** One entry of a partial configuration. *)
Definition apply_entry (netns_list : gset string) (entry : Z * option NetworkState) : M (World S) unit :=
  let '(port, config) := entry in
  match config with
  | None =>
      state ← get_config;
      set_config (delete port state);;
      let netns := NETNS_PREFIX ++ dec port in
      when (bool_decide (netns ∈ netns_list)) (call (NetnsDel netns))
  | Some network =>
      apply_network network;;
      state ← get_config;
      set_config (<[port := network]> state)
  end.

Definition apply_partial (options : Options) (config : GatewayConfigPartial) : M (World S) unit :=
  setup_bridge;;
  items ← call NetnsList;
  let netns_list : gset string := list_to_set (item_name <$> (items : list NetnsItem)) in
  for_each (entries (config : gmap Z (option NetworkState))) (apply_entry netns_list);;
  state ← get_config;
  with_context "Applying nginx configuration" (apply_nginx (map_values state) options).
End gateway.

(** ** What applying may touch *)
Section scope.
Context `{T : Target} `{WK : WireguardKeys} `{UC : UrlCrate} `{IC : IpnetCrate} `{BC : Base32Crate}
        `{RC : RegexCrate} `{TE : Tera} `{HO : HashOrder} {S : Type} `{HS : !Host S}.

(** An operation that reads, or changes only the namespace of [n] and the
    outer end of its veth pair. *)
Definition own_op (n : NetworkState) (o : Op) : Prop :=
  match o with
  | NetnsAdd ns | WireguardSyncconf ns _ | NetnsWriteFile ns _ _ => ns = netns_name n
  | WireguardCreate ns _ | InterfaceMtu ns _ _ | AddrAdd ns _ _ | IptablesRestore ns _ =>
      ns = Some (netns_name n)
  | InterfaceUp ns i => ns = Some (netns_name n) ∨ ns = None ∧ i = veth_name n
  | VethAdd ns _ outer => ns = netns_name n ∧ outer = veth_name n
  | LinkSetMaster ns i master => ns = None ∧ i = veth_name n ∧ master = BRIDGE_INTERFACE
  | _ => is_query o = true
  end.

Lemma apply_addr_emits (φ : Op → Prop) ns i target :
  φ (AddrList ns i) → (∀ a, a ∈ target → φ (AddrAdd ns i a)) → emits (S := S) φ (apply_addr ns i target).
Proof.
  intros H1 H2. apply emits_bind; [by emits_op|]. intros current.
  apply emits_for_each. intros a Ha. apply emits_when. intros _. by emits_op; apply H2.
Qed.

Lemma apply_interface_up_emits (φ : Op → Prop) ns i :
  φ (InterfaceInfo ns i) → φ (InterfaceUp ns i) → emits (S := S) φ (apply_interface_up ns i).
Proof. intros H1 H2. unfold apply_interface_up. by emits_all. Qed.

Lemma apply_link_master_emits (φ : Op → Prop) ns i m :
  φ (LinkGetMaster ns i) → φ (LinkSetMaster ns i m) → emits (S := S) φ (apply_link_master ns i m).
Proof. intros H1 H2. unfold apply_link_master. by emits_all. Qed.

Lemma apply_network_own n : emits (S := S) (own_op n) (apply_network n).
Proof.
  unfold apply_network, apply_netns, apply_wireguard, apply_veth, apply_forwarding.
  repeat first
    [ apply apply_addr_emits; [|intros] | apply apply_interface_up_emits
    | apply apply_link_master_emits | emits_step ]; cbn; auto.
Qed.

Lemma names_differ n m :
  0 ≤ listen_port n → 0 ≤ listen_port m → listen_port n ≠ listen_port m →
  netns_name n ≠ netns_name m ∧ veth_name n ≠ veth_name m.
Proof.
  intros Hn Hm Hne. split; intros H; apply Hne; [by apply netns_name_inj|].
  apply dec_inj; [done..|]. by apply (inj (String.append VETH_PREFIX)).
Qed.

Lemma own_op_disjoint n m o :
  0 ≤ listen_port n → 0 ≤ listen_port m → listen_port n ≠ listen_port m →
  own_op n o → own_op m o → is_query o = true.
Proof.
  intros Hn Hm Hne. destruct (names_differ n m Hn Hm Hne) as [Hns Hveth].
  destruct o; cbn [own_op is_query]; intuition congruence.
Qed.

(** C15: bringing up a network changes only that network's own namespace and
    the outer end of its own veth pair, whatever the host answers: two
    networks with different ports never change the same thing. *)
Theorem apply_network_isolated n m :
  0 ≤ listen_port n → 0 ≤ listen_port m → listen_port n ≠ listen_port m →
  emits (S := S) (own_op n) (apply_network n) ∧
  emits (S := S) (λ o, own_op m o → is_query o = true) (apply_network n).
Proof.
  intros Hn Hm Hne. split; [apply apply_network_own|].
  eapply emits_mono; [apply apply_network_own|]. intros o Ho Ho'. exact (own_op_disjoint n m o Hn Hm Hne Ho Ho').
Qed.

(** Namespaces a program may delete. *)
Definition deletes_only (P : string → Prop) (o : Op) : Prop :=
  match o with NetnsDel ns => P ns | _ => True end.

Lemma own_op_no_delete P n o : own_op n o → deletes_only P o.
Proof. by destruct o. Qed.

Lemma setup_bridge_no_delete P : emits (S := S) (deletes_only P) setup_bridge.
Proof.
  unfold setup_bridge, apply_bridge.
  repeat first [ apply apply_addr_emits; [|intros] | apply apply_interface_up_emits | emits_step ]; done.
Qed.

Lemma apply_nginx_no_delete P ns opts : emits (S := S) (deletes_only P) (apply_nginx ns opts).
Proof. unfold apply_nginx. repeat emits_step; done. Qed.

Lemma apply_network_no_delete P n : emits (S := S) (deletes_only P) (apply_network n).
Proof. eapply emits_mono; [apply apply_network_own|]. intros o. apply own_op_no_delete. Qed.

(** C7: no host can make the gateway delete a foreign or a wanted namespace.
    [apply] deletes only namespaces with the gateway's prefix that no network
    of the configuration owns, [apply_partial] only those of ports that the
    partial configuration removes. *)
Theorem deletes_only_surplus options (config : GatewayConfig) (partial : GatewayConfigPartial) :
  emits (S := S) (deletes_only (λ ns, starts_with NETNS_PREFIX ns = true ∧
      ns ∉ netns_name <$> networks_of (config : gmap Z NetworkState))) (apply options config) ∧
  emits (S := S) (deletes_only (λ ns, ∃ port,
      (partial : gmap Z (option NetworkState)) !! port = Some None ∧ ns = NETNS_PREFIX ++ dec port))
    (apply_partial options partial).
Proof.
  split.
  - unfold apply. apply emits_bind; [apply emits_set_config|intros _].
    apply emits_bind; [apply setup_bridge_no_delete|intros _].
    apply emits_bind; [by emits_op|intros items].
    apply emits_bind; [|intros _].
    + apply emits_for_each. intros ns Hns. apply emits_when. intros Hp.
      apply emits_context; emits_op. cbn. split; [done|].
      apply list_elem_of_filter in Hns as [Hns _]. by rewrite elem_of_list_to_set in Hns.
    + apply emits_bind; [|intros _; apply emits_context, apply_nginx_no_delete].
      apply emits_for_each. intros n _. apply apply_network_no_delete.
  - unfold apply_partial. apply emits_bind; [apply setup_bridge_no_delete|intros _].
    apply emits_bind; [by emits_op|intros items].
    apply emits_bind; [|intros _; apply emits_bind; [apply emits_get_config|intros state;
                         apply emits_context, apply_nginx_no_delete]].
    apply emits_for_each. intros [port [network|]] He; cbn.
    + apply emits_bind; [apply apply_network_no_delete|intros _]. emits_all.
    + emits_all. cbn. exists port. split; [|done]. by apply elem_of_entries.
Qed.
End scope.

(** ** The configuration kept *)
Section config.
Context `{T : Target} `{WK : WireguardKeys} `{UC : UrlCrate} `{IC : IpnetCrate} `{BC : Base32Crate}
        `{RC : RegexCrate} `{TE : Tera} `{HO : HashOrder} {S : Type} `{HS : !Host S}.

Lemma apply_addr_keeps ns i target : keeps_config (S := S) (apply_addr ns i target).
Proof. unfold apply_addr. keeps_all. Qed.
Lemma apply_interface_up_keeps ns i : keeps_config (S := S) (apply_interface_up ns i).
Proof. unfold apply_interface_up. keeps_all. Qed.
Lemma apply_link_master_keeps ns i m : keeps_config (S := S) (apply_link_master ns i m).
Proof. unfold apply_link_master. keeps_all. Qed.
#[local] Hint Resolve apply_addr_keeps apply_interface_up_keeps apply_link_master_keeps : gw.

Lemma setup_bridge_keeps : keeps_config (S := S) setup_bridge.
Proof. unfold setup_bridge, apply_bridge. keeps_all. Qed.
Lemma apply_network_keeps n : keeps_config (S := S) (apply_network n).
Proof. unfold apply_network, apply_netns, apply_wireguard, apply_veth, apply_forwarding. keeps_all. Qed.
Lemma apply_nginx_keeps networks options : keeps_config (S := S) (apply_nginx networks options).
Proof. unfold apply_nginx. keeps_all. Qed.
#[local] Hint Resolve setup_bridge_keeps apply_network_keeps apply_nginx_keeps : gw.

Lemma set_config_keeps c (k : M (World S) unit) w :
  keeps_config k → w_config ((set_config c;; k) w).2 = c.
Proof. intros Hk. apply Hk. Qed.

Lemma apply_recorded options (config : GatewayConfig) (w : World S) :
  w_config (apply options config w).2 = config.
Proof.
  unfold apply. apply set_config_keeps. keeps_all.
Qed.

(** The new configuration is recorded before anything is touched, and
    stays recorded whatever fails later: after [apply] the gateway holds
    exactly the configuration it was given, even when [apply] returned an
    error or panicked half way. *)
Theorem apply_records_config options (config : GatewayConfig) (w : World S) :
  w_config (apply options config w).2 = config.
Proof. apply apply_recorded. Qed.

Lemma apply_entry_config netns_list e (w : World S) :
  (∃ w', apply_entry netns_list e w = (Ok tt, w') ∧ w_config w' = apply_change (w_config w) e) ∨
  (is_ok (apply_entry netns_list e w).1 = false ∧
   (w_config (apply_entry netns_list e w).2 = w_config w ∨
    w_config (apply_entry netns_list e w).2 = apply_change (w_config w) e)).
Proof.
  destruct e as [port [network|]]; cbn.
  - pose proof (apply_network_keeps network w) as Hk. unfold mbind, M_bind.
    destruct (apply_network network w) as [[[]|e|] w'] eqn:He; cbn in Hk |- *; [|by auto..].
    left. eexists. split; [done|]. cbn. by rewrite Hk.
  - unfold mbind, M_bind. cbn. case_bool_decide; cbn.
    + unfold call. cbn. destruct (exec _ _) as [[[]|e] s]; cbn; eauto.
    + left. eexists. done.
Qed.

Lemma apply_entries_config netns_list l (w : World S) :
  ∃ before after, l = (before ++ after)%list ∧
    w_config (for_each l (apply_entry netns_list) w).2 = foldl apply_change (w_config w) before ∧
    (is_ok (for_each l (apply_entry netns_list) w).1 = true → after = []).
Proof.
  revert w. induction l as [|e l IH]; intros w; [by exists [], []|].
  cbn [for_each]. unfold mbind, M_bind.
  destruct (apply_entry_config netns_list e w) as [(w' & Hw' & Hc)|[Hok Hc]].
  - rewrite Hw'. destruct (IH w') as (before & after & -> & Hb & Ha).
    exists (e :: before), after. split; [done|]. cbn. by rewrite <-Hc.
  - destruct (apply_entry netns_list e w) as [[u|err|] w'] eqn:He; [done|..]; cbn in Hc |- *;
      (destruct Hc as [->| ->]; [by exists [], (e :: l)|by exists [e], l]).
Qed.

Lemma apply_partial_recorded options (partial : GatewayConfigPartial) (w : World S) :
  (∃ before after, entries (partial : gmap Z (option NetworkState)) = (before ++ after)%list ∧
     w_config (apply_partial options partial w).2 = foldl apply_change (w_config w) before) ∧
  (is_ok (apply_partial options partial w).1 = true →
     w_config (apply_partial options partial w).2 = Client.apply_partial (w_config w) partial).
Proof.
  unfold apply_partial. generalize (setup_bridge_keeps w). unfold mbind, M_bind.
  destruct (setup_bridge w) as [[[]|e|] w1]; cbn; intros H1;
    [|split; [exists [], (entries partial); by rewrite H1|done]..].
  generalize (keeps_call NetnsList w1).
  destruct (call NetnsList w1) as [[items|e|] w2]; cbn; intros H2;
    [|split; [exists [], (entries partial); by rewrite H2, H1|done]..].
  destruct (apply_entries_config (list_to_set (item_name <$> (items : list NetnsItem)))
              (entries (partial : gmap Z (option NetworkState))) w2) as (before & after & He & Hc & Ha).
  rewrite H2, H1 in Hc.
  destruct (for_each _ _ w2) as [[[]|e|] w3]; cbn in Hc, Ha |- *;
    [|split; [by exists before, after|done]..].
  generalize (apply_nginx_keeps (map_values (w_config w3)) options w3). unfold with_context.
  destruct (apply_nginx _ _ _) as [o w4]; cbn. intros ->. rewrite Hc.
  specialize (Ha eq_refl) as ->. rewrite app_nil_r in He. unfold Client.apply_partial. rewrite He.
  split; [by exists before, []; rewrite app_nil_r|done].
Qed.

(** C12: a partial configuration is recorded entry by entry.  Whatever the
    host answers, the configuration held afterwards is the old one with the
    changes of an initial part of the entries, in port order; when
    [apply_partial] succeeds it is the client library's [apply_partial] of the
    two. *)
Theorem apply_partial_records options (partial : GatewayConfigPartial) (w : World S) :
  (∃ before after, entries (partial : gmap Z (option NetworkState)) = (before ++ after)%list ∧
     w_config (apply_partial options partial w).2 = foldl apply_change (w_config w) before) ∧
  (is_ok (apply_partial options partial w).1 = true →
     w_config (apply_partial options partial w).2 = Client.apply_partial (w_config w) partial).
Proof. apply apply_partial_recorded. Qed.
End config.

(** ** Witnesses *)
Section witnesses.
#[local] Existing Instances sample_keys sample_url sample_ipnet sample_base32 sample_regex sample_tera.

Lemma apply_network_isolated_witness :
  emits (own_op (sample_network_state 7)) (apply_network (T := release64) (S := Machine) (sample_network_state 7)) ∧
  emits (λ o, own_op (sample_network_state 8) o → is_query o = true)
    (apply_network (T := release64) (S := Machine) (sample_network_state 7)).
Proof. apply (apply_network_isolated (T := release64)); by vm_compute. Defined.
End witnesses.
