(* ===== verification/Deploy.v ===== *)
(** * A successful application deploys the configuration

    The promise of [apply] as facts about the kernel, and the proof that a
    successful run on any host that follows the kernel keeps it. *)
From S2P Require Import Prelude Text BTree Net Crates Samples Client Types Tera Render Templates Stats Options.
From S2P Require Import Host Kernel Machine Logic Gateway.

Local Open Scope string_scope.
Local Open Scope Z_scope.

(** ** What each step establishes *)
Section steps.
Context `{T : Target} `{WK : WireguardKeys} `{UC : UrlCrate} `{IC : IpnetCrate} `{BC : Base32Crate}
        `{RC : RegexCrate} `{TE : Tera} `{HO : HashOrder} {S : Type} `{HS : !Host S} `{HK : !HostOk S}.

Definition is_kind (kind : link_kind) (l : Link) : Prop := l_kind l = kind.
Definition is_up (l : Link) : Prop := l_up l = true.
Definition has_mtu (m : Z) (l : Link) : Prop := l_mtu l = Some m.
Definition has_addr (a : IpNet) (l : Link) : Prop := a ∈ l_addrs l.
Definition has_master (m : string) (l : Link) : Prop := l_master l = Some m.

Lemma link_exists_true kind key k :
  link_exists kind key k = true → ∃ l, k_links k !! key = Some l ∧ is_kind kind l.
Proof.
  unfold link_exists. destruct (k_links k !! key) as [l|]; [|done]. cbn.
  rewrite bool_decide_eq_true. eauto.
Qed.

(** Create what is missing: [ask] answers whether [F] holds. *)
Lemma ensure_triple (ask make : M (World S) _) (F : Fact) :
  triple (λ _, True) ask (λ b k, b = true → holds F k) → achieves make F →
  achieves (b ← ask; when (negb b) make) F.
Proof.
  intros Ha Hm. eapply triple_bind; [exact Ha|]. intros b. apply triple_when.
  - intros _. by apply achieves_from.
  - destruct b; [|done]. auto.
Qed.

Lemma ensure_netns ns :
  achieves (S := S) (b ← call (NetnsExists ns); when (negb b) (call (NetnsAdd ns))) (FNs ns).
Proof.
  apply ensure_triple; [triple_op|unfold achieves; triple_op]; intros k r k' _.
  - intros [-> ->] Hb%bool_decide_eq_true. done.
  - intros (_ & -> & _). set_solver.
Qed.

Lemma ensure_wireguard ns i :
  achieves (S := S) (b ← call (WireguardExists ns i); when (negb b) (call (WireguardCreate (Some ns) i)))
    (FLink (Some ns) i (is_kind Wireguard)).
Proof.
  apply ensure_triple; [triple_op|unfold achieves; triple_op]; intros k r k' _.
  - intros [-> ->]. apply link_exists_true.
  - intros (_ & l & Hl & ->). cbn. rewrite lookup_insert_eq. eauto.
Qed.

Lemma ensure_bridge ns i :
  achieves (S := S) (b ← call (BridgeExists ns i); when (negb b) (call (BridgeAdd ns i)))
    (FLink ns i (is_kind Bridge)).
Proof.
  apply ensure_triple; [triple_op|unfold achieves; triple_op]; intros k r k' _.
  - intros [-> ->]. apply link_exists_true.
  - intros (_ & l & Hl & ->). cbn. rewrite lookup_insert_eq. eauto.
Qed.

Lemma ensure_veth ns i :
  achieves (S := S) (b ← call (VethExists ns i); when (negb b) (call (VethAdd ns i i)))
    (FLink (Some ns) i (is_kind Veth)).
Proof.
  apply ensure_triple; [triple_op|unfold achieves; triple_op]; intros k r k' _.
  - intros [-> ->]. apply link_exists_true.
  - intros (_ & _ & l & l' & Hl & _ & _ & ->). cbn.
    rewrite lookup_insert_ne, lookup_insert_eq by done. eauto.
Qed.

Lemma with_link_holds ns i f P k k' :
  with_link (ns, i) f k k' → (∀ l, P (f l)) → holds (FLink ns i P) k'.
Proof. intros (l & Hl & ->) HP. cbn. rewrite lookup_insert_eq. eauto. Qed.

Lemma apply_interface_up_achieves ns i : achieves (S := S) (apply_interface_up ns i) (FLink ns i is_up).
Proof.
  eapply (triple_bind _ _ (λ r k, show_is_down r = false → holds (FLink ns i is_up) k)).
  - triple_op. intros k r k' _ (-> & l & Hl & _ & ->) Hd%negb_false_iff. eauto.
  - intros r. apply triple_when; [|auto]. intros _. triple_op.
    intros k _ k' _ Hk. by eapply with_link_holds.
Qed.

Lemma apply_link_master_achieves ns i m :
  achieves (S := S) (apply_link_master ns i m) (FLink ns i (has_master m)).
Proof.
  eapply (triple_bind _ _ (λ r k, r = Some m → holds (FLink ns i (has_master m)) k)).
  - triple_op. intros k r k' _ (-> & l & Hl & ->) Hm. eauto.
  - intros r. apply triple_when.
    + intros _. apply triple_context. triple_op. intros k _ k' _ Hk. by eapply with_link_holds.
    + intros [_ Hr%bool_decide_eq_false%dec_stable]%orb_false_iff. auto.
Qed.

Lemma keeps_add_addr ns i a a' (known : list IpNet) :
  keeps (S := S) (when (bool_decide (a' ∉ known)) (call (AddrAdd ns i a'))) (FLink ns i (has_addr a)).
Proof.
  split; [traced_all|]. emits_all. cbn. intros _ l. unfold has_addr. cbn. set_solver.
Qed.

Lemma apply_addr_achieves ns i target a :
  a ∈ target → achieves (S := S) (apply_addr ns i target) (FLink ns i (has_addr a)).
Proof.
  intros (before & after & ->)%list_elem_of_split.
  eapply (triple_bind _ _ (λ r k, a ∈ (r : list IpNet) → holds (FLink ns i (has_addr a)) k)).
  { triple_op. intros k r k' _ (-> & l & Hl & Hr) Ha. exists l. split; [done|]. by apply Hr. }
  intros r. destruct (decide (a ∈ (r : list IpNet))) as [Hin|Hout].
  - eapply triple_conseq; [apply keeps_triple, fact_for_each|auto|done].
    intros y _. apply keeps_add_addr.
  - apply achieves_from, achieves_for_each; [|intros; apply keeps_add_addr].
    rewrite bool_decide_true by done. unfold achieves. cbn [when]. triple_op.
    intros k _ k' _ Hk. eapply with_link_holds; [done|]. unfold has_addr. cbn. set_solver.
Qed.

Lemma apply_forwarding_achieves n save :
  iptables_savefile n = Ok save → clean_iptables save = save →
  achieves (S := S) (apply_forwarding n) (FRules (Some (netns_name n)) save).
Proof.
  intros Hsave Hclean. unfold apply_forwarding. rewrite Hsave. cbv zeta.
  eapply (triple_bind _ _ (λ s _, s = save)); [apply triple_lift; by intros ? ? ? [= <-]|].
  intros save'.
  eapply (triple_bind _ _ (λ r k, save' = save ∧
    (save' = clean_iptables r → holds (FRules (Some (netns_name n)) save) k))).
  - triple_op. intros k r k' -> [-> Hr]. split; [done|]. intros ->. by rewrite <-Hr, Hclean.
  - intros r. apply triple_when.
    + intros _. triple_op. intros k _ k' [-> _] ->. cbn. by rewrite lookup_insert_eq.
    + intros Hs%bool_decide_eq_false%dec_stable k [_ Hk]. auto.
Qed.

Lemma write_and_sync ns i conf (between : M (World S) unit) :
  keeps between (FConf ns (wg_conf_path i) conf) →
  achieves (call (NetnsWriteFile ns (wg_conf_path i) conf);; between;; call (WireguardSyncconf ns i))
    (FWg ns i conf).
Proof.
  intros Hb. eapply (triple_bind _ _ (λ _, holds (FConf ns (wg_conf_path i) conf))).
  - triple_op. intros k _ k' _ ->. cbn. by rewrite lookup_insert_eq.
  - intros u. eapply triple_bind; [by apply keeps_triple|]. intros v. triple_op.
    intros k _ k' Hk (c & Hc & ->). cbn. rewrite lookup_insert_eq. congruence.
Qed.

(** ** The facts of a network *)
Definition network_facts (n : NetworkState) (addr : Ipv4Net) (save : string) : list Fact :=
  let ns := netns_name n in
  let wgif := wgif_name n in
  let veth := veth_name n in
  [FNs ns;
   FLink (Some ns) wgif (is_kind Wireguard);
   FLink (Some ns) wgif (has_mtu (mtu n));
   FLink (Some ns) wgif is_up;
   FWg ns wgif (to_config n);
   FLink (Some ns) veth (is_kind Veth);
   FLink (Some ns) veth (has_addr (ipnet_of_v4 addr));
   FLink None veth (has_master BRIDGE_INTERFACE);
   FLink (Some ns) veth is_up;
   FLink None veth is_up;
   FRules (Some ns) save] ++
  ((λ a, FLink (Some ns) wgif (has_addr a)) <$> address n).

Lemma netns_keeps n F : (∀ ns, stable F (NetnsAdd ns)) → keeps (S := S) (apply_netns n) F.
Proof. intros HF. split; [unfold apply_netns; traced_all|]. unfold apply_netns. emits_all; done. Qed.

Lemma traced_apply_addr ns i target : traced (S := S) (apply_addr ns i target).
Proof. unfold apply_addr. traced_all. Qed.
Lemma traced_apply_interface_up ns i : traced (S := S) (apply_interface_up ns i).
Proof. unfold apply_interface_up. traced_all. Qed.
Lemma traced_apply_link_master ns i m : traced (S := S) (apply_link_master ns i m).
Proof. unfold apply_link_master. traced_all. Qed.
#[local] Hint Resolve traced_apply_addr traced_apply_interface_up traced_apply_link_master : gw.
Lemma traced_apply_network n : traced (S := S) (apply_network n).
Proof. unfold apply_network, apply_netns, apply_wireguard, apply_veth, apply_forwarding. traced_all. Qed.
End steps.

#[export] Hint Resolve traced_apply_addr traced_apply_interface_up traced_apply_link_master
  traced_apply_network : gw.

(** Every operation of the rest leaves the fact true. *)
Ltac keep_rest :=
  intros; unfold apply_wireguard, apply_veth, apply_forwarding; split; [traced_all|];
  repeat first
    [ apply apply_addr_emits; [|intros] | apply apply_interface_up_emits
    | apply apply_link_master_emits | emits_step ];
  cbn; unfold is_kind, is_up, has_mtu, has_addr, has_master in *; cbn; intros; set_solver.

(** Skip a step; establish the fact by the next step with a lemma. *)
Ltac skip_step := apply achieves_then; intros.
Ltac step_by lem := first
  [ apply achieves_context; apply lem | apply lem
  | apply achieves_first; [apply achieves_context; apply lem|keep_rest]
  | apply achieves_first; [apply lem|keep_rest]
  | apply achieves_ensure; [apply lem|keep_rest] ].

Section network.
Context `{T : Target} `{WK : WireguardKeys} `{UC : UrlCrate} `{IC : IpnetCrate} `{BC : Base32Crate}
        `{RC : RegexCrate} `{TE : Tera} `{HO : HashOrder} {S : Type} `{HS : !Host S} `{HK : !HostOk S}.

Section one.
Context (n : NetworkState).
Let ns := netns_name n.
Let wgif := wgif_name n.
Let veth := veth_name n.

Lemma wireguard_kind : achieves (S := S) (apply_wireguard n) (FLink (Some ns) wgif (is_kind Wireguard)).
Proof. unfold apply_wireguard. cbv zeta. step_by ensure_wireguard. Qed.

Lemma wireguard_mtu : achieves (S := S) (apply_wireguard n) (FLink (Some ns) wgif (has_mtu (mtu n))).
Proof.
  set (F := FLink (Some ns) wgif (has_mtu (mtu n))).
  unfold apply_wireguard. cbv zeta. do 2 skip_step.
  eapply (triple_bind _ _ (λ r k, show_mtu r = Some (mtu n) → holds F k)).
  { triple_op. intros k r k' _ (-> & l & Hl & -> & _) Hm. exists l. done. }
  intros show. eapply (triple_bind _ _ (λ m k, m = mtu n → holds F k)).
  { apply triple_lift. intros k m Hk Hm%ok_or_Ok ->. auto. }
  intros m. apply triple_first; [|subst F; keep_rest]. apply triple_when.
  - intros _. triple_op. intros k _ k' _ Hk. by eapply with_link_holds.
  - intros Hm%bool_decide_eq_false%dec_stable k Hk. auto.
Qed.

Lemma wireguard_up : achieves (S := S) (apply_wireguard n) (FLink (Some ns) wgif is_up).
Proof. unfold apply_wireguard. cbv zeta. do 5 skip_step. step_by apply_interface_up_achieves. Qed.

Lemma wireguard_synced : achieves (S := S) (apply_wireguard n) (FWg ns wgif (to_config n)).
Proof. unfold apply_wireguard. cbv zeta. do 6 skip_step. apply write_and_sync. keep_rest. Qed.

Lemma wireguard_addr a :
  a ∈ address n → achieves (S := S) (apply_wireguard n) (FLink (Some ns) wgif (has_addr a)).
Proof.
  intros Ha. unfold apply_wireguard. cbv zeta. do 7 skip_step.
  apply achieves_first; [by apply achieves_context, apply_addr_achieves|keep_rest].
Qed.

Lemma veth_kind : achieves (S := S) (apply_veth n) (FLink (Some ns) veth (is_kind Veth)).
Proof. unfold apply_veth. cbv zeta. step_by ensure_veth. Qed.

Lemma veth_addr a :
  veth_ipv4net n = Ok a →
  achieves (S := S) (apply_veth n) (FLink (Some ns) veth (has_addr (ipnet_of_v4 a))).
Proof.
  intros Ha. unfold apply_veth. cbv zeta. do 2 skip_step. rewrite Ha.
  eapply (triple_bind _ _ (λ b _, b = a)); [apply triple_lift; by intros ? ? ? [= <-]|].
  intros b. apply triple_first; [|keep_rest]. intros w u w' ->.
  apply achieves_context; [|done]. apply apply_addr_achieves. by left.
Qed.

Lemma veth_master : achieves (S := S) (apply_veth n) (FLink None veth (has_master BRIDGE_INTERFACE)).
Proof. unfold apply_veth. cbv zeta. do 4 skip_step. step_by apply_link_master_achieves. Qed.
Lemma veth_inner_up : achieves (S := S) (apply_veth n) (FLink (Some ns) veth is_up).
Proof. unfold apply_veth. cbv zeta. do 5 skip_step. step_by apply_interface_up_achieves. Qed.
Lemma veth_outer_up : achieves (S := S) (apply_veth n) (FLink None veth is_up).
Proof. unfold apply_veth. cbv zeta. do 6 skip_step. step_by apply_interface_up_achieves. Qed.

Lemma apply_network_achieves addr save F :
  veth_ipv4net n = Ok addr → iptables_savefile n = Ok save → clean_iptables save = save →
  F ∈ network_facts n addr save → achieves (S := S) (apply_network n) F.
Proof.
  intros Haddr Hsave Hclean HF. unfold apply_network.
  apply elem_of_app in HF as [HF|(a & -> & Ha)%list_elem_of_fmap];
    [|skip_step; apply achieves_first; [by apply wireguard_addr|keep_rest]].
  unfold network_facts in HF. rewrite !elem_of_cons in HF.
  destruct HF as [->|[->|[->|[->|[->|[->|[->|[->|[->|[->|[->|HF%elem_of_nil]]]]]]]]]]]; [..|done].
  - apply achieves_first; [apply ensure_netns|keep_rest].
  - skip_step. step_by wireguard_kind.
  - skip_step. step_by wireguard_mtu.
  - skip_step. step_by wireguard_up.
  - skip_step. step_by wireguard_synced.
  - do 2 skip_step. step_by veth_kind.
  - do 2 skip_step. apply achieves_first; [by apply veth_addr|keep_rest].
  - do 2 skip_step. step_by veth_master.
  - do 2 skip_step. step_by veth_inner_up.
  - do 2 skip_step. step_by veth_outer_up.
  - do 3 skip_step. by apply apply_forwarding_achieves.
Qed.
End one.
End network.

(** ** The whole configuration *)
Section deploy.
Context `{T : Target} `{WK : WireguardKeys} `{UC : UrlCrate} `{IC : IpnetCrate} `{BC : Base32Crate}
        `{RC : RegexCrate} `{TE : Tera} `{HO : HashOrder} {S : Type} `{HS : !Host S} `{HK : !HostOk S}.

(** The part of the kernel that belongs to a network. *)
Definition about (n : NetworkState) (F : Fact) : Prop :=
  match F with
  | FNs ns | FConf ns _ _ | FWg ns _ _ => ns = netns_name n
  | FLink (Some ns) _ _ => ns = netns_name n
  | FLink None i _ => i = veth_name n
  | FRules ns _ => ns = Some (netns_name n)
  end.

Lemma network_facts_about n addr save : Forall (about n) (network_facts n addr save).
Proof.
  apply Forall_app. split; [repeat (apply Forall_cons; split); done|].
  by apply Forall_fmap, Forall_true.
Qed.

(** What one network relies on, another network does not disturb. *)
Lemma own_op_stable n m F o :
  0 ≤ listen_port n → 0 ≤ listen_port m → listen_port n ≠ listen_port m →
  about n F → own_op m o → stable F o.
Proof.
  intros Hn Hm Hne HF Ho. destruct (names_differ n m Hn Hm Hne) as [Hns Hveth].
  destruct o; try done; destruct F as [ns'|[ns'|] i' P|ns' p' c'|ns' i' c'|ns' s'];
    cbn [about own_op stable survives link_stable is_query] in *; try done;
    intros; intuition congruence.
Qed.

Lemma apply_network_keeps_other n m addr save F :
  0 ≤ listen_port n → 0 ≤ listen_port m → listen_port n ≠ listen_port m →
  F ∈ network_facts n addr save → keeps (S := S) (apply_network m) F.
Proof.
  intros Hn Hm Hne HF. split; [auto with gw|].
  eapply emits_mono; [apply apply_network_own|]. intros o. apply (own_op_stable n m); [done..|].
  pose proof (network_facts_about n addr save) as Hall. rewrite Forall_forall in Hall. auto.
Qed.

(** *** The bridge *)
Definition bridge_fact (b : Ipv4Net) : Fact :=
  FLink None BRIDGE_INTERFACE (λ l, is_kind Bridge l ∧ is_up l ∧ has_addr (ipnet_of_v4 b) l).

Lemma achieves_and {A} (m : M (World S) A) ns i P Q :
  achieves m (FLink ns i P) → achieves m (FLink ns i Q) → achieves m (FLink ns i (λ l, P l ∧ Q l)).
Proof. intros HP HQ w a w' Hw Hm. apply link_and; [by eapply HP|by eapply HQ]. Qed.

Lemma setup_bridge_achieves b : BRIDGE_NET = Ok b → achieves (S := S) setup_bridge (bridge_fact b).
Proof.
  intros Hb. unfold setup_bridge. rewrite Hb.
  eapply (triple_bind _ _ (λ c _, c = b)); [apply triple_lift; by intros ? ? ? [= <-]|].
  intros c w u w' ->. apply achieves_context; [|done]. unfold apply_bridge.
  apply achieves_and; [|apply achieves_and].
  - step_by ensure_bridge.
  - do 3 skip_step. step_by apply_interface_up_achieves.
  - do 2 skip_step. apply achieves_first; [|keep_rest].
    apply achieves_context, apply_addr_achieves. by left.
Qed.

Lemma own_op_bridge n b o : own_op n o → stable (bridge_fact b) o.
Proof.
  destruct o; cbn; unfold is_kind, is_up, has_addr; cbn; try done;
    intros; first [set_solver | naive_solver].
Qed.

(** *** Surplus namespaces *)
Definition no_surplus (networks : list NetworkState) (k : Kernel) : Prop := ∀ ns,
  starts_with NETNS_PREFIX ns = true → ns ∈ k_netns k → ns ∈ netns_name <$> networks.

Lemma delete_surplus networks l :
  triple (λ k, ∀ ns, starts_with NETNS_PREFIX ns = true → ns ∈ k_netns k →
            ns ∈ netns_name <$> networks ∨ ns ∈ l)
    (for_each l (λ netns, when (starts_with NETNS_PREFIX netns)
       (with_context "Removing surplus network namespace" (call (S := S) (NetnsDel netns)))))
    (λ _, no_surplus networks).
Proof.
  induction l as [|x l IH]; cbn [for_each].
  - apply triple_ret. intros k Hk ns Hp Hns. destruct (Hk ns Hp Hns); [done|set_solver].
  - eapply triple_bind; [|intros u; exact IH]. apply triple_when.
    + intros _. apply triple_context. triple_op. intros k u k' Hk (Hn & _) ns Hp Hns.
      rewrite Hn in Hns. destruct (Hk ns Hp ltac:(set_solver)) as [|Hl]; [by left|]. set_solver.
    + intros Hx k Hk ns Hp Hns. destruct (Hk ns Hp Hns) as [|Hl]; [by left|].
      apply elem_of_cons in Hl as [->|]; [congruence|by right].
Qed.

Definition adds_only (P : string → Prop) (o : Op) : Prop :=
  match o with NetnsAdd ns => P ns | _ => True end.

Lemma keeps_no_surplus {A} networks (m : M (World S) A) :
  traced m → emits (adds_only (λ ns, ns ∈ netns_name <$> networks)) m →
  triple (no_surplus networks) m (λ _, no_surplus networks).
Proof.
  intros Ht He w a w' Hw Hm. destruct (Ht _ _ _ Hm) as (l & Hl & Hs).
  destruct (He w) as (l' & Hl' & HF). rewrite Hm in Hl'. cbn in Hl'. rewrite Hl in Hl'.
  apply app_inv_head in Hl' as <-. intros ns Hp Hns.
  destruct (ksteps_netns _ _ _ _ Hs HF ns Hns); [by apply Hw|done].
Qed.

(** *** NGINX *)
Lemma apply_nginx_achieves `{TEO : !TeraOk TE} networks options f :
  forwarding_of networks (opt_custom_forwarding options) = Ok f →
  triple (λ _, True) (apply_nginx (S := S) networks options)
    (λ _ k, k_nginx k = (Some (render_nginx f), Some (render_sites f))).
Proof.
  intros Hf. unfold apply_nginx. rewrite Hf. destruct (tera_forwarding f) as (ctx & Hc & H1 & H2).
  eapply (triple_bind _ _ (λ g _, g = f)); [apply triple_lift; by intros ? ? ? [= <-]|].
  intros g. eapply (triple_bind _ _ (λ c _, c = ctx)).
  { apply triple_lift. intros k c -> Hg. congruence. }
  intros c. eapply (triple_bind _ _ (λ t _, c = ctx ∧ t = render_nginx f)).
  { apply triple_lift. intros k t -> Ht. split; congruence. }
  intros t. eapply (triple_bind _ _ (λ _ k, c = ctx ∧ k_files k !! NGINX_MODULE_PATH = Some (render_nginx f))).
  { triple_op. intros k _ k' [-> ->] ->. cbn. by rewrite lookup_insert_eq. }
  intros u. eapply (triple_bind _ _ (λ t k, t = render_sites f ∧
    k_files k !! NGINX_MODULE_PATH = Some (render_nginx f))).
  { apply triple_lift. intros k t' [-> Hk] Ht. split; congruence. }
  intros t'. eapply (triple_bind _ _ (λ _ k, k_files k !! NGINX_SITE_PATH = Some (render_sites f) ∧
    k_files k !! NGINX_MODULE_PATH = Some (render_nginx f))).
  { triple_op. intros k _ k' [-> Hk] ->. cbn. by rewrite lookup_insert_eq, lookup_insert_ne. }
  intros v. triple_op. intros k _ k' [Hs Hm] ->. cbn. by rewrite Hs, Hm.
Qed.

Lemma traced_apply_nginx networks options : traced (S := S) (apply_nginx networks options).
Proof. unfold apply_nginx. traced_all. Qed.
Lemma traced_setup_bridge : traced (S := S) setup_bridge.
Proof. unfold setup_bridge, apply_bridge. traced_all. Qed.
End deploy.
#[export] Hint Resolve traced_apply_nginx traced_setup_bridge : gw.

(** ** The promise of [apply] *)
Section promise.
Context `{T : Target} `{WK : WireguardKeys} `{UCO : !UrlCrateOk UC} `{ICO : !IpnetCrateOk IC} `{BCO : !Base32CrateOk BC}
        `{RCO : !RegexCrateOk RC} `{TEO : !TeraOk TE} `{HOO : !HashOrderOk HO} {S : Type} `{HS : !Host S} `{HK : !HostOk S}.

(** The gateway namespaces are exactly those of the configuration; the bridge
    is up with its address; every network has its namespace, its WireGuard
    interface with MTU, addresses and synced configuration, its veth pair on
    the bridge and its packet rules; NGINX has loaded the forwarding. *)
Record deployed (options : Options) (networks : list NetworkState) (k : Kernel) : Prop := {
  dep_netns ns : starts_with NETNS_PREFIX ns = true → (ns ∈ k_netns k ↔ ns ∈ netns_name <$> networks);
  dep_bridge : ∃ b, BRIDGE_NET = Ok b ∧ holds (bridge_fact b) k;
  dep_network n : n ∈ networks → ∃ addr save, veth_ipv4net n = Ok addr ∧ iptables_savefile n = Ok save ∧
    Forall (λ F, holds F k) (network_facts n addr save);
  dep_nginx : ∃ f, forwarding_of networks (opt_custom_forwarding options) = Ok f ∧
    k_nginx k = (Some (render_nginx f), Some (render_sites f))
}.

Lemma networks_of_ports (config : gmap Z NetworkState) :
  listen_port <$> networks_of config = map_keys config.
Proof.
  unfold networks_of, map_keys. rewrite <-list_fmap_compose. apply list_fmap_ext.
  by intros i [p st].
Qed.

Lemma networks_of_split (config : gmap Z NetworkState) before n after :
  networks_of config = (before ++ n :: after)%list → ∀ m, m ∈ after → listen_port n ≠ listen_port m.
Proof.
  intros Hs m Hm Hp. pose proof (NoDup_map_keys config) as Hnd.
  rewrite <-networks_of_ports, Hs, fmap_app, fmap_cons in Hnd.
  apply NoDup_app in Hnd as (_ & _ & Hnd). apply NoDup_cons in Hnd as [Hn _].
  apply Hn. rewrite Hp. by apply list_elem_of_fmap_2.
Qed.

Section run.
Context (options : Options) (config : GatewayConfig).
Let networks := networks_of (config : gmap Z NetworkState).
Context (Hservable : Forall servable networks).

Lemma servable_port n : n ∈ networks → 0 ≤ listen_port n.
Proof. intros Hn. rewrite Forall_forall in Hservable. by destruct (Hservable n Hn) as [[[]] ]. Qed.

Lemma servable_facts n :
  n ∈ networks →
  ∃ addr save, veth_ipv4net n = Ok addr ∧ iptables_savefile n = Ok save ∧ clean_iptables save = save.
Proof.
  intros Hn. rewrite Forall_forall in Hservable. pose proof (Hservable n Hn) as Hs.
  pose proof Hs as ((Hport & _) & Ha & _).
  destruct (veth_ipv4net_spec n Hport) as (addr & Haddr & _).
  destruct (address n) as [|source addrs] eqn:He; [done|].
  exists addr, (render_iptables (ports_of n source)).
  split; [done|]. split; [apply iptables_savefile_spec; [done|by rewrite He]|].
  apply clean_render, ports_of_words.
Qed.

Lemma networks_keep n addr save F (after : list NetworkState) :
  n ∈ networks → F ∈ network_facts n addr save →
  (∀ m, m ∈ after → m ∈ networks ∧ listen_port n ≠ listen_port m) →
  ∀ m, m ∈ after → keeps (S := S) (apply_network m) F.
Proof.
  intros Hn HF Hafter m Hm. destruct (Hafter m Hm) as [Hm' Hne].
  eapply (apply_network_keeps_other n m); eauto using servable_port.
Qed.

Lemma for_each_networks_achieves n addr save F :
  n ∈ networks → veth_ipv4net n = Ok addr → iptables_savefile n = Ok save → clean_iptables save = save →
  F ∈ network_facts n addr save → achieves (S := S) (for_each networks apply_network) F.
Proof.
  intros Hn Ha Hs Hc HF. pose proof Hn as (before & after & Hsplit)%list_elem_of_split.
  rewrite Hsplit. apply achieves_for_each; [by eapply apply_network_achieves|].
  eapply networks_keep; [done..|]. intros m Hm. split; [rewrite Hsplit; set_solver|].
  by eapply networks_of_split.
Qed.

Lemma nginx_keeps n addr save F :
  F ∈ network_facts n addr save →
  keeps (S := S) (with_context "Applying nginx configuration" (apply_nginx networks options)) F.
Proof.
  intros _. split; [auto with gw|]. apply emits_context. unfold apply_nginx.
  emits_all; destruct F; done.
Qed.

Lemma apply_no_surplus : triple (λ _, True) (apply (S := S) options config) (λ _, no_surplus networks).
Proof.
  unfold apply. eapply triple_bind; [by instantiate (1 := λ _ _, True)|]. intros u.
  eapply triple_bind; [by instantiate (1 := λ _ _, True)|]. intros v.
  eapply triple_bind.
  { instantiate (1 := λ items k, ∀ ns, ns ∈ item_name <$> items ↔ ns ∈ k_netns k).
    triple_op. intros k items k' _ [-> Hl]. done. }
  intros items. eapply triple_bind.
  { eapply triple_conseq; [apply (delete_surplus networks)| |done].
    intros k Hk ns Hp Hns. destruct (decide (ns ∈ netns_name <$> networks)) as [|Hn]; [by left|right].
    apply list_elem_of_filter. rewrite elem_of_list_to_set. split; [done|].
    rewrite hash_iter_perm. apply elem_of_elements, elem_of_list_to_set. by apply Hk. }
  intros u'. eapply triple_bind.
  { apply keeps_no_surplus; [traced_all|]. apply emits_for_each. intros n Hn.
    eapply emits_mono; [apply apply_network_own|]. intros o Ho. destruct o; try done. cbn [own_op adds_only] in *.
    rewrite Ho. by apply list_elem_of_fmap_2. }
  intros v'. apply keeps_no_surplus; [traced_all|].
  apply emits_context. unfold apply_nginx. emits_all; done.
Qed.

Lemma apply_bridge_stays b : BRIDGE_NET = Ok b → achieves (S := S) (apply options config) (bridge_fact b).
Proof.
  intros Hb. unfold apply. skip_step. apply achieves_first; [by apply setup_bridge_achieves|].
  intros u. split; [traced_all|]. apply emits_bind; [by emits_op|]. intros items.
  apply emits_bind; [|intros _; apply emits_bind; [|intros _]].
  - emits_all. cbn. split; [done|]. intros l [Hk _]. unfold is_kind in Hk. by rewrite Hk.
  - apply emits_for_each. intros n _. eapply emits_mono; [apply apply_network_own|].
    intros o. apply own_op_bridge.
  - apply emits_context. unfold apply_nginx. emits_all; done.
Qed.

Lemma apply_network_stays n addr save F :
  n ∈ networks → veth_ipv4net n = Ok addr → iptables_savefile n = Ok save → clean_iptables save = save →
  F ∈ network_facts n addr save → achieves (S := S) (apply options config) F.
Proof.
  intros Hn Ha Hs Hc HF. unfold apply. do 4 skip_step.
  apply achieves_first; [by eapply for_each_networks_achieves|]. intros u. by eapply nginx_keeps.
Qed.

Lemma apply_nginx_loaded f :
  forwarding_of networks (opt_custom_forwarding options) = Ok f →
  triple (λ _, True) (apply (S := S) options config)
    (λ _ k, k_nginx k = (Some (render_nginx f), Some (render_sites f))).
Proof.
  intros Hf. unfold apply.
  do 5 (eapply triple_bind; [by instantiate (1 := λ _ _, True)|]; intros ?).
  by apply triple_context, apply_nginx_achieves.
Qed.
End run.

Lemma apply_deployed options (config : GatewayConfig) (w w' : World S) :
  Forall servable (networks_of (config : gmap Z NetworkState)) →
  apply options config w = (Ok tt, w') →
  deployed options (networks_of (config : gmap Z NetworkState)) (kernel_of w').
Proof.
  intros Hs Hw. assert (Hfacts : ∀ n, n ∈ networks_of (config : gmap Z NetworkState) →
    ∃ addr save, veth_ipv4net n = Ok addr ∧ iptables_savefile n = Ok save ∧
      Forall (λ F, holds F (kernel_of w')) (network_facts n addr save)).
  { intros n Hn. destruct (servable_facts config Hs n Hn) as (addr & save & Ha & Hsave & Hc).
    exists addr, save. split; [done|]. split; [done|]. apply Forall_forall. intros F HF.
    by eapply apply_network_stays. }
  split.
  - intros ns Hp. split; [by eapply apply_no_surplus|].
    intros (n & -> & Hn)%list_elem_of_fmap. destruct (Hfacts n Hn) as (addr & save & _ & _ & HF).
    by apply Forall_cons_1 in HF as [HF _].
  - destruct BRIDGE_NET_spec as (b & Hb & _). exists b. split; [done|]. by eapply apply_bridge_stays.
  - done.
  - destruct (forwarding_of_repr (networks_of (config : gmap Z NetworkState))
                (opt_custom_forwarding options)) as (f & Hf & _).
    { eapply Forall_impl; [done|]. by intros n []. }
    exists f. split; [done|]. by eapply apply_nginx_loaded.
Qed.

(** C1: when [apply] returns without an error, the configuration is
    deployed: whatever state the machine was in before and whatever
    namespaces existed, on every host that follows the kernel. *)
Theorem apply_deploys options (config : GatewayConfig) (w w' : World S) :
  Forall servable (networks_of (config : gmap Z NetworkState)) →
  apply options config w = (Ok tt, w') →
  deployed options (networks_of (config : gmap Z NetworkState)) (kernel_of w').
Proof. apply apply_deployed. Qed.
End promise.

(** ** Witnesses *)
Section witnesses.
#[local] Existing Instances sample_keys sample_url sample_ipnet sample_base32 sample_regex sample_tera.
#[local] Existing Instances sample_keys_ok sample_url_ok sample_ipnet_ok sample_base32_ok
  sample_regex_ok sample_tera_ok.
#[local] Existing Instances release64 sample_order sample_order_ok.

(** The machine after a first application of the sample configuration. *)
Definition applied : outcome unit * World Machine :=
  apply sample_options sample_config (world_on empty_machine).
Lemma applied_ok : apply sample_options sample_config (world_on empty_machine) = (Ok tt, applied.2).
Proof.
  assert (applied.1 = Ok tt) as <- by (vm_compute; reflexivity). apply surjective_pairing.
Qed.

Lemma sample_config_servable : Forall servable (networks_of sample_config).
Proof.
  apply Forall_fmap, Forall_forall. intros [p st] Hp%elem_of_entries.
  assert (Hst : st = sample_network_state 0 ∧ in_width 16 p).
  { unfold sample_config in Hp. apply lookup_insert_Some in Hp as [[Hk Hv]|[_ Hp]].
    - split; [by rewrite Hv|]. rewrite <-Hk. by vm_compute.
    - apply lookup_singleton_Some in Hp as [Hk Hv].
      split; [by rewrite Hv|]. rewrite <-Hk. by vm_compute. }
  destruct Hst as [-> Hw]. by apply (sample_servable p).
Qed.

Lemma apply_deploys_witness :
  deployed sample_options (networks_of sample_config) (kernel_of applied.2).
Proof. exact (apply_deploys _ _ _ _ sample_config_servable applied_ok). Defined.
End witnesses.
