(* ===== verification/Serving.v ===== *)
(** * Serving requests

    The parts together: after a successful [apply] a request for a configured
    URL finds its way from NGINX over the bridge, into the namespace of its
    network and to the proxied socket.  The path is read off the state of the
    machine: the files NGINX has loaded, the interfaces and the live packet
    rules. *)
From S2P Require Import Prelude Text BTree Net Crates Samples Client Types Tera Render Templates Nginx Stats Options Host.
From S2P Require Import Kernel Machine Logic Gateway Deploy.

Local Open Scope string_scope.
Local Open Scope Z_scope.

Section serving.
Context `{T : Target} `{WK : WireguardKeys} `{UCO : !UrlCrateOk UC} `{ICO : !IpnetCrateOk IC}
        `{BCO : !Base32CrateOk BC} `{BT : !Base32Text BC}
        `{RCO : !RegexCrateOk RC} `{TEO : !TeraOk TE} `{HOO : !HashOrderOk HO} {S : Type} `{HS : !Host S} `{HK : !HostOk S}.

(** The servers to which NGINX sends what it is asked for. *)
Definition nginx_servers (k : Kernel) (scheme host : string) : list string :=
  if decide (scheme = "https") then default [] (stream ← (k_nginx k).1; conf ← read_nginx stream; tls_backend conf host)
  else if decide (scheme = "http") then default [] (sites ← (k_nginx k).2; conf ← read_nginx sites; web_backend conf host)
  else [].

(** The rules in force in a namespace. *)
Definition live_rules (k : Kernel) (ns : string) : list nat_rule :=
  rules_of (clean_iptables (default "" (k_rules k !! (Some ns : nsname)))).

(** A way from NGINX to a socket: a server on an address of a veth interface
    whose other end is on the bridge, and a rule that rewrites its port. *)
Inductive reaches (k : Kernel) (scheme host target : string) : Prop :=
| reaches_inside a p ns veth outer inner net :
    sock_to_string (SockV4 a p) ∈ nginx_servers k scheme host →
    k_links k !! (None, veth) = Some outer → is_up outer → has_master BRIDGE_INTERFACE outer →
    k_links k !! (Some ns, veth) = Some inner → is_up inner → has_addr net inner →
    ipnet_addr net = IpV4 a →
    dnat_target (live_rules k ns) veth p = Some target →
    reaches k scheme host target.

(** The path of a proxied socket, in a deployed machine. *)
Lemma deployed_path options networks k n i url sock :
  deployed options networks k → Forall servable networks → n ∈ networks → proxied n !! i = Some (url, sock) →
  ∃ outer inner net,
    k_links k !! (None, veth_name n) = Some outer ∧ is_up outer ∧ has_master BRIDGE_INTERFACE outer ∧
    k_links k !! (Some (netns_name n), veth_name n) = Some inner ∧ is_up inner ∧ has_addr net inner ∧
    ipnet_addr net = IpV4 (bridge_base + listen_port n) ∧
    dnat_target (live_rules k (netns_name n)) (veth_name n) (PORT_MAPPING_START + Z.of_nat i) =
      Some (dest_text (sock_ip sock) (sock_port sock)).
Proof.
  intros Hdep Hs Hn Hi. pose proof Hs as Hs'. rewrite Forall_forall in Hs'. specialize (Hs' n Hn).
  destruct (dep_network _ _ _ Hdep n Hn) as (addr & save & Haddr & Hsave & HF).
  destruct (dnat_target_savefile n i url sock Hs' Hi) as (save' & Hsave' & Hd).
  rewrite Hsave in Hsave'. injection Hsave' as <-.
  destruct (veth_ipv4net_spec n) as (addr' & Haddr' & Ha & _); [by destruct Hs' as [[] ]|].
  rewrite Haddr in Haddr'. injection Haddr' as <-.
  rewrite Forall_forall in HF.
  assert (Hfact : ∀ F, F ∈ network_facts n addr save → holds F k) by auto. clear HF.
  destruct (Hfact (FLink None (veth_name n) (has_master BRIDGE_INTERFACE))) as (outer & Ho & Hm); [unfold network_facts; set_solver|].
  destruct (Hfact (FLink None (veth_name n) is_up)) as (outer' & Ho' & Hou); [unfold network_facts; set_solver|].
  destruct (Hfact (FLink (Some (netns_name n)) (veth_name n) is_up)) as (inner & Hin & Hiu); [unfold network_facts; set_solver|].
  destruct (Hfact (FLink (Some (netns_name n)) (veth_name n) (has_addr (ipnet_of_v4 addr)))) as (inner' & Hin' & Hia); [unfold network_facts; set_solver|].
  assert (Hr : holds (FRules (Some (netns_name n)) save) k) by (apply Hfact; unfold network_facts; set_solver).
  simplify_eq. exists outer, inner, (ipnet_of_v4 addr). do 6 (split; [done|]).
  rewrite ipnet_addr_of_v4, Ha. split; [done|]. unfold live_rules. unfold holds in Hr. rewrite Hr.
  by rewrite (clean_savefile _ _ Hs' Hsave).
Qed.

(** A deployed machine serves requests. *)
Lemma deployed_serves options networks k :
  deployed options networks k → Forall servable networks → named networks (opt_custom_forwarding options) →
  (∀ scheme host server, scheme ∈ ["http"; "https"] → host ∉ map_words →
     (server ∈ nginx_servers k scheme host ↔
        ∃ gw, server = sock_to_string gw ∧ serves networks (opt_custom_forwarding options) scheme host gw)) ∧
  (∀ n url sock scheme host,
     n ∈ networks → (url, sock) ∈ proxied n → url_scheme url = scheme → scheme ∈ ["http"; "https"] →
     url_host_str url = Some host →
     reaches k scheme host (dest_text (sock_ip sock) (sock_port sock))).
Proof.
  intros Hdep Hs Hnamed. set (custom := opt_custom_forwarding options) in *.
  destruct (nginx_serves networks custom Hs Hnamed) as (f & Hf & Htls & Hweb & Hserves).
  assert (Hnginx : ∀ scheme host server, scheme ∈ ["http"; "https"] → host ∉ map_words →
    server ∈ nginx_servers k scheme host ↔
      ∃ gw, server = sock_to_string gw ∧ serves networks custom scheme host gw).
  { intros scheme host server Hsch Hh. destruct (dep_nginx _ _ _ Hdep) as (f' & Hf' & Hk).
    assert (f' = f) as -> by (unfold custom in *; congruence).
    unfold nginx_servers. rewrite Hk. cbn [fst snd mbind option_bind]. rewrite Htls, Hweb.
    cbn [mbind option_bind]. destruct (Hserves host server Hh).
    repeat case_decide; subst; [done|done|]. set_solver. }
  split; [done|]. intros n url sock scheme host Hn Hin Hsch Hw2 Hhost.
  apply list_elem_of_lookup in Hin as [i Hi].
  destruct (deployed_path _ _ _ n i url sock Hdep Hs Hn Hi) as (outer & inner & net & ? & ? & ? & ? & ? & ? & ? & ?).
  eapply reaches_inside; try done. apply Hnginx; [done| |].
  - destruct Hnamed as [Hall _]. rewrite Forall_forall in Hall. specialize (Hall n Hn).
    eapply Forall_lookup_1 in Hall; [|done]. subst scheme. apply plain_host.
    apply (Hall ltac:(set_solver) _ Hhost).
  - eexists. split; [done|]. left. rewrite Forall_forall in Hs.
    destruct (dnat_target_savefile n i url sock (Hs n Hn) Hi) as (save & ? & ?). by exists n, i, url, sock, save.
Qed.
(** C3: after a successful [apply] requests reach what the configuration
    says.  NGINX has loaded valid configurations that send each TLS
    connection (web request) for a host to exactly the entries that the
    networks and the custom forwarding list for the host; and for every URL
    of a network there is a way from NGINX over the bridge and through the
    packet rules in force to each of its proxied sockets. *)
Theorem apply_serves options (config : GatewayConfig) (w w' : World S) :
  let networks := networks_of (config : gmap Z NetworkState) in
  let custom := opt_custom_forwarding options in
  Forall servable networks → named networks custom →
  apply options config w = (Ok tt, w') →
  (∀ scheme host server, scheme ∈ ["http"; "https"] → host ∉ map_words →
     (server ∈ nginx_servers (kernel_of w') scheme host ↔
        ∃ gw, server = sock_to_string gw ∧ serves networks custom scheme host gw)) ∧
  (∀ n url sock scheme host,
     n ∈ networks → (url, sock) ∈ proxied n → url_scheme url = scheme → scheme ∈ ["http"; "https"] →
     url_host_str url = Some host →
     reaches (kernel_of w') scheme host (dest_text (sock_ip sock) (sock_port sock))).
Proof. intros networks custom Hs Hnamed Hw. apply deployed_serves; [by eapply apply_deployed|done..]. Qed.
End serving.

(** ** Witnesses *)
Section witnesses.
#[local] Existing Instances sample_keys sample_url sample_ipnet sample_base32 sample_regex sample_tera.
#[local] Existing Instances sample_keys_ok sample_url_ok sample_ipnet_ok sample_base32_ok sample_base32_text
  sample_regex_ok sample_tera_ok.
#[local] Existing Instances release64 sample_order sample_order_ok.

Lemma sample_named : named (networks_of sample_config) (opt_custom_forwarding sample_options).
Proof.
  assert (Hu : ∀ url : Url, hostname (default "" (url_host_str url)) = true → named_url url).
  { intros url Hu _ host Hh. by rewrite Hh in Hu. }
  split; [|by repeat constructor; apply Hu].
  apply Forall_fmap, Forall_forall. intros [p st] Hp%elem_of_entries.
  assert (Hst : st = sample_network_state 0).
  { unfold sample_config in Hp. apply lookup_insert_Some in Hp as [[_ Hv]|[_ Hp]]; [done|].
    by apply lookup_singleton_Some in Hp as [_ Hv]. }
  subst st. change (Forall (λ e, named_url e.1) (proxied (sample_network_state 0))).
  repeat (apply Forall_cons; split); try apply Forall_nil_2; by apply Hu; vm_compute.
Qed.

(** Read off the machine after applying the sample configuration. *)
Example sample_servers :
  nginx_servers (kernel_of applied.2) "https" "git.a.com" =
    ["172.99.0.7:2001"; "172.99.0.7:2002"; "172.99.48.24:2001"; "172.99.48.24:2002"] ∧
  nginx_servers (kernel_of applied.2) "http" "chat.a.com" = ["172.99.0.7:2000"; "172.99.48.24:2000"] ∧
  nginx_servers (kernel_of applied.2) "https" "x.org" = ["127.0.0.1:80"] ∧
  nginx_servers (kernel_of applied.2) "http" "git.a.com" = [].
Proof. by vm_compute. Qed.

Lemma apply_serves_witness :
  (∀ scheme host server, scheme ∈ ["http"; "https"] → host ∉ map_words →
     (server ∈ nginx_servers (kernel_of applied.2) scheme host ↔
        ∃ gw, server = sock_to_string gw ∧
          serves (networks_of sample_config) (opt_custom_forwarding sample_options) scheme host gw)) ∧
  (∀ n url sock scheme host,
     n ∈ networks_of sample_config → (url, sock) ∈ proxied n → url_scheme url = scheme → scheme ∈ ["http"; "https"] →
     url_host_str url = Some host →
     reaches (kernel_of applied.2) scheme host (dest_text (sock_ip sock) (sock_port sock))).
Proof. exact (apply_serves _ _ _ _ sample_config_servable sample_named applied_ok). Defined.
End witnesses.
