(* ===== verification/Again.v ===== *)
(** * Applying a deployed configuration again

    A second application of the same configuration finds nothing to do: it
    reads, rewrites the same files, and has WireGuard and NGINX reload them,
    but touches no namespace, interface, address or packet rule. *)
From S2P Require Import Prelude Text BTree Net Crates Samples Client Types Tera Render Templates Stats Options.
From S2P Require Import Host Kernel Machine Logic Gateway Deploy.

Local Open Scope string_scope.
Local Open Scope Z_scope.

(** ** Programs that change nothing *)
Section quiet.
Context `{WK : WireguardKeys} `{UC : UrlCrate} `{IC : IpnetCrate} `{RC : RegexCrate}
        {S : Type} `{HS : !Host S} `{HK : !HostOk S}.

(** Same namespaces, links and rules. *)
Definition same (k k' : Kernel) : Prop :=
  k_netns k' = k_netns k ∧ k_links k' = k_links k ∧ k_rules k' = k_rules k.

Lemma calm_step o k r k' : is_calm o = true → kstep o k r k' → same k k'.
Proof.
  destruct o; cbn; try done; intros _ Hs;
    try lazymatch type of Hs with k' = k ∧ _ => by destruct Hs as [-> _] end; try (by rewrite Hs).
  by destruct Hs as (c & _ & ->).
Qed.

Lemma query_step o k r k' : is_query o = true → kstep o k r k' → k' = k.
Proof. destruct o; cbn; try done; intros _ Hs; (done || by destruct Hs). Qed.

Lemma same_holds k k' F :
  same k k' → match F with FConf _ _ _ | FWg _ _ _ => False | _ => True end → holds F k → holds F k'.
Proof. intros (Hn & Hl & Hr). destruct F; cbn; rewrite ?Hn, ?Hl, ?Hr; done. Qed.

Context (k0 : Kernel).

(** From a kernel like [k0], [m] issues calm operations only, and what it
    returns satisfies [R]. *)
Definition quiet {A} (m : M (World S) A) (R : A → Prop) : Prop := ∀ w,
  same k0 (kernel_of w) →
  ∃ l, w_log (m w).2 = (w_log w ++ l)%list ∧ Forall (λ o, is_calm o = true) l ∧
    ∀ a, (m w).1 = Ok a → same k0 (kernel_of (m w).2) ∧ R a.

Lemma quiet_ret {A} (a : A) (R : A → Prop) : R a → quiet (mret a) R.
Proof. intros Ha w Hw. exists []. rewrite app_nil_r. split; [done|]. split; [done|]. by intros b [= <-]. Qed.
Lemma quiet_lift {A} (o : outcome A) (R : A → Prop) : (∀ a, o = Ok a → R a) → quiet (lift o) R.
Proof. intros Ha w Hw. exists []. rewrite app_nil_r. split; [done|]. split; [done|]. cbn. auto. Qed.
Lemma quiet_set_config c : quiet (set_config c) (λ _, True).
Proof. intros w Hw. exists []. rewrite app_nil_r. split; [done|]. by split. Qed.

Lemma quiet_call o (R : resp o → Prop) :
  is_calm o = true → (∀ k r k', same k0 k → kstep o k r k' → R r) → quiet (call o) R.
Proof.
  intros Ho HR w Hw. exists [o]. destruct (call o w) as [out w'] eqn:Hc. cbn.
  assert (Hl : w_log w' = (w_log w ++ [o])%list).
  { unfold call in Hc. destruct (exec o (w_host w)) as [? s]. by injection Hc as _ <-. }
  split; [done|]. split; [by apply Forall_singleton|]. intros a ->.
  apply call_Ok in Hc as [_ Hs]. split; [|by eapply HR].
  destruct (calm_step _ _ _ _ Ho Hs) as (H1 & H2 & H3), Hw as (H4 & H5 & H6).
  repeat split; congruence.
Qed.

Lemma quiet_bind {A B} (m : M (World S) A) (k : A → M (World S) B) R Q :
  quiet m R → (∀ a, R a → quiet (k a) Q) → quiet (m ≫= k) Q.
Proof.
  intros Hm Hk w Hw. destruct (Hm w Hw) as (l & Hl & Hc & Ha). unfold mbind, M_bind.
  destruct (m w) as [[a|e|] w1]; cbn in *; [|by exists l..].
  destruct (Ha a eq_refl) as [Hw1 HR].
  destruct (Hk a HR w1 Hw1) as (l' & Hl' & Hc' & Ha'). exists (l ++ l')%list.
  rewrite Hl', Hl, app_assoc. split; [done|]. split; [by apply Forall_app|done].
Qed.

Lemma quiet_context {A} c (m : M (World S) A) R : quiet m R → quiet (with_context c m) R.
Proof.
  intros Hm w Hw. destruct (Hm w Hw) as (l & Hl & Hc & Ha). exists l. unfold with_context.
  destruct (m w) as [[a|e|] w1]; cbn in *; done.
Qed.

Lemma quiet_when_not b (m : M (World S) unit) : b = false → quiet (when b m) (λ _, True).
Proof. intros ->. by apply quiet_ret. Qed.

Lemma quiet_for_each {A} (l : list A) (f : A → M (World S) unit) :
  (∀ x, x ∈ l → quiet (f x) (λ _, True)) → quiet (for_each l f) (λ _, True).
Proof.
  intros Hf. induction l as [|x l IH]; cbn; [by apply quiet_ret|].
  eapply quiet_bind; [apply Hf; left|]. intros _ _. apply IH. intros y Hy. apply Hf. by right.
Qed.

Lemma quiet_file o : is_calm o = true → quiet (call o) (λ _, True).
Proof. intros Ho. by apply quiet_call. Qed.
End quiet.

Ltac quiet_op := lazymatch goal with
  | |- quiet _ (call ?o) _ => apply (quiet_call _ o); [done|]; cbn [kstep]; intros k r k' Hsame Hs
  end.
Ltac quiet_file := lazymatch goal with |- quiet _ (call ?o) _ => by apply (quiet_file _ o) end.

(** ** A deployed configuration *)
Section again.
Context `{T : Target} `{WK : WireguardKeys} `{UCO : !UrlCrateOk UC} `{ICO : !IpnetCrateOk IC} `{BCO : !Base32CrateOk BC}
        `{RCO : !RegexCrateOk RC} `{TEO : !TeraOk TE} `{HOO : !HashOrderOk HO} {S : Type} `{HS : !Host S} `{HK : !HostOk S}.
Context (k0 : Kernel).

Lemma quiet_ensure ask make (rest : M (World S) unit) :
  quiet k0 ask (λ b, b = true) → quiet k0 rest (λ _, True) →
  quiet k0 (b ← ask; when (negb b) make;; rest) (λ _, True).
Proof.
  intros Ha Hr. eapply quiet_bind; [exact Ha|]. intros b ->.
  eapply quiet_bind; [by apply quiet_when_not|]. auto.
Qed.

Lemma quiet_link_exists kind key k :
  same k0 k → holds (FLink key.1 key.2 (is_kind kind)) k0 → link_exists kind key k = true.
Proof.
  intros (_ & Hl & _) (l & Hk & Hkind). unfold link_exists. destruct key as [ns i].
  rewrite Hl. cbn in Hk. rewrite Hk. cbn. by rewrite bool_decide_true.
Qed.

Lemma quiet_interface_up ns i :
  holds (FLink ns i is_up) k0 → quiet (S := S) k0 (apply_interface_up ns i) (λ _, True).
Proof.
  intros (l & Hl & Hup). eapply (quiet_bind _ _ _ (λ r, show_is_down r = false)).
  - quiet_op. destruct Hs as (-> & l' & Hl' & _ & ->), Hsame as (_ & Hlinks & _).
    rewrite Hlinks, Hl in Hl'. injection Hl' as <-. by rewrite Hup.
  - intros r Hr. by apply quiet_when_not.
Qed.

Lemma quiet_link_master ns i m :
  holds (FLink ns i (has_master m)) k0 → quiet (S := S) k0 (apply_link_master ns i m) (λ _, True).
Proof.
  intros (l & Hl & Hm). eapply (quiet_bind _ _ _ (λ r, r = Some m)).
  - quiet_op. destruct Hs as (-> & l' & Hl' & ->), Hsame as (_ & Hlinks & _).
    rewrite Hlinks, Hl in Hl'. by injection Hl' as <-.
  - intros r ->. apply quiet_when_not. by rewrite bool_decide_false, bool_decide_false by auto.
Qed.

Lemma quiet_addr ns i target :
  (∀ a, a ∈ target → holds (FLink ns i (has_addr a)) k0) →
  quiet (S := S) k0 (apply_addr ns i target) (λ _, True).
Proof.
  intros Ha. eapply (quiet_bind _ _ _ (λ r, ∀ a, a ∈ target → a ∈ (r : list IpNet))).
  - quiet_op. destruct Hs as (-> & l' & Hl' & Hr), Hsame as (_ & Hlinks & _).
    intros a Hin. apply Hr. destruct (Ha a Hin) as (l & Hl & Hla).
    rewrite Hlinks, Hl in Hl'. by injection Hl' as <-.
  - intros r Hr. apply quiet_for_each. intros a Hin. apply quiet_when_not.
    apply bool_decide_eq_false. intros Hn. by apply Hn, Hr.
Qed.

Section network.
Context (n : NetworkState) (addr : Ipv4Net) (save : string).
Context (Haddr : veth_ipv4net n = Ok addr) (Hsave : iptables_savefile n = Ok save)
        (Hclean : clean_iptables save = save).
Context (Hfacts : Forall (λ F, holds F k0) (network_facts n addr save)).

Lemma quiet_fact F : F ∈ network_facts n addr save → holds F k0.
Proof. intros HF. rewrite Forall_forall in Hfacts. auto. Qed.
Ltac fact := apply quiet_fact; unfold network_facts; set_solver.

Lemma quiet_wireguard : quiet (S := S) k0 (apply_wireguard n) (λ _, True).
Proof.
  unfold apply_wireguard. cbv zeta. apply quiet_ensure.
  { quiet_op. destruct Hs as [-> ->]. apply quiet_link_exists; [done|]. fact. }
  eapply (quiet_bind _ _ _ (λ r, show_mtu r = Some (mtu n))).
  { quiet_op. destruct Hs as (-> & l' & Hl' & -> & _), Hsame as (_ & Hlinks & _).
    assert (HF : holds (FLink (Some (netns_name n)) (wgif_name n) (has_mtu (mtu n))) k0) by fact.
    destruct HF as (l & Hl & Hm). rewrite Hlinks, Hl in Hl'. by injection Hl' as <-. }
  intros r Hr. eapply (quiet_bind _ _ _ (λ m, m = mtu n)).
  { apply quiet_lift. intros m. rewrite Hr. by intros [= <-]. }
  intros m ->. eapply quiet_bind; [apply quiet_when_not; by rewrite bool_decide_false by auto|].
  intros _ _. eapply quiet_bind; [apply quiet_context, quiet_interface_up; fact|].
  intros _ _. eapply quiet_bind; [quiet_file|].
  intros _ _. eapply quiet_bind; [|intros _ _; quiet_file].
  apply quiet_context, quiet_addr. intros a Ha. apply quiet_fact.
  apply elem_of_app. right. apply list_elem_of_fmap. by exists a.
Qed.

Lemma quiet_veth : quiet (S := S) k0 (apply_veth n) (λ _, True).
Proof.
  unfold apply_veth. cbv zeta. apply quiet_ensure.
  { quiet_op. destruct Hs as [-> ->]. apply quiet_link_exists; [done|]. fact. }
  rewrite Haddr. eapply (quiet_bind _ _ _ (λ a, a = addr)).
  { apply quiet_lift. by intros a [= <-]. }
  intros a ->. eapply quiet_bind.
  { apply quiet_context, quiet_addr. intros a ->%list_elem_of_singleton. fact. }
  intros _ _. eapply quiet_bind; [apply quiet_context, quiet_link_master; fact|].
  intros _ _. eapply quiet_bind; [apply quiet_context, quiet_interface_up; fact|].
  intros _ _. apply quiet_context, quiet_interface_up. fact.
Qed.

Lemma quiet_forwarding : quiet (S := S) k0 (apply_forwarding n) (λ _, True).
Proof.
  unfold apply_forwarding. cbv zeta. rewrite Hsave.
  eapply (quiet_bind _ _ _ (λ s, s = save)); [apply quiet_lift; by intros s [= <-]|].
  intros s ->. eapply (quiet_bind _ _ _ (λ r, clean_iptables r = save)).
  - quiet_op. destruct Hs as [-> ->], Hsame as (_ & _ & Hrules). rewrite Hrules.
    assert (HF : holds (FRules (Some (netns_name n)) save) k0) by fact.
    cbn [holds] in HF. by rewrite HF, Hclean.
  - intros r ->. apply quiet_when_not. by rewrite bool_decide_false by auto.
Qed.

Lemma quiet_network : quiet (S := S) k0 (apply_network n) (λ _, True).
Proof.
  unfold apply_network. eapply quiet_bind; [|intros _ _; eapply quiet_bind; [apply quiet_wireguard|
    intros _ _; eapply quiet_bind; [apply quiet_veth|intros _ _; apply quiet_forwarding]]].
  unfold apply_netns. cbv zeta. eapply (quiet_bind _ _ _ (λ b, b = true)).
  - quiet_op. destruct Hs as [-> ->], Hsame as (Hn & _). apply bool_decide_true. rewrite Hn.
    assert (HF : holds (FNs (netns_name n)) k0) by fact. done.
  - intros b ->. by apply quiet_when_not.
Qed.
End network.

Lemma quiet_setup_bridge b :
  BRIDGE_NET = Ok b → holds (bridge_fact b) k0 → quiet (S := S) k0 setup_bridge (λ _, True).
Proof.
  intros Hb (l & Hl & Hkind & Hup & Haddr). unfold setup_bridge, apply_bridge. rewrite Hb.
  eapply (quiet_bind _ _ _ (λ c, c = b)); [apply quiet_lift; by intros c [= <-]|].
  intros c ->. apply quiet_context, quiet_ensure.
  { quiet_op. destruct Hs as [-> ->]. apply quiet_link_exists; [done|]. by exists l. }
  eapply quiet_bind; [apply quiet_context, quiet_addr|intros _ _; apply quiet_context, quiet_interface_up].
  - intros a ->%list_elem_of_singleton. by exists l.
  - by exists l.
Qed.

Lemma quiet_nginx networks options :
  quiet (S := S) k0 (apply_nginx networks options) (λ _, True).
Proof.
  unfold apply_nginx. do 2 (eapply quiet_bind; [by apply (quiet_lift _ _ (λ _, True))|]; intros ? _).
  eapply quiet_bind; [by apply (quiet_lift _ _ (λ _, True))|]. intros ? _.
  eapply quiet_bind; [quiet_file|]. intros _ _.
  eapply quiet_bind; [by apply (quiet_lift _ _ (λ _, True))|]. intros ? _.
  eapply quiet_bind; [quiet_file|]. intros _ _. quiet_file.
Qed.

Lemma quiet_apply options (config : GatewayConfig) :
  Forall servable (networks_of (config : gmap Z NetworkState)) →
  deployed options (networks_of (config : gmap Z NetworkState)) k0 →
  quiet (S := S) k0 (apply options config) (λ _, True).
Proof.
  intros Hserv [Hns (b & Hb & Hbridge) Hnet _]. unfold apply.
  eapply quiet_bind; [apply quiet_set_config|]. intros _ _.
  eapply quiet_bind; [by eapply quiet_setup_bridge|]. intros _ _.
  eapply (quiet_bind _ _ _ (λ items, ∀ ns, ns ∈ item_name <$> (items : list NetnsItem) → ns ∈ k_netns k0)).
  { quiet_op. destruct Hs as [-> Hl], Hsame as (Hn & _). intros ns. by rewrite Hl, Hn. }
  intros items Hitems. eapply quiet_bind; [|intros _ _; eapply quiet_bind; [|intros _ _]].
  - apply quiet_for_each. intros ns [Hne Hin]%list_elem_of_filter. apply quiet_when_not.
    destruct (starts_with NETNS_PREFIX ns) eqn:Hp; [|done]. exfalso. apply Hne.
    rewrite elem_of_list_to_set. apply Hns; [done|]. apply Hitems.
    rewrite hash_iter_perm in Hin. by apply elem_of_elements, elem_of_list_to_set in Hin.
  - apply quiet_for_each. intros n Hn. destruct (Hnet n Hn) as (addr & save & Ha & Hsave & HF).
    destruct (servable_facts config Hserv n Hn) as (addr' & save' & _ & Hsave' & Hclean).
    rewrite Hsave in Hsave'. injection Hsave' as <-. by eapply quiet_network.
  - apply quiet_context, quiet_nginx.
Qed.
End again.

Section again_theorem.
Context `{T : Target} `{WK : WireguardKeys} `{UCO : !UrlCrateOk UC} `{ICO : !IpnetCrateOk IC} `{BCO : !Base32CrateOk BC}
        `{RCO : !RegexCrateOk RC} `{TEO : !TeraOk TE} `{HOO : !HashOrderOk HO} {S : Type} `{HS : !Host S} `{HK : !HostOk S}.

(** C6: applying is idempotent: after a successful application, a second one
    of the same configuration creates, changes and deletes no namespace,
    interface, address or packet rule, however it ends; it only reads,
    rewrites configuration files and reloads them. *)
Theorem apply_again options (config : GatewayConfig) (w w1 : World S) :
  Forall servable (networks_of (config : gmap Z NetworkState)) →
  apply options config w = (Ok tt, w1) →
  emits_from (λ o, is_calm o = true) (apply options config) w1.
Proof.
  intros Hserv Hw. assert (Hd := apply_deployed options config w w1 Hserv Hw).
  destruct (quiet_apply (kernel_of w1) options config Hserv Hd w1) as (l & Hl & Hc & _);
    [by repeat split|]. by exists l.
Qed.
End again_theorem.

(** ** Witnesses *)
Section witnesses.
#[local] Existing Instances sample_keys sample_url sample_ipnet sample_base32 sample_regex sample_tera.
#[local] Existing Instances sample_keys_ok sample_url_ok sample_ipnet_ok sample_base32_ok
  sample_regex_ok sample_tera_ok.
#[local] Existing Instances release64 sample_order sample_order_ok.

Lemma apply_again_witness :
  emits_from (λ o, is_calm o = true) (apply sample_options sample_config) applied.2.
Proof. exact (apply_again _ _ _ _ sample_config_servable applied_ok). Defined.
End witnesses.
