(* ===== verification/Partial.v ===== *)
(** * Applying a partial configuration

    What a successful [apply_partial] leaves behind, and the part the listen
    port of a network plays: [apply] sets it to the port the network is listed
    under, [apply_partial] and the stored configuration do not. *)
From S2P Require Import Prelude Text BTree Net Crates Samples Client Types Tera Render Templates Stats Options.
From S2P Require Import Host Kernel Machine Logic Gateway Deploy.

Local Open Scope string_scope.
Local Open Scope Z_scope.

Section partial.
Context `{T : Target} `{WK : WireguardKeys} `{UCO : !UrlCrateOk UC} `{ICO : !IpnetCrateOk IC} `{BCO : !Base32CrateOk BC}
        `{RCO : !RegexCrateOk RC} `{TEO : !TeraOk TE} `{HO : HashOrder} {S : Type} `{HS : !Host S} `{HK : !HostOk S}.

(** The WireGuard interface of a network, all at once. *)
Definition wireguard_ready (n : NetworkState) (l : Link) : Prop :=
  is_kind Wireguard l ∧ has_mtu (mtu n) l ∧ is_up l ∧ ∀ a, a ∈ address n → has_addr a l.

(** The facts that the removal of other networks cannot touch: a veth end may
    vanish with the namespace of its other end. *)
Definition core_facts (n : NetworkState) (save : string) : list Fact :=
  [FNs (netns_name n);
   FLink (Some (netns_name n)) (wgif_name n) (wireguard_ready n);
   FWg (netns_name n) (wgif_name n) (to_config n);
   FRules (Some (netns_name n)) save].

Lemma core_facts_survive n save F ns :
  F ∈ core_facts n save → netns_name n ≠ ns → about n F ∧ survives F ns.
Proof.
  intros HF Hns. unfold core_facts in HF. rewrite !elem_of_cons in HF.
  destruct HF as [->|[->|[->|[->|HF%elem_of_nil]]]]; [..|done]; cbn [about survives];
    (split; [done|]); try congruence.
  split; [congruence|]. intros l (Hk & _). unfold is_kind in Hk. by rewrite Hk.
Qed.

Lemma apply_network_core n addr save F :
  veth_ipv4net n = Ok addr → iptables_savefile n = Ok save → clean_iptables save = save →
  F ∈ core_facts n save → achieves (S := S) (apply_network n) F.
Proof.
  intros Ha Hs Hc HF w u w' Hw Hr.
  assert (Hall : ∀ G, G ∈ network_facts n addr save → holds G (kernel_of w')).
  { intros G HG. by eapply (apply_network_achieves n addr save G). }
  unfold core_facts in HF. rewrite !elem_of_cons in HF.
  destruct HF as [->|[->|[->|[->|HF%elem_of_nil]]]]; [| | | |done].
  - apply Hall. unfold network_facts. set_solver.
  - apply link_and; [apply Hall; unfold network_facts; set_solver|].
    apply link_and; [apply Hall; unfold network_facts; set_solver|].
    assert (Hup : holds (FLink (Some (netns_name n)) (wgif_name n) is_up) (kernel_of w'))
      by (apply Hall; unfold network_facts; set_solver).
    apply link_and; [done|]. destruct Hup as (l & Hl & _). exists l. split; [done|].
    intros a Hin. assert (Haddr : holds (FLink (Some (netns_name n)) (wgif_name n) (has_addr a)) (kernel_of w')).
    { apply Hall, elem_of_app. right. apply list_elem_of_fmap. by exists a. }
    destruct Haddr as (l' & Hl' & Hla). congruence.
  - apply Hall. unfold network_facts. set_solver.
  - apply Hall. unfold network_facts. set_solver.
Qed.

Definition port_netns (port : Z) : string := NETNS_PREFIX ++ dec port.

Lemma port_netns_inj p q : 0 ≤ p → 0 ≤ q → port_netns p = port_netns q → p = q.
Proof. intros Hp Hq H. apply dec_inj; [done..|]. by apply (inj (String.append NETNS_PREFIX)). Qed.

Lemma traced_apply_entry names e : traced (S := S) (apply_entry names e).
Proof. destruct e as [port [n|]]; cbn; traced_all. Qed.

(** A network whose listen port is the port it is listed under. *)
Definition entry_ok (e : Z * option NetworkState) : Prop :=
  0 ≤ e.1 ∧ ∀ n, e.2 = Some n → listen_port n = e.1 ∧ servable n.

Lemma apply_entry_keeps n save F names e :
  0 ≤ listen_port n → entry_ok e → e.1 ≠ listen_port n →
  F ∈ core_facts n save → keeps (S := S) (apply_entry names e) F.
Proof.
  intros Hn [He Hok] Hne HF. split; [apply traced_apply_entry|].
  destruct e as [port [m|]]; cbn [fst snd] in *.
  - destruct (Hok m eq_refl) as [Hport _]. cbn.
    apply emits_bind; [|intros _; emits_all].
    eapply emits_mono; [apply apply_network_own|]. intros o. apply (own_op_stable n m); [done|lia|congruence|].
    apply (core_facts_survive n save F (netns_name m)); [done|].
    intros Heq%netns_name_inj; [congruence|done|lia].
  - cbn. emits_all. fold (port_netns port). cbn [stable].
    apply (core_facts_survive n save F); [done|].
    intros Heq. apply Hne. symmetry. by apply (port_netns_inj (listen_port n) port).
Qed.

Section run.
Context (options : Options) (partial : GatewayConfigPartial).
Let es := entries (partial : gmap Z (option NetworkState)).
Context (Hes : Forall entry_ok es).

Lemma entries_split p on before after :
  es = (before ++ (p, on) :: after)%list → ∀ e, e ∈ (before ++ after)%list → e.1 ≠ p.
Proof.
  intros Hs e He Hp. pose proof (NoDup_map_keys (partial : gmap Z (option NetworkState))) as Hnd.
  unfold map_keys in Hnd. fold es in Hnd. rewrite Hs, fmap_app, fmap_cons in Hnd. cbn [fst] in Hnd.
  apply NoDup_app in Hnd as (_ & Hdisj & [Hafter _]%NoDup_cons).
  apply elem_of_app in He as [He|He].
  - apply (Hdisj e.1); [by apply list_elem_of_fmap_2|]. rewrite Hp. by left.
  - apply Hafter. rewrite <-Hp. by apply list_elem_of_fmap_2.
Qed.

Lemma in_partial p on :
  (partial : gmap Z (option NetworkState)) !! p = Some on →
  ∃ before after, es = (before ++ (p, on) :: after)%list.
Proof. intros Hp. apply list_elem_of_split. by apply elem_of_entries. Qed.

Lemma entry_at e : e ∈ es → entry_ok e.
Proof. intros He. rewrite Forall_forall in Hes. auto. Qed.

(** An added network is deployed inside its namespace. *)
Lemma partial_added p n addr save F names :
  (partial : gmap Z (option NetworkState)) !! p = Some (Some n) →
  veth_ipv4net n = Ok addr → iptables_savefile n = Ok save → clean_iptables save = save →
  F ∈ core_facts n save → achieves (S := S) (for_each es (apply_entry names)) F.
Proof.
  intros Hp Ha Hs Hc HF. destruct (in_partial p (Some n) Hp) as (before & after & Hsplit).
  assert (Hok : entry_ok (p, Some n)) by (apply entry_at; rewrite Hsplit; set_solver).
  destruct Hok as [Hpos Hok]. destruct (Hok n eq_refl) as [Hport Hserv]. cbn in Hpos, Hport.
  rewrite Hsplit. apply achieves_for_each.
  - cbn. apply achieves_first; [by eapply apply_network_core|]. intros _.
    split; [traced_all|]. emits_all.
  - intros e He. eapply (apply_entry_keeps n); [lia|apply entry_at; rewrite Hsplit; set_solver| |done].
    rewrite Hport. eapply entries_split; [done|set_solver].
Qed.

(** A removed network loses its namespace. *)
Lemma entry_adds p names e :
  e ∈ es → e.1 ≠ p → 0 ≤ p → emits (S := S) (adds_only (λ ns, ns ≠ port_netns p)) (apply_entry names e).
Proof.
  intros He Hne Hp. destruct (entry_at e He) as [Hpos Hok]. destruct e as [q [m|]]; cbn in *.
  - destruct (Hok m eq_refl) as [Hport _]. apply emits_bind; [|intros _; emits_all].
    eapply emits_mono; [apply apply_network_own|]. intros o Ho. destruct o; try done.
    cbn [own_op adds_only] in *. rewrite Ho. intros Heq. apply Hne. rewrite <-Hport.
    by apply (port_netns_inj (listen_port m) p); [lia|..].
  - emits_all. done.
Qed.

Lemma not_added ns (Q : Prop) {A} (m : M (World S) A) :
  traced m → emits (adds_only (λ ns', ns' ≠ ns)) m →
  triple (λ k, ns ∈ k_netns k → Q) m (λ _ k, ns ∈ k_netns k → Q).
Proof.
  intros Ht He w a w' Hw Hm Hin. destruct (Ht _ _ _ Hm) as (l & Hl & Hs).
  destruct (He w) as (l' & Hl' & HF). rewrite Hm in Hl'. cbn in Hl'. rewrite Hl in Hl'.
  apply app_inv_head in Hl' as <-. destruct (ksteps_netns _ _ _ _ Hs HF _ Hin); [by apply Hw|done].
Qed.

Lemma entries_not_added p (Q : Prop) names es' :
  0 ≤ p → (∀ e, e ∈ es' → e ∈ es ∧ e.1 ≠ p) →
  triple (λ k, port_netns p ∈ k_netns k → Q) (for_each es' (apply_entry (S := S) names))
    (λ _ k, port_netns p ∈ k_netns k → Q).
Proof.
  intros Hp Hsub. apply not_added; [apply traced_for_each; intros; apply traced_apply_entry|].
  apply emits_for_each. intros e He. destruct (Hsub e He). by apply entry_adds.
Qed.

Lemma partial_removed p (names : gset string) :
  (partial : gmap Z (option NetworkState)) !! p = Some None →
  triple (λ k, port_netns p ∈ k_netns k → port_netns p ∈ names) (for_each es (apply_entry (S := S) names))
    (λ _ k, port_netns p ∉ k_netns k).
Proof.
  intros Hp. destruct (in_partial p None Hp) as (before & after & Hsplit).
  assert (Hpos : 0 ≤ p).
  { destruct (entry_at (p, None)) as [Hpos _]; [rewrite Hsplit; set_solver|done]. }
  assert (Hother : ∀ e, e ∈ (before ++ after)%list → e ∈ es ∧ e.1 ≠ p).
  { intros e He. split; [rewrite Hsplit; set_solver|]. by eapply entries_split. }
  rewrite Hsplit. apply triple_for_each_app.
  eapply (triple_bind _ _ (λ _ k, port_netns p ∈ k_netns k → port_netns p ∈ names)).
  { apply (entries_not_added p (port_netns p ∈ names)); [done|]. intros; apply Hother. set_solver. }
  intros _. cbn [for_each]. eapply (triple_bind _ _ (λ _ k, port_netns p ∈ k_netns k → False)).
  - cbn. eapply (triple_bind _ _ (λ _ k, port_netns p ∈ k_netns k → port_netns p ∈ names)).
    { by intros w c w' Hw [= _ <-]. }
    intros c. eapply (triple_bind _ _ (λ _ k, port_netns p ∈ k_netns k → port_netns p ∈ names)).
    { by intros w [] w' Hw [= <-]. }
    intros _. apply triple_when.
    + intros _. triple_op. intros k _ k' _ (-> & _). fold (port_netns p). set_solver.
    + intros Hn%bool_decide_eq_false k Hk Hin. by apply Hn, Hk.
  - intros _. apply (entries_not_added p False); [done|]. intros; apply Hother. set_solver.
Qed.
End run.

Lemma apply_partial_deployed options (partial : GatewayConfigPartial) (w w' : World S) :
  Forall entry_ok (entries (partial : gmap Z (option NetworkState))) →
  Forall servable (map_values (w_config w')) →
  apply_partial options partial w = (Ok tt, w') →
  (∀ p n, (partial : gmap Z (option NetworkState)) !! p = Some (Some n) →
     ∃ save, iptables_savefile n = Ok save ∧ Forall (λ F, holds F (kernel_of w')) (core_facts n save)) ∧
  (∀ p, (partial : gmap Z (option NetworkState)) !! p = Some None →
     port_netns p ∉ k_netns (kernel_of w')) ∧
  (∃ f, forwarding_of (map_values (w_config w')) (opt_custom_forwarding options) = Ok f ∧
     k_nginx (kernel_of w') = (Some (render_nginx f), Some (render_sites f))).
Proof.
  intros Hes Hserv Hw. unfold apply_partial in Hw.
  apply bind_Ok_inv in Hw as ([] & w1 & _ & Hw).
  apply bind_Ok_inv in Hw as (items & w2 & Hlist & Hw).
  set (names := list_to_set (item_name <$> (items : list NetnsItem)) : gset string) in *.
  apply bind_Ok_inv in Hw as ([] & w3 & Hloop & Hw).
  apply bind_Ok_inv in Hw as (state & ? & [= <- <-] & Hnginx%context_Ok_inv).
  assert (Hcfg : w_config w' = w_config w3).
  { pose proof (apply_nginx_keeps (map_values (w_config w3)) options w3) as Hk. by rewrite Hnginx in Hk. }
  assert (Hnames : ∀ ns, ns ∈ k_netns (kernel_of w2) → ns ∈ names).
  { apply (call_Ok NetnsList) in Hlist as [_ [Heq Hl]]. intros ns. rewrite Heq. subst names.
    rewrite elem_of_list_to_set. apply Hl. }
  split; [|split].
  - intros p n Hp. destruct (in_partial partial p (Some n) Hp) as (before & after & Hsplit).
    destruct (entry_at partial Hes (p, Some n)) as [_ Hok]; [rewrite Hsplit; set_solver|].
    destruct (Hok n eq_refl) as [_ Hs]. pose proof Hs as ((Hw16 & _) & Ha & _).
    destruct (veth_ipv4net_spec n Hw16) as (addr & Haddr & _).
    destruct (address n) as [|source addrs] eqn:He; [done|].
    assert (Hsave : iptables_savefile n = Ok (render_iptables (ports_of n source)))
      by (apply iptables_savefile_spec; [done|by rewrite He]).
    exists (render_iptables (ports_of n source)). split; [done|].
    apply Forall_forall. intros F HF.
    assert (H3 : holds F (kernel_of w3)).
    { eapply (partial_added partial Hes p n addr _ F names); try done. apply clean_render, ports_of_words. }
    eapply (keeps_triple _ F); [|exact H3|exact Hnginx].
    split; [auto with gw|]. unfold apply_nginx. emits_all; by destruct F.
  - intros p Hp. assert (Hgone : port_netns p ∉ k_netns (kernel_of w3)).
    { eapply (partial_removed partial Hes p names Hp); [|done]. apply Hnames. }
    assert (Hstay : triple (λ k, port_netns p ∈ k_netns k → False)
      (apply_nginx (S := S) (map_values (w_config w3)) options) (λ _ k, port_netns p ∈ k_netns k → False)).
    { apply not_added; [auto with gw|]. unfold apply_nginx. emits_all; done. }
    exact (Hstay _ _ _ Hgone Hnginx).
  - destruct (forwarding_of_repr (map_values (w_config w')) (opt_custom_forwarding options)) as (f & Hf & _).
    { eapply Forall_impl; [done|]. by intros n []. }
    exists f. split; [done|]. rewrite Hcfg in Hf. by eapply (apply_nginx_achieves _ _ f Hf _ _ _ I).
Qed.

Lemma apply_Ok_config options (config : GatewayConfig) (w w' : World S) :
  apply options config w = (Ok tt, w') → w_config w' = config.
Proof. intros Hw. pose proof (apply_recorded options config w) as Hc. by rewrite Hw in Hc. Qed.
Lemma apply_partial_Ok_config options (partial : GatewayConfigPartial) (w w' : World S) :
  apply_partial options partial w = (Ok tt, w') → w_config w' = Client.apply_partial (w_config w) partial.
Proof.
  intros Hw. destruct (apply_partial_recorded options partial w) as [_ Hc]. rewrite Hw in Hc. by apply Hc.
Qed.

(** C2: a successful [apply_partial] deploys the changes: every added network
    has its namespace, its WireGuard interface as configured and synced, and
    its packet rules; every removed port has lost its namespace; and NGINX has
    loaded the forwarding of the networks then held, with the listen ports
    they were stored with. *)
Theorem apply_partial_deploys options (partial : GatewayConfigPartial) (w w' : World S) :
  Forall entry_ok (entries (partial : gmap Z (option NetworkState))) →
  Forall servable (map_values (w_config w')) →
  apply_partial options partial w = (Ok tt, w') →
  (∀ p n, (partial : gmap Z (option NetworkState)) !! p = Some (Some n) →
     ∃ save, iptables_savefile n = Ok save ∧ Forall (λ F, holds F (kernel_of w')) (core_facts n save)) ∧
  (∀ p, (partial : gmap Z (option NetworkState)) !! p = Some None →
     port_netns p ∉ k_netns (kernel_of w')) ∧
  (∃ f, forwarding_of (map_values (w_config w')) (opt_custom_forwarding options) = Ok f ∧
     k_nginx (kernel_of w') = (Some (render_nginx f), Some (render_sites f))).
Proof. apply apply_partial_deployed. Qed.
End partial.

(** ** The listen port *)
Section ports.
Context `{T : Target} `{WK : WireguardKeys} `{UCO : !UrlCrateOk UC} `{ICO : !IpnetCrateOk IC} `{BCO : !Base32CrateOk BC}
        `{RCO : !RegexCrateOk RC} `{TEO : !TeraOk TE} `{HOO : !HashOrderOk HO} {S : Type} `{HS : !Host S} `{HK : !HostOk S}.

(** Every network carries the port it is listed under. *)
Definition well_ported (config : gmap Z NetworkState) : Prop :=
  ∀ p n, config !! p = Some n → listen_port n = p.

Lemma with_own_port n : with_listen_port n (listen_port n) = n.
Proof. by destruct n. Qed.

Lemma well_ported_networks config : well_ported config → networks_of config = map_values config.
Proof.
  intros Hc. unfold networks_of, map_values. apply list_fmap_ext. intros i [p n] Hi. cbn.
  assert (Hp : config !! p = Some n) by (apply elem_of_entries, list_elem_of_lookup; eauto).
  rewrite <-(Hc p n Hp) at 1. apply with_own_port.
Qed.

(** C36: when the networks of the configuration carry the port they are listed
    under, a partial configuration without entries that is applied after a
    whole one leaves NGINX with the same forwarding. *)
Theorem empty_partial_keeps_nginx options (config : GatewayConfig) (w w1 w2 : World S) :
  well_ported config → Forall servable (networks_of (config : gmap Z NetworkState)) →
  apply options config w = (Ok tt, w1) →
  apply_partial options (∅ : gmap Z (option NetworkState)) w1 = (Ok tt, w2) →
  w_config w2 = w_config w1 ∧ k_nginx (kernel_of w2) = k_nginx (kernel_of w1).
Proof.
  intros Hp Hs H1 H2. pose proof (apply_deployed _ _ _ _ Hs H1) as [_ _ _ (f & Hf & Hn)].
  pose proof (apply_Ok_config _ _ _ _ H1) as Hc1. pose proof (apply_partial_Ok_config _ _ _ _ H2) as Hc2.
  assert (Hc : w_config w2 = w_config w1).
  { rewrite Hc2. unfold Client.apply_partial. by rewrite entries_empty. }
  split; [done|].
  destruct (apply_partial_deployed options (∅ : gmap Z (option NetworkState)) w1 w2) as (_ & _ & g & Hg & Hn').
  - by rewrite entries_empty.
  - by rewrite Hc, Hc1, <-well_ported_networks.
  - done.
  - rewrite Hc, Hc1, <-well_ported_networks, Hf in Hg by done. injection Hg as <-. by rewrite Hn, Hn'.
Qed.
End ports.

(** ** Witnesses *)
Section witnesses.
#[local] Existing Instances sample_keys sample_url sample_ipnet sample_base32 sample_regex sample_tera.
#[local] Existing Instances sample_keys_ok sample_url_ok sample_ipnet_ok sample_base32_ok
  sample_regex_ok sample_tera_ok.
#[local] Existing Instances release64 sample_order sample_order_ok.

Definition sample_partial : GatewayConfigPartial :=
  ({[ 9 := Some (sample_network_state 9); 7 := None ]} : gmap Z (option NetworkState)).
Definition amended : outcome unit * World Machine := apply_partial sample_options sample_partial applied.2.
Lemma amended_ok : apply_partial sample_options sample_partial applied.2 = (Ok tt, amended.2).
Proof. assert (amended.1 = Ok tt) as <- by (vm_compute; reflexivity). apply surjective_pairing. Qed.

Lemma sample_partial_entries : entries (sample_partial : gmap Z (option NetworkState)) =
  [(7, None); (9, Some (sample_network_state 9))].
Proof. reflexivity. Qed.

Lemma sample_partial_ok : Forall entry_ok (entries (sample_partial : gmap Z (option NetworkState))).
Proof.
  rewrite sample_partial_entries. repeat (apply Forall_cons; split); [..|constructor]; (split; [done|]).
  - done.
  - intros n [= <-]. split; [done|]. apply sample_servable. by vm_compute.
Qed.

Lemma amended_config : w_config amended.2 =
  <[9 := sample_network_state 9]> (delete 7 (sample_config : gmap Z NetworkState)).
Proof.
  rewrite (apply_partial_Ok_config _ _ _ _ amended_ok), (apply_Ok_config _ _ _ _ applied_ok).
  unfold Client.apply_partial. by rewrite sample_partial_entries.
Qed.

Lemma amended_servable : Forall servable (map_values (w_config amended.2)).
Proof.
  rewrite amended_config. apply Forall_fmap, Forall_forall. intros [p st] Hp%elem_of_entries. cbn.
  apply lookup_insert_Some in Hp as [[_ <-]|[_ [_ Hp]%lookup_delete_Some]].
  { apply sample_servable. by vm_compute. }
  unfold sample_config in Hp.
  apply lookup_insert_Some in Hp as [[_ <-]|[_ [_ <-]%lookup_singleton_Some]];
    apply sample_servable; by vm_compute.
Qed.

Lemma apply_partial_deploys_witness :
  (∀ p n, (sample_partial : gmap Z (option NetworkState)) !! p = Some (Some n) →
     ∃ save, iptables_savefile n = Ok save ∧ Forall (λ F, holds F (kernel_of amended.2)) (core_facts n save)) ∧
  (∀ p, (sample_partial : gmap Z (option NetworkState)) !! p = Some None →
     port_netns p ∉ k_netns (kernel_of amended.2)) ∧
  (∃ f, forwarding_of (map_values (w_config amended.2)) (opt_custom_forwarding sample_options) = Ok f ∧
     k_nginx (kernel_of amended.2) = (Some (render_nginx f), Some (render_sites f))).
Proof. exact (apply_partial_deploys _ _ _ _ sample_partial_ok amended_servable amended_ok). Defined.

(** A configuration whose network carries its port. *)
Definition ported_config : GatewayConfig := ({[ 7 := sample_network_state 7 ]} : gmap Z NetworkState).
Definition ported : outcome unit * World Machine :=
  apply sample_options ported_config (world_on empty_machine).
Lemma ported_ok : apply sample_options ported_config (world_on empty_machine) = (Ok tt, ported.2).
Proof. assert (ported.1 = Ok tt) as <- by (vm_compute; reflexivity). apply surjective_pairing. Qed.
Definition touched : outcome unit * World Machine :=
  apply_partial sample_options (∅ : gmap Z (option NetworkState)) ported.2.
Lemma touched_ok :
  apply_partial sample_options (∅ : gmap Z (option NetworkState)) ported.2 = (Ok tt, touched.2).
Proof. assert (touched.1 = Ok tt) as <- by (vm_compute; reflexivity). apply surjective_pairing. Qed.

Lemma ported_well : well_ported (ported_config : gmap Z NetworkState).
Proof. intros p n Hp. unfold ported_config in Hp. by apply lookup_singleton_Some in Hp as [<- <-]. Qed.
Lemma ported_servable : Forall servable (networks_of (ported_config : gmap Z NetworkState)).
Proof.
  rewrite well_ported_networks by apply ported_well. apply Forall_fmap, Forall_forall.
  intros [p st] Hp%elem_of_entries. unfold ported_config in Hp. apply lookup_singleton_Some in Hp as [_ <-].
  apply sample_servable. by vm_compute.
Qed.

Lemma empty_partial_keeps_nginx_witness :
  w_config touched.2 = w_config ported.2 ∧ k_nginx (kernel_of touched.2) = k_nginx (kernel_of ported.2).
Proof. exact (empty_partial_keeps_nginx _ _ _ _ _ ported_well ported_servable ported_ok touched_ok). Defined.

(** The networks of [sample_config] do not carry their port: there the partial
    configuration without entries moves the forwarding to other addresses. *)
Definition moved_nginx : outcome unit * World Machine :=
  apply_partial sample_options (∅ : gmap Z (option NetworkState)) applied.2.
Lemma empty_partial_moves_nginx :
  is_ok moved_nginx.1 = true ∧ w_config moved_nginx.2 = w_config applied.2 ∧
  k_nginx (kernel_of moved_nginx.2) ≠ k_nginx (kernel_of applied.2).
Proof.
  assert (Hok : moved_nginx.1 = Ok tt) by (vm_compute; reflexivity). split; [by rewrite Hok|]. split.
  - assert (Hm : apply_partial sample_options (∅ : gmap Z (option NetworkState)) applied.2 = (Ok tt, moved_nginx.2))
      by (rewrite <-Hok; apply surjective_pairing).
    rewrite (apply_partial_Ok_config _ _ _ _ Hm). unfold Client.apply_partial. by rewrite entries_empty.
  - assert (Hd : bool_decide (k_nginx (kernel_of moved_nginx.2) = k_nginx (kernel_of applied.2)) = false)
      by (vm_compute; reflexivity).
    by apply bool_decide_eq_false in Hd.
Qed.

(** A network that is added by a partial configuration with a listen port of
    its own goes to the namespace of that port, not of the one it is listed under. *)
Lemma partial_added_elsewhere :
  elements (k_netns (kernel_of (apply_partial sample_options
    ({[ 9 := Some (sample_network_state 0) ]} : gmap Z (option NetworkState)) (world_on empty_machine)).2))
  = ["network-0"].
Proof. vm_compute. reflexivity. Qed.
End witnesses.
