(* ===== verification/Panics.v ===== *)
(** * Panics

    A panic ends the daemon.  The functions of src/gateway.rs unwrap the first
    address of a network and compute with 16-bit ports; with networks inside
    the limits of [servable] none of it can panic, whatever the host answers. *)
From S2P Require Import Prelude Text BTree Net Crates Samples Client Types Tera Render Templates Stats Options.
From S2P Require Import Host Kernel Machine Logic Gateway Deploy Partial.

Local Open Scope string_scope.
Local Open Scope Z_scope.

Lemma context_not_Panic {A} c (o : outcome A) : o ≠ Panic → context c o ≠ Panic.
Proof. by destruct o. Qed.
Lemma ok_or_not_Panic {A} e (o : option A) : ok_or e o ≠ Panic.
Proof. by destruct o. Qed.
Lemma Ok_not_Panic {A} (o : outcome A) a : o = Ok a → o ≠ Panic.
Proof. by intros ->. Qed.

Section calls.
Context `{WK : WireguardKeys} `{UC : UrlCrate} `{IC : IpnetCrate} {S : Type} `{HS : !Host S}.

Lemma never_panics_call o : never_panics (S := World S) (call o).
Proof. intros w. unfold call. by destruct (exec o _) as [[] ?]. Qed.
Lemma never_panics_get_config : never_panics (S := World S) get_config.
Proof. done. Qed.
Lemma never_panics_set_config c : never_panics (S := World S) (set_config c).
Proof. done. Qed.
Lemma never_panics_ask_file p : never_panics (S := World S) (ask_file p).
Proof. done. Qed.
Lemma never_panics_ask_now : never_panics (S := World S) ask_now.
Proof. intros w. unfold ask_now. by destruct (now _). Qed.
End calls.
#[export] Hint Resolve never_panics_get_config never_panics_set_config never_panics_ask_file
  never_panics_ask_now : gw.

(** Walk through a program, leaving its [lift]s. *)
Ltac calm_step :=
  lazymatch goal with
  | |- never_panics (mbind _ _) => apply never_panics_bind; [|intros]
  | |- never_panics (with_context _ _) => apply never_panics_context
  | |- never_panics (attempt _) => apply never_panics_attempt
  | |- never_panics (when _ _) => apply never_panics_when; intros
  | |- never_panics (for_each _ _) => apply never_panics_for_each; intros
  | |- never_panics (call ?o) => apply (never_panics_call o)
  | |- never_panics (lift _) => apply never_panics_lift
  | |- never_panics _ => solve [auto with gw]
  end.
Ltac calm_all := repeat calm_step.

Section gateway.
Context `{T : Target} `{WK : WireguardKeys} `{UCO : !UrlCrateOk UC} `{ICO : !IpnetCrateOk IC} `{BCO : !Base32CrateOk BC}
        `{RCO : !RegexCrateOk RC} `{TEO : !TeraOk TE} `{HO : HashOrder} {S : Type} `{HS : !Host S}.

Lemma setup_bridge_calm : never_panics (S := World S) setup_bridge.
Proof.
  unfold setup_bridge, apply_bridge, apply_addr, apply_interface_up. calm_all.
  destruct BRIDGE_NET_spec as (b & Hb & _). by eapply Ok_not_Panic.
Qed.

Lemma apply_network_calm n : servable n → never_panics (S := World S) (apply_network n).
Proof.
  intros Hs. pose proof Hs as ((Hport & _) & Ha & _).
  destruct (veth_ipv4net_spec n Hport) as (addr & Haddr & _).
  destruct (address n) as [|source addrs] eqn:He; [done|].
  assert (Hsave : iptables_savefile n = Ok (render_iptables (ports_of n source)))
    by (apply iptables_savefile_spec; [done|by rewrite He]).
  unfold apply_network, apply_netns, apply_wireguard, apply_veth, apply_forwarding, apply_addr,
    apply_interface_up, apply_link_master.
  calm_all; [apply ok_or_not_Panic|by eapply Ok_not_Panic..].
Qed.

Lemma apply_nginx_calm networks options :
  Forall servable networks → never_panics (S := World S) (apply_nginx networks options).
Proof.
  intros Hs.
  destruct (forwarding_of_repr networks (opt_custom_forwarding options)) as (f & Hf & _).
  { eapply Forall_impl; [done|]. by intros n []. }
  destruct (tera_forwarding f) as (ctx & Hctx & Hn & Hsites).
  intros w. unfold apply_nginx. rewrite Hf. unfold mbind at 1, M_bind at 1. cbn [lift].
  rewrite Hctx. unfold mbind at 1, M_bind at 1. cbn [lift]. revert w.
  change (never_panics (config ← lift (tera_render "nginx.conf" ctx);
    call (S := S) (FsWrite NGINX_MODULE_PATH config);;
    config ← lift (tera_render "sites.nginx.conf" ctx);
    call (FsWrite NGINX_SITE_PATH config);; call NginxReload)).
  rewrite Hn, Hsites. calm_all; done.
Qed.

Lemma apply_calm options (config : GatewayConfig) :
  Forall servable (networks_of (config : gmap Z NetworkState)) →
  never_panics (S := World S) (apply options config).
Proof.
  intros Hs. rewrite Forall_forall in Hs. unfold apply.
  calm_all; [apply setup_bridge_calm|by apply apply_network_calm, Hs|].
  by apply apply_nginx_calm, Forall_forall.
Qed.

(** The networks a partial configuration adds, and those of a configuration. *)
Definition partial_servable (partial : GatewayConfigPartial) : Prop := ∀ p n,
  (partial : gmap Z (option NetworkState)) !! p = Some (Some n) → servable n.
Definition config_servable (config : gmap Z NetworkState) : Prop := ∀ p n,
  config !! p = Some n → servable n.

Lemma config_servable_values config : config_servable config → Forall servable (map_values config).
Proof.
  intros Hc. apply Forall_fmap, Forall_forall. intros [p n] Hn%elem_of_entries. by apply (Hc p).
Qed.

Lemma foldl_change_servable config l :
  config_servable config → (∀ p n, (p, Some n) ∈ l → servable n) →
  config_servable (foldl apply_change config l).
Proof.
  revert config. induction l as [|[p on] l IH]; intros config Hc Hl; [done|]. cbn [foldl].
  apply IH; [|intros q m Hm; apply (Hl q m); by right].
  intros q m. rewrite lookup_apply_change. case_decide; [|apply Hc].
  intros ->. apply (Hl p m). left.
Qed.

Lemma partial_prefix_servable config (partial : GatewayConfigPartial) before after :
  config_servable config → partial_servable partial →
  entries (partial : gmap Z (option NetworkState)) = (before ++ after)%list →
  config_servable (foldl apply_change config before).
Proof.
  intros Hc Hp He. apply foldl_change_servable; [done|]. intros p n Hin.
  apply (Hp p n), elem_of_entries. rewrite He. apply elem_of_app. by left.
Qed.

Lemma apply_partial_calm options (partial : GatewayConfigPartial) (w : World S) :
  partial_servable partial → config_servable (w_config w) →
  (apply_partial options partial w).1 ≠ Panic.
Proof.
  intros Hp Hc. unfold apply_partial. unfold mbind, M_bind.
  pose proof (setup_bridge_calm w) as Hb. pose proof (setup_bridge_keeps w) as Hk.
  destruct (setup_bridge w) as [[[]|e|] w1]; cbn in Hb, Hk |- *; [|done..].
  pose proof (keeps_call NetnsList w1) as Hk2. pose proof (never_panics_call NetnsList w1) as Hb2.
  destruct (call NetnsList w1) as [[items|e|] w2]; cbn in Hk2, Hb2 |- *; [|done..].
  set (names := list_to_set (item_name <$> (items : list NetnsItem)) : gset string).
  assert (Hloop : never_panics (S := World S)
    (for_each (entries (partial : gmap Z (option NetworkState))) (apply_entry names))).
  { apply never_panics_for_each. intros [p [n|]] He%elem_of_entries; cbn; calm_all.
    by eapply apply_network_calm, Hp. }
  destruct (apply_entries_config names (entries (partial : gmap Z (option NetworkState))) w2)
    as (before & after & He & Hcfg & _).
  specialize (Hloop w2). destruct (for_each _ _ w2) as [[[]|e|] w3]; cbn in Hloop, Hcfg |- *; [|done..].
  apply never_panics_context, apply_nginx_calm, config_servable_values.
  rewrite Hcfg, Hk2, Hk. by eapply partial_prefix_servable.
Qed.

(** C10: the gateway cannot be made to panic by its host.  When every network
    of the configuration is within the limits, [apply] returns, with or
    without an error, whatever the host answers; so does [apply_partial], when
    the networks it adds and those already held are. *)
Theorem apply_never_panics options (config : GatewayConfig) (partial : GatewayConfigPartial) (w : World S) :
  Forall servable (networks_of (config : gmap Z NetworkState)) →
  partial_servable partial → config_servable (w_config w) →
  (apply options config w).1 ≠ Panic ∧ (apply_partial options partial w).1 ≠ Panic.
Proof. intros Hs Hp Hc. split; [by apply apply_calm|by apply apply_partial_calm]. Qed.

(** A network without an address is never brought up: the step that
    writes its packet rules unwraps the first address, so that [apply] panics
    there unless the host refused something before. *)
Theorem no_address_panics network (w : World S) :
  address network = [] →
  (apply_forwarding network w).1 = Panic ∧ is_ok (apply_network network w).1 = false.
Proof.
  intros Ha. assert (Hf : ∀ w' : World S, (apply_forwarding network w').1 = Panic).
  { intros w'. unfold apply_forwarding, iptables_savefile, port_config. by rewrite Ha. }
  split; [apply Hf|]. destruct (apply_network network w) as [[[]|e|] w'] eqn:Hn; [|done..]. exfalso.
  unfold apply_network in Hn.
  apply bind_Ok_inv in Hn as ([] & w1 & _ & Hn). apply bind_Ok_inv in Hn as ([] & w2 & _ & Hn).
  apply bind_Ok_inv in Hn as ([] & w3 & _ & Hn). specialize (Hf w3). by rewrite Hn in Hf.
Qed.
End gateway.

(** ** Witnesses *)
Section witnesses.
#[local] Existing Instances sample_keys sample_url sample_ipnet sample_base32 sample_regex sample_tera.
#[local] Existing Instances sample_keys_ok sample_url_ok sample_ipnet_ok sample_base32_ok
  sample_regex_ok sample_tera_ok.
#[local] Existing Instances release64 sample_order sample_order_ok.

Lemma sample_partial_servable : partial_servable sample_partial.
Proof.
  intros p n Hp%elem_of_entries. rewrite sample_partial_entries in Hp.
  rewrite !elem_of_cons in Hp. destruct Hp as [[=]|[[= -> ->]|Hp%elem_of_nil]]; [|done].
  apply sample_servable. by vm_compute.
Qed.

Lemma ported_config_servable : config_servable (ported_config : gmap Z NetworkState).
Proof.
  intros p n Hp. unfold ported_config in Hp. apply lookup_singleton_Some in Hp as [_ <-].
  apply sample_servable. by vm_compute.
Qed.

Definition world_with (config : gmap Z NetworkState) : World Machine :=
  {| w_host := empty_machine; w_log := []; w_config := config |}.

Lemma apply_never_panics_witness :
  (apply sample_options sample_config (world_with ported_config)).1 ≠ Panic ∧
  (Gateway.apply_partial sample_options sample_partial (world_with ported_config)).1 ≠ Panic.
Proof.
  exact (apply_never_panics sample_options sample_config sample_partial (world_with ported_config)
    sample_config_servable sample_partial_servable ported_config_servable).
Defined.

Lemma no_address_panics_witness :
  (apply_forwarding crowded_network (world_on empty_machine)).1 = Panic ∧
  is_ok (apply_network crowded_network (world_on empty_machine)).1 = false.
Proof. by apply no_address_panics. Defined.
End witnesses.
