(* ===== verification/Watchdog.v ===== *)
(** * The watchdog

    Models src/watchdog.rs and the loop of [Global::watchdog] in src/lib.rs:
    polling the WireGuard statistics of every gateway namespace, reporting
    traffic and connection events, and the cache of what was last seen. *)
From S2P Require Import Prelude Text BTree Net Crates Samples Client Types Tera Render Templates Stats Options.
From S2P Require Import Host Kernel Machine.

Local Open Scope string_scope.
Local Open Scope Z_scope.

Definition TRAFFIC_MINIMUM : Z := 1024.
Definition WIREGUARD_HANDSHAKE_TIMEOUT : Z := 3 * 60.

(** [SystemTime::duration_since] and [Duration::as_secs]. *)
Definition duration_since (later earlier : SystemTime) : option Z :=
  if decide (earlier ≤ later) then Some (later - earlier) else None.
Definition as_secs (d : Z) : Z := d / nanos.
Definition UNIX_EPOCH : SystemTime := 0.
Definition err_clock : error := EMsg "second time provided was later than self".

Section watchdog.
Context `{T : Target} `{WK : WireguardKeys} `{UC : UrlCrate} `{IC : IpnetCrate} {S : Type} `{HS : !Host S}.

Abbreviation PeerCache := (gmap Z (gmap Pubkey PeerStats)) (only parsing).

(** The state of the watchdog: the world, the traffic collected in this run,
    and the cache, which the functions share by [&mut]. *)
Record Watch := { wa_world : World S; wa_traffic : TrafficInfo; wa_cache : PeerCache }.

Definition hosted {A} (m : M (World S) A) : M Watch A := λ w,
  let '(o, world) := m (wa_world w) in
  (o, {| wa_world := world; wa_traffic := wa_traffic w; wa_cache := wa_cache w |}).
Definition get_cache : M Watch PeerCache := λ w, (Ok (wa_cache w), w).
Definition set_cache (c : PeerCache) : M Watch unit := λ w,
  (Ok tt, {| wa_world := wa_world w; wa_traffic := wa_traffic w; wa_cache := c |}).
Definition get_traffic : M Watch TrafficInfo := λ w, (Ok (wa_traffic w), w).
Definition set_traffic (t : TrafficInfo) : M Watch unit := λ w,
  (Ok tt, {| wa_world := wa_world w; wa_traffic := t; wa_cache := wa_cache w |}).

(** [Global::event] *)
Definition event (e : GatewayEvent) : M Watch unit := hosted (call (SendEvent e)).

Definition without_handshake (p : PeerStats) : PeerStats := {|
  peer_public_key := peer_public_key p; preshared_key := preshared_key p; endpoint := endpoint p;
  allowed_ips := allowed_ips p; latest_handshake := None; transfer_rx := transfer_rx p;
  transfer_tx := transfer_tx p; persistent_keepalive := persistent_keepalive p |}.

(** A handshake that is too long ago, or in the future, does not count. *)
Definition expire (t : SystemTime) (p : PeerStats) : PeerStats :=
  match latest_handshake p with
  | Some handshake =>
      match duration_since t handshake with
      | Some duration =>
          if decide (as_secs duration > WIREGUARD_HANDSHAKE_TIMEOUT) then without_handshake p else p
      | None => without_handshake p
      end
  | None => p
  end.

Definition disconnected (stats : NetworkStats) (peer : Pubkey) : GatewayEvent :=
  PeerDisconnected {| pd_network := stats_public_key stats; pd_peer := peer |}.
(** [peer.endpoint.unwrap()] panics on a peer without an endpoint. *)
Definition connected (stats : NetworkStats) (p : PeerStats) : outcome GatewayEvent :=
  e ← unwrap (endpoint p);
  Ok (PeerConnected {| pc_network := stats_public_key stats; pc_peer := peer_public_key p; pc_endpoint := e |}).
Definition moved (stats : NetworkStats) (p : PeerStats) (e : SocketAddr) : GatewayEvent :=
  Endpoint {| pe_network := stats_public_key stats; pe_peer := peer_public_key p; pe_endpoint := e |}.

Definition watchdog_traffic (stats : NetworkStats) (previous peer : PeerStats) (time : Z) : M Watch unit :=
  if decide (transfer_rx previous > transfer_rx peer ∨ transfer_tx previous > transfer_tx peer)
  then mret tt
  else
    rx ← lift (usize_sub (transfer_rx previous) (transfer_rx peer));
    tx ← lift (usize_sub (transfer_tx previous) (transfer_tx peer));
    difference ← lift (usize_add rx tx);
    if decide (difference > 0) then
      rx ← lift (usize_sub (transfer_rx peer) (transfer_rx previous));
      tx ← lift (usize_sub (transfer_tx peer) (transfer_tx previous));
      traffic ← get_traffic;
      traffic ← lift (TrafficInfo_add traffic (stats_public_key stats) (peer_public_key peer) time
                        (Traffic_new rx tx));
      set_traffic traffic
    else mret tt.

Definition watchdog_events (stats : NetworkStats) (previous peer : PeerStats) : M Watch unit :=
  (if decide (endpoint peer ≠ endpoint previous) then
     match endpoint peer with
     | Some e => event (moved stats peer e)
     | None => mret tt
     end
   else mret tt);;
  match latest_handshake previous, latest_handshake peer with
  | Some _, None => event (disconnected stats (peer_public_key peer))
  | None, Some _ => e ← lift (connected stats peer); event e
  | _, _ => mret tt
  end.

(** [port] locates the cache entry that is passed by reference. *)
Definition watchdog_peer (port : Z) (stats : NetworkStats) (peer : PeerStats) : M Watch unit :=
  peer ← (match latest_handshake peer with
          | Some _ => t ← hosted ask_now; mret (expire t peer)
          | None => mret peer
          end);
  cache ← get_cache;
  match cache !! port ≫= lookup (peer_public_key peer) with
  | Some previous =>
      t ← hosted ask_now;
      d ← lift (ok_or err_clock (duration_since t UNIX_EPOCH));
      let time := cast_width usize_bits (as_secs d) in
      watchdog_traffic stats previous peer time;;
      watchdog_events stats previous peer
  | None =>
      when (bool_decide (is_Some (latest_handshake peer)))
        (e ← lift (connected stats peer); event e)
  end;;
  cache ← get_cache;
  set_cache (entry_update port ∅ (<[peer_public_key peer := peer]>) cache).

Definition watchdog_netns (netns : string) : M Watch unit :=
  suffix ← lift (slice_from 8 netns);
  let wgif := "wg" ++ suffix in
  stats ← with_context "Fetching wireguard stats" (hosted (call (WireguardStats netns wgif)));
  let stats : NetworkStats := stats in
  let port := stats_listen_port stats in
  cache ← get_cache;
  set_cache (entry_update port ∅ id cache);;
  for_each (stats_peers stats) (λ peer, attempt (watchdog_peer port stats peer);; mret tt);;
  cache ← get_cache;
  let peers : list Pubkey := peer_public_key <$> stats_peers stats in
  let dead_peers := filter (λ peer, peer ∉ peers) (map_keys (default ∅ (cache !! port))) in
  for_each dead_peers (λ peer,
    cache ← get_cache;
    set_cache (entry_update port ∅ (delete peer) cache);;
    event (disconnected stats peer)).

Definition watchdog_run : M Watch unit :=
  netns_items ← with_context "Listing network namespaces" (hosted (call NetnsList));
  set_traffic (TrafficInfo_new 0);;
  for_each (netns_items : list NetnsItem) (λ netns,
    when (starts_with NETNS_PREFIX (item_name netns))
      (attempt (watchdog_netns (item_name netns));; mret tt));;
  traffic ← get_traffic;
  hosted (call (SendTraffic traffic)).

(** One tick of the two nested loops: [watchdog] runs until an error, then
    [Global::watchdog] starts it again with an empty cache. *)
Definition watchdog_tick : M Watch unit :=
  r ← attempt watchdog_run;
  match r with
  | inl _ => mret tt
  | inr _ => set_cache ∅
  end.
Fixpoint watchdog (ticks : nat) : M Watch unit :=
  match ticks with
  | O => mret tt
  | Datatypes.S ticks => watchdog_tick;; watchdog ticks
  end.
End watchdog.

(** ** One peer *)
Section peer.
Context `{TargetOk} `{WK : WireguardKeys} `{UC : UrlCrate} `{IC : IpnetCrate} {S : Type} `{HS : !Host S}.
Implicit Types w : Watch (S := S).

Definition watch_log (w : Watch (S := S)) : list Op := w_log (wa_world w).
(** What the cache holds of a peer. *)
Definition seen (w : Watch (S := S)) (port : Z) (peer : Pubkey) : option PeerStats :=
  wa_cache w !! port ≫= lookup peer.
Definition has_handshake (p : PeerStats) : bool := bool_decide (is_Some (latest_handshake p)).

(** The events a peer gives rise to, compared with what was seen before. *)
Definition move_events (stats : NetworkStats) (previous : option PeerStats) (p : PeerStats)
    : list GatewayEvent :=
  match previous, endpoint p with
  | Some q, Some e => if decide (endpoint p = endpoint q) then [] else [moved stats p e]
  | _, _ => []
  end.
Definition peer_events (stats : NetworkStats) (previous : option PeerStats) (p : PeerStats)
    : outcome (list GatewayEvent) :=
  match from_option has_handshake false previous, has_handshake p with
  | true, false => Ok (move_events stats previous p ++ [disconnected stats (peer_public_key p)])%list
  | false, true => e ← connected stats p; Ok (move_events stats previous p ++ [e])%list
  | _, _ => Ok (move_events stats previous p)
  end.

(** The traffic a peer adds: the growth of its counters. *)
Definition growth (q p : PeerStats) : Traffic :=
  Traffic_new (transfer_rx p - transfer_rx q) (transfer_tx p - transfer_tx q).
Definition counted (q p : PeerStats) : Prop :=
  transfer_rx q ≤ transfer_rx p ∧ transfer_tx q ≤ transfer_tx p ∧
  (rx (growth q p) + tx (growth q p)) mod 2 ^ usize_bits ≠ 0.
#[global] Instance counted_dec q p : Decision (counted q p).
Proof. unfold counted. apply _. Defined.

Definition counters_ok (p : PeerStats) : Prop :=
  in_width usize_bits (transfer_rx p) ∧ in_width usize_bits (transfer_tx p).

Lemma hosted_Ok_inv {A} (m : M (World S) A) w a w' :
  hosted m w = (Ok a, w') →
  m (wa_world w) = (Ok a, wa_world w') ∧ wa_cache w' = wa_cache w ∧ wa_traffic w' = wa_traffic w.
Proof. unfold hosted. destruct (m (wa_world w)) as [o world]. by intros [= -> <-]. Qed.

Lemma ask_now_Ok_inv w t w' :
  hosted ask_now w = (Ok t, w') →
  watch_log w' = watch_log w ∧ wa_cache w' = wa_cache w ∧ wa_traffic w' = wa_traffic w.
Proof.
  intros (Hm & -> & ->)%hosted_Ok_inv. unfold ask_now in Hm.
  destruct (now _) as [t' s]. injection Hm as _ Hw. unfold watch_log. by rewrite <-Hw.
Qed.

Lemma event_Ok_inv e w w' :
  event e w = (Ok tt, w') →
  watch_log w' = (watch_log w ++ [SendEvent e])%list ∧ wa_cache w' = wa_cache w ∧
  wa_traffic w' = wa_traffic w.
Proof.
  intros (Hm & -> & ->)%hosted_Ok_inv. unfold call in Hm. unfold watch_log.
  destruct (exec _ _) as [r s]. injection Hm as _ Hw. by rewrite <-Hw.
Qed.

Lemma lift_Ok_inv {A} (o : outcome A) w a w' : lift o w = (Ok a, w') → o = Ok a ∧ w' = w.
Proof. by intros [= -> ->]. Qed.

(** A [lift] of a known success at the head of a run. *)
Ltac lift_inv H :=
  let Hx := fresh in let Hs := fresh in
  apply bind_Ok_inv in H as (? & ? & [Hx Hs]%lift_Ok_inv & H);
  first [apply at_width_exact in Hx; [|done] | apply at_width_mod in Hx; [|done]]; subst.

Lemma watchdog_traffic_silent stats q p time w w' :
  watchdog_traffic stats q p time w = (Ok tt, w') →
  watch_log w' = watch_log w ∧ wa_cache w' = wa_cache w.
Proof.
  unfold watchdog_traffic. case_decide; [by intros [= <-]|]. intros Hr.
  do 3 (apply bind_Ok_inv in Hr as (? & ? & [_ ->]%lift_Ok_inv & Hr)).
  case_decide; [|by injection Hr as <-].
  do 2 (apply bind_Ok_inv in Hr as (? & ? & [_ ->]%lift_Ok_inv & Hr)).
  apply bind_Ok_inv in Hr as (traffic & ? & [= <- <-] & Hr).
  apply bind_Ok_inv in Hr as (traffic' & ? & [_ ->]%lift_Ok_inv & Hr). by injection Hr as <-.
Qed.

(** Without overflow checks the detour over wrapped differences finds growth. *)
Lemma watchdog_traffic_Ok stats q p time w w' :
  overflow_checks = false → counters_ok q → counters_ok p →
  watchdog_traffic stats q p time w = (Ok tt, w') →
  if decide (counted q p)
  then TrafficInfo_add (wa_traffic w) (stats_public_key stats) (peer_public_key p) time (growth q p)
         = Ok (wa_traffic w')
  else wa_traffic w' = wa_traffic w.
Proof.
  intros Hc [Hq1 Hq2] [Hp1 Hp2]. unfold watchdog_traffic, counted, growth.
  assert (Hw := usize_bits_nonneg). assert (Hpos : 0 < 2 ^ usize_bits) by (by apply Z.pow_pos_nonneg).
  case_decide as Hreset; [intros [= <-]; rewrite decide_False by lia; done|].
  unfold usize_sub, usize_add. intros Hr.
  do 3 lift_inv Hr.
  rewrite <-Zplus_mod in Hr.
  set (d := transfer_rx p - transfer_rx q + (transfer_tx p - transfer_tx q)) in *.
  assert (Hd : (transfer_rx q - transfer_rx p + (transfer_tx q - transfer_tx p)) = - d)
    by (subst d; lia). rewrite Hd in Hr.
  assert (Hz : (- d) mod 2 ^ usize_bits > 0 ↔ d mod 2 ^ usize_bits ≠ 0).
  { pose proof (Z.mod_pos_bound (- d) (2 ^ usize_bits) Hpos).
    destruct (decide (d mod 2 ^ usize_bits = 0)) as [Hd0|Hd0].
    - rewrite Z.mod_opp_l_z by lia. lia.
    - rewrite Z.mod_opp_l_nz by lia. pose proof (Z.mod_pos_bound d (2 ^ usize_bits) Hpos). lia. }
  cbn [rx tx Traffic_new].
  case_decide as Hgrow.
  - rewrite (decide_True (P := _ ∧ _)) by (split_and!; [lia|lia|by apply Hz]).
    assert (He1 : in_width usize_bits (transfer_rx p - transfer_rx q)) by (unfold in_width in *; lia).
    assert (He2 : in_width usize_bits (transfer_tx p - transfer_tx q)) by (unfold in_width in *; lia).
    do 2 lift_inv Hr.
    apply bind_Ok_inv in Hr as (traffic & ? & [= <- <-] & Hr).
    apply bind_Ok_inv in Hr as (traffic' & ? & [Ht ->]%lift_Ok_inv & Hr).
    injection Hr as <-. done.
  - rewrite (decide_False (P := _ ∧ _)) by (intros (_ & _ & Hn); by apply Hgrow, Hz).
    by injection Hr as <-.
Qed.

Lemma watchdog_events_Ok stats q p w w' :
  watchdog_events stats q p w = (Ok tt, w') →
  ∃ evs, peer_events stats (Some q) p = Ok evs ∧
    watch_log w' = (watch_log w ++ (SendEvent <$> evs))%list ∧ wa_cache w' = wa_cache w ∧
    wa_traffic w' = wa_traffic w.
Proof.
  unfold watchdog_events, peer_events, has_handshake. intros ([] & w1 & H1 & H2)%bind_Ok_inv.
  assert (Hmove : watch_log w1 = (watch_log w ++ (SendEvent <$> move_events stats (Some q) p))%list ∧
    wa_cache w1 = wa_cache w ∧ wa_traffic w1 = wa_traffic w).
  { unfold move_events. destruct (decide (endpoint p = endpoint q)) as [He|He].
    - rewrite decide_False in H1 by (intros Hn; by apply Hn). injection H1 as <-.
      destruct (endpoint p); cbn; by rewrite app_nil_r.
    - rewrite decide_True in H1 by done. destruct (endpoint p) as [e|].
      + by apply event_Ok_inv in H1.
      + injection H1 as <-. cbn. by rewrite app_nil_r. }
  clear H1. destruct Hmove as (Hl & Hc & Ht). cbn [from_option].
  destruct (latest_handshake q) as [hq|], (latest_handshake p) as [hp|]; cbn.
  - injection H2 as <-. by eexists.
  - apply event_Ok_inv in H2 as (Hl2 & -> & ->). eexists. split; [done|].
    by rewrite Hl2, Hl, fmap_app, app_assoc.
  - apply bind_Ok_inv in H2 as (e & ? & [He ->]%lift_Ok_inv & (Hl2 & -> & ->)%event_Ok_inv).
    rewrite He. eexists. split; [done|]. by rewrite Hl2, Hl, fmap_app, app_assoc.
  - injection H2 as <-. by eexists.
Qed.

(** A successful visit of a peer. *)
Lemma watchdog_peer_Ok port stats peer w w' :
  watchdog_peer port stats peer w = (Ok tt, w') →
  ∃ p evs time, (p = peer ∨ p = without_handshake peer) ∧
    peer_events stats (seen w port (peer_public_key peer)) p = Ok evs ∧
    watch_log w' = (watch_log w ++ (SendEvent <$> evs))%list ∧
    wa_cache w' = entry_update port ∅ (<[peer_public_key peer := p]>) (wa_cache w) ∧
    match seen w port (peer_public_key peer) with
    | Some q =>
        overflow_checks = false → counters_ok q → counters_ok peer →
        if decide (counted q p)
        then TrafficInfo_add (wa_traffic w) (stats_public_key stats) (peer_public_key peer) time
               (growth q p) = Ok (wa_traffic w')
        else wa_traffic w' = wa_traffic w
    | None => wa_traffic w' = wa_traffic w
    end.
Proof.
  unfold watchdog_peer. intros (p & w1 & H1 & H2)%bind_Ok_inv.
  assert (Hp : (p = peer ∨ p = without_handshake peer) ∧ watch_log w1 = watch_log w ∧
    wa_cache w1 = wa_cache w ∧ wa_traffic w1 = wa_traffic w).
  { destruct (latest_handshake peer) as [h|] eqn:Hh; [|injection H1 as <- <-; by auto].
    apply bind_Ok_inv in H1 as (t & w2 & Hnow%ask_now_Ok_inv & [= <- <-]). split; [|done].
    unfold expire. rewrite Hh. destruct (duration_since t h); [case_decide|]; auto. }
  clear H1. destruct Hp as (Hp & Hl1 & Hc1 & Ht1).
  assert (Hpk : peer_public_key p = peer_public_key peer) by (by destruct Hp as [->| ->]).
  assert (Hpc : counters_ok peer → counters_ok p) by (by destruct Hp as [->| ->]).
  apply bind_Ok_inv in H2 as (cache & ? & [= <- <-] & H2). rewrite Hc1, Hpk in H2.
  change (wa_cache w !! port ≫= lookup (peer_public_key peer)) with (seen w port (peer_public_key peer)) in H2.
  apply bind_Ok_inv in H2 as ([] & w3 & H3 & H2).
  apply bind_Ok_inv in H2 as (cache & ? & [= <- <-] & H2). injection H2 as <-.
  exists p. cbn [wa_cache wa_traffic]. unfold watch_log. cbn [wa_world]. fold (watch_log w3) (watch_log w).
  destruct (seen w port (peer_public_key peer)) as [q|] eqn:Hseen.
  - apply bind_Ok_inv in H3 as (t & w4 & (Hl4 & Hc4 & Ht4)%ask_now_Ok_inv & H3).
    apply bind_Ok_inv in H3 as (d & ? & [_ ->]%lift_Ok_inv & H3).
    apply bind_Ok_inv in H3 as ([] & w5 & H5 & H3).
    pose proof (watchdog_traffic_silent _ _ _ _ _ _ H5) as (Hl5 & Hc5).
    apply watchdog_events_Ok in H3 as (evs & He & Hl3 & Hc3 & Ht3).
    exists evs, (cast_width usize_bits (as_secs d)).
    rewrite Hl3, Hl5, Hl4, Hl1, Hc3, Hc5, Hc4, Hc1, Ht3.
    do 4 (split; [done|]). intros Hchk Hq Hpeer. apply watchdog_traffic_Ok in H5; auto.
    by rewrite Ht4, Ht1, Hpk in H5.
  - assert (Hev : ∃ evs, peer_events stats None p = Ok evs ∧
      watch_log w3 = (watch_log w1 ++ (SendEvent <$> evs))%list ∧ wa_cache w3 = wa_cache w1 ∧
      wa_traffic w3 = wa_traffic w1).
    { unfold peer_events, has_handshake. cbn [from_option]. destruct (latest_handshake p); cbn in H3 |- *.
      - apply bind_Ok_inv in H3 as (e & ? & [He ->]%lift_Ok_inv & H3%event_Ok_inv).
        rewrite He. by eexists.
      - injection H3 as <-. exists []. by rewrite app_nil_r. }
    destruct Hev as (evs & He & Hl3 & Hc3 & Ht3). exists evs, 0.
    rewrite Hl3, Hl1, Hc3, Hc1, Ht3. by repeat split.
Qed.
End peer.

(** ** A run without failures

    With a listener on the event queue and a clock past the epoch nothing the
    watchdog does for a peer returns an error, so no event is lost.  [I] says
    in which states of the host there is a listener, who stays. *)
Class Listening `{WireguardKeys} `{IpnetCrate} (S : Type) `{!Host S} (I : S → Prop) : Prop := {
  listened e s : I s → (exec (SendEvent e) s).1 = inl tt;
  clock_after_epoch s : I s → 0 ≤ (now s).1;
  listening_exec o s : I s → I (exec o s).2;
  listening_now s : I s → I (now s).2
}.

Section never_err.
Context `{T : Target} `{WK : WireguardKeys} `{UC : UrlCrate} `{IC : IpnetCrate} {S : Type} `{HS : !Host S}
        {I : S → Prop} `{HL : !Listening S I}.
Implicit Types w : Watch (S := S).

Definition attended w : Prop := I (w_host (wa_world w)).
Definition never_err {A} (m : M (Watch (S := S)) A) : Prop := ∀ w, attended w →
  (∀ e, (m w).1 ≠ Err e) ∧ attended (m w).2.

Lemma never_err_lift {A} (o : outcome A) : (∀ e, o ≠ Err e) → never_err (lift o).
Proof. by intros Ho w Hw. Qed.
Lemma never_err_ret {A} (a : A) : never_err (mret a).
Proof. by intros w Hw. Qed.
Lemma never_err_bind {A B} (m : M (Watch (S := S)) A) (k : A → M (Watch (S := S)) B) :
  never_err m → (∀ w a w', attended w → m w = (Ok a, w') → never_err (k a)) → never_err (m ≫= k).
Proof.
  intros Hm Hk w Hw. unfold mbind, M_bind. destruct (Hm w Hw) as [He Hi].
  destruct (m w) as [[a|e'|] w'] eqn:Hr; cbn in *; [exact (Hk w a w' Hw Hr w' Hi)|split; [by intros e [= ->]; apply (He e)|done]|by split].
Qed.
Lemma attended_call o w : attended w → attended (hosted (call o) w).2.
Proof.
  intros Hw. unfold attended, hosted, call in *. pose proof (listening_exec o (w_host (wa_world w)) Hw) as Hi.
  by destruct (exec _ _).
Qed.
Lemma never_err_event e : never_err (event e).
Proof.
  intros w Hw. split; [|exact (attended_call (SendEvent e) w Hw)].
  intros e'. unfold event, hosted, call. pose proof (listened e (w_host (wa_world w)) Hw) as Hh.
  destruct (exec _ _) as [r s]. cbn in Hh |- *. by subst r.
Qed.
Lemma never_err_now : never_err (hosted ask_now).
Proof.
  intros w Hw. unfold attended, hosted, ask_now in *. pose proof (listening_now (w_host (wa_world w)) Hw) as Hi.
  by destruct (now _).
Qed.

Lemma outcome_bind_not_Err {A B} (o : outcome A) (f : A → outcome B) :
  (∀ e, o ≠ Err e) → (∀ a e, f a ≠ Err e) → ∀ e, o ≫= f ≠ Err e.
Proof. intros Ho Hf e. destruct o; cbn; [apply Hf|by destruct (Ho e0)|done]. Qed.

Lemma TrafficInfo_add_not_Err i n d t x e : TrafficInfo_add i n d t x ≠ Err e.
Proof.
  unfold TrafficInfo_add, NetworkTraffic_add, DeviceTraffic_add, Traffic_add_assign.
  repeat (apply outcome_bind_not_Err; intros); try done; apply at_width_not_Err.
Qed.
Lemma unwrap_not_Err {A} (o : option A) e : unwrap o ≠ Err e.
Proof. by destruct o. Qed.
Lemma connected_not_Err stats p e : connected stats p ≠ Err e.
Proof. unfold connected. by destruct (endpoint p). Qed.

Lemma watchdog_traffic_never_err stats q p time : never_err (watchdog_traffic stats q p time).
Proof.
  unfold watchdog_traffic. case_decide; [apply never_err_ret|].
  do 3 (apply never_err_bind; [apply never_err_lift; intros; apply at_width_not_Err|intros _ ? _ _ _]).
  case_decide; [|apply never_err_ret].
  do 2 (apply never_err_bind; [apply never_err_lift; intros; apply at_width_not_Err|intros _ ? _ _ _]).
  apply never_err_bind; [done|intros _ ? _ _ _].
  apply never_err_bind; [apply never_err_lift; intros; apply TrafficInfo_add_not_Err|intros _ ? _ _ _].
  done.
Qed.

Lemma watchdog_events_never_err stats q p : never_err (watchdog_events stats q p).
Proof.
  unfold watchdog_events. apply never_err_bind; [|intros _ ? _ _ _].
  - case_decide; [|apply never_err_ret]. destruct (endpoint p); [apply never_err_event|apply never_err_ret].
  - destruct (latest_handshake q), (latest_handshake p);
      auto using never_err_ret, never_err_event.
    apply never_err_bind; [apply never_err_lift, connected_not_Err|intros _ ? _ _ _; apply never_err_event].
Qed.

Lemma watchdog_peer_never_err port stats peer : never_err (watchdog_peer port stats peer).
Proof.
  unfold watchdog_peer. apply never_err_bind; [|intros _ p _ _ _].
  { destruct (latest_handshake peer); [|apply never_err_ret].
    apply never_err_bind; [apply never_err_now|intros; apply never_err_ret]. }
  apply never_err_bind; [done|intros _ cache _ _ _].
  apply never_err_bind; [|intros _ ? _ _ _; by apply never_err_bind].
  destruct (_ ≫= _) as [q|].
  - apply never_err_bind; [apply never_err_now|].
    intros w t w' Hw Ht. apply never_err_bind.
    { apply never_err_lift. intros e. unfold duration_since. rewrite decide_True; [done|].
      unfold hosted, ask_now in Ht. pose proof (clock_after_epoch (w_host (wa_world w)) Hw) as Hn.
      destruct (now _). injection Ht as <- _. done. }
    intros _ d _ _ _. apply never_err_bind; [apply watchdog_traffic_never_err|].
    intros _ _ _ _ _. apply watchdog_events_never_err.
  - destruct (bool_decide _); [|apply never_err_ret].
    apply never_err_bind; [apply never_err_lift, connected_not_Err|intros _ ? _ _ _; apply never_err_event].
Qed.
End never_err.

(** ** What a listener learns *)
Section replay.
Context `{TargetOk} `{WK : WireguardKeys} `{UC : UrlCrate} `{IC : IpnetCrate} {S : Type} `{HS : !Host S}
        {I : S → Prop} `{HL : !Listening S I}.
Implicit Types w : Watch (S := S).

(** Replaying the events of a network: which of its peers are connected. *)
Definition replay_step (network : Pubkey) (st : Pubkey → bool) (e : GatewayEvent) : Pubkey → bool := λ peer,
  match e with
  | PeerConnected c => if decide (pc_network c = network ∧ pc_peer c = peer) then true else st peer
  | PeerDisconnected d => if decide (pd_network d = network ∧ pd_peer d = peer) then false else st peer
  | Endpoint _ => st peer
  end.
Definition replay (network : Pubkey) : (Pubkey → bool) → list GatewayEvent → Pubkey → bool :=
  foldl (replay_step network).

(** What the cache says. *)
Definition is_connected w port peer : bool := from_option has_handshake false (seen w port peer).

Lemma replay_app network st evs evs' :
  replay network st (evs ++ evs') = replay network (replay network st evs) evs'.
Proof. apply foldl_app. Qed.

Lemma replay_ext network st st' evs peer :
  (∀ p, st p = st' p) → replay network st evs peer = replay network st' evs peer.
Proof.
  revert st st'. induction evs as [|e evs IH]; intros st st' Hst; [apply Hst|]. cbn.
  apply IH. intros p. destruct e; cbn; by rewrite Hst.
Qed.

Lemma replay_move stats previous p st : replay (stats_public_key stats) st (move_events stats previous p) = st.
Proof. unfold move_events. destruct previous, (endpoint p); try done. by case_decide. Qed.

Lemma replay_peer stats previous p evs st peer :
  peer_events stats previous p = Ok evs →
  st (peer_public_key p) = from_option has_handshake false previous →
  replay (stats_public_key stats) st evs peer =
    if decide (peer = peer_public_key p) then has_handshake p else st peer.
Proof.
  unfold peer_events. intros He Hst. destruct (from_option _ _ previous) eqn:Hb, (has_handshake p) eqn:Hh;
    rewrite ?bind_Ok in He.
  - injection He as <-. rewrite replay_move. case_decide; by subst.
  - injection He as <-. rewrite replay_app, replay_move. cbn. destruct (decide (peer = peer_public_key p)) as [->|Hne];
      [by rewrite decide_True|by rewrite decide_False by (intros [_ ?]; congruence)].
  - destruct He as (e & He & [= <-]). unfold connected in He. apply bind_Ok in He as (a & _ & [= <-]).
    rewrite replay_app, replay_move. cbn. destruct (decide (peer = peer_public_key p)) as [->|Hne];
      [by rewrite decide_True|by rewrite decide_False by (intros [_ ?]; congruence)].
  - injection He as <-. rewrite replay_move. case_decide; by subst.
Qed.

Lemma seen_update w w' port f peer :
  wa_cache w' = entry_update port ∅ f (wa_cache w) →
  seen w' port peer = f (default ∅ (wa_cache w !! port)) !! peer.
Proof. intros Hc. unfold seen. rewrite Hc, lookup_entry_update. done. Qed.

Lemma seen_default w port peer : seen w port peer = default ∅ (wa_cache w !! port) !! peer.
Proof. unfold seen. destruct (wa_cache w !! port); cbn; [done|]. by rewrite lookup_empty. Qed.

(** The loop over the peers of a network. *)
Lemma watchdog_peers_tracked port stats peers w w' :
  attended (I := I) w →
  for_each peers (λ peer, attempt (watchdog_peer port stats peer);; mret tt) w = (Ok tt, w') →
  ∃ evs, watch_log w' = (watch_log w ++ (SendEvent <$> evs))%list ∧
    (∀ peer, is_Some (seen w' port peer) ↔ is_Some (seen w port peer) ∨ peer ∈ peer_public_key <$> peers) ∧
    (∀ st, (∀ peer, st peer = is_connected w port peer) → ∀ peer,
       replay (stats_public_key stats) st evs peer = is_connected w' port peer).
Proof.
  revert w. induction peers as [|p peers IH]; intros w Hw Hr.
  { injection Hr as <-. exists []. rewrite app_nil_r. split; [done|]. split; [set_solver|done]. }
  apply bind_Ok_inv in Hr as ([] & w1 & H1 & Hr).
  apply bind_Ok_inv in H1 as (r & w1' & H1 & [= <-]).
  unfold attempt in H1. destruct (watchdog_peer_never_err port stats p w Hw) as [Hne Hw1].
  destruct (watchdog_peer port stats p w) as [[[]|e|] w1''] eqn:Hp; [|by destruct (Hne e)|done].
  injection H1 as <- <-.
  destruct (watchdog_peer_Ok _ _ _ _ _ Hp) as (q & evs & time & Hq & He & Hl & Hc & _).
  destruct (IH w1'' Hw1 Hr) as (evs' & Hl' & Hsome & Hrep). exists (evs ++ evs')%list.
  assert (Hkey : peer_public_key q = peer_public_key p) by (by destruct Hq as [->| ->]).
  assert (Hseen : ∀ peer, seen w1'' port peer =
    if decide (peer = peer_public_key p) then Some q else seen w port peer).
  { intros peer. rewrite (seen_update _ _ _ _ _ Hc), seen_default. case_decide; subst; by simplify_map_eq. }
  split; [by rewrite Hl', Hl, fmap_app, app_assoc|]. split.
  - intros peer. rewrite Hsome, Hseen, fmap_cons, elem_of_cons. case_decide; [by split; auto|tauto].
  - intros st Hst peer. rewrite replay_app.
    apply Hrep. intros peer'. rewrite (replay_peer stats _ q evs) by
      (done || (rewrite Hkey, Hst; done)).
    unfold is_connected. rewrite Hseen, Hkey. case_decide; [done|]. apply Hst.
Qed.
(** The loop over the peers that are gone. *)
Lemma watchdog_dead_tracked port stats dead w w' :
  for_each dead (λ peer, cache ← get_cache; set_cache (entry_update port ∅ (delete peer) cache);;
    event (disconnected stats peer)) w = (Ok tt, w') →
  watch_log w' = (watch_log w ++ (SendEvent ∘ disconnected stats <$> dead))%list ∧
  (∀ peer, seen w' port peer = if decide (peer ∈ dead) then None else seen w port peer) ∧
  (∀ st, (∀ peer, st peer = is_connected w port peer) → ∀ peer,
     replay (stats_public_key stats) st (disconnected stats <$> dead) peer = is_connected w' port peer).
Proof.
  revert w. induction dead as [|p dead IH]; intros w Hr.
  { injection Hr as <-. rewrite app_nil_r. split; [done|]. split; [|done].
    intros peer. by rewrite decide_False by set_solver. }
  apply bind_Ok_inv in Hr as ([] & w1 & H1 & Hr).
  apply bind_Ok_inv in H1 as (cache & ? & [= <- <-] & H1).
  apply bind_Ok_inv in H1 as ([] & w2 & [= <-] & (Hl & Hc & _)%event_Ok_inv).
  unfold watch_log in Hl. cbn in Hl, Hc.
  assert (Hseen : ∀ peer, seen w1 port peer = if decide (peer = p) then None else seen w port peer).
  { intros peer. rewrite (seen_update _ _ _ _ _ Hc), seen_default. case_decide; subst; by simplify_map_eq. }
  destruct (IH _ Hr) as (Hl' & Hseen' & Hrep). split; [|split].
  - rewrite Hl'. unfold watch_log at 1. rewrite Hl. cbn. by rewrite <-app_assoc.
  - intros peer. rewrite Hseen', Hseen. repeat case_decide; set_solver.
  - intros st Hst peer. cbn [fmap list_fmap replay foldl].
    apply (Hrep (replay_step (stats_public_key stats) st (disconnected stats p))).
    intros peer'. unfold is_connected. rewrite Hseen. cbn.
    destruct (decide (peer' = p)) as [->|Hne]; [by rewrite decide_True|].
    rewrite decide_False by (intros [_ ?]; congruence). apply Hst.
Qed.

Lemma watchdog_netns_tracked netns w w' :
  attended (I := I) w → watchdog_netns netns w = (Ok tt, w') →
  ∃ wgif (stats : NetworkStats) evs,
    watch_log w' = (watch_log w ++ WireguardStats netns wgif :: (SendEvent <$> evs))%list ∧
    (∃ s', exec (WireguardStats netns wgif) (w_host (wa_world w)) = (inl stats, s')) ∧
    (∀ peer, is_Some (seen w' (stats_listen_port stats) peer) ↔ peer ∈ peer_public_key <$> stats_peers stats) ∧
    (∀ st, (∀ peer, st peer = is_connected w (stats_listen_port stats) peer) → ∀ peer,
       replay (stats_public_key stats) st evs peer = is_connected w' (stats_listen_port stats) peer).
Proof.
  intros Hw Hr. unfold watchdog_netns in Hr.
  apply bind_Ok_inv in Hr as (suffix & ? & [_ ->]%lift_Ok_inv & Hr).
  apply bind_Ok_inv in Hr as (stats & w1 & Hstats%context_Ok_inv & Hr).
  assert (Hw1 : attended (I := I) w1).
  { pose proof (attended_call (WireguardStats netns ("wg" ++ suffix)) w Hw) as Hi. by rewrite Hstats in Hi. }
  apply hosted_Ok_inv in Hstats as (Hcall & Hc1 & _).
  apply bind_Ok_inv in Hr as (cache & ? & [= <- <-] & Hr).
  apply bind_Ok_inv in Hr as ([] & w2 & [= <-] & Hr).
  apply bind_Ok_inv in Hr as ([] & w3 & (evs & Hl & Hsome & Hrep)%watchdog_peers_tracked & Hr); [|exact Hw1].
  apply bind_Ok_inv in Hr as (cache & ? & [= <- <-] & Hr).
  apply watchdog_dead_tracked in Hr as (Hl' & Hseen' & Hrep').
  exists ("wg" ++ suffix), stats, (evs ++ (disconnected stats <$> filter (λ peer,
    peer ∉ peer_public_key <$> stats_peers stats)
    (map_keys (default ∅ (wa_cache w3 !! stats_listen_port stats)))))%list.
  assert (Hseen2 : ∀ peer, seen {| wa_world := wa_world w1; wa_traffic := wa_traffic w1;
      wa_cache := entry_update (stats_listen_port stats) ∅ id (wa_cache w1) |} (stats_listen_port stats) peer
      = seen w (stats_listen_port stats) peer).
  { intros peer. rewrite (seen_update w1 _ _ id) by done. cbn. by rewrite Hc1, <-seen_default. }
  unfold call in Hcall. destruct (exec _ _) as [r s'] eqn:He. injection Hcall as Hres Hwd.
  split; [|split; [|split]].
  - rewrite Hl', Hl. unfold watch_log. cbn. rewrite <-Hwd. cbn.
    by rewrite fmap_app, <-list_fmap_compose, <-!app_assoc.
  - destruct r; [|done]. injection Hres as ->. by eexists.
  - intros peer. rewrite Hseen'. case_decide as Hd.
    + apply list_elem_of_filter in Hd as [Hd _]. split; [by intros []|done].
    + rewrite Hsome, Hseen2. split; [|by right]. intros [Hs|]; [|done].
      destruct (decide (peer ∈ peer_public_key <$> stats_peers stats)); [done|]. exfalso. apply Hd.
      apply list_elem_of_filter. split; [done|]. apply elem_of_map_keys. rewrite <-seen_default.
      apply Hsome. rewrite Hseen2. by left.
  - intros st Hst peer. rewrite replay_app. apply Hrep'. intros peer'. apply Hrep. intros p.
    rewrite Hst. unfold is_connected. by rewrite Hseen2.
Qed.

(** C8: with a listener and a sane clock, a poll of a network that completes
    reports every change: the cache then holds exactly the peers WireGuard
    listed, and a listener who replays the events of the poll on what it knew
    knows, for every peer of the network, whether it is connected. *)
Theorem watchdog_netns_tracks netns w w' :
  attended (I := I) w → watchdog_netns netns w = (Ok tt, w') →
  ∃ wgif (stats : NetworkStats) evs,
    watch_log w' = (watch_log w ++ WireguardStats netns wgif :: (SendEvent <$> evs))%list ∧
    (∃ s', exec (WireguardStats netns wgif) (w_host (wa_world w)) = (inl stats, s')) ∧
    (∀ peer, is_Some (seen w' (stats_listen_port stats) peer) ↔ peer ∈ peer_public_key <$> stats_peers stats) ∧
    (∀ st, (∀ peer, st peer = is_connected w (stats_listen_port stats) peer) → ∀ peer,
       replay (stats_public_key stats) st evs peer = is_connected w' (stats_listen_port stats) peer).
Proof. apply watchdog_netns_tracked. Qed.
End replay.

(** ** Traffic *)
Section traffic.
Context `{TO : TargetOk} `{WK : WireguardKeys} `{UC : UrlCrate} `{IC : IpnetCrate} {S : Type} `{HS : !Host S}.
Implicit Types w : Watch (S := S).

Lemma TrafficInfo_add_first n d t x i :
  in_width usize_bits (rx x) → in_width usize_bits (tx x) →
  TrafficInfo_add (TrafficInfo_new 0) n d t x = Ok i → ti_traffic i = x.
Proof.
  intros Hr Ht. unfold TrafficInfo_add. intros (total & Htot & (nt & _ & [= <-])%bind_Ok)%bind_Ok.
  cbn. unfold Traffic_add_assign, usize_add in Htot. cbn in Htot.
  apply bind_Ok in Htot as (a & Ha%at_width_exact & Htot); [|done].
  apply bind_Ok in Htot as (b & Hb%at_width_exact & [= <-]); [|done]. by destruct x; subst.
Qed.

(** The runs of the watchdog as one peer sees them: each starts a new traffic
    record, visits the peer, and sends the record off. *)
Fixpoint visits (port : Z) (stats : NetworkStats) (obs : list PeerStats) : M (Watch (S := S)) (list Traffic) :=
  match obs with
  | [] => mret []
  | p :: obs =>
      set_traffic (TrafficInfo_new 0);;
      watchdog_peer port stats p;;
      t ← get_traffic;
      ts ← visits port stats obs;
      mret (ti_traffic t :: ts)
  end.

(** Observations of one peer whose counters only grow, by less than the
    width of a counter each time. *)
Fixpoint steady (q : PeerStats) (obs : list PeerStats) : Prop :=
  match obs with
  | [] => True
  | p :: obs =>
      peer_public_key p = peer_public_key q ∧ counters_ok p ∧
      transfer_rx q ≤ transfer_rx p ∧ transfer_tx q ≤ transfer_tx p ∧
      rx (growth q p) + tx (growth q p) < 2 ^ usize_bits ∧ steady p obs
  end.
Definition final (q : PeerStats) (obs : list PeerStats) : PeerStats := foldl (λ _ p, p) q obs.
Definition sum (l : list Z) : Z := foldr Z.add 0 l.

Lemma steady_counters q q' obs :
  transfer_rx q = transfer_rx q' → transfer_tx q = transfer_tx q' →
  peer_public_key q = peer_public_key q' → steady q obs → steady q' obs.
Proof. destruct obs as [|p obs]; [done|]. cbn. unfold growth. cbn. by intros -> -> ->. Qed.

Lemma steady_growth q p :
  counters_ok q → counters_ok p → transfer_rx q ≤ transfer_rx p → transfer_tx q ≤ transfer_tx p →
  rx (growth q p) + tx (growth q p) < 2 ^ usize_bits →
  in_width usize_bits (rx (growth q p)) ∧ in_width usize_bits (tx (growth q p)) ∧
  (counted q p ∨ growth q p = Traffic_default).
Proof.
  unfold counted, growth, counters_ok, in_width, Traffic_new, Traffic_default. cbn. intros Hq Hp Hr Ht Hs.
  split; [lia|]. split; [lia|].
  destruct (decide (transfer_rx p - transfer_rx q + (transfer_tx p - transfer_tx q) = 0)) as [Hz|Hz].
  - right. f_equal; lia.
  - left. split; [done|]. split; [done|]. rewrite Z.mod_small by lia. done.
Qed.

(** C17: no traffic is lost or counted twice.  However often a peer is polled
    while its counters grow, the traffic reported over all runs adds up to
    the growth of its counters since it was last seen. *)
Theorem traffic_conserved port stats q obs w ts w' :
  overflow_checks = false → counters_ok q → seen w port (peer_public_key q) = Some q → steady q obs →
  visits port stats obs w = (Ok ts, w') →
  sum (rx <$> ts) = transfer_rx (final q obs) - transfer_rx q ∧
  sum (tx <$> ts) = transfer_tx (final q obs) - transfer_tx q.
Proof.
  intros Hchk. revert q w ts. induction obs as [|p obs IH]; intros q w ts Hq Hseen Hst Hr.
  { injection Hr as <- <-. cbn. lia. }
  destruct Hst as (Hkey & Hp & Hrx & Htx & Hsmall & Hst). cbn [visits] in Hr.
  apply bind_Ok_inv in Hr as ([] & w1 & [= <-] & Hr).
  apply bind_Ok_inv in Hr as ([] & w2 & Hpeer & Hr).
  apply bind_Ok_inv in Hr as (t & ? & [= <- <-] & Hr).
  apply bind_Ok_inv in Hr as (ts' & ? & Hr & [= <- <-]).
  destruct (watchdog_peer_Ok _ _ _ _ _ Hpeer) as (p' & evs & time & Hp' & _ & _ & Hc & Htr).
  unfold seen in Htr. cbn [wa_cache wa_traffic] in Htr, Hc.
  fold (seen w port (peer_public_key p)) in Htr. rewrite Hkey, Hseen in Htr.
  assert (Hsame : transfer_rx p' = transfer_rx p ∧ transfer_tx p' = transfer_tx p ∧
    peer_public_key p' = peer_public_key p) by (by destruct Hp' as [->| ->]).
  destruct Hsame as (Hsr & Hst' & Hsk).
  assert (Hg : growth q p' = growth q p) by (unfold growth; by rewrite Hsr, Hst').
  assert (Hcnt : counted q p' ↔ counted q p) by (unfold counted; by rewrite Hg, Hsr, Hst').
  specialize (Htr Hchk Hq Hp). destruct (steady_growth q p) as (Hw1 & Hw2 & Hcase); try done.
  assert (Hrep : ti_traffic (wa_traffic w2) = growth q p).
  { rewrite Hg in Htr. case_decide as Hd.
    - by eapply TrafficInfo_add_first.
    - rewrite Htr. cbn. destruct Hcase as [Hcase|Hcase]; [by destruct Hd; apply Hcnt|done]. }
  destruct (IH p' w2 ts') as [IHr IHt]; [by destruct Hp' as [->| ->]| |by eapply steady_counters|done|].
  { rewrite (seen_update _ _ _ _ _ Hc), Hsk. by rewrite lookup_insert_eq. }
  rewrite !fmap_cons, Hrep. cbn [sum foldr]. unfold sum in IHr, IHt. rewrite IHr, IHt, Hsr, Hst'.
  destruct obs as [|o obs]; unfold growth; cbn; lia.
Qed.
End traffic.

(** ** When things go wrong *)
Section failures.
Context `{TO : TargetOk} `{WK : WireguardKeys} `{UC : UrlCrate} `{IC : IpnetCrate} {S : Type} `{HS : !Host S}.
Implicit Types w : Watch (S := S).

Definition keeps_cache {A} (m : M (Watch (S := S)) A) : Prop := ∀ w, wa_cache (m w).2 = wa_cache w.

Lemma keeps_cache_bind {A B} (m : M (Watch (S := S)) A) (k : A → M (Watch (S := S)) B) :
  keeps_cache m → (∀ a, keeps_cache (k a)) → keeps_cache (m ≫= k).
Proof.
  intros Hm Hk w. unfold mbind, M_bind. specialize (Hm w).
  destruct (m w) as [[a|e|] w']; cbn in *; [by rewrite Hk|done..].
Qed.
Lemma keeps_cache_hosted {A} (m : M (World S) A) : keeps_cache (hosted m).
Proof. intros w. unfold hosted. by destruct (m _). Qed.
Lemma keeps_cache_lift {A} (o : outcome A) : keeps_cache (lift o).
Proof. done. Qed.

Lemma watchdog_traffic_keeps_cache stats q p time : keeps_cache (watchdog_traffic stats q p time).
Proof.
  unfold watchdog_traffic. case_decide; [done|].
  do 3 (apply keeps_cache_bind; [done|intros ?]). case_decide; [|done].
  do 4 (apply keeps_cache_bind; [done|intros ?]). done.
Qed.
Lemma watchdog_events_keeps_cache stats q p : keeps_cache (watchdog_events stats q p).
Proof.
  unfold watchdog_events. apply keeps_cache_bind; [|intros _].
  - case_decide; [|done]. destruct (endpoint p); [apply keeps_cache_hosted|done].
  - destruct (latest_handshake q), (latest_handshake p); try done; [apply keeps_cache_hosted|].
    apply keeps_cache_bind; [done|intros e; apply keeps_cache_hosted].
Qed.

(** A step that keeps the cache, before one that keeps it when it fails. *)
Definition fails_clean {A} (m : M (Watch (S := S)) A) : Prop := ∀ w,
  is_ok (m w).1 = false → wa_cache (m w).2 = wa_cache w.
Lemma fails_clean_bind {A B} (m : M (Watch (S := S)) A) (k : A → M (Watch (S := S)) B) :
  keeps_cache m → (∀ a, fails_clean (k a)) → fails_clean (m ≫= k).
Proof.
  intros Hm Hk w. unfold mbind, M_bind. specialize (Hm w).
  destruct (m w) as [[a|e|] w']; cbn in *; [rewrite <-Hm; apply Hk|done..].
Qed.

(** C31: nothing is remembered before it is reported.  When the visit of a
    peer fails, because an event could not be delivered or for any other
    reason, the cache is as before, so the next visit reports the change
    again. *)
Theorem watchdog_peer_retries port stats peer w :
  is_ok (watchdog_peer port stats peer w).1 = false →
  wa_cache (watchdog_peer port stats peer w).2 = wa_cache w.
Proof.
  revert w. change (fails_clean (watchdog_peer port stats peer)). unfold watchdog_peer.
  apply fails_clean_bind; [|intros p; apply fails_clean_bind; [done|intros cache]].
  { destruct (latest_handshake peer); [|done].
    apply keeps_cache_bind; [apply keeps_cache_hosted|done]. }
  apply fails_clean_bind; [|intros _; by intros w].
  destruct (_ ≫= _) as [q|].
  - apply keeps_cache_bind; [apply keeps_cache_hosted|intros t].
    apply keeps_cache_bind; [done|intros d].
    apply keeps_cache_bind; [apply watchdog_traffic_keeps_cache|intros _].
    apply watchdog_events_keeps_cache.
  - destruct (bool_decide _); [|done].
    apply keeps_cache_bind; [done|intros e; apply keeps_cache_hosted].
Qed.

(** C32: in a build with overflow checks the watchdog dies of traffic: the
    visit of a peer whose counters grew since it was last seen panics,
    because the differences are taken the wrong way round. *)
Theorem watchdog_peer_underflow port stats peer q w :
  overflow_checks = true → (∀ s : S, 0 ≤ (now s).1) →
  seen w port (peer_public_key peer) = Some q → counters_ok q → counters_ok peer →
  transfer_rx q ≤ transfer_rx peer → transfer_tx q ≤ transfer_tx peer →
  (transfer_rx q, transfer_tx q) ≠ (transfer_rx peer, transfer_tx peer) →
  (watchdog_peer port stats peer w).1 = Panic.
Proof.
  intros Hchk Hclock Hseen Hq Hp Hr Ht Hne.
  assert (Htraffic : ∀ p time w', p = peer ∨ p = without_handshake peer →
    (watchdog_traffic stats q p time w').1 = Panic).
  { intros p time w' Hp'.
    assert (Hsame : transfer_rx p = transfer_rx peer ∧ transfer_tx p = transfer_tx peer)
      by (by destruct Hp' as [->| ->]). destruct Hsame as [Hsr Hst].
    unfold watchdog_traffic. rewrite decide_False by lia. rewrite Hsr, Hst. unfold usize_sub.
    destruct (decide (transfer_rx q = transfer_rx peer)) as [He|He].
    - assert (transfer_tx q ≠ transfer_tx peer) by congruence.
      rewrite (at_width_checked _ (transfer_tx q - _)) by (done || unfold in_width; lia).
      unfold mbind, M_bind, lift. by destruct (at_width _ _) as [? | ? |] eqn:Ha;
        [|apply at_width_not_Err in Ha|].
    - by rewrite (at_width_checked _ (transfer_rx q - _)) by (done || unfold in_width; lia). }
  unfold watchdog_peer.
  set (m := match latest_handshake peer with Some _ => _ | None => _ end).
  assert (Hm : ∃ p w', m w = (Ok p, w') ∧ wa_cache w' = wa_cache w ∧ (p = peer ∨ p = without_handshake peer)).
  { subst m. destruct (latest_handshake peer) as [h|] eqn:Hh; [|by eexists _, _; eauto].
    unfold mbind, M_bind, hosted, ask_now. destruct (now _) as [t s]. eexists _, _. split; [done|].
    split; [done|]. unfold expire. rewrite Hh. destruct (duration_since t h); [case_decide|]; auto. }
  destruct Hm as (p & w1 & Hm & Hc & Hpp). unfold mbind at 1, M_bind at 1. rewrite Hm. clear Hm m.
  unfold mbind at 1, M_bind at 1. cbn [get_cache].
  assert (Hkey : peer_public_key p = peer_public_key peer) by (by destruct Hpp as [->| ->]).
  rewrite Hkey, Hc. fold (seen w port (peer_public_key peer)). rewrite Hseen.
  unfold hosted, ask_now. pose proof (Hclock (w_host (wa_world w1))) as Hnow.
  destruct (now _) as [t s] eqn:Hn. unfold mbind, M_bind. cbn in Hnow |- *. rewrite Hn. cbn.
  unfold duration_since. rewrite decide_True by done. cbn.
  specialize (Htraffic p (cast_width usize_bits (as_secs (t - UNIX_EPOCH)))
    {| wa_world := {| w_host := s; w_log := w_log (wa_world w1); w_config := w_config (wa_world w1) |};
       wa_traffic := wa_traffic w1; wa_cache := wa_cache w1 |} Hpp).
  destruct (watchdog_traffic _ _ _ _ _) as [o w2]. cbn in Htraffic. by subst o.
Qed.

(** After the cache was lost a peer is taken for a new one. *)
Lemma forgotten_reports port stats peer w w' :
  wa_cache w = ∅ → watchdog_peer port stats peer w = (Ok tt, w') →
  wa_traffic w' = wa_traffic w ∧
  ∃ p evs, (p = peer ∨ p = without_handshake peer) ∧
    watch_log w' = (watch_log w ++ (SendEvent <$> evs))%list ∧
    if has_handshake p then (∃ e, connected stats p = Ok e ∧ evs = [e]) else evs = [].
Proof.
  intros Hc Hpeer. destruct (watchdog_peer_Ok _ _ _ _ _ Hpeer) as (p & evs & time & Hp & He & Hl & _ & Ht).
  assert (Hnone : seen w port (peer_public_key peer) = None).
  { unfold seen. by rewrite Hc, lookup_empty. }
  rewrite Hnone in He, Ht. split; [done|]. exists p, evs. split; [done|]. split; [done|].
  unfold peer_events, move_events in He. cbn [from_option] in He.
  destruct (has_handshake p); [|by injection He as <-].
  apply bind_Ok in He as (e & He & [= <-]). by exists e.
Qed.
End failures.

(** ** Witnesses *)
Section witnesses.
#[local] Existing Instances sample_keys sample_url sample_ipnet sample_base32 sample_regex.

Definition sample_stat (key : sample_key) (handshake : option Z) (rx tx : Z) : PeerStats := {|
  peer_public_key := (key : Pubkey); preshared_key := None;
  endpoint := Some (SockV4 (ipv4 170 24 12 42) 41213); allowed_ips := [];
  latest_handshake := handshake; transfer_rx := rx; transfer_tx := tx; persistent_keepalive := None |}.
Definition sample_report (peers : list PeerStats) : NetworkStats := {|
  stats_private_key := (KA : Privkey); stats_public_key := (KA : Pubkey);
  stats_listen_port := 7; stats_fwmark := None; stats_peers := peers |}.
(** A machine that reports [peers] for the network on port 7. *)
Definition machine_with (traffic events : bool) (peers : list PeerStats) : Machine := {|
  m_kernel := set_netns {[ "network-7" ]} empty_kernel;
  m_clock := 10 ^ 18; m_tick := 10 ^ 9; m_stats := {[ ("network-7", "wg7") := sample_report peers ]};
  m_traffic_heard := traffic; m_events_heard := events |}.

(** The watchdog on a machine, with what it saw of the network before. *)
Definition watch_on {heard} (m : Machine) (before : list PeerStats) : Watch (S := Station heard) := {|
  wa_world := {| w_host := station heard m; w_log := []; w_config := ∅ |}; wa_traffic := TrafficInfo_new 0;
  wa_cache := {[ 7 := list_to_map ((λ p, (peer_public_key p, p)) <$> before) ]} |}.
Definition recent : option Z := Some (10 ^ 18 - 10 ^ 10).
Definition old_peers : list PeerStats := [sample_stat KB recent 100 50; sample_stat KC recent 10 20].
Definition new_peers : list PeerStats := [sample_stat KA recent 7 7; sample_stat KB recent 250 60].

Lemma station_listening : Listening (Station true) (λ _, True).
Proof. split; try done. intros [m] _. cbn. apply Z.abs_nonneg. Qed.
#[local] Existing Instance station_listening.

Definition polled : outcome unit * Watch (S := Station true) :=
  watchdog_netns (T := release64) "network-7" (watch_on (machine_with true true new_peers) old_peers).
Lemma polled_ok :
  watchdog_netns (T := release64) "network-7" (watch_on (machine_with true true new_peers) old_peers)
    = (Ok tt, polled.2).
Proof. assert (polled.1 = Ok tt) as <- by (vm_compute; reflexivity). apply surjective_pairing. Qed.

Lemma watchdog_netns_tracks_witness :
  ∃ wgif (stats : NetworkStats) evs,
    watch_log polled.2 = (watch_log (watch_on (heard := true) (machine_with true true new_peers) old_peers) ++
      WireguardStats "network-7" wgif :: (SendEvent <$> evs))%list ∧
    (∃ s', exec (S := Station true) (WireguardStats "network-7" wgif)
       (w_host (wa_world (watch_on (heard := true) (machine_with true true new_peers) old_peers))) = (inl stats, s')) ∧
    (∀ peer, is_Some (seen polled.2 (stats_listen_port stats) peer) ↔
       peer ∈ peer_public_key <$> stats_peers stats) ∧
    (∀ st, (∀ peer, st peer = is_connected (watch_on (heard := true) (machine_with true true new_peers) old_peers)
         (stats_listen_port stats) peer) → ∀ peer,
       replay (stats_public_key stats) st evs peer = is_connected polled.2 (stats_listen_port stats) peer).
Proof. exact (watchdog_netns_tracks (T := release64) (I := λ _, True) _ _ _ I polled_ok). Defined.

Definition visited : outcome (list Traffic) * Watch (S := Station true) :=
  visits (T := release64) 7 (sample_report []) [sample_stat KB recent 250 60; sample_stat KB recent 300 60]
    (watch_on (machine_with true true []) [sample_stat KB recent 100 50]).
Lemma visited_ok :
  visits (T := release64) 7 (sample_report []) [sample_stat KB recent 250 60; sample_stat KB recent 300 60]
    (watch_on (machine_with true true []) [sample_stat KB recent 100 50])
  = (Ok [Traffic_new 150 10; Traffic_new 50 0], visited.2).
Proof.
  assert (visited.1 = Ok [Traffic_new 150 10; Traffic_new 50 0]) as <- by (vm_compute; reflexivity).
  apply surjective_pairing.
Qed.

Lemma traffic_conserved_witness :
  sum (rx <$> [Traffic_new 150 10; Traffic_new 50 0]) = 300 - 100 ∧
  sum (tx <$> [Traffic_new 150 10; Traffic_new 50 0]) = 60 - 50.
Proof.
  refine (traffic_conserved (TO := release64_ok) 7 (sample_report []) (sample_stat KB recent 100 50)
    [sample_stat KB recent 250 60; sample_stat KB recent 300 60]
    (watch_on (machine_with true true []) [sample_stat KB recent 100 50]) _ visited.2 eq_refl _ _ _ visited_ok);
    [by split; vm_compute|reflexivity|].
  repeat split; vm_compute; congruence.
Defined.

Definition unheard : Watch (S := Station false) := watch_on (machine_with false false []) [].
Lemma watchdog_peer_retries_witness :
  wa_cache (watchdog_peer (T := release64) 7 (sample_report []) (sample_stat KB recent 1 1) unheard).2
    = wa_cache unheard.
Proof. apply (watchdog_peer_retries (T := release64)). by vm_compute. Defined.

Lemma watchdog_peer_underflow_witness :
  (watchdog_peer (T := debug64) 7 (sample_report []) (sample_stat KB recent 101 50)
     (watch_on (heard := true) (machine_with true true []) [sample_stat KB recent 100 50])).1 = Panic.
Proof.
  apply (watchdog_peer_underflow (T := debug64) _ _ _ (sample_stat KB recent 100 50));
    [done|intros [m]; cbn; apply Z.abs_nonneg|reflexivity|unfold counters_ok, in_width; cbn; lia..|done].
Defined.
End witnesses.
