(* ===== verification/Websocket.v ===== *)
(** * The connection to the manager

    Models src/websocket.rs and [Options::run] of src/lib.rs: one session is
    a loop over whatever comes first, a message of the manager, traffic or an
    event; sessions are started again until the manager asks to shut down. *)
From S2P Require Import Prelude Text BTree Net Crates Samples Client Types Tera Render Templates Stats Options.
From S2P Require Import Host Kernel Machine Gateway.
From Stdlib Require Import Ascii.

Local Open Scope string_scope.
Local Open Scope Z_scope.

(** serde_json, on the two types that cross the connection, for both ends. *)
Class Json `{WireguardKeys} `{UrlCrate} `{IpnetCrate} := {
  request_of_json : string → outcome GatewayRequest;
  json_of_request : GatewayRequest → outcome string;
  response_of_json : string → outcome GatewayResponse;
  json_of_response : GatewayResponse → outcome string
}.

(** A value that survives the crossing. *)
Definition request_carried `{Json} (r : GatewayRequest) : Prop :=
  ∃ text, json_of_request r = Ok text ∧ request_of_json text = Ok r.
Definition response_carried `{Json} (r : GatewayResponse) : Prop :=
  ∃ text, json_of_response r = Ok text ∧ response_of_json text = Ok r.

Section wire.
Context `{WK : WireguardKeys} `{UC : UrlCrate} `{IC : IpnetCrate}.

(** What [socket.next()] yields, and what [select!] yields. *)
Inductive Incoming :=
| IText (text : string)
| IOther
| IError (e : error)
| IClosed.
Inductive Selected :=
| OnMessage (message : Incoming)
| OnTraffic (traffic : TrafficInfo + error)
| OnEvent (event : GatewayEvent + error).

(** The headers of the request that opens the connection. *)
Record Handshake := { hs_url : string; hs_authorization : string; hs_identity : string }.

(** What was received and sent in a session. *)
Inductive Frame :=
| Connected (handshake : Handshake)
| Got (s : Selected)
| Sent (r : GatewayResponse).
End wire.

(** The connection, with state [N], and the receivers of the two queues.  The
    queues are filled by the other task, so these operations see the host [S]
    as well. *)
Class Wire `{WireguardKeys} `{UrlCrate} `{IpnetCrate} (S N : Type) := {
  wire_connect : Handshake → S * N → (unit + error) * (S * N);
  wire_subscribe : S * N → S * N;
  wire_next : S * N → Selected * (S * N);
  wire_send : string → S * N → (unit + error) * (S * N);
  wire_close : S * N → S * N
}.

Section websocket.
Context `{T : Target} `{WK : WireguardKeys} `{UC : UrlCrate} `{IC : IpnetCrate} `{BC : Base32Crate}
        `{RC : RegexCrate} `{TE : Tera} `{HO : HashOrder} {S : Type} `{HS : !Host S}
        `{JS : !Json} {N : Type} `{WN : !Wire S N}.

Record Session := { se_world : World S; se_wire : N; se_trace : list Frame }.

Definition on_gateway {A} (m : M (World S) A) : M Session A := λ s,
  let '(o, w) := m (se_world s) in
  (o, {| se_world := w; se_wire := se_wire s; se_trace := se_trace s |}).

(** What the connection and the queues are part of, and putting it back. *)
Definition ends (s : Session) : S * N := (w_host (se_world s), se_wire s).
Definition at_ends (e : S * N) (trace : list Frame) (s : Session) : Session := {|
  se_world := rehost e.1 (se_world s); se_wire := e.2; se_trace := trace |}.

Definition open (h : Handshake) : M Session unit := λ s,
  let '(r, e) := wire_connect h (ends s) in
  match r with
  | inl _ => (Ok tt, at_ends e (se_trace s ++ [Connected h]) s)
  | inr err => (Err err, at_ends e (se_trace s) s)
  end.
(** The receivers of the two queues, for the time of a session. *)
Definition subscribe : M Session unit := λ s, (Ok tt, at_ends (wire_subscribe (ends s)) (se_trace s) s).
Definition unsubscribe (s : Session) : Session := at_ends (wire_close (ends s)) (se_trace s) s.

Definition select : M Session Selected := λ s,
  let '(x, e) := wire_next (ends s) in (Ok x, at_ends e (se_trace s ++ [Got x]) s).
(** [socket.send(Message::Text(to_string(&response)?)).await?] *)
Definition send_text (r : GatewayResponse) (text : string) : M Session unit := λ s,
  let '(sent, e) := wire_send text (ends s) in
  match sent with
  | inl _ => (Ok tt, at_ends e (se_trace s ++ [Sent r]) s)
  | inr err => (Err err, at_ends e (se_trace s) s)
  end.
Definition send (r : GatewayResponse) : M Session unit :=
  text ← lift (json_of_response r); send_text r text.

(** [match apply(..).await { Ok(()) => Ok(()), Err(e) => Err(e.to_string()) }] *)
Definition as_result (m : M Session unit) : M Session (unit + string) :=
  r ← attempt m;
  mret (match r with inl _ => inl tt | inr e => inr (error_to_string e) end).

(** One turn of the loop; [true] leaves it. *)
Definition connect_turn (options : Options) : M Session bool :=
  x ← select;
  match x with
  | OnMessage (IText text) =>
      message ← lift (request_of_json text);
      match message with
      | ReqApply config =>
          result ← as_result (on_gateway (apply options config));
          send (RespApply result);; mret false
      | ReqApplyPartial config =>
          result ← as_result (on_gateway (apply_partial options config));
          send (RespApply result);; mret false
      | ReqShutdown => mret true
      end
  | OnMessage IOther => mret false
  | OnMessage (IError error) => throw error
  | OnMessage IClosed => throw (EMsg "Server closed WebSocket stream")
  | OnTraffic traffic =>
      match traffic with
      | inl traffic => send (RespTraffic traffic);; mret false
      | inr e => throw e
      end
  | OnEvent event =>
      match event with
      | inl event => send (RespEvent event);; mret false
      | inr e => throw e
      end
  end.

(** The loop for [turns] turns; [false] when it is still going on. *)
Fixpoint connect_loop (turns : nat) (options : Options) : M Session bool :=
  match turns with
  | O => mret false
  | Datatypes.S turns =>
      leave ← connect_turn options;
      if leave : bool then mret true else connect_loop turns options
  end.

(** The end of the scope of the connection and of the receivers, however it
    is reached. *)
Definition scoped {A} (m : M Session A) : M Session A := λ s,
  let '(o, s) := m s in (o, unsubscribe s).

Definition connect_run (turns : nat) (options : Options) : M Session bool :=
  open {| hs_url := url_to_string (opt_manager options);
          hs_authorization := "Bearer " ++ opt_token options;
          hs_identity := opt_identity options |};;
  scoped (subscribe;; connect_loop turns options).

(** Sessions until one ends without an error, at most [sessions] of them. *)
Fixpoint connect (sessions turns : nat) (options : Options) : M Session bool :=
  match sessions with
  | O => mret false
  | Datatypes.S sessions =>
      r ← attempt (connect_run turns options);
      match r with
      | inl leave => mret leave
      | inr _ => connect sessions turns options
      end
  end.

(** [Options::run], apart from the watchdog task it starts. *)
Definition run (sessions turns : nat) (options : Options) : M Session bool :=
  with_context "Starting up gateway" (on_gateway (startup options));;
  connect sessions turns options.
End websocket.
Arguments Session {_ _ _} S N.

(** ** The protocol

    Abstract specification: a session as a labelled transition system on the
    configuration the gateway holds, with the frames exchanged as labels. *)
Section protocol.
Context `{WK : WireguardKeys} `{UC : UrlCrate} `{IC : IpnetCrate} `{JS : !Json}.
Implicit Types c : gmap Z NetworkState.

(** What may have been recorded of a request when its handling stops. *)
Definition cut_short c (s : Selected) c' : Prop :=
  match s with
  | OnMessage (IText text) =>
      match request_of_json text with
      | Ok (ReqApply config) => c' = config
      | Ok (ReqApplyPartial partial) =>
          ∃ before after, entries (partial : gmap Z (option NetworkState)) = (before ++ after)%list ∧
            c' = foldl apply_change c before
      | _ => c' = c
      end
  | _ => c' = c
  end.

Inductive session : gmap Z NetworkState → list Frame → gmap Z NetworkState → Prop :=
| ses_end c : session c [] c
| ses_apply c text config result fs c' :
    request_of_json text = Ok (ReqApply config) → session config fs c' →
    session c (Got (OnMessage (IText text)) :: Sent (RespApply result) :: fs) c'
| ses_apply_partial c text partial c1 result fs c' :
    request_of_json text = Ok (ReqApplyPartial partial) →
    cut_short c (OnMessage (IText text)) c1 →
    (result = inl tt → c1 = Client.apply_partial c partial) →
    session c1 fs c' →
    session c (Got (OnMessage (IText text)) :: Sent (RespApply result) :: fs) c'
| ses_ignore c fs c' : session c fs c' → session c (Got (OnMessage IOther) :: fs) c'
| ses_traffic c t fs c' : session c fs c' → session c (Got (OnTraffic (inl t)) :: Sent (RespTraffic t) :: fs) c'
| ses_event c e fs c' : session c fs c' → session c (Got (OnEvent (inl e)) :: Sent (RespEvent e) :: fs) c'
| ses_cut c s c' : cut_short c s c' → session c [Got s] c'.
End protocol.

Section refinement.
Context `{T : Target} `{WK : WireguardKeys} `{UC : UrlCrate} `{IC : IpnetCrate} `{BC : Base32Crate}
        `{RC : RegexCrate} `{TE : Tera} `{HO : HashOrder} {S : Type} `{HS : !Host S}
        `{JS : !Json} {N : Type} `{WN : !Wire S N}.
Implicit Types s : Session S N.

Definition config_of s : gmap Z NetworkState := w_config (se_world s).

Lemma as_result_gateway (m : M (World S) unit) s :
  ∃ o s', as_result (on_gateway m) s = (o, s') ∧ se_trace s' = se_trace s ∧ se_wire s' = se_wire s ∧
    se_world s' = (m (se_world s)).2 ∧
    (o = Panic ∨ ∃ r, o = Ok r ∧ (r = inl tt → is_ok (m (se_world s)).1 = true)).
Proof.
  unfold as_result, attempt, on_gateway, mbind, M_bind.
  destruct (m (se_world s)) as [[[]|e|] w]; cbn; eexists _, _; (split; [done|]); eauto 8.
  do 3 (split; [done|]). right. by eexists.
Qed.

Lemma send_cases r s :
  ∃ o s', send r s = (o, s') ∧ config_of s' = config_of s ∧
    ((o = Ok tt ∧ se_trace s' = (se_trace s ++ [Sent r])%list) ∨ (is_ok o = false ∧ se_trace s' = se_trace s)).
Proof.
  unfold send, send_text, mbind, M_bind, lift. destruct (json_of_response r) as [text|e|]; [|by eauto 8..].
  destruct (wire_send text (ends s)) as [[[]|e] n]; eexists _, _; (split; [done|]); cbn; auto.
Qed.

(** One turn: it goes on after a complete step of the protocol, or it stops
    with what the last frame leaves behind. *)
Definition turn_goes_on s (o : outcome bool) s' : Prop :=
  o = Ok false ∧ ∃ fs, se_trace s' = (se_trace s ++ fs)%list ∧
    ∀ fs' c', session (config_of s') fs' c' → session (config_of s) (fs ++ fs') c'.
Definition turn_stops s (o : outcome bool) s' : Prop :=
  o ≠ Ok false ∧ ∃ x, se_trace s' = (se_trace s ++ [Got x])%list ∧
    cut_short (config_of s) x (config_of s') ∧
    (o = Ok true → ∃ text, x = OnMessage (IText text) ∧ request_of_json text = Ok ReqShutdown).
Definition turn_kept s (r : outcome bool * Session S N) : Prop := turn_goes_on s r.1 r.2 ∨ turn_stops s r.1 r.2.

(** A turn that ends without an answer, and one that ends with it. *)
Lemma turn_ends s x o s' :
  o ≠ Ok false → (o = Ok true → ∃ text, x = OnMessage (IText text) ∧ request_of_json text = Ok ReqShutdown) →
  se_trace s' = (se_trace s ++ [Got x])%list → cut_short (config_of s) x (config_of s') → turn_kept s (o, s').
Proof. intros Ho Htrue Hs' Hcut. right. split; [done|]. by exists x. Qed.

Lemma turn_replies s x r s2 :
  se_trace s2 = (se_trace s ++ [Got x])%list → cut_short (config_of s) x (config_of s2) →
  (∀ fs' c', session (config_of s2) fs' c' → session (config_of s) (Got x :: Sent r :: fs') c') →
  turn_kept s ((send r;; mret false) s2).
Proof.
  intros Ht Hcut Hses. unfold mbind, M_bind.
  destruct (send_cases r s2) as (o & s' & -> & Hw & [[-> Hs']|[Ho Hs']]).
  - left. split; [done|]. exists [Got x; Sent r].
    cbn. rewrite Hs', Ht, <-app_assoc. split; [done|]. unfold config_of in *. by rewrite Hw.
  - assert (Hc : cut_short (config_of s) x (config_of s')) by (unfold config_of in *; by rewrite Hw).
    destruct o as [[]|e|]; [done|..]; apply (turn_ends s x); by rewrite ?Hs'.
Qed.

Lemma connect_turn_kept options s : turn_kept s (connect_turn options s).
Proof.
  unfold connect_turn, select. unfold mbind at 1, M_bind at 1.
  destruct (wire_next (ends s)) as [x hn]. set (s1 := at_ends hn (se_trace s ++ [Got x]) s).
  assert (Hstop := turn_ends s x). assert (Hreply := turn_replies s x).
  destruct x as [[text| |e|]|[t|e]|[e|err]]; cbn [cut_short] in *.
  - destruct (request_of_json text) as [[config|partial|]|e|] eqn:Hreq; unfold mbind at 1, M_bind at 1; cbn [lift].
    + destruct (as_result_gateway (apply options config) s1) as (o & s2 & Hres & Ht & _ & Hw & Ho).
      assert (Hc : config_of s2 = config) by (unfold config_of; rewrite Hw; apply apply_recorded).
      unfold mbind at 1, M_bind at 1. rewrite Hres. destruct Ho as [->|(r & -> & _)].
      * by apply Hstop.
      * apply Hreply; [done|done|]. intros fs' c'. rewrite Hc. by apply ses_apply.
    + destruct (as_result_gateway (apply_partial options partial) s1) as (o & s2 & Hres & Ht & _ & Hw & Ho).
      destruct (apply_partial_recorded options partial (se_world s1)) as [Hpre Hok].
      rewrite <-Hw in Hpre, Hok.
      unfold mbind at 1, M_bind at 1. rewrite Hres. destruct Ho as [->|(r & -> & Hr)].
      * by apply Hstop.
      * apply Hreply; [done|done|]. intros fs' c'. eapply ses_apply_partial; [done| |].
        -- cbn. rewrite Hreq. done.
        -- intros ->. apply Hok. by apply Hr.
    + apply Hstop; [done| |done|done]. intros _. by exists text.
    + by apply Hstop.
    + by apply Hstop.
  - left. split; [done|]. exists [Got (OnMessage IOther)].
    split; [done|]. intros fs' c'. apply ses_ignore.
  - by apply Hstop.
  - by apply Hstop.
  - apply Hreply; [done|done|]. intros fs' c'. apply ses_traffic.
  - by apply Hstop.
  - apply Hreply; [done|done|]. intros fs' c'. apply ses_event.
  - by apply Hstop.
Qed.

Lemma connect_turn_session options s :
  ∃ o s', connect_turn options s = (o, s') ∧ (turn_goes_on s o s' ∨ turn_stops s o s').
Proof. eexists _, _. split; [apply surjective_pairing|]. apply connect_turn_kept. Qed.

Lemma connect_loop_session turns options s :
  ∃ o s' fs, connect_loop turns options s = (o, s') ∧ se_trace s' = (se_trace s ++ fs)%list ∧
    session (config_of s) fs (config_of s') ∧
    (o = Ok true → ∃ before text, fs = (before ++ [Got (OnMessage (IText text))])%list ∧
       request_of_json text = Ok ReqShutdown).
Proof.
  revert s. induction turns as [|turns IH]; intros s; cbn [connect_loop].
  { exists (Ok false), s, []. rewrite app_nil_r. do 2 (split; [done|]). split; [constructor|done]. }
  destruct (connect_turn_session options s) as (o & s1 & Hturn & [[-> (fs & Ht & Hses)]|(Ho & x & Ht & Hcut & Hend)]);
    unfold mbind, M_bind; rewrite Hturn.
  - destruct (IH s1) as (o & s2 & fs' & -> & Ht' & Hses' & Hend). exists o, s2, (fs ++ fs')%list.
    rewrite Ht', Ht, app_assoc. split; [done|]. split; [done|]. split; [by apply Hses|].
    intros Ho. destruct (Hend Ho) as (before & text & -> & Hreq). exists (fs ++ before)%list, text.
    by rewrite app_assoc.
  - assert (Hfin : ∀ o', o' = o → ∃ fs, se_trace s1 = (se_trace s ++ fs)%list ∧ session (config_of s) fs (config_of s1) ∧
      (o' = Ok true → ∃ before text, fs = (before ++ [Got (OnMessage (IText text))])%list ∧
         request_of_json text = Ok ReqShutdown)).
    { intros o' ->. exists [Got x]. split; [done|]. split; [by apply ses_cut|].
      intros Htrue. destruct (Hend Htrue) as (text & -> & Hreq). by exists [], text. }
    destruct o as [[]|e|]; [|done|..];
      edestruct Hfin as (fs & ? & ? & Hb); try done; eexists _, _, fs; split; done.
Qed.

(** C13: a session follows the protocol.  However long it runs and however it
    ends, every request is answered before anything else is received, with
    the result of handling it, traffic and events are passed on in the order
    they come, and the configuration held at the end is what the requests say:
    a whole configuration replaces it, a partial one that is answered with
    success is merged as the client library merges it. *)
Theorem connect_loop_protocol turns options s :
  ∃ fs, se_trace (connect_loop turns options s).2 = (se_trace s ++ fs)%list ∧
    session (config_of s) fs (config_of (connect_loop turns options s).2).
Proof. destruct (connect_loop_session turns options s) as (o & s' & fs & -> & Ht & Hs & _). by exists fs. Qed.

(** C35: the gateway gives up only when told to: sessions that end with an
    error are started again, so that [connect] leaves the loop only after a
    shutdown request, the last thing it received. *)
Theorem connect_until_shutdown sessions turns options s s' :
  connect sessions turns options s = (Ok true, s') →
  ∃ before text, se_trace s' = (before ++ [Got (OnMessage (IText text))])%list ∧
    request_of_json text = Ok ReqShutdown.
Proof.
  revert s. induction sessions as [|n IH]; intros s; cbn [connect]; [done|].
  unfold attempt, mbind at 1, M_bind at 1. unfold connect_run at 1, mbind at 1, M_bind at 1.
  destruct (open _ s) as [[[]|e|] s0]; [|apply IH|done].
  unfold scoped at 1, mbind at 1, M_bind at 1. cbn [subscribe].
  set (s1 := at_ends (wire_subscribe (ends s0)) (se_trace s0) s0).
  destruct (connect_loop_session turns options s1) as (o & s2 & fs & -> & Ht & _ & Hend).
  destruct o as [b|e|]; [|apply IH|done]. intros [= -> <-]. cbn [unsubscribe at_ends se_trace].
  destruct (Hend eq_refl) as (before & text & -> & Hreq). exists (se_trace s1 ++ before)%list, text.
  by rewrite Ht, app_assoc.
Qed.
End refinement.

(** ** A scripted connection

    Everything that will happen is written down in advance, and every send
    succeeds; the messages are those of a short list. *)
Section script.
#[local] Existing Instances sample_keys sample_url sample_ipnet sample_base32 sample_regex sample_tera.
#[local] Existing Instances release64 sample_order.

Definition sample_json : Json := {|
  request_of_json text :=
    if decide (text = "shutdown") then Ok ReqShutdown
    else if decide (text = "sample") then Ok (ReqApply sample_config)
    else if decide (text = "nothing") then Ok (ReqApplyPartial (∅ : gmap Z (option NetworkState)))
    else Err (EMsg "expected value");
  json_of_request r :=
    match r with
    | ReqShutdown => Ok "shutdown"
    | ReqApply _ => Ok "sample"
    | ReqApplyPartial _ => Ok "nothing"
    end;
  response_of_json text :=
    match text with
    | "ok" => Ok (RespApply (inl tt))
    | String "!"%char e => Ok (RespApply (inr e))
    | "traffic" => Ok (RespTraffic (TrafficInfo_new 0))
    | _ => Err (EMsg "expected value")
    end;
  json_of_response r :=
    match r with
    | RespApply (inl _) => Ok "ok"
    | RespApply (inr e) => Ok (String "!"%char e)
    | RespTraffic _ => Ok "traffic"
    | RespEvent _ => Err (EMsg "not in the list")
    end
|}.

Definition Script : Type := list Selected.
Definition script_wire {S} : Wire S Script := {|
  wire_connect _ e := (inl tt, e);
  wire_subscribe e := e;
  wire_next '(h, n) := match n with [] => (OnMessage IClosed, (h, [])) | x :: n => (x, (h, n)) end;
  wire_send _ e := (inl tt, e);
  wire_close e := e
|}.
#[local] Existing Instances sample_json script_wire.

Lemma sample_carried : request_carried (ReqApply sample_config) ∧ request_carried ReqShutdown ∧
  ∀ result, response_carried (RespApply result).
Proof.
  split; [by exists "sample"|]. split; [by exists "shutdown"|].
  intros [[]|e]; [by exists "ok"|by exists (String "!"%char e)].
Qed.

Definition session_on (m : Machine) (script : list Selected) : Session Machine Script :=
  {| se_world := world_on m; se_wire := script; se_trace := [] |}.

(** The server closes the first session; in the second one it asks to stop. *)
Definition told_to_stop : outcome bool * Session Machine Script :=
  connect 3 3 sample_options
    (session_on empty_machine [OnMessage IOther; OnMessage IClosed; OnMessage (IText "shutdown")]).
Lemma told_to_stop_ok :
  connect 3 3 sample_options
    (session_on empty_machine [OnMessage IOther; OnMessage IClosed; OnMessage (IText "shutdown")])
  = (Ok true, told_to_stop.2).
Proof. assert (told_to_stop.1 = Ok true) as <- by reflexivity. apply surjective_pairing. Qed.

Lemma connect_until_shutdown_witness :
  ∃ before text, se_trace told_to_stop.2 = (before ++ [Got (OnMessage (IText text))])%list ∧
    request_of_json text = Ok ReqShutdown.
Proof. exact (connect_until_shutdown _ _ _ _ _ told_to_stop_ok). Defined.
End script.
