(* ===== verification/Codec.v ===== *)
(** * A codec for the messages

    An executable [Json] on the sample keys, URLs and networks that carries
    every request, every answer and every event: it shows that the laws the connection
    relies on can hold, and the witnesses run on it. *)
From stdpp Require Import countable.
From S2P Require Import Prelude Text BTree Net Crates Samples Client Types Tera Render Templates Stats Options.
From S2P Require Import Host Kernel Machine Gateway Websocket.
From Stdlib Require Import Ascii.

Local Open Scope string_scope.
Local Open Scope Z_scope.

(** Positive numbers as text. *)
Fixpoint pos_text (p : positive) : string :=
  match p with
  | xO p => String "0" (pos_text p)
  | xI p => String "1" (pos_text p)
  | xH => ""
  end.
Fixpoint text_pos (s : string) : option positive :=
  match s with
  | "" => Some xH
  | String a s =>
      if decide (a = "0"%char) then xO <$> text_pos s
      else if decide (a = "1"%char) then xI <$> text_pos s else None
  end.
Lemma text_pos_text p : text_pos (pos_text p) = Some p.
Proof. induction p as [p IH|p IH|]; cbn; by rewrite ?IH. Qed.

Section codec.
#[local] Existing Instances sample_keys sample_url sample_ipnet.

#[local] Instance IpAddr_countable : Countable IpAddr.
Proof.
  refine (inj_countable' (λ a, match a with IpV4 z => inl z | IpV6 z => inr z end)
    (λ x, match x with inl z => IpV4 z | inr z => IpV6 z end) _).
  by intros [].
Defined.
#[local] Instance sample_net_countable : Countable sample_net.
Proof. refine (inj_countable' (λ '(SNet a p), (a, p)) (λ '(a, p), SNet a p) _). by intros []. Defined.
#[local] Instance IpNet_countable : Countable IpNet := sample_net_countable.
#[local] Instance Privkey_countable : Countable Privkey := sample_key_countable.
#[local] Instance Secret_countable : Countable Secret := sample_key_countable.
#[local] Instance SocketAddr_countable : Countable SocketAddr.
Proof.
  refine (inj_countable' (λ a, match a with SockV4 a p => inl (a, p) | SockV6 a p f s => inr (a, p, f, s) end)
    (λ x, match x with inl (a, p) => SockV4 a p | inr (a, p, f, s) => SockV6 a p f s end) _).
  by intros [].
Defined.
#[local] Instance PeerState_eq_dec : EqDecision PeerState.
Proof. solve_decision. Defined.
#[local] Instance PeerState_countable : Countable PeerState.
Proof.
  refine (inj_countable' (λ p, (ps_preshared_key p, ps_allowed_ips p, ps_endpoint p))
    (λ '(k, ips, e), {| ps_preshared_key := k; ps_allowed_ips := ips; ps_endpoint := e |}) _).
  by intros [].
Defined.
#[local] Instance NetworkState_eq_dec : EqDecision NetworkState.
Proof. solve_decision. Defined.
#[local] Instance NetworkState_countable : Countable NetworkState.
Proof.
  refine (inj_countable' (λ n, (private_key n, listen_port n, mtu n, address n, peers n, proxy n))
    (λ '(k, port, m, a, ps, px), {| private_key := k; listen_port := port; mtu := m; address := a; peers := ps; proxy := px |}) _).
  by intros [].
Defined.

Definition request_code (r : GatewayRequest) : gmap Z NetworkState + (gmap Z (option NetworkState) + unit) :=
  match r with
  | ReqApply config => inl config
  | ReqApplyPartial partial => inr (inl partial)
  | ReqShutdown => inr (inr tt)
  end.
Definition request_decode (x : gmap Z NetworkState + (gmap Z (option NetworkState) + unit)) : GatewayRequest :=
  match x with
  | inl config => ReqApply config
  | inr (inl partial) => ReqApplyPartial partial
  | inr (inr _) => ReqShutdown
  end.

(** Events as plain data. *)
Definition event_code (e : GatewayEvent) : (Pubkey * Pubkey * SocketAddr) + (Pubkey * Pubkey + Pubkey * Pubkey * SocketAddr) :=
  match e with
  | PeerConnected e => inl (pc_network e, pc_peer e, pc_endpoint e)
  | PeerDisconnected e => inr (inl (pd_network e, pd_peer e))
  | Endpoint e => inr (inr (pe_network e, pe_peer e, pe_endpoint e))
  end.
Definition event_decode (x : (Pubkey * Pubkey * SocketAddr) + (Pubkey * Pubkey + Pubkey * Pubkey * SocketAddr)) : GatewayEvent :=
  match x with
  | inl (n, p, e) => PeerConnected {| pc_network := n; pc_peer := p; pc_endpoint := e |}
  | inr (inl (n, p)) => PeerDisconnected {| pd_network := n; pd_peer := p |}
  | inr (inr (n, p, e)) => Endpoint {| pe_network := n; pe_peer := p; pe_endpoint := e |}
  end.

Definition codec : Json := {|
  request_of_json text :=
    match text_pos text ≫= decode with Some x => Ok (request_decode x) | None => Err (EMsg "expected value") end;
  json_of_request r := Ok (pos_text (encode (request_code r)));
  response_of_json text :=
    match text with
    | "ok" => Ok (RespApply (inl tt))
    | String "!"%char e => Ok (RespApply (inr e))
    | String "?"%char e =>
        match text_pos e ≫= decode with Some x => Ok (RespEvent (event_decode x)) | None => Err (EMsg "expected value") end
    | "traffic" => Ok (RespTraffic (TrafficInfo_new 0))
    | _ => Err (EMsg "expected value")
    end;
  json_of_response r :=
    match r with
    | RespApply (inl _) => Ok "ok"
    | RespApply (inr e) => Ok (String "!"%char e)
    | RespTraffic _ => Ok "traffic"
    | RespEvent e => Ok (String "?"%char (pos_text (encode (event_code e))))
    end
|}.

Lemma codec_request r : request_carried (H2 := codec) r.
Proof.
  eexists. split; [done|]. cbn. rewrite text_pos_text. cbn. rewrite decode_encode. by destruct r.
Qed.
Lemma codec_answer result : response_carried (H2 := codec) (RespApply result).
Proof. destruct result as [[]|e]; [by exists "ok"|by exists (String "!"%char e)]. Qed.
Lemma codec_event e : response_carried (H2 := codec) (RespEvent e).
Proof.
  eexists. split; [done|]. cbn. rewrite text_pos_text. cbn. rewrite decode_encode.
  by destruct e as [[]|[]|[]].
Qed.
End codec.
