(* ===== verification/Answers.v ===== *)
(** * The gateway answers

    Liveness of the connection: over a reliable connection, and with requests
    within the limits, every request is answered and a shutdown request ends
    the loop; no sequence of traffic, events and requests can stop it before. *)
From S2P Require Import Prelude Text BTree Net Crates Samples Client Types Tera Render Templates Stats Options.
From S2P Require Import Host Kernel Machine Logic Gateway Deploy Partial Panics Websocket.

Local Open Scope string_scope.
Local Open Scope Z_scope.

(** A connection that never fails: what it will yield is written down. *)
Class WireOk `{WireguardKeys} `{UrlCrate} `{IpnetCrate} (S N : Type) `{!Wire S N} := {
  pending : N → list Selected;
  wire_connects h e : ∃ e', wire_connect h e = (inl tt, e') ∧ pending e'.2 = pending e.2;
  wire_subscribes e : pending (wire_subscribe e).2 = pending e.2;
  wire_yields x l e : pending e.2 = x :: l → ∃ e', wire_next e = (x, e') ∧ pending e'.2 = l;
  wire_sends text e : ∃ e', wire_send text e = (inl tt, e') ∧ pending e'.2 = pending e.2
}.

(** What the caller of [apply] reports. *)
Definition result_of {A} (o : outcome A) : unit + string :=
  match o with Err e => inr (error_to_string e) | _ => inl tt end.

Section answers.
Context `{T : Target} `{WK : WireguardKeys} `{UCO : !UrlCrateOk UC} `{ICO : !IpnetCrateOk IC} `{BCO : !Base32CrateOk BC}
        `{RCO : !RegexCrateOk RC} `{TEO : !TeraOk TE} `{HO : HashOrder} {S : Type} `{HS : !Host S}
        `{JS : !Json} {N : Type} `{WN : !Wire S N} `{WO : !WireOk S N}.
Context (Hjson : ∀ result, response_carried (RespApply result)).
Implicit Types s : Session S N.

Definition request_ok (r : GatewayRequest) : Prop :=
  match r with
  | ReqApply config => Forall servable (networks_of (config : gmap Z NetworkState)) ∧
                       config_servable (config : gmap Z NetworkState)
  | ReqApplyPartial partial => partial_servable partial
  | ReqShutdown => False
  end.
(** What the loop survives. *)
Definition welcome (x : Selected) : Prop :=
  match x with
  | OnMessage (IText text) => ∃ r, request_of_json text = Ok r ∧ request_ok r
  | OnMessage IOther => True
  | OnTraffic (inl t) => response_carried (RespTraffic t)
  | OnEvent (inl e) => response_carried (RespEvent e)
  | _ => False
  end.
(** The frames of one turn. *)
Definition exchange (x : Selected) (fs : list Frame) : Prop :=
  match x with
  | OnMessage (IText text) => ∃ result, fs = [Got x; Sent (RespApply result)]
  | OnTraffic (inl t) => fs = [Got x; Sent (RespTraffic t)]
  | OnEvent (inl e) => fs = [Got x; Sent (RespEvent e)]
  | _ => fs = [Got x]
  end.

Lemma as_result_calm (m : M (World S) unit) s :
  (m (se_world s)).1 ≠ Panic →
  as_result (on_gateway m) s =
    (Ok (result_of (m (se_world s)).1),
     {| se_world := (m (se_world s)).2; se_wire := se_wire s; se_trace := se_trace s |}).
Proof.
  unfold as_result, attempt, on_gateway, mbind, M_bind. by destruct (m (se_world s)) as [[[]|e|] w].
Qed.

Lemma send_reliable r s :
  response_carried r →
  ∃ e, send r s = (Ok tt, at_ends e (se_trace s ++ [Sent r]) s) ∧ pending e.2 = pending (se_wire s).
Proof.
  intros (text & Hr & _). unfold send, send_text, mbind, M_bind, lift. rewrite Hr.
  destruct (wire_sends text (ends s)) as (e & -> & He). by exists e.
Qed.

Lemma apply_config_after options (config : GatewayConfig) (w : World S) :
  config_servable (config : gmap Z NetworkState) → config_servable (w_config (apply options config w).2).
Proof. by rewrite apply_recorded. Qed.

Lemma apply_partial_config_after options (partial : GatewayConfigPartial) (w : World S) :
  partial_servable partial → config_servable (w_config w) →
  config_servable (w_config (apply_partial options partial w).2).
Proof.
  intros Hp Hc. destruct (apply_partial_recorded options partial w) as [(before & after & He & ->) _].
  by eapply partial_prefix_servable.
Qed.

(** A reply on top of a world that keeps the limits. *)
Lemma reply_turn r w n (tr : list Frame) :
  response_carried r →
  ∃ s', (send r;; mret false) {| se_world := w; se_wire := n; se_trace := tr |} = (Ok false, s') ∧
    se_trace s' = (tr ++ [Sent r])%list ∧ pending (se_wire s') = pending n ∧
    config_of (s' : Session S N) = w_config w.
Proof.
  intros Hr. unfold mbind, M_bind.
  destruct (send_reliable r {| se_world := w; se_wire := n; se_trace := tr |} Hr) as (e & -> & He).
  by eexists.
Qed.

Lemma turn_goes_on options x l s :
  welcome x → config_servable (config_of s) → pending (se_wire s) = x :: l →
  ∃ s' fs, connect_turn options s = (Ok false, s') ∧ exchange x fs ∧
    se_trace s' = (se_trace s ++ fs)%list ∧ pending (se_wire s') = l ∧ config_servable (config_of s').
Proof.
  intros Hx Hc Hl. unfold connect_turn, select. unfold mbind at 1, M_bind at 1.
  destruct (wire_yields x l (ends s) Hl) as ([h n] & -> & Hn). cbn [snd] in Hn.
  set (w1 := rehost h (se_world s)).
  change (at_ends (h, n) (se_trace s ++ [Got x]) s)
    with {| se_world := w1; se_wire := n; se_trace := se_trace s ++ [Got x] |}.
  assert (Hreply : ∀ r w, response_carried r → config_servable (w_config w) →
    ∃ s', (send r;; mret false) {| se_world := w; se_wire := n; se_trace := se_trace s ++ [Got x] |} =
      (Ok false, s') ∧ se_trace s' = (se_trace s ++ [Got x; Sent r])%list ∧ pending (se_wire s') = l ∧
      config_servable (config_of (s' : Session S N))).
  { intros r w Hr Hw. destruct (reply_turn r w n (se_trace s ++ [Got x]) Hr) as (s' & -> & Ht & Hp & Hc').
    eexists. split; [done|]. rewrite Ht, <-app_assoc, Hp, Hc'. by split_and!. }
  destruct x as [[text| | |]|[t|]|[e|]]; try done; cbn [welcome exchange] in *.
  - destruct Hx as ([config|partial|] & Hreq & Hok); [| |done]; rewrite Hreq;
      unfold mbind at 1, M_bind at 1; cbn [lift]; unfold mbind at 1, M_bind at 1; cbn [se_world].
    + destruct Hok as [Hnet Hcfg].
      rewrite as_result_calm by (by apply apply_calm). cbn [se_world se_wire se_trace].
      destruct (Hreply (RespApply (result_of (apply options config w1).1))
        (apply options config w1).2) as (s' & -> & Ht & Hp & Hc');
        [by apply Hjson|by apply apply_config_after|]. eexists _, _. eauto 6.
    + rewrite as_result_calm by (by apply apply_partial_calm). cbn [se_world se_wire se_trace].
      destruct (Hreply (RespApply (result_of (apply_partial options partial w1).1))
        (apply_partial options partial w1).2) as (s' & -> & Ht & Hp & Hc');
        [by apply Hjson|by apply apply_partial_config_after|]. eexists _, _. eauto 6.
  - eexists _, _. by split_and!.
  - destruct (Hreply (RespTraffic t) w1 Hx Hc) as (s' & -> & Ht & Hp & Hc'). eexists _, _. eauto.
  - destruct (Hreply (RespEvent e) w1 Hx Hc) as (s' & -> & Ht & Hp & Hc'). eexists _, _. eauto.
Qed.

Lemma loop_answers options xs bye s :
  Forall welcome xs → request_of_json bye = Ok ReqShutdown → config_servable (config_of s) →
  pending (se_wire s) = (xs ++ [OnMessage (IText bye)])%list →
  ∃ s' fss, connect_loop (Datatypes.S (length xs)) options s = (Ok true, s') ∧ Forall2 exchange xs fss ∧
    se_trace s' = (se_trace s ++ concat fss ++ [Got (OnMessage (IText bye))])%list.
Proof.
  intros Hxs Hbye. revert s. induction Hxs as [|x xs Hx _ IH]; intros s Hc Hl;
    cbn [length]; cbn [connect_loop]; unfold mbind at 1, M_bind at 1.
  - destruct (wire_yields _ _ (ends s) Hl) as (n & Hn & _).
    unfold connect_turn, select. unfold mbind at 1, M_bind at 1. rewrite Hn.
    unfold mbind at 1, M_bind at 1. rewrite Hbye. cbn [lift]. eexists _, []. by split_and!.
  - destruct (turn_goes_on options x (xs ++ [OnMessage (IText bye)]) s Hx Hc Hl)
      as (s1 & fs & -> & Hex & Ht & Hp & Hc1).
    destruct (IH s1 Hc1 Hp) as (s' & fss & Hrun & Hall & Ht').
    exists s', (fs :: fss). split; [done|]. split; [by constructor|].
    by rewrite Ht', Ht, concat_cons, <-!app_assoc.
Qed.

(** C9: over a reliable connection the gateway answers everything and stops
    when told to.  Whatever requests within the limits, traffic and events
    come before the shutdown request, in any order, and whatever the host
    answers: each is followed by its reply and nothing else, and after the
    shutdown request [connect] returns, within one session of one turn each. *)
Theorem connect_answers options xs bye s :
  Forall welcome xs → request_of_json bye = Ok ReqShutdown → config_servable (config_of s) →
  pending (se_wire s) = (xs ++ [OnMessage (IText bye)])%list →
  ∃ s' handshake fss, connect 1 (Datatypes.S (length xs)) options s = (Ok true, s') ∧
    Forall2 exchange xs fss ∧
    se_trace s' = (se_trace s ++ Connected handshake :: concat fss ++ [Got (OnMessage (IText bye))])%list.
Proof.
  intros Hxs Hbye Hc Hl. unfold connect, attempt, connect_run, open. unfold mbind, M_bind.
  set (h := {| hs_url := _ |}).
  destruct (wire_connects h (ends s)) as (e & -> & He).
  set (s0 := at_ends e _ s). unfold scoped. cbn [subscribe].
  set (s1 := at_ends (wire_subscribe (ends s0)) (se_trace s0) s0).
  assert (Hl1 : pending (se_wire s1) = (xs ++ [OnMessage (IText bye)])%list).
  { cbn. rewrite wire_subscribes. cbn. by rewrite He. }
  destruct (loop_answers options xs bye s1 Hxs Hbye Hc Hl1) as (s' & fss & -> & Hall & Ht).
  exists (unsubscribe s'), h, fss. split; [done|]. split; [done|]. cbn. rewrite Ht. cbn. by rewrite <-app_assoc.
Qed.
End answers.

(** ** The gateway survives

    Whatever the connection does, a manager that stays within the limits
    cannot bring the gateway down. *)
Section survives.
Context `{T : Target} `{WK : WireguardKeys} `{UCO : !UrlCrateOk UC} `{ICO : !IpnetCrateOk IC} `{BCO : !Base32CrateOk BC}
        `{RCO : !RegexCrateOk RC} `{TEO : !TeraOk TE} `{HO : HashOrder} {S : Type} `{HS : !Host S}
        `{JS : !Json} {N : Type} `{WN : !Wire S N}.

(** serde_json returns: [from_str] and [to_string] give a [Result]. *)
Class SerdeReturns : Prop := {
  from_str_returns text : request_of_json text ≠ Panic;
  to_string_returns r : json_of_response r ≠ Panic
}.
Context `{SR : SerdeReturns}.

(** A frame with which the manager stays within the limits: if it is a text
    that is a request, it is a shutdown or a request within the limits. *)
Definition mannered (f : Frame) : Prop :=
  match f with
  | Got (OnMessage (IText text)) => ∀ r, request_of_json text = Ok r → r = ReqShutdown ∨ request_ok r
  | _ => True
  end.

(** [m] adds frames to the trace; if they are mannered, and [P] holds, it does
    not panic and keeps the stored configuration within the limits. *)
Definition sound (P : Prop) {A} (m : M (Session S N) A) : Prop := ∀ s,
  ∃ fs, se_trace (m s).2 = (se_trace s ++ fs)%list ∧
    (P → Forall mannered fs → config_servable (config_of s) →
     (m s).1 ≠ Panic ∧ config_servable (config_of (m s).2)).

Lemma sound_pure P {A} (m : M (Session S N) A) :
  (∀ s, (m s).1 ≠ Panic ∧ config_of (m s).2 = config_of s ∧ ∃ fs, se_trace (m s).2 = (se_trace s ++ fs)%list) → sound P m.
Proof. intros Hm s. destruct (Hm s) as (Hp & Hw & fs & Ht). exists fs. split; [done|]. intros _ _ Hs. split; [done|]. by rewrite Hw. Qed.
Lemma sound_same P {A} (m : M (Session S N) A) : (∀ s, (m s).1 ≠ Panic ∧ (m s).2 = s) → sound P m.
Proof.
  intros Hm. apply sound_pure. intros s. destruct (Hm s) as [Hp Hs]. rewrite Hs. split; [done|]. split; [done|].
  exists []. by rewrite app_nil_r.
Qed.
Lemma sound_ret P {A} (a : A) : sound P (A := A) (mret a).
Proof. by apply sound_same. Qed.
Lemma sound_throw P {A} e : sound P (A := A) (throw e).
Proof. by apply sound_same. Qed.
Lemma sound_bind P {A B} (m : M (Session S N) A) (k : A → M (Session S N) B) :
  sound P m → (∀ a, sound P (k a)) → sound P (m ≫= k).
Proof.
  intros Hm Hk s. unfold mbind, M_bind. destruct (Hm s) as (fs & Ht & Hs).
  destruct (m s) as [[a|e|] s1]; cbn in *.
  2,3: exists fs; split; [done|]; naive_solver.
  destruct (Hk a s1) as (fs' & Ht' & Hs'). exists (fs ++ fs')%list. rewrite Ht', Ht, app_assoc. split; [done|].
  intros HP [HF HF']%Forall_app Hc. apply Hs'; [done..|]. by apply Hs.
Qed.
Lemma sound_lift_bind P {A B} (o : outcome A) (k : A → M (Session S N) B) :
  o ≠ Panic → (∀ a, o = Ok a → sound P (k a)) → sound P (a ← lift o; k a).
Proof.
  intros Ho Hk s. unfold mbind, M_bind, lift. destruct o as [a|e|]; [by apply Hk| |done].
  exists []. cbn. by rewrite app_nil_r.
Qed.
Lemma sound_attempt P {A} (m : M (Session S N) A) : sound P m → sound P (attempt m).
Proof. intros Hm s. destruct (Hm s) as (fs & Hs). exists fs. unfold attempt. destruct (m s) as [[] ?]; naive_solver. Qed.

Lemma sound_gateway P (m : M (World S) unit) :
  (P → ∀ w, config_servable (w_config w) → (m w).1 ≠ Panic ∧ config_servable (w_config (m w).2)) →
  sound P (as_result (on_gateway m)).
Proof.
  intros Hm. apply sound_bind; [|intros; apply sound_ret]. apply sound_attempt. intros s.
  exists []. rewrite app_nil_r. unfold on_gateway, config_of.
  specialize (λ HP, Hm HP (se_world s)). destruct (m (se_world s)) as [o w]. split; [done|]. intros HP _. by apply Hm.
Qed.

(** What is received is in the trace. *)
Lemma sound_select P {A} (k : Selected → M (Session S N) A) :
  (∀ x, sound (mannered (Got x)) (k x)) → sound P (x ← select; k x).
Proof.
  intros Hk s. unfold mbind, M_bind, select. destruct (wire_next (ends s)) as [x e].
  destruct (Hk x (at_ends e (se_trace s ++ [Got x]) s)) as (fs & Ht & Hs).
  exists (Got x :: fs). rewrite Ht. cbn. rewrite <-app_assoc. split; [done|].
  intros _ [Hx HF]%Forall_cons Hc. by apply Hs.
Qed.

Lemma sound_send P r : sound P (send r).
Proof.
  apply sound_lift_bind; [apply to_string_returns|]. intros text _. apply sound_pure. intros s. unfold send_text.
  destruct (wire_send _ _) as [[[]|e] n]; (split; [done|]); (split; [done|]); cbn; [by exists [Sent r]|].
  exists []. by rewrite app_nil_r.
Qed.
Lemma sound_reply P r (b : bool) : sound P (A := bool) (send r;; mret b).
Proof. apply sound_bind; [apply sound_send|]. intros _. apply sound_ret. Qed.
Lemma sound_open P h : sound P (open h).
Proof.
  apply sound_pure. intros s. unfold open. destruct (wire_connect _ _) as [[[]|e] n]; cbn;
    (split; [done|]); (split; [done|]); [by eexists|]. exists []. by rewrite app_nil_r.
Qed.
Lemma sound_scoped P {A} (m : M (Session S N) A) : sound P m → sound P (scoped m).
Proof. intros Hm s. destruct (Hm s) as (fs & Hs). exists fs. unfold scoped. by destruct (m s) as [o s']. Qed.

Lemma sound_turn P options : sound P (connect_turn options).
Proof.
  apply sound_select.
  intros [[text| |e|]|[t|e]|[e|err]]; try apply sound_ret; try apply sound_throw; try apply sound_reply.
  apply sound_lift_bind; [apply from_str_returns|]. intros r Hr.
  destruct r as [config|partial|]; [| |apply sound_ret]; (apply sound_bind; [apply sound_gateway|intros; apply sound_reply]);
    intros Hm; destruct (Hm _ Hr) as [|Hok]; try done.
  - intros w _. destruct Hok as [Hs Hc]. split; [by apply apply_calm|by apply apply_config_after].
  - intros w Hw. split; [by apply apply_partial_calm|by apply apply_partial_config_after].
Qed.

Lemma sound_loop P turns options : sound P (connect_loop turns options).
Proof.
  induction turns as [|turns IH]; cbn [connect_loop]; [apply sound_ret|].
  apply sound_bind; [apply sound_turn|]. intros []; [apply sound_ret|apply IH].
Qed.

Lemma sound_connect P sessions turns options : sound P (connect sessions turns options).
Proof.
  induction sessions as [|n IH]; cbn [connect]; [apply sound_ret|].
  apply sound_bind; [|intros []; [apply sound_ret|apply IH]].
  apply sound_attempt. apply sound_bind; [apply sound_open|]. intros _. apply sound_scoped, sound_bind; [|intros _; apply sound_loop].
  apply sound_pure. intros s. split; [done|]. split; [done|]. exists []. by rewrite app_nil_r.
Qed.

(** C14: only a request outside the limits can bring the gateway down.
    Whatever the connection yields and however often it breaks, and whatever
    the host answers: the frames of a run of [connect] are added to the trace,
    and if every request among the texts received is a shutdown or within the
    limits, [connect] does not panic, and every network the gateway holds is
    within the limits. *)
Theorem connect_survives sessions turns options (s : Session S N) :
  config_servable (config_of s) →
  ∃ fs, se_trace (connect sessions turns options s).2 = (se_trace s ++ fs)%list ∧
    (Forall mannered fs →
     (connect sessions turns options s).1 ≠ Panic ∧
     config_servable (config_of (connect sessions turns options s).2)).
Proof.
  intros Hc. destruct (sound_connect True sessions turns options s) as (fs & Ht & Hs).
  exists fs. split; [done|]. intros HF. by apply Hs.
Qed.
End survives.

(** ** Witness *)
Section witnesses.
#[local] Existing Instances sample_keys sample_url sample_ipnet sample_base32 sample_regex sample_tera.
#[local] Existing Instances sample_keys_ok sample_url_ok sample_ipnet_ok sample_base32_ok
  sample_regex_ok sample_tera_ok.
#[local] Existing Instances release64 sample_order sample_order_ok sample_json script_wire.

#[local] Instance script_wire_ok {S} : WireOk S Script.
Proof.
  refine {| pending n := n |}.
  - intros h e. by exists e.
  - done.
  - intros x l [h n]. cbn. intros ->. by exists (h, l).
  - intros text e. by exists e.
Defined.

Lemma sample_config_stored : config_servable (sample_config : gmap Z NetworkState).
Proof.
  intros p n Hp. unfold sample_config in Hp.
  apply lookup_insert_Some in Hp as [[_ <-]|[_ [_ <-]%lookup_singleton_Some]];
    apply sample_servable; by vm_compute.
Qed.

Definition sample_script : list Selected :=
  [OnMessage (IText "sample"); OnTraffic (inl (TrafficInfo_new 0)); OnMessage IOther; OnMessage (IText "nothing")].
Lemma sample_script_welcome : Forall welcome sample_script.
Proof.
  unfold sample_script. forall_cons.
  - exists (ReqApply sample_config). split; [done|]. split; [apply sample_config_servable|apply sample_config_stored].
  - by exists "traffic".
  - done.
  - exists (ReqApplyPartial (∅ : gmap Z (option NetworkState))). split; [done|]. intros p n Hp. by rewrite lookup_empty in Hp.
Qed.

Lemma connect_answers_witness :
  ∃ s' handshake fss,
    connect 1 5 sample_options (session_on empty_machine (sample_script ++ [OnMessage (IText "shutdown")]))
      = (Ok true, s') ∧
    Forall2 exchange sample_script fss ∧
    se_trace s' = ([] ++ Connected handshake :: concat fss ++ [Got (OnMessage (IText "shutdown"))])%list.
Proof.
  apply (connect_answers (proj2 (proj2 sample_carried)) sample_options sample_script "shutdown"
    (session_on empty_machine (sample_script ++ [OnMessage (IText "shutdown")]))).
  - apply sample_script_welcome.
  - reflexivity.
  - intros p n Hp. change ((∅ : gmap Z NetworkState) !! p = Some n) in Hp. by rewrite lookup_empty in Hp.
  - reflexivity.
Defined.

(** A manager's JSON with a request outside the limits: a network that has no
    address. *)
Definition without_address (n : NetworkState) : NetworkState := {|
  private_key := private_key n; listen_port := listen_port n; mtu := mtu n; address := []; peers := peers n; proxy := proxy n |}.
Definition wide_json : Json := {|
  request_of_json text :=
    if decide (text = "no address")
    then Ok (ReqApply ({[ 7 := without_address (sample_network_state 0) ]} : gmap Z NetworkState))
    else request_of_json text;
  json_of_request := json_of_request;
  response_of_json := response_of_json;
  json_of_response := json_of_response
|}.
#[local] Instance wide_returns : SerdeReturns (JS := wide_json).
Proof.
  split.
  - intros text. cbn. by repeat case_decide.
  - by intros [|e|[]].
Qed.
Abbreviation survived script := (connect (JS := wide_json) 4 9 sample_options (session_on empty_machine script)).

(** It would bring the gateway down. *)
Example no_address_request_panics : (survived [OnMessage (IText "no address")]).1 = Panic.
Proof. by vm_compute. Qed.

(** A rough connection over which the requests are within the limits: a text
    that is no request, a queue that lagged, a server that closes. *)
Definition rough_script : list Selected :=
  (sample_script ++ [OnMessage (IText "gibberish"); OnTraffic (inr (EMsg "lagged")); OnMessage IClosed])%list.
Definition text_of (f : Frame) : option string :=
  match f with Got (OnMessage (IText text)) => Some text | _ => None end.
Lemma mannered_texts fs :
  Forall (λ text, ∀ r, request_of_json (Json := wide_json) text = Ok r → r = ReqShutdown ∨ request_ok r) (omap text_of fs) →
  Forall (mannered (JS := wide_json)) fs.
Proof.
  induction fs as [|f fs IH]; [done|]. cbn.
  destruct f as [h|[[]| |]|r]; cbn; intros HF; try (constructor; [done|by apply IH]).
  apply Forall_cons in HF as [Hf HF]. constructor; [done|by apply IH].
Qed.

Lemma connect_survives_witness :
  omap text_of (se_trace (survived rough_script).2) = ["sample"; "nothing"; "gibberish"] ∧
  (survived rough_script).1 ≠ Panic ∧ config_servable (config_of (survived rough_script).2).
Proof.
  assert (Htexts : omap text_of (se_trace (survived rough_script).2) = ["sample"; "nothing"; "gibberish"])
    by (vm_compute; reflexivity).
  split; [exact Htexts|].
  destruct (connect_survives (JS := wide_json) 4 9 sample_options (session_on empty_machine rough_script)) as (fs & Ht & Hs).
  { intros p n Hp. change ((∅ : gmap Z NetworkState) !! p = Some n) in Hp. by rewrite lookup_empty in Hp. }
  apply Hs. change (se_trace (survived rough_script).2 = fs) in Ht. rewrite <-Ht. apply mannered_texts. rewrite Htexts.
  forall_cons; cbn; intros r; [..|done]; intros [= <-]; right.
  - split; [apply sample_config_servable|apply sample_config_stored].
  - intros p n Hp. by rewrite lookup_empty in Hp.
Defined.
End witnesses.
