(* ===== verification/Manager.v ===== *)
(** * The integration test as a manager

    Models src/integration/src/main.rs: the manager's side of the connection.
    It generates random configurations, has the gateway apply them, and pings
    every peer's gateway from a namespace of its own. *)
From S2P Require Import Prelude Text BTree Net Crates Samples Client Types Tera Render Templates Stats Options.
From S2P Require Import Host Kernel Machine Logic Gateway Deploy Partial Panics Websocket.

Local Open Scope string_scope.
Local Open Scope Z_scope.

(** ** What the test uses besides the gateway's crates *)

(** wireguard-keys: the public key of a private one, and its hexadecimal text. *)
Class KeyPairs `{WireguardKeys} := {
  pubkey : Privkey → Pubkey;
  pubkey_to_hex : Pubkey → string
}.
(** rand, and the key generator, with state [R]. *)
Class Random `{WireguardKeys} (R : Type) := {
  gen_range : Z * Z → R → Z * R;
  privkey_generate : R → Privkey * R;
  choose_multiple : list Z → nat → R → list Z * R
}.
Class RandomOk `{WireguardKeys} (R : Type) `{!Random R} : Prop := {
  gen_range_in lo hi r : lo < hi → lo ≤ (gen_range (lo, hi) r).1 < hi;
  choose_multiple_in l n r : (choose_multiple l n r).1 ⊆+ l
}.
(** ipnet: networks made of an address and a prefix length. *)
Class IpnetBuild `{IpnetCrate} := {
  ipnet_new : IpAddr → Z → option IpNet;
  ipv6_saturating_add : Z → Z → Z
}.
Class IpnetBuildOk `{IC : IpnetCrate} (IB : IpnetBuild) : Prop := {
  ipnet_new_spec a p : 0 ≤ p ≤ 32 → ∃ n, ipnet_new a p = Some n ∧ ipnet_addr n = a;
  ipnet_home : ∃ n, ipnet_from_str "10.0.0.1/8" = Ok n ∧ ipnet_addr n = IpV4 (ipv4 10 0 0 1)
}.

(** The other end of the connection, with state [P]. *)
Inductive Arrival :=
| AText (text : string)
| AOther
| AError (e : error)
| AClosed.
Class Peer (P : Type) := {
  peer_send : string → P → (unit + error) * P;
  peer_next : P → Arrival * P
}.

(** How the connection comes about: name lookup, the listening socket, and the
    websocket handshake, in that order. *)
Class Listener (P : Type) := {
  lookup_host : string → P → (list SocketAddr + error) * P;
  listener_bind : SocketAddr → P → (unit + error) * P;
  listener_accept : P → (unit + error) * P;
  accept_websocket : P → (unit + error) * P
}.

(** [Options] and [Global] of the test. *)
Record TestOptions := { to_listen : SocketAddr; to_gateway : string }.
Record TestGlobal := { tg_options : TestOptions; tg_gateway : IpAddr }.

(** [Command::output]: whether the program succeeded, and the debug text. *)
Record Output := { out_success : bool; out_debug : string }.
Class Process (S : Type) := run_command : string → list string → S → (Output + error) * S.

Definition PORT_RANGE : Z * Z := (50000, 60000).
Definition NETWORK_MTU : Z := 1420.
Definition IP_PATH : string := "ip".
Definition PING_PATH : string := "ping".

Section generator.
Context `{T : Target} `{WK : WireguardKeys} `{UC : UrlCrate} `{IC : IpnetCrate} `{KP : !KeyPairs} `{IB : !IpnetBuild}
        {R : Type} `{RD : !Random R}.

(** The generator's state: the randomness, and the keys handed out. *)
Record Gen := { g_rng : R; g_keys : gmap Pubkey Privkey }.

(** [Rng::gen_range] panics on an empty range. *)
Definition in_range (r : Z * Z) : M Gen Z := λ g,
  if decide (r.1 < r.2) then
    let '(z, rng) := gen_range r (g_rng g) in (Ok z, {| g_rng := rng; g_keys := g_keys g |})
  else (Panic, g).
Definition new_privkey : M Gen Privkey := λ g,
  let '(k, rng) := privkey_generate (g_rng g) in (Ok k, {| g_rng := rng; g_keys := g_keys g |}).
Definition keep_key (public : Pubkey) (private : Privkey) : M Gen unit := λ g,
  (Ok tt, {| g_rng := g_rng g; g_keys := <[public := private]> (g_keys g) |}).
Definition choose (l : list Z) (n : nat) : M Gen (list Z) := λ g,
  let '(c, rng) := choose_multiple l n (g_rng g) in (Ok c, {| g_rng := rng; g_keys := g_keys g |}).
(** [text.parse().unwrap()] *)
Definition parse_net (text : string) : outcome IpNet :=
  match ipnet_from_str text with Ok n => Ok n | _ => Panic end.

Fixpoint generate_peers (address : IpNet) (ns : list Z) (peers : gmap Pubkey PeerState)
    : M Gen (gmap Pubkey PeerState) :=
  match ns with
  | [] => mret peers
  | n :: ns =>
      addr ← lift (match ipnet_addr address with
                   | IpV4 a => k ← at_width 32 (1 + cast_width 32 n); Ok (IpV4 (ipv4_saturating_add a k))
                   | IpV6 a => k ← at_width 128 (1 + cast_width 128 n); Ok (IpV6 (ipv6_saturating_add a k))
                   end);
      net ← lift (unwrap (ipnet_new addr 32));
      privkey ← new_privkey;
      keep_key (pubkey privkey) privkey;;
      generate_peers address ns
        (<[pubkey privkey := {| ps_preshared_key := None; ps_allowed_ips := [net]; ps_endpoint := None |}]> peers)
  end.

Fixpoint generate_networks (size : nat) (peers : Z * Z) (config : gmap Z NetworkState)
    : M Gen (gmap Z NetworkState) :=
  match size with
  | O => mret config
  | Datatypes.S size =>
      port ← in_range PORT_RANGE;
      count ← in_range peers;
      home ← lift (parse_net "10.0.0.1/8");
      private ← new_privkey;
      own ← lift (parse_net "10.0.0.1/8");
      ps ← generate_peers home (Z.of_nat <$> seq 0 (Z.to_nat count)) ∅;
      generate_networks size peers
        (<[port := {| private_key := private; listen_port := port; mtu := NETWORK_MTU;
                      address := [own]; peers := ps; proxy := ∅ |}]> config)
  end.
Definition generate_config (size : nat) (peers : Z * Z) : M Gen GatewayConfig :=
  generate_networks size peers ∅.

Definition generate_partial_config (add remove : nat) (peers : Z * Z) (existing : list Z)
    : M Gen GatewayConfigPartial :=
  networks ← generate_config add peers;
  let config : gmap Z (option NetworkState) :=
    foldl (λ c e, <[e.1 := Some e.2]> c) ∅ (entries (networks : gmap Z NetworkState)) in
  chosen ← choose existing remove;
  mret (foldl (λ c port, <[port := None]> c) config chosen : gmap Z (option NetworkState)).
End generator.
Arguments Gen {_} R.

(** ** The test *)
Section tester.
Context `{T : Target} `{WK : WireguardKeys} `{UC : UrlCrate} `{IC : IpnetCrate} `{KP : !KeyPairs} `{IB : !IpnetBuild}
        {R : Type} `{RD : !Random R} {S : Type} `{HS : !Host S} `{PR : !Process S}
        {P : Type} `{PC : !Peer P} `{JS : !Json}.

(** What the test did to its machine: an operation, or a program with its
    arguments and whether it succeeded, if it could be run. *)
Inductive Step :=
| Did (o : Op)
| Ran (program : string) (args : list string) (success : option bool).

(** [te_world] is the machine of the test, [te_peer] its connection, and
    [te_steps] the log of its machine, kept by [operate] and [command]. *)
Record Tester := {
  te_gen : Gen R;
  te_world : World S;
  te_peer : P;
  te_steps : list Step
}.
Definition generating {A} (m : M (Gen R) A) : M Tester A := λ t,
  let '(o, g) := m (te_gen t) in
  (o, {| te_gen := g; te_world := te_world t; te_peer := te_peer t; te_steps := te_steps t |}).
(** A function of fractal-networking-wrappers, called by the test. *)
Definition operate (o : Op) : M Tester (resp o) := λ t,
  let '(r, w) := call o (te_world t) in
  (r, {| te_gen := te_gen t; te_world := w; te_peer := te_peer t; te_steps := te_steps t ++ [Did o] |}).
Definition on_peer {A} (m : M P A) : M Tester A := λ t,
  let '(o, p) := m (te_peer t) in
  (o, {| te_gen := te_gen t; te_world := te_world t; te_peer := p; te_steps := te_steps t |}).
Definition get_keys : M Tester (gmap Pubkey Privkey) := λ t, (Ok (g_keys (te_gen t)), t).

Definition post (text : string) : M P unit := λ p,
  let '(r, p) := peer_send text p in (match r with inl _ => Ok tt | inr e => Err e end, p).
Definition arrival : M P Arrival := λ p, let '(a, p) := peer_next p in (Ok a, p).

Definition err_missing : error := EMsg "Missing apply config response".
(** Not an error of the program: the wait was cut off. *)
Definition err_still_waiting : error := EMsg "(still waiting)".

(** [while let Some(Ok(message)) = websocket.next().await], [turns] times. *)
Fixpoint await_response (turns : nat) : M P (unit + string) :=
  match turns with
  | O => throw err_still_waiting
  | Datatypes.S turns =>
      message ← arrival;
      match message with
      | AText value =>
          value ← lift (response_of_json value);
          match value with
          | RespApply status => mret status
          | _ => await_response turns
          end
      | AOther => await_response turns
      | AError _ | AClosed => throw err_missing
      end
  end.
Definition request (turns : nat) (r : GatewayRequest) : M P (unit + string) :=
  text ← lift (json_of_request r);
  post text;;
  await_response turns.
Definition apply_config (turns : nat) (config : GatewayConfig) : M P (unit + string) :=
  request turns (ReqApply config).
Definition apply_partial_config (turns : nat) (config : GatewayConfigPartial) : M P (unit + string) :=
  request turns (ReqApplyPartial config).

(** [Command::output] *)
Definition command (program : string) (args : list string) : M Tester Output := λ t,
  let w := te_world t in
  let '(r, s) := run_command program args (w_host w) in
  (match r with inl a => Ok a | inr e => Err e end,
   {| te_gen := te_gen t; te_world := rehost s w; te_peer := te_peer t;
      te_steps := te_steps t ++
        [Ran program args (match r with inl a => Some (out_success a) | inr _ => None end)] |}).

Definition ping_host (netns : string) (host : IpAddr) : M Tester unit :=
  output ← command IP_PATH
    ["netns"; "exec"; netns; PING_PATH; "-f"; "-c"; "4"; "-W"; "0.1"; ip_to_string host];
  if out_success output then mret tt
  else throw (EMsg ("Error pinging " ++ ip_to_string host ++ " in " ++ netns ++ ": " ++ out_debug output)).

(** The namespace and the WireGuard configuration of a peer. *)
Definition peer_netns (port : Z) (pubkey : Pubkey) : string :=
  "network-" ++ dec port ++ "-" ++ pubkey_to_hex pubkey.
Definition peer_config (gateway : IpAddr) (port : Z) (network : NetworkState) (home : IpNet) (key : Privkey) : string :=
  join nl ["[Interface]"; "PrivateKey = " ++ privkey_to_string key; ""; "[Peer]";
           "PublicKey = " ++ pubkey_to_string (pubkey (private_key network));
           "Endpoint = " ++ ip_to_string gateway ++ ":" ++ dec port;
           "AllowedIPs = " ++ ipnet_to_string home; "PersistentKeepalive = 25"].

(** Both verifications bring a peer up before they ping; it answers the
    namespace and the address to ping. *)
Definition bring_up (gateway : IpAddr) (port : Z) (network : NetworkState) (public : Pubkey) (peer : PeerState)
    : M Tester (string * IpAddr) :=
  let netns := peer_netns port public in
  operate (NetnsAdd netns);;
  operate (WireguardCreate (Some netns) "wg0");;
  operate (InterfaceUp (Some netns) "wg0");;
  allowed ← lift (unwrap (head (ps_allowed_ips peer)));
  addr ← lift (match ipnet_addr allowed with
               | IpV4 a => n ← ok_or (EMsg "invalid IP prefix length") (ipv4net_new a 8); Ok (ipnet_of_v4 n)
               | IpV6 _ => Panic
               end);
  operate (AddrAdd (Some netns) "wg0" addr);;
  keys ← get_keys;
  key ← lift (unwrap (keys !! public));
  home ← lift (unwrap (head (address network)));
  operate (NetnsWriteFile netns "wireguard/wg0.conf" (peer_config gateway port network home key));;
  operate (WireguardSyncconf netns "wg0");;
  mret (netns, ipnet_addr home).

(** One peer of [verify_config], and of [verify_old_config]. *)
Definition verify_peer (gateway : IpAddr) (port : Z) (network : NetworkState) (e : Pubkey * PeerState) : M Tester unit :=
  target ← bring_up gateway port network e.1 e.2;
  ping_host target.1 target.2;;
  operate (NetnsDel target.1).
Definition verify_old_peer (gateway : IpAddr) (port : Z) (network : NetworkState) (e : Pubkey * PeerState) : M Tester unit :=
  target ← bring_up gateway port network e.1 e.2;
  result ← attempt (ping_host target.1 target.2);
  match result with
  | inl _ => throw (EMsg "Network is reachable")
  | inr _ => operate (NetnsDel target.1)
  end.
Definition verify_config (gateway : IpAddr) (config : GatewayConfig) : M Tester unit :=
  for_each (entries (config : gmap Z NetworkState)) (λ '(port, network),
    for_each (entries (peers network)) (verify_peer gateway port network)).
Definition verify_old_config (gateway : IpAddr) (config : GatewayConfig) : M Tester unit :=
  for_each (entries (config : gmap Z NetworkState)) (λ '(port, network),
    for_each (entries (peers network)) (verify_old_peer gateway port network)).

(** [assert!(response.is_ok())] *)
Definition assert_ok (response : unit + string) : M Tester unit :=
  lift (match response with inl _ => Ok tt | inr _ => Panic end).

Fixpoint rounds (n : nat) (round : GatewayConfig → M Tester GatewayConfig) (config : GatewayConfig)
    : M Tester GatewayConfig :=
  match n with
  | O => mret config
  | Datatypes.S n => config ← round config; rounds n round config
  end.

Definition round_apply (turns : nat) (gateway : IpAddr) (_ : GatewayConfig) : M Tester GatewayConfig :=
  config ← generating (generate_config 10 (0, 3));
  response ← on_peer (apply_config turns config);
  assert_ok response;;
  verify_config gateway config;;
  mret config.
(** Without the three seconds' sleep before the check. *)
Definition round_replace (turns : nat) (gateway : IpAddr) (config : GatewayConfig) : M Tester GatewayConfig :=
  new_config ← generating (generate_config 10 (0, 3));
  response ← on_peer (apply_config turns new_config);
  assert_ok response;;
  verify_old_config gateway config;;
  mret new_config.
Definition round_add (turns : nat) (gateway : IpAddr) (config : GatewayConfig) : M Tester GatewayConfig :=
  partial ← generating (generate_partial_config 10 0 (0, 3) []);
  let config := Client.apply_partial config partial in
  response ← on_peer (apply_partial_config turns partial);
  assert_ok response;;
  verify_config gateway config;;
  mret config.
Definition round_remove (turns : nat) (gateway : IpAddr) (config : GatewayConfig) : M Tester GatewayConfig :=
  partial ← generating (generate_partial_config 0 10 (0, 3) (map_keys (config : gmap Z NetworkState)));
  let config := Client.apply_partial config partial in
  response ← on_peer (apply_partial_config turns partial);
  assert_ok response;;
  verify_config gateway config;;
  mret config.

Definition apply_empty (turns : nat) : M Tester unit :=
  response ← on_peer (apply_config turns (∅ : gmap Z NetworkState));
  assert_ok response.

(** [let mut peer_keys = BTreeMap::new()] *)
Definition new_keys : M (Gen R) unit := λ g, (Ok tt, {| g_rng := g_rng g; g_keys := ∅ |}).
Definition run_tests (turns : nat) (gateway : IpAddr) : M Tester unit :=
  apply_empty turns;;
  generating new_keys;;
  config ← rounds 3 (round_apply turns gateway) (∅ : gmap Z NetworkState);
  config ← rounds 3 (round_replace turns gateway) config;
  config ← rounds 3 (round_add turns gateway) config;
  config ← rounds 3 (round_remove turns gateway) config;
  apply_empty turns.

(** The end of [main]: the gateway is told to stop, whatever the tests said. *)
Definition test_main (turns : nat) (gateway : IpAddr) : M Tester unit :=
  result ← attempt (run_tests turns gateway);
  text ← lift (json_of_request ReqShutdown);
  attempt (on_peer (post text));;
  match result with inl _ => mret tt | inr e => throw e end.

Context `{LS : !Listener P}.
Definition answered {A} (f : P → (A + error) * P) : M P A := λ p,
  let '(r, p) := f p in (match r with inl a => Ok a | inr e => Err e end, p).

(** [main] with the options it has parsed. *)
Definition connecting (options : TestOptions) : M Tester TestGlobal :=
  addresses ← on_peer (answered (lookup_host (to_gateway options)));
  address ← lift (unwrap (head (addresses : list SocketAddr)));
  let global := {| tg_options := options; tg_gateway := sock_ip address |} in
  on_peer (answered (listener_bind (to_listen (tg_options global))));;
  on_peer (answered listener_accept);;
  on_peer (answered accept_websocket);;
  mret global.
Definition integration_main (turns : nat) (options : TestOptions) : M Tester unit :=
  global ← connecting options;
  test_main turns (tg_gateway global).
End tester.
Arguments Tester {_ _ _} R S P.

(** ** What the generator makes *)
Section generated.
Context `{T : Target} `{WK : WireguardKeys} `{UC : UrlCrate} `{ICO : !IpnetCrateOk IC} `{KP : !KeyPairs}
        `{IBO : !IpnetBuildOk IB} {R : Type} `{RD : !Random R} `{RDO : !RandomOk R}.
Implicit Types g : Gen R.

Definition keys_ok (keys : gmap Pubkey Privkey) : Prop := ∀ k v, keys !! k = Some v → pubkey v = k.
Definition keys_grow (keys keys' : gmap Pubkey Privkey) : Prop :=
  (keys_ok keys → keys_ok keys') ∧ ∀ k, is_Some (keys !! k) → is_Some (keys' !! k).

#[global] Instance keys_grow_preorder : PreOrder keys_grow.
Proof.
  split; [by split|]. intros a b c [H1 H2] [H3 H4]. split; [auto|]. intros k Hk. auto.
Qed.
Lemma keys_grow_insert keys private : keys_grow keys (<[pubkey private := private]> keys).
Proof.
  split.
  - intros Hk k v [[<- <-]|[_ Hv]]%lookup_insert_Some; [done|by apply Hk].
  - intros k Hk. by apply lookup_insert_is_Some'; right.
Qed.

(** A generated peer, and a generated network. *)
Definition peer_fits (count : Z) (keys : gmap Pubkey Privkey) (k : Pubkey) (p : PeerState) : Prop :=
  is_Some (keys !! k) ∧ ∃ n net, 0 ≤ n < count ∧ ipnet_addr net = IpV4 (ipv4 10 0 0 2 + n) ∧
    p = {| ps_preshared_key := None; ps_allowed_ips := [net]; ps_endpoint := None |}.
Definition network_fits (count : Z) (keys : gmap Pubkey Privkey) (p : Z) (n : NetworkState) : Prop :=
  50000 ≤ p < 60000 ∧ listen_port n = p ∧ mtu n = NETWORK_MTU ∧ proxy n = ∅ ∧
  (∃ home, address n = [home] ∧ ipnet_addr home = IpV4 (ipv4 10 0 0 1)) ∧
  map_Forall (peer_fits count keys) (peers n).

Lemma peer_fits_grow count keys keys' k p :
  keys_grow keys keys' → peer_fits count keys k p → peer_fits count keys' k p.
Proof. intros [_ Hg] [Hk Hp]. split; auto. Qed.
Lemma network_fits_grow count keys keys' p n :
  keys_grow keys keys' → network_fits count keys p n → network_fits count keys' p n.
Proof.
  intros Hg (? & ? & ? & ? & ? & Hp). do 5 (split; [done|]).
  eapply map_Forall_impl; [done|]. intros k q. by apply peer_fits_grow.
Qed.

Lemma generate_peers_fit count home ns ps g :
  ipnet_addr home = IpV4 (ipv4 10 0 0 1) → count ≤ 2 ^ 16 → Forall (λ n, 0 ≤ n < count) ns →
  map_Forall (peer_fits count (g_keys g)) ps →
  ∃ ps' g', generate_peers home ns ps g = (Ok ps', g') ∧ keys_grow (g_keys g) (g_keys g') ∧
    map_Forall (peer_fits count (g_keys g')) ps'.
Proof.
  intros Hhome Hcount Hns. revert ps g. induction Hns as [|n ns Hn _ IH]; intros ps g Hps; cbn [generate_peers].
  { by exists ps, g. }
  assert (Hoff : cast_width 32 n = n) by (apply Z.mod_small; lia).
  assert (Haddr : ipv4_saturating_add (ipv4 10 0 0 1) (1 + n) = ipv4 10 0 0 2 + n).
  { rewrite ipv4_saturating_add_spec by (unfold in_width, ipv4; lia). unfold ipv4. lia. }
  rewrite Hhome, Hoff, at_width_id by (unfold in_width; lia).
  cbn [mbind outcome_bind]. rewrite Haddr. unfold mbind at 1, M_bind at 1. cbn [lift].
  destruct (ipnet_new_spec (IpV4 (ipv4 10 0 0 2 + n)) 32) as (net & Hnet & Hna); [lia|].
  rewrite Hnet. unfold mbind at 1, M_bind at 1. cbn [lift unwrap].
  unfold mbind at 1, M_bind at 1, new_privkey. destruct (privkey_generate (g_rng g)) as [private rng].
  unfold mbind at 1, M_bind at 1, keep_key. cbn [g_keys g_rng].
  pose proof (keys_grow_insert (g_keys g) private) as Hgrow.
  destruct (IH (<[pubkey private := {| ps_preshared_key := None; ps_allowed_ips := [net]; ps_endpoint := None |}]> ps)
    {| g_rng := rng; g_keys := <[pubkey private := private]> (g_keys g) |}) as (ps' & g' & Hrun & Hg' & Hps').
  { apply map_Forall_insert_2.
    - split; [cbn [g_keys]; by rewrite lookup_insert_eq|]. by exists n, net.
    - eapply map_Forall_impl; [done|]. intros k q. by apply peer_fits_grow. }
  exists ps', g'. split; [done|]. split; [|done]. by etrans.
Qed.

Lemma parse_home : ∃ n, parse_net "10.0.0.1/8" = Ok n ∧ ipnet_addr n = IpV4 (ipv4 10 0 0 1).
Proof. destruct ipnet_home as (n & Hn & Ha). exists n. unfold parse_net. by rewrite Hn. Qed.

Lemma in_range_fits lo hi g : lo < hi →
  ∃ z rng, in_range (lo, hi) g = (Ok z, {| g_rng := rng; g_keys := g_keys g |}) ∧ lo ≤ z < hi.
Proof.
  intros Hr. unfold in_range. cbn [fst snd]. rewrite decide_True by done.
  pose proof (gen_range_in lo hi (g_rng g) Hr) as Hz. destruct (gen_range _ _) as [z rng]. by exists z, rng.
Qed.

Lemma generate_networks_fit size count config g :
  0 < count ≤ 2 ^ 16 → map_Forall (network_fits count (g_keys g)) config →
  ∃ config' g', generate_networks size (0, count) config g = (Ok config', g') ∧
    keys_grow (g_keys g) (g_keys g') ∧ map_Forall (network_fits count (g_keys g')) config' ∧
    (base.size config' ≤ base.size config + size)%nat.
Proof.
  intros Hcount. revert config g. induction size as [|size IH]; intros config g Hc; cbn [generate_networks].
  { exists config, g. do 3 (split; [done|]). lia. }
  unfold mbind at 1, M_bind at 1.
  change PORT_RANGE with (50000, 60000).
  destruct (in_range_fits 50000 60000 g) as (port & rng & -> & Hport); [lia|].
  unfold mbind at 1, M_bind at 1.
  destruct (in_range_fits 0 count {| g_rng := rng; g_keys := g_keys g |}) as (k & rng1 & -> & Hk); [lia|].
  destruct parse_home as (home & Hhome & Ha). rewrite Hhome.
  unfold mbind at 1, M_bind at 1. cbn [lift].
  unfold mbind at 1, M_bind at 1, new_privkey. cbn [g_rng g_keys].
  destruct (privkey_generate rng1) as [private rng2].
  unfold mbind at 1, M_bind at 1. cbn [lift].
  destruct (generate_peers_fit count home (Z.of_nat <$> seq 0 (Z.to_nat k)) ∅ {| g_rng := rng2; g_keys := g_keys g |})
    as (ps & g1 & Hps & Hgrow & Hfit); [done|lia| |by apply map_Forall_empty|].
  { apply Forall_fmap, Forall_seq. cbn. lia. }
  unfold mbind at 1, M_bind at 1. rewrite Hps. cbn [g_keys] in Hgrow.
  set (n := {| private_key := private; listen_port := port; mtu := NETWORK_MTU; address := [home]; peers := ps; proxy := ∅ |}).
  destruct (IH (<[port := n]> config) g1) as (config' & g' & Hrun & Hgrow' & Hfit' & Hsize).
  { apply map_Forall_insert_2.
    - split; [lia|]. do 3 (split; [done|]). split; [by exists home|done].
    - eapply map_Forall_impl; [done|]. intros p m. by apply network_fits_grow. }
  exists config', g'. split; [done|]. split; [by etrans|]. split; [done|].
  etrans; [done|]. enough (base.size (<[port := n]> config) ≤ Datatypes.S (base.size config))%nat by lia.
  rewrite map_size_insert. destruct (config !! port); cbn; lia.
Qed.

Lemma network_fits_servable count keys p n : network_fits count keys p n → servable n.
Proof.
  intros (Hp & Hport & _ & Hproxy & (home & Ha & _) & _).
  assert (Hpx : proxied n = []) by (unfold proxied; by rewrite Hproxy, entries_empty).
  split; [split|split]; [unfold in_width; lia|by rewrite Hpx|by rewrite Ha|by rewrite Hpx].
Qed.

Lemma fits_well_ported count keys config : map_Forall (network_fits count keys) config → well_ported config.
Proof. intros Hc p n Hn. by destruct (Hc p n Hn) as (_ & ? & _). Qed.
Lemma fits_config_servable count keys config : map_Forall (network_fits count keys) config → config_servable config.
Proof. intros Hc p n Hn. by eapply network_fits_servable, Hc. Qed.
Lemma fits_servable count keys config :
  map_Forall (network_fits count keys) config → Forall servable (networks_of config).
Proof.
  intros Hc. rewrite well_ported_networks by by eapply fits_well_ported.
  by eapply config_servable_values, fits_config_servable.
Qed.

Lemma generate_config_fit size count g :
  0 < count ≤ 2 ^ 16 →
  ∃ (config : gmap Z NetworkState) g', generate_config size (0, count) g = (Ok config, g') ∧
    keys_grow (g_keys g) (g_keys g') ∧ map_Forall (network_fits count (g_keys g')) config ∧
    (base.size config ≤ size)%nat.
Proof.
  intros Hcount. destruct (generate_networks_fit size count ∅ g Hcount) as (config & g' & Hrun & Hg & Hf & Hs);
    [by apply map_Forall_empty|]. exists config, g'. rewrite map_size_empty in Hs. by split_and!.
Qed.

(** C37: the configurations of the integration test are generated without
    failing and stay within the limits: at most as many networks as asked
    for, in the port range, each carrying the port it is listed under and the
    home address, every peer with one address of its own choosing and with a
    private key the test has kept.  So every network can be served, and the
    test never meets the case in which the listen port differs from the key. *)
Theorem generate_config_fits size count g :
  0 < count ≤ 2 ^ 16 → keys_ok (g_keys g) →
  ∃ (config : gmap Z NetworkState) g', generate_config size (0, count) g = (Ok config, g') ∧
    (base.size config ≤ size)%nat ∧ keys_ok (g_keys g') ∧
    map_Forall (network_fits count (g_keys g')) config ∧
    well_ported config ∧ Forall servable (networks_of config).
Proof.
  intros Hcount Hk. destruct (generate_config_fit size count g Hcount) as (config & g' & Hrun & [Hg _] & Hf & Hs).
  exists config, g'. split; [done|]. split; [done|]. split; [by apply Hg|]. split; [done|].
  split; [by eapply fits_well_ported|by eapply fits_servable].
Qed.

(** *** Partial configurations *)
Lemma lookup_foldl_removed (l : list Z) (c : gmap Z (option NetworkState)) p :
  foldl (λ c port, <[port := None]> c) c l !! p = if decide (p ∈ l) then Some None else c !! p.
Proof.
  revert c. induction l as [|q l IH]; intros c; cbn [foldl]; [by rewrite decide_False by set_solver|].
  rewrite IH. destruct (decide (p ∈ l)) as [Hin|Hin].
  - by rewrite decide_True by set_solver.
  - destruct (decide (p = q)) as [->|Hne].
    + by rewrite lookup_insert_eq, decide_True by set_solver.
    + by rewrite lookup_insert_ne, decide_False by set_solver.
Qed.

Lemma lookup_foldl_added (l : list (Z * NetworkState)) (c : gmap Z (option NetworkState)) p on :
  foldl (λ c e, <[e.1 := Some e.2]> c) c l !! p = Some on →
  c !! p = Some on ∨ ∃ n, on = Some n ∧ (p, n) ∈ l.
Proof.
  revert c. induction l as [|[q m] l IH]; intros c; cbn [foldl]; [by left|].
  intros [Hc|(n & -> & Hn)]%IH; [|right; exists n; split; [done|by right]].
  apply lookup_insert_Some in Hc as [[<- <-]|[_ Hc]]; [|by left].
  right. exists m. split; [done|]. left.
Qed.

Definition partial_fits (count : Z) (keys : gmap Pubkey Privkey) (existing : list Z)
    (partial : gmap Z (option NetworkState)) : Prop := ∀ p on, partial !! p = Some on →
  match on with Some n => network_fits count keys p n | None => p ∈ existing end.

Lemma generate_partial_fit add remove count existing g :
  0 < count ≤ 2 ^ 16 →
  ∃ (partial : gmap Z (option NetworkState)) g', generate_partial_config add remove (0, count) existing g = (Ok partial, g') ∧
    keys_grow (g_keys g) (g_keys g') ∧ partial_fits count (g_keys g') existing partial.
Proof.
  intros Hcount. unfold generate_partial_config. unfold mbind at 1, M_bind at 1.
  destruct (generate_config_fit add count g Hcount) as (config & g1 & -> & Hgrow & Hfit & _).
  unfold mbind at 1, M_bind at 1, choose.
  pose proof (choose_multiple_in existing remove (g_rng g1)) as Hin.
  destruct (choose_multiple _ _ _) as [chosen rng]. cbn [fst] in Hin.
  eexists _, _. split; [done|]. split; [done|]. intros p on Hp. cbn [g_keys].
  rewrite lookup_foldl_removed in Hp. destruct (decide (p ∈ chosen)) as [Hc|].
  - injection Hp as <-. by eapply elem_of_submseteq.
  - apply lookup_foldl_added in Hp as [Hp|(m & -> & Hm%elem_of_entries)]; [by rewrite lookup_empty in Hp|].
    by apply Hfit.
Qed.

(** The partial configurations of the test are generated without failing;
    they add networks within the limits and remove only ports out of the given
    ones, so that each entry can be applied. *)
Theorem generate_partial_config_fits add remove count existing g :
  0 < count ≤ 2 ^ 16 → Forall (λ p, 0 ≤ p) existing →
  ∃ (partial : gmap Z (option NetworkState)) g', generate_partial_config add remove (0, count) existing g = (Ok partial, g') ∧
    partial_fits count (g_keys g') existing partial ∧ Forall entry_ok (entries partial).
Proof.
  intros Hcount Hex. destruct (generate_partial_fit add remove count existing g Hcount)
    as (partial & g' & Hrun & _ & Hfit).
  exists partial, g'. split; [done|]. split; [done|]. apply Forall_forall. intros [p on] Hp%elem_of_entries.
  specialize (Hfit p on Hp). rewrite Forall_forall in Hex. destruct on as [n|].
  - pose proof Hfit as ((Hlo & _) & Hport & _). split; [cbn; lia|]. cbn. intros m [= <-].
    split; [done|]. by eapply network_fits_servable.
  - split; [by apply Hex|done].
Qed.
End generated.

(** ** What the verifications verify *)
Class ProcessOk `{WireguardKeys} `{IpnetCrate} `{RegexCrate} (S : Type) `{!Host S} `{!HostOk S} `{!Process S} : Prop :=
  run_keeps program args s : view (run_command program args s).2 = view s.

Section verified.
Context `{T : Target} `{WK : WireguardKeys} `{UC : UrlCrate} `{IC : IpnetCrate} `{RC : RegexCrate}
        `{KP : !KeyPairs} `{IB : !IpnetBuild} {R : Type} `{RD : !Random R} {S : Type} `{HS : !Host S}
        `{HK : !HostOk S} `{PR : !Process S} `{PO : !ProcessOk S} {P : Type} `{PC : !Peer P} `{JS : !Json}.
Implicit Types t : Tester R S P.

Definition netns_of t : gset string := k_netns (kernel_of (te_world t)).

Lemma operate_Ok o t r t' :
  operate o t = (Ok r, t') →
  kstep o (kernel_of (te_world t)) r (kernel_of (te_world t')) ∧
  te_steps t' = (te_steps t ++ [Did o])%list ∧ te_gen t' = te_gen t.
Proof.
  unfold operate. destruct (call o (te_world t)) as [[a|e|] w] eqn:Hc; intros [= -> <-]. cbn.
  by apply call_Ok in Hc as [_ ?].
Qed.

(** Only these two operations change the set of namespaces. *)
Lemma netns_step o k r k' :
  kstep o k r k' → (∀ ns, o ≠ NetnsAdd ns) → (∀ ns, o ≠ NetnsDel ns) → k_netns k' = k_netns k.
Proof.
  intros Hs Ha Hd. destruct o; cbn in Hs; try (by edestruct Ha); try (by edestruct Hd);
    repeat match goal with
      | H : _ ∧ _ |- _ => destruct H
      | H : ∃ _, _ |- _ => destruct H
      | H : with_link _ _ _ _ |- _ => destruct H as (? & _ & ?)
      end; by subst.
Qed.

(** From [t] to [t'] the test did [steps], with [ns] namespaces at the end. *)
Definition did t (steps : list Step) (ns : gset string) t' : Prop :=
  te_steps t' = (te_steps t ++ steps)%list ∧ te_gen t' = te_gen t ∧ netns_of t' = ns.

Lemma did_trans t1 l1 n1 t2 l2 n2 t3 : did t1 l1 n1 t2 → did t2 l2 n2 t3 → did t1 (l1 ++ l2) n2 t3.
Proof. intros (H1 & Hg1 & _) (H2 & Hg2 & Hn). split; [by rewrite H2, H1, app_assoc|]. by rewrite Hg2. Qed.
Lemma operate_did o t r t' :
  operate o t = (Ok r, t') → (∀ ns, o ≠ NetnsAdd ns) → (∀ ns, o ≠ NetnsDel ns) → did t [Did o] (netns_of t) t'.
Proof. intros (Hk & Hs & Hg)%operate_Ok Ha Hd. split; [done|]. split; [done|]. by eapply netns_step. Qed.

Lemma command_did program args t o t' :
  command program args t = (o, t') → o ≠ Panic ∧
  did t [Ran program args (match o with Ok out => Some (out_success out) | _ => None end)] (netns_of t) t'.
Proof.
  unfold command, did, netns_of, kernel_of. pose proof (run_keeps program args (w_host (te_world t))) as Hv.
  destruct (run_command _ _ _) as [[out|e] s]; intros [= <- <-]; cbn in *; by rewrite Hv.
Qed.

(** *** What is expected of a visit *)
Definition ping_command (netns : string) (host : IpAddr) (success : option bool) : Step :=
  Ran "ip" ["netns"; "exec"; netns; "ping"; "-f"; "-c"; "4"; "-W"; "0.1"; ip_to_string host] success.

(** In a namespace made for it the peer gets a WireGuard interface with its
    address, its own key and the gateway as its peer; from there the home
    address is pinged; and the namespace is removed. *)
Definition visit (keys : gmap Pubkey Privkey) (gateway : IpAddr) (port : Z) (network : NetworkState)
    (e : Pubkey * PeerState) (success : option bool) (steps : list Step) : Prop :=
  ∃ home allowed a net key,
    head (address network) = Some home ∧ head (ps_allowed_ips e.2) = Some allowed ∧
    ipnet_addr allowed = IpV4 a ∧ ipv4net_new a 8 = Some net ∧ keys !! e.1 = Some key ∧
    let netns := "network-" ++ dec port ++ "-" ++ pubkey_to_hex e.1 in
    steps = [Did (NetnsAdd netns); Did (WireguardCreate (Some netns) "wg0"); Did (InterfaceUp (Some netns) "wg0");
             Did (AddrAdd (Some netns) "wg0" (ipnet_of_v4 net));
             Did (NetnsWriteFile netns "wireguard/wg0.conf"
               ("[Interface]" ++ nl ++ "PrivateKey = " ++ privkey_to_string key ++ nl ++ nl ++ "[Peer]" ++ nl ++
                "PublicKey = " ++ pubkey_to_string (pubkey (private_key network)) ++ nl ++
                "Endpoint = " ++ ip_to_string gateway ++ ":" ++ dec port ++ nl ++
                "AllowedIPs = " ++ ipnet_to_string home ++ nl ++ "PersistentKeepalive = 25"));
             Did (WireguardSyncconf netns "wg0");
             ping_command netns (ipnet_addr home) success; Did (NetnsDel netns)].

Lemma peer_config_lines gateway port network home key :
  peer_config gateway port network home key =
  "[Interface]" ++ nl ++ "PrivateKey = " ++ privkey_to_string key ++ nl ++ nl ++ "[Peer]" ++ nl ++
  "PublicKey = " ++ pubkey_to_string (pubkey (private_key network)) ++ nl ++
  "Endpoint = " ++ ip_to_string gateway ++ ":" ++ dec port ++ nl ++
  "AllowedIPs = " ++ ipnet_to_string home ++ nl ++ "PersistentKeepalive = 25".
Proof. unfold peer_config, join. cbn [String.concat]. by rewrite !string_app_assoc. Qed.

Ltac did_step H :=
  let Hd := fresh "Hd" in
  (apply bind_Ok_inv in H as ([] & ? & (Hd & H)); apply operate_did in Hd; [|done..]).

(** [bring_up] does the first half. *)
Lemma bring_up_Ok gateway port network e t target t' :
  bring_up gateway port network e.1 e.2 t = (Ok target, t') →
  (target.1 ∉ netns_of t) ∧ ∃ steps, did t steps (netns_of t ∪ {[ target.1 ]}) t' ∧
    ∀ success, visit (g_keys (te_gen t)) gateway port network e success
      (steps ++ [ping_command target.1 target.2 success; Did (NetnsDel target.1)]).
Proof.
  unfold bring_up. intros ([] & t1 & (Hk & Hs1 & Hg1)%operate_Ok & Hr)%bind_Ok_inv.
  destruct Hk as (Hnew & Hns & _).
  assert (H1 : did t [Did (NetnsAdd (peer_netns port e.1))] (netns_of t ∪ {[ peer_netns port e.1 ]}) t1) by done.
  do 2 did_step Hr.
  apply bind_Ok_inv in Hr as (allowed & ? & [= Hallowed ->] & Hr). apply unwrap_Ok in Hallowed.
  apply bind_Ok_inv in Hr as (addr & ? & [= Haddr ->] & Hr). did_step Hr.
  apply bind_Ok_inv in Hr as (keys & ? & [= <- ->] & Hr).
  apply bind_Ok_inv in Hr as (key & ? & [= Hkey ->] & Hr). apply unwrap_Ok in Hkey.
  apply bind_Ok_inv in Hr as (home & ? & [= Hhome ->] & Hr). apply unwrap_Ok in Hhome.
  do 2 did_step Hr. injection Hr as <- <-. cbn [fst snd].
  destruct (ipnet_addr allowed) as [a|] eqn:Ha; [|done].
  destruct (ipv4net_new a 8) as [net|] eqn:Hnet; [|done]. injection Haddr as <-.
  pose proof (did_trans _ _ _ _ _ _ _ H1 Hd) as H2. pose proof (did_trans _ _ _ _ _ _ _ H2 Hd0) as H3.
  pose proof (did_trans _ _ _ _ _ _ _ H3 Hd1) as H4. pose proof (did_trans _ _ _ _ _ _ _ H4 Hd2) as H5.
  pose proof (did_trans _ _ _ _ _ _ _ H5 Hd3) as (Hs & Hg & Hn).
  split; [done|]. eexists. split; [split; [exact Hs|]; split; [exact Hg|]|].
  - destruct H5 as (_ & _ & H5), H4 as (_ & _ & H4), H3 as (_ & _ & H3), H2 as (_ & _ & H2), H1 as (_ & _ & H1).
    congruence.
  - destruct H4 as (_ & Hg4 & _). rewrite Hg4 in Hkey. intros success. exists home, allowed, a, net, key.
    do 5 (split; [done|]). by rewrite <-peer_config_lines.
Qed.

Lemma ping_host_done netns host t r t' :
  attempt (ping_host netns host) t = (Ok r, t') →
  ∃ success, did t [ping_command netns host success] (netns_of t) t' ∧
    (match r with inl _ => success = Some true | inr _ => success ≠ Some true end).
Proof.
  unfold attempt, ping_host. unfold mbind at 1, M_bind at 1.
  destruct (command _ _ t) as [o t1] eqn:Hc. apply command_did in Hc as [Ho Hd].
  destruct o as [out|e|]; [|intros [= <- <-]; by exists None|done].
  destruct (out_success out) eqn:Hs; cbn in Hd; rewrite ?Hs in Hd; intros [= <- <-]; by eexists.
Qed.

Lemma netns_del_done ns t r t' :
  operate (NetnsDel ns) t = (Ok r, t') → did t [Did (NetnsDel ns)] (netns_of t ∖ {[ ns ]}) t'.
Proof. by intros ((Hns & _) & Hs & Hg)%operate_Ok. Qed.

(** The second half. *)
Lemma visit_done gateway port network e t target t1 r t2 u t' :
  bring_up gateway port network e.1 e.2 t = (Ok target, t1) →
  attempt (ping_host target.1 target.2) t1 = (Ok r, t2) →
  operate (NetnsDel target.1) t2 = (Ok u, t') →
  ∃ success steps, did t steps (netns_of t) t' ∧
    visit (g_keys (te_gen t)) gateway port network e success steps ∧
    (match r with inl _ => success = Some true | inr _ => success ≠ Some true end).
Proof.
  intros (Hnew & steps & H1 & Hv)%bring_up_Ok (success & H2 & Hs)%ping_host_done H3%netns_del_done.
  exists success, (steps ++ [ping_command target.1 target.2 success; Did (NetnsDel target.1)])%list.
  split; [|done]. pose proof (did_trans _ _ _ _ _ _ _ H1 (did_trans _ _ _ _ _ _ _ H2 H3)) as (Hs' & Hg & Hn).
  split; [done|]. split; [done|]. destruct H1 as (_ & _ & Hn1), H2 as (_ & _ & Hn2). rewrite Hn, Hn2, Hn1. set_solver.
Qed.

Lemma verify_peer_Ok gateway port network e t t' :
  verify_peer gateway port network e t = (Ok tt, t') →
  ∃ steps, did t steps (netns_of t) t' ∧
    visit (g_keys (te_gen t)) gateway port network e (Some true) steps.
Proof.
  unfold verify_peer. intros (target & t1 & Hup & ([] & t2 & Hping & Hdel)%bind_Ok_inv)%bind_Ok_inv.
  destruct (visit_done gateway port network e t target t1 (inl tt) t2 tt t') as (s & steps & Hd & Hv & ->);
    [done|by unfold attempt; rewrite Hping|done|]. by exists steps.
Qed.

Lemma verify_old_peer_Ok gateway port network e t t' :
  verify_old_peer gateway port network e t = (Ok tt, t') →
  ∃ steps, did t steps (netns_of t) t' ∧ ∃ success, success ≠ Some true ∧
    visit (g_keys (te_gen t)) gateway port network e success steps.
Proof.
  unfold verify_old_peer. intros (target & t1 & Hup & (r & t2 & Hping & Hr)%bind_Ok_inv)%bind_Ok_inv.
  destruct r as [|err]; [done|].
  destruct (visit_done gateway port network e t target t1 (inr err) t2 tt t') as (s & steps & Hd & Hv & Hs);
    [done..|]. exists steps. split; [done|]. by exists s.
Qed.

(** The loops over networks and peers. *)
Lemma verified_loop {A} (l : list A) (f : A → M (Tester R S P) unit) keys (Q : A → list Step → Prop) t t' :
  (∀ x t1 t2, f x t1 = (Ok tt, t2) → g_keys (te_gen t1) = keys → ∃ steps, did t1 steps (netns_of t1) t2 ∧ Q x steps) →
  g_keys (te_gen t) = keys → for_each l f t = (Ok tt, t') →
  ∃ visits, did t (concat visits) (netns_of t) t' ∧ Forall2 Q l visits.
Proof.
  intros Hf. revert t. induction l as [|x l IH]; intros t Hk Hr; cbn [for_each] in Hr.
  { injection Hr as <-. exists []. split; [|constructor]. split; [by rewrite app_nil_r|done]. }
  apply bind_Ok_inv in Hr as ([] & t1 & H1 & Hr).
  destruct (Hf x t t1 H1 Hk) as (steps & Hd & HQ).
  destruct (IH t1) as (visits & Hd' & HF); [by destruct Hd as (_ & -> & _)|done|].
  exists (steps :: visits). split; [|by constructor]. cbn.
  assert (netns_of t1 = netns_of t) as Hn by apply Hd. rewrite Hn in Hd'. by eapply did_trans.
Qed.

(** What was done for a configuration: a visit for each peer of each network,
    in the order of the maps. *)
Definition network_visits (ok : option bool → Prop) (keys : gmap Pubkey Privkey) (gateway : IpAddr)
    (e : Z * NetworkState) (visits : list (list Step)) : Prop :=
  Forall2 (λ p steps, ∃ success, ok success ∧ visit keys gateway e.1 e.2 p success steps) (entries (peers e.2)) visits.
Definition visits_of (ok : option bool → Prop) (keys : gmap Pubkey Privkey) (gateway : IpAddr) (config : GatewayConfig)
    (steps : list Step) : Prop :=
  ∃ networks : list (list (list Step)), steps = concat (@concat Step <$> networks) ∧
    Forall2 (network_visits ok keys gateway) (entries (config : gmap Z NetworkState)) networks.

Lemma visits_networks (l : list (Z * NetworkState)) (Q : Z * NetworkState → list (list Step) → Prop) flat :
  Forall2 (λ e steps, ∃ visits, steps = concat visits ∧ Q e visits) l flat →
  ∃ networks, flat = @concat Step <$> networks ∧ Forall2 Q l networks.
Proof.
  induction 1 as [|e steps l flat (visits & -> & HQ) _ (networks & -> & HF)]; [by exists []|].
  exists (visits :: networks). split; [done|by constructor].
Qed.

Lemma verified_visits (ok : option bool → Prop) (f : Z → NetworkState → Pubkey * PeerState → M (Tester R S P) unit)
    gateway (config : GatewayConfig) t t' :
  (∀ port network e t1 t2, f port network e t1 = (Ok tt, t2) → ∃ steps, did t1 steps (netns_of t1) t2 ∧
     ∃ success, ok success ∧ visit (g_keys (te_gen t1)) gateway port network e success steps) →
  for_each (entries (config : gmap Z NetworkState)) (λ '(port, network),
    for_each (entries (peers network)) (f port network)) t = (Ok tt, t') →
  ∃ steps, did t steps (netns_of t) t' ∧ visits_of ok (g_keys (te_gen t)) gateway config steps.
Proof.
  intros Hf Hr.
  apply (verified_loop _ _ (g_keys (te_gen t))
    (λ e steps, ∃ visits, steps = concat visits ∧ network_visits ok (g_keys (te_gen t)) gateway e visits))
    in Hr as (flat & Hd & HF); [| |done].
  - apply visits_networks in HF as (networks & -> & HF). eexists. split; [done|]. by exists networks.
  - intros [port network] t1 t2 Hn Hk.
    apply (verified_loop _ _ (g_keys (te_gen t)) (λ p steps, ∃ success, ok success ∧
      visit (g_keys (te_gen t)) gateway port network p success steps)) in Hn as (visits & Hd & HF); [| |done].
    + eexists. split; [done|]. by exists visits.
    + intros e t3 t4 He Hk'. rewrite <-Hk'. by apply (Hf port network e).
Qed.

(** C38: [verify_config] verifies what it says.  When it succeeds, what the
    test did to its machine is, for every peer of every network in the order
    of the maps, one visit: a namespace is made for the peer, with a WireGuard
    interface that has the peer's address, its kept key and the gateway as
    endpoint; the program run is `ip netns exec <namespace> ping ...` on the
    home address of the network, and it succeeded; and the namespace is
    removed.  The namespaces of the machine are those it had before, and the
    keys are unchanged. *)
Theorem verify_config_verifies gateway (config : GatewayConfig) t t' :
  verify_config gateway config t = (Ok tt, t') →
  netns_of t' = netns_of t ∧ te_gen t' = te_gen t ∧
  ∃ steps, te_steps t' = (te_steps t ++ steps)%list ∧
    visits_of (λ success, success = Some true) (g_keys (te_gen t)) gateway config steps.
Proof.
  intros (steps & (Hs & Hg & Hn) & Hv)%(verified_visits (λ success, success = Some true) _ gateway).
  - split; [done|]. split; [done|]. by exists steps.
  - intros port network e t1 t2 (l & Hd & Hv)%verify_peer_Ok. exists l. split; [done|]. by exists (Some true).
Qed.

(** When [verify_old_config] succeeds, the same was done except that no ping
    succeeded.  It says no more than that: a ping that could not be run counts
    as unreachable. *)
Theorem verify_old_config_verifies gateway (config : GatewayConfig) t t' :
  verify_old_config gateway config t = (Ok tt, t') →
  netns_of t' = netns_of t ∧ te_gen t' = te_gen t ∧
  ∃ steps, te_steps t' = (te_steps t ++ steps)%list ∧
    visits_of (λ success, success ≠ Some true) (g_keys (te_gen t)) gateway config steps.
Proof.
  intros (steps & (Hs & Hg & Hn) & Hv)%(verified_visits (λ success, success ≠ Some true) _ gateway).
  - split; [done|]. split; [done|]. by exists steps.
  - intros port network e t1 t2 Hr%verify_old_peer_Ok. done.
Qed.
End verified.

(** ** Witnesses *)
Section witnesses.
#[local] Existing Instances sample_keys sample_url sample_ipnet sample_base32 sample_regex sample_tera.
#[local] Existing Instances sample_keys_ok sample_url_ok sample_ipnet_ok sample_base32_ok
  sample_regex_ok sample_tera_ok.
#[local] Existing Instances release64 sample_order sample_order_ok sample_json.

Definition sample_pairs : KeyPairs := {| pubkey k := k; pubkey_to_hex := key_text |}.
Definition sample_build : IpnetBuild := {|
  ipnet_new a p := if decide (p ≤ 128) then Some (SNet a p : IpNet) else None;
  ipv6_saturating_add a n := Z.min (a + n) (2 ^ 128 - 1)
|}.
#[local] Existing Instances sample_pairs sample_build.
Lemma sample_build_ok : IpnetBuildOk sample_build.
Proof.
  split.
  - intros a p Hp. exists (SNet a p). split; [|done]. cbn. by rewrite decide_True by lia.
  - by exists (SNet (IpV4 (ipv4 10 0 0 1)) 8).
Qed.
#[local] Existing Instance sample_build_ok.

(** Randomness that counts, and randomness that does not move. *)
Definition counting : Random nat := {|
  gen_range r n := (r.1 + Z.of_nat n mod (r.2 - r.1), Datatypes.S n);
  privkey_generate n := ((if decide (Z.of_nat n mod 2 = 0) then KA else KB) : Privkey, Datatypes.S n);
  choose_multiple l k n := (take k l, n)
|}.
Definition standing : Random unit := {|
  gen_range r _ := (r.1, tt);
  privkey_generate _ := (KB : Privkey, tt);
  choose_multiple l k _ := (take k l, tt)
|}.
#[local] Existing Instances counting standing.
Lemma counting_ok : RandomOk nat.
Proof.
  split.
  - intros lo hi n Hr. cbn. pose proof (Z.mod_pos_bound (Z.of_nat n) (hi - lo)). lia.
  - intros l k n. cbn. rewrite <-(take_drop k l) at 2. by apply submseteq_inserts_r.
Qed.
Lemma standing_ok : RandomOk unit.
Proof.
  split; [intros lo hi []; cbn; lia|].
  intros l k []. cbn. rewrite <-(take_drop k l) at 2. by apply submseteq_inserts_r.
Qed.
#[local] Existing Instances counting_ok standing_ok.

Definition fresh_gen : Gen nat := {| g_rng := 0%nat; g_keys := ∅ |}.
Lemma generate_config_fits_witness :
  ∃ (config : gmap Z NetworkState) g', generate_config 10 (0, 3) fresh_gen = (Ok config, g') ∧
    (base.size config ≤ 10)%nat ∧ keys_ok (g_keys g') ∧
    map_Forall (network_fits 3 (g_keys g')) config ∧
    well_ported config ∧ Forall servable (networks_of config).
Proof.
  apply (generate_config_fits 10 3 fresh_gen); [lia|].
  intros k v Hk. change ((∅ : gmap Pubkey Privkey) !! k = Some v) in Hk. by rewrite lookup_empty in Hk.
Defined.

Lemma generate_partial_config_fits_witness :
  ∃ (partial : gmap Z (option NetworkState)) g',
    generate_partial_config 2 1 (0, 3) [50004; 7] fresh_gen = (Ok partial, g') ∧
    partial_fits 3 (g_keys g') [50004; 7] partial ∧ Forall entry_ok (entries partial).
Proof. apply (generate_partial_config_fits 2 1 3 [50004; 7] fresh_gen); [lia|]. by repeat constructor. Defined.

(** A machine on which every ping answers, or none does. *)
Definition answering (b : bool) : Process Machine := λ _ _ m, (inl {| out_success := b; out_debug := "" |}, m).
#[local] Instance silent_peer : Peer unit := {| peer_send _ p := (inl tt, p); peer_next p := (AClosed, p) |}.

Definition gateway_ip : IpAddr := IpV4 (ipv4 172 20 0 2).
Definition tester : Tester unit Machine unit := {|
  te_gen := {| g_rng := tt; g_keys := {[ (KB : Pubkey) := (KB : Privkey) ]} |};
  te_world := world_on empty_machine; te_peer := tt; te_steps := [] |}.
Definition pinged_config : GatewayConfig := ({[ 50000 := {|
  private_key := (KA : Privkey); listen_port := 50000; mtu := 1420;
  address := [SNet (IpV4 (ipv4 10 0 0 1)) 8 : IpNet];
  peers := {[ (KB : Pubkey) := {| ps_preshared_key := None;
    ps_allowed_ips := [SNet (IpV4 (ipv4 10 0 0 2)) 32 : IpNet]; ps_endpoint := None |} ]};
  proxy := ∅ |} ]} : gmap Z NetworkState).

Definition verified : outcome unit * Tester unit Machine unit :=
  verify_config (PR := answering true) gateway_ip pinged_config tester.
Lemma verified_ok : verify_config (PR := answering true) gateway_ip pinged_config tester = (Ok tt, verified.2).
Proof. assert (verified.1 = Ok tt) as <- by (vm_compute; reflexivity). apply surjective_pairing. Qed.
Definition program_run (step : Step) : option (string * list string * option bool) :=
  match step with Did _ => None | Ran program args success => Some (program, args, success) end.
Lemma answering_ok b : ProcessOk (Process0 := answering b) Machine.
Proof. done. Qed.

Lemma verify_config_verifies_witness :
  omap program_run (te_steps verified.2) =
    [("ip", ["netns"; "exec"; "network-50000-b"; "ping"; "-f"; "-c"; "4"; "-W"; "0.1"; "10.0.0.1"], Some true)] ∧
  length (te_steps verified.2) = 8%nat ∧
  netns_of verified.2 = netns_of tester ∧ te_gen verified.2 = te_gen tester ∧
  ∃ steps, te_steps verified.2 = (te_steps tester ++ steps)%list ∧
    visits_of (λ success, success = Some true) (g_keys (te_gen tester)) gateway_ip pinged_config steps.
Proof.
  split; [vm_compute; reflexivity|]. split; [vm_compute; reflexivity|].
  exact (verify_config_verifies (PO := answering_ok true) gateway_ip pinged_config tester verified.2 verified_ok).
Defined.

Definition verified_old : outcome unit * Tester unit Machine unit :=
  verify_old_config (PR := answering false) gateway_ip pinged_config tester.
Lemma verified_old_ok :
  verify_old_config (PR := answering false) gateway_ip pinged_config tester = (Ok tt, verified_old.2).
Proof. assert (verified_old.1 = Ok tt) as <- by (vm_compute; reflexivity). apply surjective_pairing. Qed.

Lemma verify_old_config_verifies_witness :
  omap program_run (te_steps verified_old.2) =
    [("ip", ["netns"; "exec"; "network-50000-b"; "ping"; "-f"; "-c"; "4"; "-W"; "0.1"; "10.0.0.1"], Some false)] ∧
  netns_of verified_old.2 = netns_of tester ∧ te_gen verified_old.2 = te_gen tester ∧
  ∃ steps, te_steps verified_old.2 = (te_steps tester ++ steps)%list ∧
    visits_of (λ success, success ≠ Some true) (g_keys (te_gen tester)) gateway_ip pinged_config steps.
Proof.
  split; [vm_compute; reflexivity|].
  exact (verify_old_config_verifies (PO := answering_ok false) gateway_ip pinged_config tester verified_old.2 verified_old_ok).
Defined.
End witnesses.
