(* ===== verification/Remote.v ===== *)
(** * Manager and gateway together

    The two programs at the ends of one connection: what the manager sends the
    gateway receives, and the other way round.  A request of the manager is
    then a remote call of the gateway's [apply] or [apply_partial]. *)
From S2P Require Import Prelude Text BTree Net Crates Samples Client Types Tera Render Templates Stats Options.
From S2P Require Import Host Kernel Machine Logic Gateway Deploy Partial Panics Websocket Codec Answers Manager.

Local Open Scope string_scope.
Local Open Scope Z_scope.

Section pipe.
Context `{WK : WireguardKeys} `{UC : UrlCrate} `{IC : IpnetCrate}.

(** The connection as the gateway sees it.  [pi_side] is what the gateway
    selects before it gets to the next message of the manager: traffic,
    events, and messages that are not text. *)
Record Pipe := { pi_in : list string; pi_out : list string; pi_side : list (list Selected) }.

Definition pipe_next (p : Pipe) : Selected * Pipe :=
  match pi_side p, pi_in p with
  | (x :: b) :: rest, _ => (x, {| pi_in := pi_in p; pi_out := pi_out p; pi_side := b :: rest |})
  | [] :: rest, text :: ins => (OnMessage (IText text), {| pi_in := ins; pi_out := pi_out p; pi_side := rest |})
  | [], text :: ins => (OnMessage (IText text), {| pi_in := ins; pi_out := pi_out p; pi_side := [] |})
  | _, [] => (OnMessage IClosed, p)
  end.
Definition pipe_send (text : string) (p : Pipe) : Pipe :=
  {| pi_in := pi_in p; pi_out := pi_out p ++ [text]; pi_side := pi_side p |}.

#[global] Instance pipe_wire {S} : Wire S Pipe := {|
  wire_connect _ e := (inl tt, e);
  wire_subscribe e := e;
  wire_next '(h, p) := let '(x, p) := pipe_next p in (x, (h, p));
  wire_send text '(h, p) := (inl tt, (h, pipe_send text p));
  wire_close e := e
|}.
End pipe.

Section link.
Context `{T : Target} `{WK : WireguardKeys} `{UC : UrlCrate} `{IC : IpnetCrate} `{BC : Base32Crate}
        `{RC : RegexCrate} `{TE : Tera} `{HO : HashOrder} {S : Type} `{HS : !Host S} `{JS : !Json}.
Context (options : Options).

(** The gateway's session at the other end; it is over once [connect_turn]
    leaves the loop, and the manager accepts no second one. *)
Record Link := { lk_session : Session S Pipe; lk_alive : bool }.

Definition lk_pipe (l : Link) : Pipe := se_wire (lk_session l).
Definition with_pipe (p : Pipe) (l : Link) : Link := {|
  lk_session := {| se_world := se_world (lk_session l); se_wire := p; se_trace := se_trace (lk_session l) |};
  lk_alive := lk_alive l |}.

(** The gateway runs until it has sent something. *)
Fixpoint pump (turns : nat) (l : Link) : Arrival * Link :=
  let p := lk_pipe l in
  match pi_out p with
  | text :: out => (AText text, with_pipe {| pi_in := pi_in p; pi_out := out; pi_side := pi_side p |} l)
  | [] =>
      if lk_alive l then
        match turns with
        | O => (AOther, l)
        | Datatypes.S turns =>
            let '(o, s) := connect_turn options (lk_session l) in
            pump turns {| lk_session := s; lk_alive := match o with Ok false => true | _ => false end |}
        end
      else (AClosed, l)
  end.
Definition batch (p : Pipe) : list Selected := default [] (head (pi_side p)).

#[global] Instance link_peer : Peer Link := {|
  peer_send text l :=
    if lk_alive l then
      let p := lk_pipe l in
      (inl tt, with_pipe {| pi_in := pi_in p ++ [text]; pi_out := pi_out p; pi_side := pi_side p |} l)
    else (inr (EMsg "Connection closed normally"), l);
  peer_next l := pump (Datatypes.S (length (batch (lk_pipe l)))) l
|}.

(** What the gateway does for a request. *)
Definition handle (r : GatewayRequest) : M (World S) unit :=
  match r with
  | ReqApply config => apply options config
  | ReqApplyPartial config => apply_partial options config
  | ReqShutdown => mret tt
  end.
Definition link_world (l : Link) : World S := se_world (lk_session l).
End link.
Arguments Link {_ _ _} S.

Section remote.
Context `{T : Target} `{WK : WireguardKeys} `{UC : UrlCrate} `{IC : IpnetCrate} `{BC : Base32Crate}
        `{RC : RegexCrate} `{TE : Tera} `{HO : HashOrder} {S : Type} `{HS : !Host S} `{JS : !Json}.
Context (options : Options) (Hanswers : ∀ result, response_carried (RespApply result)).
Implicit Types l : Link S.

(** Nothing is under way. *)
Definition quiet l : Prop := lk_alive l = true ∧ pi_in (lk_pipe l) = [] ∧ pi_out (lk_pipe l) = [].
(** What may come in between. *)
Definition side_ok (x : Selected) : Prop :=
  match x with
  | OnTraffic (inl t) => response_carried (RespTraffic t)
  | OnEvent (inl e) => response_carried (RespEvent e)
  | OnMessage IOther => True
  | _ => False
  end.
Definition sides_ok l : Prop := Forall (Forall side_ok) (pi_side (lk_pipe l)).

Lemma send_pipe r w ins out side (tr : list Frame) :
  response_carried r →
  ∃ text, response_of_json text = Ok r ∧
    send r {| se_world := w; se_wire := {| pi_in := ins; pi_out := out; pi_side := side |}; se_trace := tr |} =
      (Ok tt, {| se_world := w; se_wire := {| pi_in := ins; pi_out := out ++ [text]; pi_side := side |};
                 se_trace := tr ++ [Sent r] |} : Session S Pipe).
Proof. intros (text & Ht & Hd). exists text. split; [done|]. unfold send, mbind, M_bind. rewrite Ht.
  cbn. unfold at_ends. cbn. by rewrite rehost_same.
Qed.

(** What the gateway selects next, over a pipe. *)
Lemma select_pipe w p tr :
  select {| se_world := w; se_wire := p; se_trace := tr |} =
    (Ok (pipe_next p).1, {| se_world := w; se_wire := (pipe_next p).2; se_trace := tr ++ [Got (pipe_next p).1] |} : Session S Pipe).
Proof. unfold select, ends. cbn. destruct (pipe_next p) as [x p']. unfold at_ends. cbn. by rewrite rehost_same. Qed.

Lemma as_result_panics (m : M (World S) unit) (s : Session S Pipe) :
  (m (se_world s)).1 = Panic → (as_result (on_gateway m) s).1 = Panic ∧
    se_wire (as_result (on_gateway m) s).2 = se_wire s ∧ se_world (as_result (on_gateway m) s).2 = (m (se_world s)).2.
Proof.
  unfold as_result, attempt, on_gateway, mbind, M_bind. by destruct (m (se_world s)) as [[[]|e|] w].
Qed.

(** One turn on a request: the call, and the answer on its way. *)
Lemma turn_request r text w ins side tr :
  request_of_json text = Ok r → r ≠ ReqShutdown →
  match head side with Some (_ :: _) => False | _ => True end →
  let s := {| se_world := w; se_wire := {| pi_in := text :: ins; pi_out := []; pi_side := side |}; se_trace := tr |} in
  if decide ((handle (S := S) options r w).1 = Panic) then
    ∃ s', connect_turn options s = (Panic, s') ∧ pi_out (se_wire s') = []
  else ∃ answer tr', response_of_json answer = Ok (RespApply (result_of (handle options r w).1)) ∧
    connect_turn options s = (Ok false,
      {| se_world := (handle options r w).2;
         se_wire := {| pi_in := ins; pi_out := [answer]; pi_side := tail side |}; se_trace := tr' |}).
Proof.
  intros Hreq Hr Hside s.
  set (n := {| pi_in := ins; pi_out := []; pi_side := tail side |}).
  set (s1 := {| se_world := se_world s; se_wire := n; se_trace := se_trace s ++ [Got (OnMessage (IText text))] |}).
  assert (Hturn : connect_turn options s =
    (result ← as_result (on_gateway (handle options r)); send (RespApply result);; mret false) s1).
  { unfold connect_turn. unfold mbind at 1, M_bind at 1. subst s. rewrite select_pipe.
    assert (Hnext : pipe_next {| pi_in := text :: ins; pi_out := []; pi_side := side |} = (OnMessage (IText text), n)).
    { subst n. cbn. destruct side as [|[|x b] rest]; done. }
    rewrite Hnext. cbn [fst snd]. unfold mbind at 1, M_bind at 1. rewrite Hreq. cbn [lift]. by destruct r. }
  rewrite Hturn. clear Hturn Hreq Hr. generalize (handle (S := S) options r). intros m.
  destruct (decide ((m w).1 = Panic)) as [Hp|Hp]; unfold mbind at 1, M_bind at 1.
  - destruct (as_result_panics m s1 Hp) as (Ho & Hw & _).
    destruct (as_result (on_gateway m) s1) as [o s2]. cbn in Ho, Hw. subst o. exists s2. by rewrite Hw.
  - rewrite as_result_calm by done. unfold mbind, M_bind. subst s1 n s. cbn [se_world se_wire se_trace].
    destruct (send_pipe (RespApply (result_of (m w).1)) (m w).2 ins [] (tail side)
      (tr ++ [Got (OnMessage (IText text))]) (Hanswers _)) as (answer & Hd & Hsend).
    exists answer. eexists. split; [done|]. by rewrite Hsend.
Qed.

(** One turn on something that comes in between. *)
Lemma turn_side x b w ins out0 rest tr :
  side_ok x →
  ∃ out tr', connect_turn options {| se_world := w; se_wire := {| pi_in := ins; pi_out := out0; pi_side := (x :: b) :: rest |}; se_trace := tr |}
    = (Ok false, {| se_world := w; se_wire := {| pi_in := ins; pi_out := out0 ++ out; pi_side := b :: rest |}; se_trace := tr' |} : Session S Pipe) ∧
    (out = [] ∨ ∃ text r, out = [text] ∧ response_of_json text = Ok r ∧ match r with RespApply _ => False | _ => True end).
Proof.
  intros Hx. unfold connect_turn. unfold mbind at 1, M_bind at 1. rewrite select_pipe. cbn [pipe_next fst snd pi_side pi_in pi_out].
  destruct x as [[| | |]|[t|]|[e|]]; try done; unfold mbind, M_bind; cbn [se_world se_trace].
  - exists [], (tr ++ [Got (OnMessage IOther)])%list. rewrite app_nil_r. by split; [|left].
  - destruct (send_pipe (RespTraffic t) w ins out0 (b :: rest) (tr ++ [Got (OnTraffic (inl t))]) Hx) as (text & Hd & ->).
    eexists [text], _. split; [done|]. right. by exists text, (RespTraffic t).
  - destruct (send_pipe (RespEvent e) w ins out0 (b :: rest) (tr ++ [Got (OnEvent (inl e))]) Hx) as (text & Hd & ->).
    eexists [text], _. split; [done|]. right. by exists text, (RespEvent e).
Qed.

(** A shutdown request is read in the end, whatever comes before it. *)
Lemma loop_stops text b w out side tr :
  request_of_json text = Ok ReqShutdown → default [] (head side) = b → Forall side_ok b →
  ∃ s', connect_loop (Datatypes.S (length b)) options
    {| se_world := w; se_wire := {| pi_in := [text]; pi_out := out; pi_side := side |}; se_trace := tr |} =
    (Ok true, s' : Session S Pipe).
Proof.
  intros Hreq. revert out side tr. induction b as [|x b IH]; intros out side tr Hb Hok.
  - cbn [length connect_loop]. unfold mbind at 1, M_bind at 1. unfold connect_turn.
    unfold mbind at 1, M_bind at 1. rewrite select_pipe.
    set (n := {| pi_in := []; pi_out := out; pi_side := tail side |}).
    match goal with |- context [pipe_next ?p] =>
      assert (Hnext : pipe_next p = (OnMessage (IText text), n)) by (cbn; by destruct side as [|[] ?]) end.
    rewrite Hnext. cbn [fst snd]. unfold mbind at 1, M_bind at 1. rewrite Hreq. by eexists.
  - destruct side as [|b0 rest]; [done|]. cbn in Hb. subst b0. apply Forall_cons in Hok as [Hx Hok].
    destruct (turn_side x b w [text] out rest tr Hx) as (out' & tr' & Hs & _).
    cbn [length]. cbn [connect_loop]. unfold mbind at 1, M_bind at 1. rewrite Hs.
    by apply (IH (out ++ out')%list (b :: rest) tr').
Qed.

Definition link_at w ins out side tr : Link S := {|
  lk_session := {| se_world := w; se_wire := {| pi_in := ins; pi_out := out; pi_side := side |}; se_trace := tr |};
  lk_alive := true |}.

(** What the manager makes of one arrival. *)
Definition arrive (turns : nat) (a : Arrival) : M (Link S) (unit + string) :=
  match a with
  | AText value =>
      value ← lift (response_of_json value);
      match value with
      | RespApply status => mret status
      | _ => await_response (PC := link_peer options) turns
      end
  | AOther => await_response (PC := link_peer options) turns
  | AError _ | AClosed => throw err_missing
  end.
Lemma await_arrive turns l :
  await_response (PC := link_peer options) (Datatypes.S turns) l =
    let '(a, l1) := pump options (Datatypes.S (length (batch (lk_pipe l)))) l in arrive turns a l1.
Proof.
  cbn [await_response]. unfold mbind at 1, M_bind at 1, arrival, peer_next, link_peer.
  by destruct (pump _ _ l) as [[] l1].
Qed.

Lemma pump_out k w ins text out side tr :
  pump options k (link_at w ins (text :: out) side tr) = (AText text, link_at w ins out side tr).
Proof. by destruct k. Qed.
Lemma pump_turn k w ins side tr o s :
  connect_turn options (lk_session (link_at w ins [] side tr)) = (o, s) →
  pump options (Datatypes.S k) (link_at w ins [] side tr) =
    pump options k {| lk_session := s; lk_alive := match o with Ok false => true | _ => false end |}.
Proof. intros Hs. cbn [pump lk_alive link_at]. by rewrite Hs. Qed.
Lemma pump_dead k s : pi_out (se_wire s) = [] →
  pump options k {| lk_session := s; lk_alive := false |} = (AClosed, {| lk_session := s; lk_alive := false |}).
Proof. intros Ho. destruct k; cbn; unfold lk_pipe; cbn; by rewrite Ho. Qed.

(** The manager waits: everything that comes before its answer is skipped. *)
Lemma await_request r text b k turns w side tr :
  request_of_json text = Ok r → r ≠ ReqShutdown → default [] (head side) = b → Forall side_ok b →
  (length b < k)%nat → (length b ≤ turns)%nat →
  let '(a, l1) := pump options k (link_at w [text] [] side tr) in
  if decide ((handle (S := S) options r w).1 = Panic) then (arrive turns a l1).1 = Err err_missing
  else ∃ tr', arrive turns a l1 =
    (Ok (result_of (handle options r w).1), link_at (handle options r w).2 [] [] (tail side) tr').
Proof.
  intros Hreq Hr. revert k turns side tr. induction b as [|x b IH]; intros k turns side tr Hb Hok Hk Ht.
  - destruct k as [|k]; [cbn in Hk; lia|].
    pose proof (turn_request r text w [] side tr Hreq Hr) as Hturn. cbv zeta in Hturn.
    destruct (decide ((handle (S := S) options r w).1 = Panic)) as [Hp|Hp].
    + destruct Hturn as (s' & Hs' & Ho); [by destruct side as [|[] ?]|].
      rewrite (pump_turn k w [text] side tr _ _ Hs'). by rewrite pump_dead.
    + destruct Hturn as (answer & tr' & Hd & Hs'); [by destruct side as [|[] ?]|].
      rewrite (pump_turn k w [text] side tr _ _ Hs').
      change (pump options k _) with (pump options k (link_at (handle options r w).2 [] [answer] (tail side) tr')).
      rewrite pump_out. exists tr'. cbn [arrive]. unfold mbind, M_bind. by rewrite Hd.
  - destruct side as [|b0 rest]; [done|]. cbn in Hb. subst b0.
    destruct k as [|k]; [lia|]. cbn [length] in Hk, Ht. apply Forall_cons in Hok as [Hx Hok].
    destruct (turn_side x b w [text] [] rest tr Hx) as (out & tr' & Hs' & Hout).
    rewrite (pump_turn k w [text] ((x :: b) :: rest) tr _ _ Hs').
    change (pump options k _) with (pump options k (link_at w [text] out (b :: rest) tr')).
    destruct Hout as [->|(answer & r' & -> & Hd & Hr')]; [by apply (IH k turns (b :: rest) tr'); [..|lia|lia]|].
    rewrite pump_out. destruct turns as [|turns]; [lia|].
    assert (Harrive : arrive (Datatypes.S turns) (AText answer) (link_at w [text] [] (b :: rest) tr') =
      await_response (PC := link_peer options) (Datatypes.S turns) (link_at w [text] [] (b :: rest) tr')).
    { cbn [arrive]. unfold mbind, M_bind. rewrite Hd. by destruct r'. }
    rewrite Harrive, await_arrive. cbn [batch lk_pipe link_at lk_session se_wire pi_side head default from_option id].
    specialize (IH (Datatypes.S (length b)) turns (b :: rest) tr' eq_refl Hok ltac:(lia) ltac:(lia)).
    unfold link_at in *. by destruct (pump _ _ _) as [a l1].
Qed.

(** A request of the manager, from beginning to end. *)
Lemma request_remote turns r l :
  quiet l → sides_ok l → request_carried r → r ≠ ReqShutdown → (length (batch (lk_pipe l)) < turns)%nat →
  if decide ((handle options r (link_world l)).1 = Panic)
  then (request (PC := link_peer options) turns r l).1 = Err err_missing
  else ∃ l', request (PC := link_peer options) turns r l = (Ok (result_of (handle options r (link_world l)).1), l') ∧
    link_world l' = (handle options r (link_world l)).2 ∧ quiet l' ∧ sides_ok l' ∧
    pi_side (lk_pipe l') = tail (pi_side (lk_pipe l)).
Proof.
  intros (Ha & Hin & Hout) Hok (text & Htext & Hreq) Hr Ht.
  destruct l as [[w [ins out side] tr] alive]. unfold lk_pipe in *. cbn in Ha, Hin, Hout, Ht |- *. subst alive ins out.
  set (l := {| lk_session := _; lk_alive := true |}).
  assert (Hpost : post (PC := link_peer options) text l = (Ok tt, link_at w [text] [] side tr)) by done.
  assert (Hrequest : request (PC := link_peer options) turns r l =
    await_response (PC := link_peer options) turns (link_at w [text] [] side tr)).
  { unfold request, mbind, M_bind. rewrite Htext. cbn [lift]. by rewrite Hpost. }
  rewrite Hrequest.
  destruct turns as [|turns]; [lia|].
  assert (Hb : Forall side_ok (default [] (head side))).
  { unfold sides_ok, lk_pipe in Hok. cbn in Hok. by destruct Hok. }
  pose proof (await_request r text (default [] (head side)) (Datatypes.S (length (batch (lk_pipe (link_at w [text] [] side tr)))))
    turns w side tr Hreq Hr eq_refl Hb (Nat.lt_succ_diag_r _) ltac:(unfold batch in Ht; cbn in Ht; lia)) as Hrun.
  rewrite await_arrive. destruct (pump _ _ _) as [a l1].
  change (link_world l) with w. destruct (decide ((handle (S := S) options r w).1 = Panic)); [done|].
  destruct Hrun as (tr' & ->). eexists. split; [done|]. split; [done|]. split; [done|]. split; [|done].
  unfold sides_ok in *. cbn in *. by destruct Hok.
Qed.
End remote.

(** ** Steps of the test that leave the connection alone *)
Section peerless.
Context `{T : Target} `{WK : WireguardKeys} `{UC : UrlCrate} `{IC : IpnetCrate} `{KP : !KeyPairs} `{IB : !IpnetBuild}
        {R : Type} `{RD : !Random R} {S : Type} `{HS : !Host S} `{PR : !Process S} {P : Type}.

Definition peerless {A} (m : M (Tester R S P) A) : Prop := ∀ t, te_peer (m t).2 = te_peer t.

Lemma peerless_bind {A B} (m : M (Tester R S P) A) (k : A → M (Tester R S P) B) :
  peerless m → (∀ a, peerless (k a)) → peerless (m ≫= k).
Proof.
  intros Hm Hk t. unfold mbind, M_bind. specialize (Hm t).
  destruct (m t) as [[a|e|] t1]; cbn in *; [by rewrite Hk|done..].
Qed.
Lemma peerless_pure {A} (m : M (Tester R S P) A) : (∀ t, te_peer (m t).2 = te_peer t) → peerless m.
Proof. done. Qed.
Lemma peerless_generating {A} (m : M (Gen R) A) : peerless (generating m).
Proof. intros t. unfold generating. by destruct (m _). Qed.
Lemma peerless_operate o : peerless (operate o).
Proof. intros t. unfold operate. by destruct (call _ _). Qed.
Lemma peerless_command program args : peerless (command program args).
Proof. intros t. unfold command. by destruct (run_command _ _ _). Qed.
Lemma peerless_attempt {A} (m : M (Tester R S P) A) : peerless m → peerless (attempt m).
Proof. intros Hm t. specialize (Hm t). unfold attempt. by destruct (m t) as [[] ?]. Qed.
Lemma peerless_for_each {A} (l : list A) (f : A → M (Tester R S P) unit) :
  (∀ x, peerless (f x)) → peerless (for_each l f).
Proof. intros Hf. induction l as [|x l IH]; [done|]. apply peerless_bind; auto. Qed.
End peerless.
#[export] Hint Resolve peerless_generating peerless_command : gw.

Ltac peerless_all :=
  repeat lazymatch goal with
  | |- peerless (mbind _ _) => apply peerless_bind; [|intros]
  | |- peerless (operate ?o) => apply (peerless_operate o)
  | |- peerless (for_each _ _) => apply peerless_for_each; intros
  | |- peerless (attempt _) => apply peerless_attempt
  | |- peerless (let '_ := ?x in _) => destruct x
  | |- peerless (if ?b then _ else _) => destruct b
  | |- peerless (match ?x with _ => _ end) => destruct x
  | |- peerless _ => first [solve [auto with gw] | by apply peerless_pure]
  end.

Section together.
Context `{T : Target} `{WK : WireguardKeys} `{UCO : !UrlCrateOk UC} `{ICO : !IpnetCrateOk IC} `{BCO : !Base32CrateOk BC}
        `{RCO : !RegexCrateOk RC} `{TEO : !TeraOk TE} `{HOO : !HashOrderOk HO}
        `{KP : !KeyPairs} `{IBO : !IpnetBuildOk IB} {R : Type} `{RD : !Random R} `{RDO : !RandomOk R}
        {S1 : Type} `{HS1 : !Host S1} `{PR1 : !Process S1}
        {S : Type} `{HS : !Host S} `{HK : !HostOk S} `{JS : !Json}.
Context (options : Options) (turns : nat).
Implicit Types t : Tester R S1 (Link S).

(** What the test sends. *)
Definition request_fits (r : GatewayRequest) : Prop :=
  match r with
  | ReqApply config => ∃ keys, map_Forall (network_fits 3 keys) (config : gmap Z NetworkState)
  | ReqApplyPartial partial => ∃ keys existing, partial_fits 3 keys existing (partial : gmap Z (option NetworkState))
  | ReqShutdown => False
  end.
Context (Hanswers : ∀ result, response_carried (RespApply result))
        (Hrequests : ∀ r, request_fits r → request_carried r).

(** Nothing is under way, and what will come in between fits the patience of
    the manager. *)
Definition ready (l : Link S) : Prop :=
  quiet l ∧ sides_ok l ∧ Forall (λ b, (length b < turns)%nat) (pi_side (lk_pipe l)) ∧ (0 < turns)%nat.

Lemma ready_batch l : ready l → (length (batch (lk_pipe l)) < turns)%nat.
Proof. intros (_ & _ & Hb & Ht). unfold batch. by destruct Hb. Qed.

(** The calls that [on_peer] makes. *)
Lemma call_answered r l result l' :
  ready l → request_carried r → r ≠ ReqShutdown →
  request (PC := link_peer options) turns r l = (Ok result, l') →
  result = result_of (handle options r (link_world l)).1 ∧
  link_world l' = (handle options r (link_world l)).2 ∧ ready l' ∧
  (handle options r (link_world l)).1 ≠ Panic.
Proof.
  intros Hready Hc Hr Hrun. pose proof Hready as (Hq & Hs & Hb & Ht).
  pose proof (request_remote options Hanswers turns r l Hq Hs Hc Hr (ready_batch l Hready)) as Hcall.
  destruct (decide ((handle (S := S) options r (link_world l)).1 = Panic)) as [Hp|Hp].
  - rewrite Hrun in Hcall. by cbn in Hcall.
  - destruct Hcall as (l2 & Hrun' & Hw & Hq' & Hs' & Hside). rewrite Hrun in Hrun'. injection Hrun' as -> ->.
    do 2 (split; [done|]). split; [|done]. split_and!; try done. rewrite Hside. by destruct Hb.
Qed.

Lemma result_Ok (o : outcome unit) : o ≠ Panic → result_of o = inl tt → o = Ok tt.
Proof. destruct o as [[]|e|]; by intros. Qed.

(** A request followed by [assert!(response.is_ok())]. *)
Lemma asserted r t t' :
  ready (te_peer t) → request_carried r → r ≠ ReqShutdown →
  (response ← on_peer (request (PC := link_peer options) turns r); assert_ok response) t = (Ok tt, t') →
  ready (te_peer t') ∧
  handle options r (link_world (te_peer t)) = (Ok tt, link_world (te_peer t')).
Proof.
  intros Hready Hc Hr (response & t1 & H1 & H2)%bind_Ok_inv.
  unfold on_peer in H1. destruct (request (PC := link_peer options) turns r (te_peer t)) as [[res|e|] l] eqn:Hrun; [|done..].
  injection H1 as -> <-.
  destruct (call_answered r (te_peer t) response l Hready Hc Hr Hrun) as (Hres & Hw & Hready' & Hp).
  destruct response as [[]|msg]; [|done]. injection H2 as <-. split; [done|].
  cbn. rewrite Hw. rewrite (surjective_pairing (handle _ _ _)) at 1. f_equal. by apply result_Ok.
Qed.

Lemma verify_config_peerless gateway config : peerless (verify_config (S := S1) (R := R) (P := Link S) gateway config).
Proof. unfold verify_config, verify_peer, bring_up, ping_host. peerless_all. Qed.
Lemma verify_old_config_peerless gateway config : peerless (verify_old_config (S := S1) (R := R) (P := Link S) gateway config).
Proof. unfold verify_old_config, verify_old_peer, bring_up, ping_host. peerless_all. Qed.

Lemma peerless_Ok {A} (m : M (Tester R S1 (Link S)) A) t a t' :
  peerless m → m t = (Ok a, t') → te_peer t' = te_peer t.
Proof. intros Hm Hr. specialize (Hm t). by rewrite Hr in Hm. Qed.

(** The manager's copy of the configuration is the one the gateway holds. *)
Definition in_sync (config : GatewayConfig) t : Prop := w_config (link_world (te_peer t)) = config.

Lemma generated_carried t (config : GatewayConfig) t1 size :
  generating (generate_config size (0, 3)) t = (Ok config, t1) →
  te_peer t1 = te_peer t ∧ request_carried (ReqApply config) ∧
  Forall servable (networks_of (config : gmap Z NetworkState)).
Proof.
  intros Hg. split; [exact (peerless_Ok _ _ _ _ (peerless_generating _) Hg)|].
  destruct (generate_config_fit size 3 (te_gen t)) as (config' & g' & Hrun & _ & Hf & _); [lia|].
  unfold generating in Hg. rewrite Hrun in Hg. injection Hg as -> _. split; [|by eapply fits_servable].
  apply Hrequests. by eexists.
Qed.
Lemma generated_partial_carried t (partial : GatewayConfigPartial) t1 add remove existing :
  generating (generate_partial_config add remove (0, 3) existing) t = (Ok partial, t1) →
  te_peer t1 = te_peer t ∧ request_carried (ReqApplyPartial partial).
Proof.
  intros Hg. split; [exact (peerless_Ok _ _ _ _ (peerless_generating _) Hg)|].
  destruct (generate_partial_fit add remove 3 existing (te_gen t)) as (partial' & g' & Hrun & _ & Hf); [lia|].
  unfold generating in Hg. rewrite Hrun in Hg. injection Hg as -> _. apply Hrequests. by eexists _, _.
Qed.

(** A request of the test, within a longer run. *)
Lemma asserted_then {A} r (k : unit → M (Tester R S1 (Link S)) A) t a t' :
  ready (te_peer t) → request_carried r → r ≠ ReqShutdown →
  (response ← on_peer (request (PC := link_peer options) turns r); assert_ok response;; k tt) t = (Ok a, t') →
  ∃ t1, ready (te_peer t1) ∧ k tt t1 = (Ok a, t') ∧
    handle options r (link_world (te_peer t)) = (Ok tt, link_world (te_peer t1)).
Proof.
  intros Hready Hc Hr (response & t1 & H1 & ([] & t2 & H2 & H3)%bind_Ok_inv)%bind_Ok_inv.
  exists t2. destruct (asserted r t t2 Hready Hc Hr) as [Hready' Hcall]; [|done].
  unfold mbind, M_bind. by rewrite H1.
Qed.

(** The end of a round: a verification, and the configuration returned. *)
Lemma verified_then (m : M (Tester R S1 (Link S)) unit) (config config' : GatewayConfig) t t' :
  peerless m → (m;; mret config) t = (Ok config', t') → config' = config ∧ te_peer t' = te_peer t.
Proof.
  intros Hm ([] & t1 & H1 & [= <- <-])%bind_Ok_inv. split; [done|]. exact (peerless_Ok _ _ _ _ Hm H1).
Qed.

Lemma apply_round (checked : GatewayConfig → GatewayConfig) verify gateway t config' t' :
  (verify = verify_config ∨ verify = verify_old_config) →
  ready (te_peer t) →
  (new ← generating (generate_config 10 (0, 3));
   response ← on_peer (apply_config (PC := link_peer options) turns new);
   assert_ok response;; verify gateway (checked new);; mret new) t = (Ok config', t') →
  ready (te_peer t') ∧ in_sync config' t'.
Proof.
  intros Hv Hready (new & t1 & Hg & Hr)%bind_Ok_inv.
  destruct (generated_carried t new t1 10 Hg) as (Hp & Hc & _). rewrite <-Hp in Hready.
  apply (asserted_then (ReqApply new) (λ _, verify gateway (checked new);; mret new)) in Hr
    as (t2 & Hready2 & Hr & Hcall); [|done..].
  apply verified_then in Hr as [-> Hp2];
    [|destruct Hv as [->| ->]; [apply verify_config_peerless|apply verify_old_config_peerless]].
  unfold in_sync. rewrite Hp2. split; [done|]. by apply apply_Ok_config in Hcall.
Qed.

Lemma partial_round add remove existing gateway config t config' t' :
  ready (te_peer t) → in_sync config t →
  (partial ← generating (generate_partial_config add remove (0, 3) existing);
   let config := Client.apply_partial config partial in
   response ← on_peer (apply_partial_config (PC := link_peer options) turns partial);
   assert_ok response;; verify_config gateway config;; mret config) t = (Ok config', t') →
  ready (te_peer t') ∧ in_sync config' t'.
Proof.
  intros Hready Hsync (partial & t1 & Hg & Hr)%bind_Ok_inv. cbv zeta in Hr.
  destruct (generated_partial_carried t partial t1 _ _ _ Hg) as (Hp & Hc). unfold in_sync in Hsync. rewrite <-Hp in Hready, Hsync.
  apply (asserted_then (ReqApplyPartial partial) (λ _, verify_config gateway (Client.apply_partial config partial);;
    mret (Client.apply_partial config partial))) in Hr as (t2 & Hready2 & Hr & Hcall); [|done..].
  apply verified_then in Hr as [-> Hp2]; [|apply verify_config_peerless].
  unfold in_sync. rewrite Hp2. split; [done|]. apply apply_partial_Ok_config in Hcall. by rewrite Hcall, Hsync.
Qed.

Definition test_rounds gateway : list (GatewayConfig → M (Tester R S1 (Link S)) GatewayConfig) :=
  let peer := link_peer options in
  [round_apply (PC := peer) turns gateway; round_replace (PC := peer) turns gateway;
   round_add (PC := peer) turns gateway; round_remove (PC := peer) turns gateway].

Lemma round_synced gateway round config t config' t' :
  round ∈ test_rounds gateway → ready (te_peer t) → in_sync config t →
  round config t = (Ok config', t') → ready (te_peer t') ∧ in_sync config' t'.
Proof.
  unfold test_rounds. cbv zeta. rewrite !elem_of_cons. intros [->|[->|[->|[->|[]%elem_of_nil]]]] Hready Hsync Hr.
  - by apply (apply_round (λ new, new) verify_config gateway t); [left|..].
  - by apply (apply_round (λ _, config) verify_old_config gateway t); [right|..].
  - by apply (partial_round 10 0 [] gateway config t).
  - by apply (partial_round 0 10 (map_keys (config : gmap Z NetworkState)) gateway config t).
Qed.

Lemma rounds_synced n gateway round config t config' t' :
  round ∈ test_rounds gateway → ready (te_peer t) → in_sync config t →
  rounds n round config t = (Ok config', t') → ready (te_peer t') ∧ in_sync config' t'.
Proof.
  intros Hround. revert config t. induction n as [|n IH]; intros config t Hready Hsync Hr; cbn [rounds] in Hr.
  { by injection Hr as <- <-. }
  apply bind_Ok_inv in Hr as (c & t1 & H1 & Hr).
  destruct (round_synced gateway round config t c t1 Hround Hready Hsync H1) as [Hr1 Hs1]. by apply (IH c t1).
Qed.

(** C4: a request of the manager is a call of the gateway.  Over a connection
    on which nothing is under way, whatever traffic, events and other messages
    come in between, the request is answered: the manager gets what the
    gateway's [apply] or [apply_partial] reported for exactly that request,
    the gateway is in the state the call left, and nothing is under way again.
    Only a call that panics leaves the manager without an answer. *)
Theorem request_is_call r (l : Link S) :
  ready l → request_fits r →
  if decide ((handle options r (link_world l)).1 = Panic)
  then (request (PC := link_peer options) turns r l).1 = Err err_missing
  else ∃ l', request (PC := link_peer options) turns r l = (Ok (result_of (handle options r (link_world l)).1), l') ∧
    link_world l' = (handle options r (link_world l)).2 ∧ ready l'.
Proof.
  intros Hready Hf. assert (Hc := Hrequests r Hf). assert (Hr : r ≠ ReqShutdown) by (by intros ->).
  pose proof Hready as (Hq & Hs & Hb & Ht).
  pose proof (request_remote options Hanswers turns r l Hq Hs Hc Hr (ready_batch l Hready)) as Hcall.
  destruct (decide _); [done|]. destruct Hcall as (l' & Hrun & Hw & Hq' & Hs' & Hside).
  exists l'. split; [done|]. split; [done|]. split_and!; try done. rewrite Hside. by destruct Hb.
Qed.

(** C25: manager and gateway agree on the configuration.  In every kind of
    round of the integration test, when the round succeeds, the copy the
    manager keeps, updated with the client library, is the configuration the
    gateway holds, and nothing is under way. *)
Theorem rounds_stay_in_sync n gateway round config t config' t' :
  round ∈ test_rounds gateway → ready (te_peer t) → in_sync config t →
  rounds n round config t = (Ok config', t') → ready (te_peer t') ∧ in_sync config' t'.
Proof. apply rounds_synced. Qed.

Lemma run_tests_done gateway t t' :
  ready (te_peer t) → run_tests (PC := link_peer options) turns gateway t = (Ok tt, t') →
  ready (te_peer t') ∧ in_sync (∅ : gmap Z NetworkState) t' ∧ deployed options [] (kernel_of (link_world (te_peer t'))).
Proof.
  intros Hready. unfold run_tests. intros ([] & t1 & H1 & Hr)%bind_Ok_inv.
  assert (Hempty : request_carried (ReqApply (∅ : gmap Z NetworkState))).
  { apply Hrequests. exists ∅. apply map_Forall_empty. }
  destruct (asserted (ReqApply (∅ : gmap Z NetworkState)) t t1 Hready Hempty) as [Hready1 Hcall1]; [done|done|].
  apply apply_Ok_config in Hcall1.
  apply bind_Ok_inv in Hr as ([] & t1k & Hk & Hr).
  pose proof (peerless_generating (R := R) (S := S1) new_keys t1) as Hp. rewrite Hk in Hp. cbn [snd] in Hp.
  unfold in_sync in Hcall1. rewrite <-Hp in Hready1, Hcall1.
  apply bind_Ok_inv in Hr as (c2 & t2 & H2 & Hr).
  destruct (rounds_synced 3 gateway _ _ t1k c2 t2 (list_elem_of_lookup_2 (test_rounds gateway) 0 _ eq_refl) Hready1 Hcall1 H2) as [Hready2 Hs2].
  apply bind_Ok_inv in Hr as (c3 & t3 & H3 & Hr).
  destruct (rounds_synced 3 gateway _ _ t2 c3 t3 (list_elem_of_lookup_2 (test_rounds gateway) 1 _ eq_refl) Hready2 Hs2 H3) as [Hready3 Hs3].
  apply bind_Ok_inv in Hr as (c4 & t4 & H4 & Hr).
  destruct (rounds_synced 3 gateway _ _ t3 c4 t4 (list_elem_of_lookup_2 (test_rounds gateway) 2 _ eq_refl) Hready3 Hs3 H4) as [Hready4 Hs4].
  apply bind_Ok_inv in Hr as (c5 & t5 & H5 & Hr).
  destruct (rounds_synced 3 gateway _ _ t4 c5 t5 (list_elem_of_lookup_2 (test_rounds gateway) 3 _ eq_refl) Hready4 Hs4 H5) as [Hready5 _].
  destruct (asserted (ReqApply (∅ : gmap Z NetworkState)) t5 t' Hready5 Hempty) as [Hready' Hcall]; [done|done|].
  split; [done|]. split; [by apply apply_Ok_config in Hcall|].
  assert (Hn : networks_of (∅ : gmap Z NetworkState) = []) by (unfold networks_of; by rewrite entries_empty).
  rewrite <-Hn. eapply (apply_deployed options (∅ : gmap Z NetworkState)); [by rewrite Hn|exact Hcall].
Qed.

(** C39: the integration test leaves the gateway empty.  When all of it
    succeeds, the gateway holds no network, and its machine is deployed for
    the empty configuration: no namespace with the gateway's prefix is left,
    and NGINX serves the custom forwarding only. *)
Theorem run_tests_leaves_nothing gateway t t' :
  ready (te_peer t) → run_tests (PC := link_peer options) turns gateway t = (Ok tt, t') →
  in_sync (∅ : gmap Z NetworkState) t' ∧ deployed options [] (kernel_of (link_world (te_peer t'))).
Proof. intros Hready Hr. by destruct (run_tests_done gateway t t' Hready Hr). Qed.

Lemma test_main_stops gateway t t' :
  request_carried ReqShutdown → ready (te_peer t) →
  test_main (PC := link_peer options) turns gateway t = (Ok tt, t') →
  (∃ t1, run_tests (PC := link_peer options) turns gateway t = (Ok tt, t1) ∧
     link_world (te_peer t') = link_world (te_peer t1)) ∧
  ∃ k s', connect_loop k options (lk_session (te_peer t')) = (Ok true, s').
Proof.
  intros (text & Htext & Hread) Hready Hr. unfold test_main in Hr.
  apply bind_Ok_inv in Hr as (result & t1 & H1 & Hr).
  rewrite Htext in Hr. apply bind_Ok_inv in Hr as (text' & t2 & [= <- <-] & Hr).
  apply bind_Ok_inv in Hr as (posted & t2 & H2 & Hr).
  destruct result as [[]|e]; [|done]. injection Hr as <-. unfold attempt in H1.
  destruct (run_tests (PC := link_peer options) turns gateway t) as [[[]|e|] t1'] eqn:Hrun; [|done..]. injection H1 as <-.
  destruct (run_tests_done gateway t t1' Hready Hrun) as (((Ha & Hin & Hout) & Hs & _) & _).
  destruct t1' as [gen w [[gw [ins out side] tr] alive] pings].
  unfold lk_pipe in *. cbn in Ha, Hin, Hout, Hs. subst alive ins out.
  unfold attempt, on_peer in H2. cbn in H2. injection H2 as _ <-. split; [by eexists|].
  exists (Datatypes.S (length (default [] (head side)))).
  eapply (loop_stops options text _ gw [] side tr Hread eq_refl).
  unfold sides_ok, lk_pipe in Hs. cbn in Hs. by destruct Hs.
Qed.

(** Accepting a websocket makes for a connection on which nothing is under way. *)
Definition accepts (LS : Listener (Link S)) : Prop := ∀ l l', accept_websocket l = (inl tt, l') → ready l'.

(** C40: the test program stops the gateway.  When [main] succeeds, it found an
    address for the gateway and accepted its connection, the tests succeeded
    on it, and the session at the other end, left to itself, reads what is
    still to come, leaves its loop at the shutdown request and ends without an
    error. *)
Theorem integration_main_stops_gateway (LS : Listener (Link S)) test_options t t' :
  request_carried ReqShutdown → accepts LS →
  integration_main (PC := link_peer options) turns test_options t = (Ok tt, t') →
  ∃ g t1 t2, connecting test_options t = (Ok g, t1) ∧
    run_tests (PC := link_peer options) turns (tg_gateway g) t1 = (Ok tt, t2) ∧
    link_world (te_peer t') = link_world (te_peer t2) ∧
    ∃ k s', connect_loop k options (lk_session (te_peer t')) = (Ok true, s').
Proof.
  intros Hbye Hacc (g & t1 & Hg & Hr)%bind_Ok_inv.
  assert (Hready : ready (te_peer t1)).
  { unfold connecting in Hg. apply bind_Ok_inv in Hg as (addrs & ta & _ & Hg).
    apply bind_Ok_inv in Hg as (addr & tb & _ & Hg).
    apply bind_Ok_inv in Hg as ([] & tc & _ & Hg). apply bind_Ok_inv in Hg as ([] & td & _ & Hg).
    apply bind_Ok_inv in Hg as ([] & te & He & [= _ <-]).
    unfold on_peer, answered in He. destruct (accept_websocket (te_peer td)) as [[[]|e] l] eqn:Ha; [|done].
    injection He as <-. by eapply Hacc. }
  destruct (test_main_stops (tg_gateway g) t1 t' Hbye Hready Hr) as [(t2 & Ht2 & Hw) Hstop].
  by exists g, t1, t2.
Qed.
End together.

(** ** Witnesses *)
Section witnesses.
#[local] Existing Instances sample_keys sample_url sample_ipnet sample_base32 sample_regex sample_tera.
#[local] Existing Instances sample_keys_ok sample_url_ok sample_ipnet_ok sample_base32_ok
  sample_regex_ok sample_tera_ok.
#[local] Existing Instances release64 sample_order sample_order_ok codec.
#[local] Existing Instances sample_pairs sample_build sample_build_ok standing standing_ok.

(** A fresh gateway; traffic and a ping come in before the first two requests. *)
Definition fresh_link : Link Machine := {|
  lk_session := {| se_world := world_on empty_machine;
    se_wire := {| pi_in := []; pi_out := [];
      pi_side := [[OnMessage IOther; OnTraffic (inl (TrafficInfo_new 0))]; [OnTraffic (inl (TrafficInfo_new 0))]] |};
    se_trace := [] |};
  lk_alive := true |}.
Lemma fresh_link_ready : ready 3 fresh_link.
Proof.
  split; [done|]. split; [|split; [|lia]].
  - unfold sides_ok. cbn. repeat (apply Forall_cons; split); try done; by exists "traffic".
  - cbn. repeat (apply Forall_cons; split); cbn; first [lia | done].
Qed.

Definition small_config : GatewayConfig := pinged_config.
Lemma small_config_fits : request_fits (ReqApply small_config).
Proof.
  exists (g_keys (te_gen tester)). intros p n Hp. unfold small_config, pinged_config in Hp.
  apply lookup_singleton_Some in Hp as [<- <-]. split; [lia|]. do 3 (split; [done|]).
  split; [by eexists|]. intros k q Hq. cbn in Hq. apply lookup_singleton_Some in Hq as [<- <-].
  split; [by eexists|]. exists 0, (SNet (IpV4 (ipv4 10 0 0 2)) 32). by split_and!.
Qed.

Lemma request_is_call_witness :
  if decide ((handle sample_options (ReqApply small_config) (link_world fresh_link)).1 = Panic)
  then (request (PC := link_peer sample_options) 3 (ReqApply small_config) fresh_link).1 = Err err_missing
  else ∃ l', request (PC := link_peer sample_options) 3 (ReqApply small_config) fresh_link =
      (Ok (result_of (handle sample_options (ReqApply small_config) (link_world fresh_link)).1), l') ∧
    link_world l' = (handle sample_options (ReqApply small_config) (link_world fresh_link)).2 ∧ ready 3 l'.
Proof.
  pose proof (request_is_call sample_options 3 codec_answer (λ r _, codec_request r) (ReqApply small_config) fresh_link
    fresh_link_ready small_config_fits) as Hcall.
  exact Hcall.
Defined.

Definition sample_tester : Tester unit Machine (Link Machine) := {|
  te_gen := {| g_rng := tt; g_keys := ∅ |}; te_world := world_on empty_machine;
  te_peer := fresh_link; te_steps := [] |}.
Definition tested : outcome unit * Tester unit Machine (Link Machine) :=
  run_tests (PR := answering true) (PC := link_peer sample_options) 3 gateway_ip sample_tester.
Lemma tested_ok :
  run_tests (PR := answering true) (PC := link_peer sample_options) 3 gateway_ip sample_tester = (Ok tt, tested.2).
Proof. assert (tested.1 = Ok tt) as <- by (vm_compute; reflexivity). apply surjective_pairing. Qed.

Lemma run_tests_leaves_nothing_witness :
  in_sync (∅ : gmap Z NetworkState) tested.2 ∧ deployed sample_options [] (kernel_of (link_world (te_peer tested.2))).
Proof.
  exact (run_tests_leaves_nothing sample_options 3 codec_answer (λ r _, codec_request r)
    gateway_ip sample_tester tested.2 fresh_link_ready tested_ok).
Defined.

Definition one_round : outcome GatewayConfig * Tester unit Machine (Link Machine) :=
  rounds 1 (round_apply (PR := answering true) (PC := link_peer sample_options) 3 gateway_ip) (∅ : gmap Z NetworkState) sample_tester.
Definition round_config : GatewayConfig := ok_default (∅ : gmap Z NetworkState) one_round.1.
Lemma one_round_ok :
  rounds 1 (round_apply (PR := answering true) (PC := link_peer sample_options) 3 gateway_ip) (∅ : gmap Z NetworkState) sample_tester
    = (Ok round_config, one_round.2).
Proof.
  assert (Hok : is_ok one_round.1 = true) by (vm_compute; reflexivity).
  apply (ok_default_spec (∅ : gmap Z NetworkState)) in Hok. fold round_config in Hok.
  transitivity (one_round.1, one_round.2); [exact (surjective_pairing one_round)|].
  exact (f_equal (λ o, (o, one_round.2)) Hok).
Qed.
Lemma rounds_stay_in_sync_witness : ready 3 (te_peer one_round.2) ∧ in_sync round_config one_round.2.
Proof.
  refine (rounds_stay_in_sync (PR1 := answering true) sample_options 3 codec_answer (λ r _, codec_request r) 1 gateway_ip _
    (∅ : gmap Z NetworkState) sample_tester _ _ (list_elem_of_lookup_2 (test_rounds sample_options 3 gateway_ip) 0 _ eq_refl)
    fresh_link_ready eq_refl one_round_ok).
Defined.

#[local] Instance fresh_listener : Listener (Link Machine) := {|
  lookup_host name l := (inl [SockV4 (ipv4 172 20 0 2) 8000], l);
  listener_bind _ l := (inl tt, l);
  listener_accept l := (inl tt, l);
  accept_websocket _ := (inl tt, fresh_link)
|}.
Definition test_options : TestOptions := {| to_listen := SockV4 (ipv4 0 0 0 0) 8000; to_gateway := "gateway:8000" |}.
Definition stopped : outcome unit * Tester unit Machine (Link Machine) :=
  integration_main (PR := answering true) (PC := link_peer sample_options) 3 test_options sample_tester.
Lemma stopped_ok :
  integration_main (PR := answering true) (PC := link_peer sample_options) 3 test_options sample_tester = (Ok tt, stopped.2).
Proof. assert (stopped.1 = Ok tt) as <- by (vm_compute; reflexivity). apply surjective_pairing. Qed.
Lemma fresh_accepts : accepts 3 fresh_listener.
Proof. intros l l' [= <-]. apply fresh_link_ready. Qed.
Lemma integration_main_stops_gateway_witness :
  ∃ g t1 t2, connecting test_options sample_tester = (Ok g, t1) ∧
    run_tests (PR := answering true) (PC := link_peer sample_options) 3 (tg_gateway g) t1 = (Ok tt, t2) ∧
    link_world (te_peer stopped.2) = link_world (te_peer t2) ∧
    ∃ k s', connect_loop k sample_options (lk_session (te_peer stopped.2)) = (Ok true, s').
Proof.
  pose proof (integration_main_stops_gateway (PR1 := answering true) sample_options 3 codec_answer (λ r _, codec_request r)
    fresh_listener test_options sample_tester stopped.2 (codec_request ReqShutdown) fresh_accepts stopped_ok) as Hstop.
  exact Hstop.
Defined.
End witnesses.
