(* ===== verification/Daemon.v ===== *)
(** * The daemon as a whole

    [Options::run] starts the watchdog as a task of its own, initialises NGINX
    and then serves the connection: two tasks share the machine.  What the
    watchdog can do to it, why applying a configuration is safe beside it, and
    what happens at startup. *)
From S2P Require Import Prelude Text BTree Net Crates Samples Client Types Tera Render Templates Stats Options.
From S2P Require Import Host Kernel Machine Logic Gateway Deploy Watchdog Websocket.

Local Open Scope string_scope.
Local Open Scope Z_scope.

(** ** What the watchdog issues *)
Section watchdog_ops.
Context `{T : Target} `{WK : WireguardKeys} `{UC : UrlCrate} `{IC : IpnetCrate} {S : Type} `{HS : !Host S}.

(** It lists the namespaces, reads statistics in those with the gateway's
    prefix, and fills the two queues. *)
Definition watch_op (o : Op) : Prop :=
  match o with
  | NetnsList | SendTraffic _ | SendEvent _ => True
  | WireguardStats ns _ => starts_with NETNS_PREFIX ns = true
  | _ => False
  end.

Definition watch_host (w : Watch (S := S)) : S := w_host (wa_world w).
(** [m] adds operations with [φ] to the log, and that is all it does to the
    host; it leaves the configuration alone. *)
Definition watch_emits (φ : Op → Prop) {A} (m : M (Watch (S := S)) A) : Prop := ∀ w,
  (∃ l, watch_log (m w).2 = (watch_log w ++ l)%list ∧ Forall φ l ∧
        hsteps (watch_host w) l (watch_host (m w).2)) ∧
  w_config (wa_world (m w).2) = w_config (wa_world w).

Lemma watch_emits_silent φ {A} (m : M (Watch (S := S)) A) : (∀ w, wa_world (m w).2 = wa_world w) → watch_emits φ m.
Proof.
  intros Hm w. unfold watch_log, watch_host. rewrite Hm. split; [|done]. exists [].
  rewrite app_nil_r. split; [done|]. split; [done|constructor].
Qed.
Lemma watch_emits_ret φ {A} (a : A) : watch_emits φ (mret a).
Proof. by apply watch_emits_silent. Qed.
Lemma watch_emits_lift φ {A} (o : outcome A) : watch_emits φ (lift o).
Proof. by apply watch_emits_silent. Qed.
Lemma watch_emits_hosted φ {A} (m : M (World S) A) :
  emits φ m → runs m → keeps_config m → watch_emits φ (hosted m).
Proof.
  intros He Hr Hk w. destruct (runs_emits φ m (wa_world w) Hr He) as (l & Hl & Hs & HF).
  specialize (Hk (wa_world w)). unfold watch_log, watch_host, hosted in *.
  destruct (m (wa_world w)) as [o world]. cbn in *. split; [by exists l|done].
Qed.
Lemma watch_emits_bind φ {A B} (m : M (Watch (S := S)) A) (k : A → M (Watch (S := S)) B) :
  watch_emits φ m → (∀ a, watch_emits φ (k a)) → watch_emits φ (m ≫= k).
Proof.
  intros Hm Hk w. destruct (Hm w) as [(l & Hl & HF & Hs) Hc]. unfold mbind, M_bind.
  destruct (m w) as [[a|e|] w1]; cbn in *; [|split; [by exists l|done]..].
  destruct (Hk a w1) as [(l' & Hl' & HF' & Hs') Hc']. split; [|by rewrite Hc', Hc].
  exists (l ++ l')%list. rewrite Hl', Hl, app_assoc. split; [done|].
  split; [by apply Forall_app|]. by eapply hsteps_app.
Qed.
Lemma watch_emits_attempt φ {A} (m : M (Watch (S := S)) A) : watch_emits φ m → watch_emits φ (attempt m).
Proof. intros Hm w. specialize (Hm w). unfold attempt. by destruct (m w) as [[] w']. Qed.
Lemma watch_emits_context φ {A} c (m : M (Watch (S := S)) A) : watch_emits φ m → watch_emits φ (with_context c m).
Proof. intros Hm w. specialize (Hm w). unfold with_context. by destruct (m w) as [o w']. Qed.
Lemma watch_emits_when φ b (m : M (Watch (S := S)) unit) : (b = true → watch_emits φ m) → watch_emits φ (when b m).
Proof. destruct b; cbn; auto using watch_emits_ret. Qed.
Lemma watch_emits_for_each φ {A} (l : list A) (f : A → M (Watch (S := S)) unit) :
  (∀ x, x ∈ l → watch_emits φ (f x)) → watch_emits φ (for_each l f).
Proof.
  induction l as [|x l IH]; intros Hf; cbn; [apply watch_emits_ret|].
  apply watch_emits_bind; [apply Hf; left|]. intros _. apply IH. intros y Hy. apply Hf. by right.
Qed.

Lemma watch_emits_call φ o : φ o → watch_emits φ (hosted (call o)).
Proof. intros Ho. apply watch_emits_hosted; [by emits_op|apply (runs_call o)|apply (keeps_call o)]. Qed.
Lemma watch_emits_now φ : watch_emits φ (hosted ask_now).
Proof.
  apply watch_emits_hosted; [auto with gw..|]. intros w. unfold ask_now. by destruct (now _).
Qed.
End watchdog_ops.

Ltac watch_step :=
  lazymatch goal with
  | |- watch_emits _ (mbind _ _) => apply watch_emits_bind; [|intros]
  | |- watch_emits _ (with_context _ _) => apply watch_emits_context
  | |- watch_emits _ (attempt _) => apply watch_emits_attempt
  | |- watch_emits _ (when _ _) => apply watch_emits_when; intros
  | |- watch_emits _ (for_each _ _) => apply watch_emits_for_each; intros
  | |- watch_emits _ (hosted (call ?o)) => apply (watch_emits_call _ o); try done
  | |- watch_emits _ (event _) => apply (watch_emits_call _ (SendEvent _)); try done
  | |- watch_emits _ (hosted ask_now) => apply watch_emits_now
  | |- watch_emits _ (lift _) => apply watch_emits_lift
  | |- watch_emits _ (if ?b then _ else _) => destruct b
  | |- watch_emits _ (match ?x with _ => _ end) => destruct x
  | |- watch_emits _ _ => by apply watch_emits_silent
  end.

Section watchdog_scope.
Context `{T : Target} `{WK : WireguardKeys} `{UC : UrlCrate} `{IC : IpnetCrate} {S : Type} `{HS : !Host S}.

Lemma watchdog_peer_emits port stats peer :
  watch_emits (S := S) watch_op (watchdog_peer port stats peer).
Proof. unfold watchdog_peer, watchdog_traffic, watchdog_events. repeat watch_step. Qed.

Lemma watchdog_netns_emits netns :
  starts_with NETNS_PREFIX netns = true → watch_emits (S := S) watch_op (watchdog_netns netns).
Proof.
  intros Hp. unfold watchdog_netns. repeat first [apply watchdog_peer_emits | watch_step].
Qed.

Lemma watch_emits_mono φ ψ {A} (m : M (Watch (S := S)) A) :
  watch_emits φ m → (∀ o, φ o → ψ o) → watch_emits ψ m.
Proof.
  intros Hm Hφ w. destruct (Hm w) as [(l & Hl & HF & Hs) Hc]. split; [|done].
  exists l. split; [done|]. split; [by eapply Forall_impl|done].
Qed.

(** What a poll does to the host is what it logs. *)
Lemma watchdog_netns_steps netns (w : Watch (S := S)) :
  ∃ l, watch_log (watchdog_netns netns w).2 = (watch_log w ++ l)%list ∧
    hsteps (watch_host w) l (watch_host (watchdog_netns netns w).2).
Proof.
  assert (He : watch_emits (S := S) (λ _, True) (watchdog_netns netns)).
  { unfold watchdog_netns. repeat first [by eapply watch_emits_mono; [apply watchdog_peer_emits|] | watch_step]. }
  destruct (He w) as [(l & Hl & _ & Hs) _]. by exists l.
Qed.

Lemma watchdog_emits ticks : watch_emits (S := S) watch_op (watchdog ticks).
Proof.
  induction ticks as [|ticks IH]; cbn [watchdog]; [apply watch_emits_ret|].
  unfold watchdog_tick, watchdog_run.
  repeat first [done | by apply watchdog_netns_emits | watch_step].
Qed.

(** C26: the watchdog only watches.  However long it runs and whatever the
    host answers, it changes neither the machine nor the configuration: it
    lists namespaces, reads the statistics of those with the gateway's prefix
    and fills the queues, and nothing else happens to the host. *)
Theorem watchdog_only_watches ticks (w : Watch (S := S)) :
  (∃ l, watch_log (watchdog ticks w).2 = (watch_log w ++ l)%list ∧ Forall watch_op l ∧
        hsteps (watch_host w) l (watch_host (watchdog ticks w).2)) ∧
  w_config (wa_world (watchdog ticks w).2) = w_config (wa_world w).
Proof. apply watchdog_emits. Qed.
End watchdog_scope.

(** ** A failing network does not hide the others *)
Section coverage.
Context `{T : Target} `{WK : WireguardKeys} `{UC : UrlCrate} `{IC : IpnetCrate} {S : Type} `{HS : !Host S}.
Implicit Types w : Watch (S := S).

(** The query for the statistics of a namespace. *)
Definition poll (suffix : string) : Op := WireguardStats (NETNS_PREFIX ++ suffix) ("wg" ++ suffix).

Lemma hosted_call_log o w : watch_log (hosted (call o) w).2 = (watch_log w ++ [o])%list.
Proof. unfold watch_log, hosted, call. by destruct (exec o _) as [r s]. Qed.

Lemma watch_emits_log φ {A} (m : M (Watch (S := S)) A) w :
  watch_emits φ m → ∃ l, watch_log (m w).2 = (watch_log w ++ l)%list.
Proof. intros Hm. destruct (Hm w) as [(l & Hl & _ & _) _]. by exists l. Qed.

Lemma watchdog_netns_polls suffix w :
  ∃ l, watch_log (watchdog_netns (NETNS_PREFIX ++ suffix) w).2 = (watch_log w ++ poll suffix :: l)%list.
Proof.
  set (k := λ stats : NetworkStats, cache ← get_cache;
    set_cache (entry_update (stats_listen_port stats) ∅ id cache);;
    for_each (stats_peers stats) (λ peer, attempt (watchdog_peer (S := S) (stats_listen_port stats) stats peer);; mret tt);;
    cache ← get_cache;
    for_each (filter (λ peer, peer ∉ peer_public_key <$> stats_peers stats)
                (map_keys (default ∅ (cache !! stats_listen_port stats)))) (λ peer,
      cache ← get_cache;
      set_cache (entry_update (stats_listen_port stats) ∅ (delete peer) cache);;
      event (disconnected stats peer))).
  assert (Hk : ∀ stats, watch_emits watch_op (k stats)).
  { intros stats. subst k. cbn. repeat first [apply watchdog_peer_emits | watch_step]. }
  change (watchdog_netns (NETNS_PREFIX ++ suffix)) with
    (suffix' ← lift (slice_from 8 (NETNS_PREFIX ++ suffix));
     stats ← with_context "Fetching wireguard stats" (hosted (call (S := S) (WireguardStats (NETNS_PREFIX ++ suffix) ("wg" ++ suffix'))));
     k stats).
  rewrite (slice_from_app NETNS_PREFIX suffix : slice_from 8 _ = _).
  unfold mbind at 1, M_bind at 1. cbn [lift]. unfold mbind at 1, M_bind at 1, with_context at 1.
  pose proof (hosted_call_log (poll suffix) w) as Hl. unfold poll in *.
  destruct (hosted _ w) as [[stats|e|] w1]; cbn [fst snd context] in *; [|exists []; by rewrite Hl..].
  destruct (watch_emits_log _ _ w1 (Hk stats)) as (l & ->). exists l. rewrite Hl, <-app_assoc. done.
Qed.

Lemma watchdog_visits (items : list NetnsItem) w o w' :
  for_each items (λ netns, when (starts_with NETNS_PREFIX (item_name netns))
    (attempt (watchdog_netns (item_name netns));; mret tt)) w = (o, w') → o ≠ Panic →
  o = Ok tt ∧ ∃ l, watch_log w' = (watch_log w ++ l)%list ∧
    ∀ item suffix, item ∈ items → item_name item = NETNS_PREFIX ++ suffix → poll suffix ∈ l.
Proof.
  revert w. induction items as [|item items IH]; intros w Hr Ho; cbn [for_each] in Hr.
  { injection Hr as <- <-. split; [done|]. exists []. rewrite app_nil_r. split; [done|]. set_solver. }
  unfold mbind at 1, M_bind at 1 in Hr.
  destruct (starts_with NETNS_PREFIX (item_name item)) eqn:Hp; cbn [when] in Hr.
  - apply starts_with_spec in Hp as (suffix & Hname). rewrite Hname in Hr.
    destruct (watchdog_netns_polls suffix w) as (l & Hl).
    unfold mbind at 1, M_bind at 1, attempt in Hr.
    destruct (watchdog_netns (NETNS_PREFIX ++ suffix) w) as [[[]|e|] w1]; cbn [snd] in Hl;
      [| |by injection Hr as <-]; cbn in Hr;
      (destruct (IH w1 Hr Ho) as (-> & l' & Hl' & Hin); split; [done|];
       exists ((poll suffix :: l) ++ l')%list; rewrite Hl', Hl, <-app_assoc; split; [done|];
       intros i s [->|Hi]%elem_of_cons Hi';
         [assert (s = suffix) as -> by (apply (inj (String.append NETNS_PREFIX)); congruence); left
         |apply elem_of_app; right; by eapply Hin]).
  - cbn in Hr. destruct (IH w Hr Ho) as (-> & l & Hl & Hin). split; [done|]. exists l. split; [done|].
    intros i s [->|Hi]%elem_of_cons Hi'; [|by eapply Hin]. by rewrite Hi', starts_with_app in Hp.
Qed.

(** C24: the watchdog reaches every network.  When the namespaces can be
    listed, a run that does not panic asks for the statistics of each one
    with the gateway's prefix, whatever happens for the others, and then
    reports the traffic: only that report can make the run fail. *)
Theorem watchdog_run_covers (items : list NetnsItem) w w1 o w' :
  hosted (call NetnsList) w = (Ok items, w1) → watchdog_run w = (o, w') → o ≠ Panic →
  ∃ l t, watch_log w' = (watch_log w ++ NetnsList :: l ++ [SendTraffic t])%list ∧
    ∀ item suffix, item ∈ items → item_name item = NETNS_PREFIX ++ suffix → poll suffix ∈ l.
Proof.
  intros Hlist Hr Ho. unfold watchdog_run in Hr. unfold mbind at 1, M_bind at 1, with_context at 1 in Hr.
  pose proof (hosted_call_log NetnsList w) as Hl. rewrite Hlist in Hr, Hl. cbn [snd context] in Hr, Hl.
  unfold mbind at 1, M_bind at 1 in Hr. cbn [set_traffic] in Hr.
  unfold mbind at 1, M_bind at 1 in Hr.
  set (w2 := {| wa_world := wa_world w1; wa_traffic := TrafficInfo_new 0; wa_cache := wa_cache w1 |}) in Hr.
  destruct (for_each _ _ w2) as [o3 w3] eqn:Hloop.
  assert (Ho3 : o3 ≠ Panic) by (intros ->; by injection Hr as <-).
  destruct (watchdog_visits items w2 o3 w3 Hloop Ho3) as (-> & l & Hl3 & Hin).
  unfold mbind, M_bind in Hr. cbn [get_traffic] in Hr. exists l, (wa_traffic w3).
  pose proof (hosted_call_log (SendTraffic (wa_traffic w3)) w3) as Hl4. rewrite Hr in Hl4. cbn [snd] in Hl4.
  split; [|done]. rewrite Hl4, Hl3. change (watch_log w2) with (watch_log w1).
  rewrite Hl, <-!app_assoc. done.
Qed.
End coverage.

(** ** Nobody listens *)
Section deaf.
Context `{TO : TargetOk} `{WK : WireguardKeys} `{UC : UrlCrate} `{IC : IpnetCrate} {S : Type} `{HS : !Host S}.
Implicit Types w : Watch (S := S).

(** In the states with [I] traffic cannot be sent, and that does not change. *)
Class Deaf (I : S → Prop) : Prop := {
  deaf_traffic t s : I s → ∃ e, (exec (SendTraffic t) s).1 = inr e;
  deaf_exec o s : I s → I (exec o s).2;
  deaf_now s : I s → I (now s).2
}.
Context {I : S → Prop} `{HD : !Deaf I}.

Lemma hsteps_deaf s l s' : hsteps s l s' → I s → I s'.
Proof.
  induction 1 as [s|o s l s' _ IH|s l s' _ IH]; intros Hs; [done|by apply IH, deaf_exec|by apply IH, deaf_now].
Qed.
Lemma watch_deaf {A} (m : M (Watch (S := S)) A) w a w' :
  watch_emits watch_op m → m w = (Ok a, w') → I (watch_host w) → I (watch_host w').
Proof.
  intros Hm Hr Hw. destruct (Hm w) as [(l & _ & _ & Hs) _]. rewrite Hr in Hs. by eapply hsteps_deaf.
Qed.

Lemma run_deaf w w' : I (watch_host w) → watchdog_run w ≠ (Ok tt, w').
Proof.
  intros Hw Hrun. unfold watchdog_run in Hrun.
  apply bind_Ok_inv in Hrun as (items & w1 & H1 & Hrun).
  apply watch_deaf in H1; [|repeat watch_step|done].
  apply bind_Ok_inv in Hrun as ([] & w2 & [= <-] & Hrun).
  apply bind_Ok_inv in Hrun as ([] & w3 & H3 & Hrun).
  apply watch_deaf in H3; [|repeat first [by apply watchdog_netns_emits | watch_step]|done].
  apply bind_Ok_inv in Hrun as (t & w4 & [= <- <-] & (Hcall & _)%hosted_Ok_inv).
  unfold call in Hcall. destruct (deaf_traffic (wa_traffic w3) (w_host (wa_world w3)) H3) as [e He].
  destruct (exec _ _) as [r s]. cbn in He. subst r. done.
Qed.

Lemma tick_forgets w w' :
  I (watch_host w) → watchdog_tick w = (Ok tt, w') →
  wa_cache w' = ∅ ∧ I (watch_host w') ∧
  ∀ port stats peer w'', watchdog_peer port stats peer w' = (Ok tt, w'') →
    wa_traffic w'' = wa_traffic w' ∧
    ∃ p evs, (p = peer ∨ p = without_handshake peer) ∧
      watch_log w'' = (watch_log w' ++ (SendEvent <$> evs))%list ∧
      if has_handshake p then (∃ e, connected stats p = Ok e ∧ evs = [e]) else evs = [].
Proof.
  intros Hw Hr. assert (Hw' : I (watch_host w')).
  { eapply (watch_deaf watchdog_tick); [|exact Hr|done]. unfold watchdog_tick, watchdog_run.
    repeat first [done | by apply watchdog_netns_emits | watch_step]. }
  assert (Hc : wa_cache w' = ∅).
  { unfold watchdog_tick in Hr. apply bind_Ok_inv in Hr as (r & w1 & H1 & Hr). unfold attempt in H1.
    destruct (watchdog_run w) as [[[]|e|] w2] eqn:Hrun; [by apply run_deaf in Hrun| |done].
    injection H1 as <- <-. by injection Hr as <-. }
  split; [done|]. split; [done|]. intros port stats peer w''. by apply forgotten_reports.
Qed.

End deaf.

(** ** What the gateway's own task issues

    [apply] and [apply_partial] do nothing but operations on the machine. *)
Section gateway_ops.
Context `{T : Target} `{WK : WireguardKeys} `{UC : UrlCrate} `{IC : IpnetCrate} `{BC : Base32Crate}
        `{RC : RegexCrate} `{TE : Tera} `{HO : HashOrder} {S : Type} `{HS : !Host S}.

Definition gateway_op (o : Op) : Prop :=
  match o with SendTraffic _ | SendEvent _ => False | _ => True end.

Lemma apply_addr_runs ns i target : runs (S := S) (apply_addr ns i target).
Proof. unfold apply_addr. runs_all. Qed.
Lemma apply_interface_up_runs ns i : runs (S := S) (apply_interface_up ns i).
Proof. unfold apply_interface_up. runs_all. Qed.
Lemma apply_link_master_runs ns i m : runs (S := S) (apply_link_master ns i m).
Proof. unfold apply_link_master. runs_all. Qed.
#[local] Hint Resolve apply_addr_runs apply_interface_up_runs apply_link_master_runs : gw.
Lemma setup_bridge_runs : runs (S := S) setup_bridge.
Proof. unfold setup_bridge, apply_bridge. runs_all. Qed.
Lemma apply_network_runs n : runs (S := S) (apply_network n).
Proof. unfold apply_network, apply_netns, apply_wireguard, apply_veth, apply_forwarding. runs_all. Qed.
Lemma apply_nginx_runs networks options : runs (S := S) (apply_nginx networks options).
Proof. unfold apply_nginx. runs_all. Qed.
#[local] Hint Resolve setup_bridge_runs apply_network_runs apply_nginx_runs : gw.
Lemma apply_runs options config : runs (S := S) (apply options config).
Proof. unfold apply. runs_all. Qed.
Lemma startup_runs options : runs (S := S) (startup options).
Proof. unfold startup. runs_all. Qed.
Lemma apply_partial_runs options partial : runs (S := S) (apply_partial options partial).
Proof. unfold apply_partial, apply_entry. runs_all. Qed.

Lemma setup_bridge_sends_nothing : emits (S := S) gateway_op setup_bridge.
Proof.
  unfold setup_bridge, apply_bridge.
  repeat first [ apply apply_addr_emits; [|intros] | apply apply_interface_up_emits | emits_step ]; done.
Qed.
Lemma apply_network_sends_nothing n : emits (S := S) gateway_op (apply_network n).
Proof. eapply emits_mono; [apply apply_network_own|]. by intros []. Qed.
Lemma apply_nginx_sends_nothing networks options : emits (S := S) gateway_op (apply_nginx networks options).
Proof. unfold apply_nginx. repeat emits_step; done. Qed.
#[local] Hint Resolve setup_bridge_sends_nothing apply_network_sends_nothing apply_nginx_sends_nothing : gw.
Lemma apply_sends_nothing options config : emits (S := S) gateway_op (apply options config).
Proof. unfold apply. emits_all; done. Qed.
Lemma apply_partial_sends_nothing options partial : emits (S := S) gateway_op (apply_partial options partial).
Proof. unfold apply_partial, apply_entry. emits_all; done. Qed.
End gateway_ops.

(** ** The watchdog as a task

    The two tasks interleave wherever one awaits, so the watchdog has to be
    stopped before each thing it asks of the host.  A [Replay] is a host that
    answers what was asked before out of the states the host was in then, and
    notes the first thing that is asked after that.  Replaying [watchdog] on
    it finds the next action of the task. *)
Section task.
Context `{T : Target} `{WK : WireguardKeys} `{UC : UrlCrate} `{IC : IpnetCrate} {S : Type} `{HS : !Host S}.

Inductive Action := Issue (o : Op) | ReadClock.
Record Replay := { rp_states : list S; rp_wants : option Action }.

Definition answer_from {A} (ask : S → A * S) (a : Action) (no_answer : A) (r : Replay) : A * Replay :=
  match rp_wants r, rp_states r with
  | Some _, _ => (no_answer, r)
  | None, s :: states => ((ask s).1, {| rp_states := states; rp_wants := None |})
  | None, [] => (no_answer, {| rp_states := []; rp_wants := Some a |})
  end.
#[global] Instance replay_host : Host Replay := {|
  exec o := answer_from (exec o) (Issue o) (inr (EMsg "(no answer yet)"));
  path_is_file _ _ := false;
  now := answer_from now ReadClock 0
|}.

(** The task at its start, to be answered from [past]; and what it does after
    that, if it has not ended. *)
Definition watchdog_replayed (past : list S) : Watch (S := Replay) := {|
  wa_world := {| w_host := {| rp_states := past; rp_wants := None |}; w_log := []; w_config := ∅ |};
  wa_traffic := TrafficInfo_new 0; wa_cache := ∅ |}.
Definition next_action (ticks : nat) (past : list S) : option Action :=
  rp_wants (watch_host (watchdog ticks (watchdog_replayed past)).2).

Lemma answer_from_wants {A} (ask : S → A * S) a no_answer r b :
  rp_wants (answer_from ask a no_answer r).2 = Some b → rp_wants r = Some b ∨ b = a.
Proof. unfold answer_from. repeat case_match; cbn; naive_solver. Qed.

Lemma replay_wants (r r' : Replay) l o :
  hsteps r l r' → rp_wants r' = Some (Issue o) → rp_wants r = Some (Issue o) ∨ o ∈ l.
Proof.
  induction 1 as [r|o' r l r' _ IH|r l r' _ IH]; intros Hw; [by left|..].
  - destruct (IH Hw) as [Hw'|Hin]; [|right; by right].
    apply answer_from_wants in Hw' as [Hw'|[= ->]]; [by left|]. right. left.
  - destruct (IH Hw) as [Hw'|Hin]; [|by right].
    apply answer_from_wants in Hw' as [Hw'|[=]]. by left.
Qed.

(** The task does what the watchdog does. *)
Lemma next_action_watches ticks past o : next_action ticks past = Some (Issue o) → watch_op o.
Proof.
  unfold next_action. intros Hn.
  destruct (watchdog_emits ticks (watchdog_replayed past)) as [(l & _ & HF & Hs) _].
  destruct (replay_wants _ _ _ _ Hs Hn) as [|Hin]; [done|]. rewrite Forall_forall in HF. by apply HF.
Qed.

(** *** The machine of both tasks

    The host, the watchdog's task as what was done of it, and the schedule:
    [sh_slots] says how many actions the watchdog gets to do before each
    operation of the other task, and stands for every interleaving.
    [sh_done] records the operations of the watchdog. *)
Record Shared := {
  sh_host : S;
  sh_ticks : nat;
  sh_past : list S;
  sh_slots : list nat;
  sh_done : list Op
}.
Definition share (h : S) (s : Shared) : Shared := {|
  sh_host := h; sh_ticks := sh_ticks s; sh_past := sh_past s; sh_slots := sh_slots s; sh_done := sh_done s |}.
Definition act (a : Action) (h : S) : S :=
  match a with Issue o => (exec o h).2 | ReadClock => (now h).2 end.
Definition issued (a : Action) : option Op := match a with Issue o => Some o | ReadClock => None end.

Definition watchdog_step (s : Shared) : Shared :=
  match next_action (sh_ticks s) (sh_past s) with
  | Some a => {| sh_host := act a (sh_host s); sh_ticks := sh_ticks s; sh_past := sh_past s ++ [sh_host s];
                 sh_slots := sh_slots s; sh_done := sh_done s ++ option_list (issued a) |}
  | None => s
  end.
Definition yield_to_watchdog (s : Shared) : Shared :=
  match sh_slots s with
  | [] => s
  | n :: slots => Nat.iter n watchdog_step {| sh_host := sh_host s; sh_ticks := sh_ticks s; sh_past := sh_past s;
                                              sh_slots := slots; sh_done := sh_done s |}
  end.
#[global] Instance shared_host : Host Shared := {|
  exec o s :=
    let s := yield_to_watchdog s in
    let '(r, h) := exec o (sh_host s) in (r, share h s);
  path_is_file path s := path_is_file path (sh_host s);
  now s := let '(t, h) := now (sh_host s) in (t, share h s)
|}.

(** What the watchdog did from [s] to [s']. *)
Definition passed (s : Shared) (ops : list Op) (s' : Shared) : Prop :=
  sh_done s' = (sh_done s ++ ops)%list ∧ Forall watch_op ops.

Lemma passed_refl s s' : sh_done s' = sh_done s → passed s [] s'.
Proof. intros Hd. split; [by rewrite app_nil_r|constructor]. Qed.
Lemma passed_trans s1 l1 s2 l2 s3 : passed s1 l1 s2 → passed s2 l2 s3 → passed s1 (l1 ++ l2) s3.
Proof. intros [H1 HF1] [H2 HF2]. split; [by rewrite H2, H1, app_assoc|by apply Forall_app]. Qed.
Lemma passed_fun s l1 l2 s' : passed s l1 s' → passed s l2 s' → l1 = l2.
Proof. intros [H1 _] [H2 _]. rewrite H1 in H2. by apply app_inv_head in H2. Qed.

Lemma step_passes s : ∃ ops, passed s ops (watchdog_step s) ∧ hsteps (sh_host s) ops (sh_host (watchdog_step s)).
Proof.
  unfold watchdog_step. destruct (next_action _ _) as [[o|]|] eqn:Hn.
  - exists [o]. split; [split; [done|]|by repeat constructor]. apply Forall_singleton. by eapply next_action_watches.
  - exists []. split; [split; [done|constructor]|by repeat constructor].
  - exists []. split; [by apply passed_refl|constructor].
Qed.
Lemma steps_pass n s : ∃ ops, passed s ops (Nat.iter n watchdog_step s) ∧
  hsteps (sh_host s) ops (sh_host (Nat.iter n watchdog_step s)).
Proof.
  induction n as [|n (ops & Hp & Hs)]; [exists []; split; [by apply passed_refl|constructor]|].
  destruct (step_passes (Nat.iter n watchdog_step s)) as (ops' & Hp' & Hs').
  exists (ops ++ ops')%list. split; [by eapply passed_trans|by eapply hsteps_app].
Qed.
Lemma yield_passes s : ∃ ops, passed s ops (yield_to_watchdog s) ∧
  hsteps (sh_host s) ops (sh_host (yield_to_watchdog s)).
Proof.
  unfold yield_to_watchdog. destruct (sh_slots s) as [|n slots]; [|apply (steps_pass n {| sh_slots := slots |})].
  exists []. split; [by apply passed_refl|constructor].
Qed.

Lemma shared_exec o s : (exec o s).2 = share (exec o (sh_host (yield_to_watchdog s))).2 (yield_to_watchdog s).
Proof. unfold exec at 1, shared_host. by destruct (exec o (sh_host _)). Qed.
Lemma shared_now s : (now s).2 = share (now (sh_host s)).2 s.
Proof. unfold now at 1, shared_host. by destruct (now (sh_host s)). Qed.
Lemma hsteps_pass s l s' : hsteps s l s' → ∃ ops, passed s ops s'.
Proof.
  induction 1 as [s|o s l s' _ (ops & Hp)|s l s' _ (ops & Hp)]; [exists []; by apply passed_refl|..].
  - destruct (yield_passes s) as (ops' & Hp' & _). rewrite shared_exec in Hp. eexists. by eapply passed_trans.
  - rewrite shared_now in Hp. by exists ops.
Qed.
End task.
Arguments Replay {_ _} S.
Arguments Shared {_ _} S.

(** *** Beside the watchdog the machine follows the kernel *)
Section shared.
Context `{T : Target} `{WK : WireguardKeys} `{UC : UrlCrate} `{IC : IpnetCrate} `{RC : RegexCrate} {S : Type} `{HS : !Host S}.

(** A failing read changes nothing either. *)
Class ReadsKeep `{HK : !HostOk S} : Prop := reads_keep o s :
  watch_op o → view (exec o s).2 = view s.

Context `{RK : ReadsKeep}.

Lemma hsteps_keep (s : S) l s' : hsteps s l s' → Forall watch_op l → view s' = view s.
Proof.
  induction 1 as [s|o s l s' _ IH|s l s' _ IH]; intros HF; [done|..].
  - apply Forall_cons in HF as [Ho HF]. by rewrite IH, reads_keep.
  - rewrite IH by done. by eapply host_now, surjective_pairing.
Qed.
Lemma yield_keeps (s : Shared S) : view (sh_host (yield_to_watchdog s)) = view (sh_host s).
Proof. destruct (yield_passes s) as (ops & [_ HF] & Hs). by eapply hsteps_keep. Qed.

#[global] Instance shared_ok : HostOk (Shared S).
Proof.
  refine {| view s := view (sh_host s) |}.
  - intros o s r s' Hs. cbn in Hs. destruct (exec o _) as [r' h] eqn:He. injection Hs as -> <-.
    cbn. rewrite <-(yield_keeps s). by apply host_step.
  - intros s t s' Hs. cbn in Hs. destruct (now _) as [t' h] eqn:Hn. injection Hs as <- <-.
    cbn. by eapply host_now.
Defined.
End shared.

Section beside.
Context `{T : Target} `{WK : WireguardKeys} `{UCO : !UrlCrateOk UC} `{ICO : !IpnetCrateOk IC} `{BCO : !Base32CrateOk BC}
        `{RCO : !RegexCrateOk RC} `{TEO : !TeraOk TE} `{HOO : !HashOrderOk HO} {S : Type} `{HS : !Host S}
        `{HK : !HostOk S} `{RK : !ReadsKeep}.

(** C27: the watchdog cannot disturb the application of a configuration.
    Beside [apply] the watchdog runs, its actions interleaved with the
    operations of [apply] by any schedule: an [apply] that succeeds has
    deployed the configuration, and the operations the watchdog did meanwhile
    list namespaces, read statistics in those with the gateway's prefix, or
    fill the queues. *)
Theorem apply_beside_watchdog options (config : GatewayConfig) (w w' : World (Shared S)) :
  Forall servable (networks_of (config : gmap Z NetworkState)) →
  apply options config w = (Ok tt, w') →
  deployed options (networks_of (config : gmap Z NetworkState)) (view (sh_host (w_host w'))) ∧
  w_config w' = config ∧
  ∃ ops, sh_done (w_host w') = (sh_done (w_host w) ++ ops)%list ∧ Forall watch_op ops.
Proof.
  intros Hs Hw. split; [exact (apply_deployed _ _ _ _ Hs Hw)|].
  pose proof (apply_recorded options config w) as Hc. rewrite Hw in Hc. split; [exact Hc|].
  destruct (apply_runs options config w) as (l & _ & Hl). rewrite Hw in Hl. exact (hsteps_pass _ _ _ Hl).
Qed.
End beside.

(** ** Startup *)
Section startup.
Context `{T : Target} `{WK : WireguardKeys} `{UCO : !UrlCrateOk UC} `{ICO : !IpnetCrateOk IC} `{BCO : !Base32CrateOk BC}
        `{RCO : !RegexCrateOk RC} `{TEO : !TeraOk TE} `{HO : HashOrder} {S : Type} `{HS : !Host S}
        `{HK : !HostOk S} `{JS : !Json} {N : Type} `{WN : !Wire S N}.

Lemma startup_done options (w w' : World S) :
  startup options w = (Ok tt, w') →
  if path_is_file NGINX_MODULE_PATH (w_host w) then w' = w
  else ∃ f, forwarding_of [] (opt_custom_forwarding options) = Ok f ∧
    k_nginx (kernel_of w') = (Some (render_nginx f), Some (render_sites f)).
Proof.
  unfold startup. intros (is_file & w1 & [= <- <-] & Hr%when_Ok_inv)%bind_Ok_inv.
  destruct (path_is_file _ _); cbn in Hr; [done|].
  destruct (forwarding_of_repr [] (opt_custom_forwarding options)) as (f & Hf & _); [done|].
  exists f. split; [done|]. by eapply (apply_nginx_achieves _ _ f Hf _ _ _ I).
Qed.

(** The daemon initialises NGINX before it connects.  When the module
    file is there already nothing is touched; otherwise, when startup
    succeeds, NGINX has loaded the forwarding of the command line and nothing
    else; and when it fails, the daemon ends with that error and has neither
    connected nor sent anything. *)
Theorem run_starts sessions turns options (s : Session S N) :
  (∀ w', startup options (se_world s) = (Ok tt, w') →
     (if path_is_file NGINX_MODULE_PATH (w_host (se_world s)) then w' = se_world s
      else ∃ f, forwarding_of [] (opt_custom_forwarding options) = Ok f ∧
        k_nginx (kernel_of w') = (Some (render_nginx f), Some (render_sites f))) ∧
     run sessions turns options s =
       connect sessions turns options {| se_world := w'; se_wire := se_wire s; se_trace := se_trace s |}) ∧
  (∀ e w', startup options (se_world s) = (Err e, w') →
     run sessions turns options s =
       (Err (ECtx "Starting up gateway" e), {| se_world := w'; se_wire := se_wire s; se_trace := se_trace s |})).
Proof.
  split.
  - intros w' Hw. split; [by apply startup_done|].
    unfold run, mbind, M_bind, with_context, on_gateway. by rewrite Hw.
  - intros e w' Hw. unfold run, mbind, M_bind, with_context, on_gateway. by rewrite Hw.
Qed.
End startup.

(** ** Witnesses *)
Section witnesses.
#[local] Existing Instances sample_keys sample_url sample_ipnet sample_base32 sample_regex sample_tera.
#[local] Existing Instances sample_keys_ok sample_url_ok sample_ipnet_ok sample_base32_ok
  sample_regex_ok sample_tera_ok.
#[local] Existing Instances release64 sample_order sample_order_ok sample_json script_wire.

#[local] Instance machine_reads_keep : ReadsKeep (S := Machine).
Proof. intros [] m Ho; try done; cbn; by repeat case_match. Qed.

(** The watchdog polls a namespace that is gone, and the one that answers. *)
Definition two_namespaces : Machine :=
  let m := machine_with true true new_peers in
  with_kernel (set_netns {[ "network-7"; "network-8"; "other" ]} (m_kernel m)) m.
Definition first_tick : Watch (S := Machine) := {|
  wa_world := world_on two_namespaces; wa_traffic := TrafficInfo_new 0; wa_cache := ∅ |}.
Definition listed : list NetnsItem :=
  (λ ns, {| item_name := ns; item_id := None |}) <$> elements (k_netns (m_kernel two_namespaces)).
Definition covered : outcome unit * Watch (S := Machine) := watchdog_run first_tick.

Lemma watchdog_run_covers_witness :
  "network-8" ∈ item_name <$> listed ∧
  ∃ l t, watch_log covered.2 = ([] ++ NetnsList :: l ++ [SendTraffic t])%list ∧
    ∀ item suffix, item ∈ listed → item_name item = NETNS_PREFIX ++ suffix → poll suffix ∈ l.
Proof.
  split; [by apply (bool_decide_unpack _); vm_compute|].
  refine (watchdog_run_covers listed first_tick (hosted (call NetnsList) first_tick).2 covered.1 covered.2 _ _ _).
  - reflexivity.
  - apply surjective_pairing.
  - assert (Hok : is_ok covered.1 = true) by (vm_compute; reflexivity). by destruct covered.1.
Defined.

Lemma station_deaf : Deaf (S := Station false) (λ _, True).
Proof. split; try done. intros t [m] _. by eexists. Qed.
Definition forgotten : outcome unit * Watch (S := Station false) :=
  watchdog_tick (watch_on (machine_with false false new_peers) old_peers).
Lemma forgotten_ok :
  watchdog_tick (watch_on (machine_with false false new_peers) old_peers) = (Ok tt, forgotten.2).
Proof. assert (forgotten.1 = Ok tt) as <- by (vm_compute; reflexivity). apply surjective_pairing. Qed.


(** A gateway with two networks; the watchdog starts a tick, and again does
    three things before each operation. *)
Definition busy_machine : World (Shared Machine) := {|
  w_host := {| sh_host := two_namespaces; sh_ticks := 9; sh_past := []; sh_slots := replicate 99 3%nat; sh_done := [] |};
  w_log := []; w_config := ∅ |}.
Definition applied_beside : outcome unit * World (Shared Machine) :=
  apply sample_options sample_config busy_machine.
Lemma applied_beside_ok : apply sample_options sample_config busy_machine = (Ok tt, applied_beside.2).
Proof. assert (applied_beside.1 = Ok tt) as <- by (vm_compute; reflexivity). apply surjective_pairing. Qed.

Lemma apply_beside_watchdog_witness :
  (length (sh_done (w_host applied_beside.2)) > 30)%nat ∧
  deployed sample_options (networks_of sample_config) (view (sh_host (w_host applied_beside.2))) ∧
  w_config applied_beside.2 = sample_config ∧
  ∃ ops, sh_done (w_host applied_beside.2) = (sh_done (w_host busy_machine) ++ ops)%list ∧ Forall watch_op ops.
Proof.
  split; [apply Nat.ltb_lt; vm_compute; reflexivity|].
  exact (apply_beside_watchdog _ _ _ _ sample_config_servable applied_beside_ok).
Defined.

Lemma run_starts_witness :
  is_ok (startup sample_options (world_on empty_machine)).1 = true ∧
  (∀ w', startup sample_options (world_on empty_machine) = (Ok tt, w') →
     (if path_is_file NGINX_MODULE_PATH empty_machine then w' = world_on empty_machine
      else ∃ f, forwarding_of [] (opt_custom_forwarding sample_options) = Ok f ∧
        k_nginx (kernel_of w') = (Some (render_nginx f), Some (render_sites f))) ∧
     run 1 1 sample_options (session_on empty_machine []) =
       connect 1 1 sample_options {| se_world := w'; se_wire := []; se_trace := [] |}) ∧
  (∀ e w', startup sample_options (world_on empty_machine) = (Err e, w') →
     run 1 1 sample_options (session_on empty_machine []) =
       (Err (ECtx "Starting up gateway" e), {| se_world := w'; se_wire := []; se_trace := [] |})).
Proof. split; [by vm_compute|]. exact (run_starts 1 1 sample_options (session_on empty_machine [])). Defined.
End witnesses.
