(* ===== verification/Alone.v ===== *)
(** * The watchdog's task is the watchdog

    Daemon.v interleaves the watchdog with the other task by replaying it
    action by action.  Here: the task, left alone, does to the host exactly
    what [watchdog] of Watchdog.v does, and then ends. *)
From S2P Require Import Prelude Text BTree Net Crates Samples Client Types Tera Render Templates Stats Options.
From S2P Require Import Host Kernel Machine Logic Gateway Deploy Watchdog Websocket Daemon.

Local Open Scope string_scope.
Local Open Scope Z_scope.

(** ** Two runs of the same program *)
Section alone.
Context `{T : Target} `{WK : WireguardKeys} `{UC : UrlCrate} `{IC : IpnetCrate} {S : Type} `{HS : !Host S}.
Implicit Types (w : Watch (S := S)) (v : Watch (S := Replay S)).

(** The actions, and the states of the host in which they were done. *)
Inductive asked : S → list Action → list S → S → Prop :=
| asked_nil s : asked s [] [] s
| asked_cons a s acts past s' : asked (act a s) acts past s' → asked s (a :: acts) (s :: past) s'.

Lemma asked_app s1 l1 p1 s2 l2 p2 s3 : asked s1 l1 p1 s2 → asked s2 l2 p2 s3 → asked s1 (l1 ++ l2) (p1 ++ p2) s3.
Proof. induction 1; intros H3; [done|]. constructor. auto. Qed.
Lemma asked_length s acts past s' : asked s acts past s' → length acts = length past.
Proof. induction 1; cbn; congruence. Qed.

Definition alike w v : Prop := wa_traffic w = wa_traffic v ∧ wa_cache w = wa_cache v.
Definition replaying (states : list S) v : Prop := watch_host v = {| rp_states := states; rp_wants := None |}.
Definition wants (a : Action) v : Prop := rp_wants (watch_host v) = Some a.

(** [r] replays [m]: with the answers [m] was given it goes the same way, and
    with the first [n] of them it stops at the action that is next. *)
Record follows {A} (m : M (Watch (S := S)) A) (r : M (Watch (S := Replay S)) A) : Prop := {
  follows_stopped v a : wants a v → wants a (r v).2;
  follows_run w : ∃ acts past, asked (watch_host w) acts past (watch_host (m w).2) ∧
    watch_log (m w).2 = (watch_log w ++ omap issued acts)%list ∧
    (∀ v rest, alike w v → replaying (past ++ rest) v →
       (r v).1 = (m w).1 ∧ alike (m w).2 (r v).2 ∧ replaying rest (r v).2) ∧
    (∀ v n a, alike w v → replaying (take n past) v → acts !! n = Some a → wants a (r v).2)
}.

Lemma follows_silent {A} (m : M (Watch (S := S)) A) (r : M (Watch (S := Replay S)) A) :
  (∀ w, wa_world (m w).2 = wa_world w) → (∀ v, wa_world (r v).2 = wa_world v) →
  (∀ w v, alike w v → (r v).1 = (m w).1 ∧ alike (m w).2 (r v).2) → follows m r.
Proof.
  intros Hm Hr Hmr. split.
  - intros v a. unfold wants, watch_host. by rewrite Hr.
  - intros w. exists [], []. unfold watch_host, watch_log. rewrite Hm. split; [constructor|].
    split; [by rewrite app_nil_r|]. split; [|done]. intros v rest Ha Hv. destruct (Hmr w v Ha). 
    unfold replaying, watch_host in *. by rewrite Hr.
Qed.

Lemma follows_call o : follows (hosted (call o)) (hosted (call o)).
Proof.
  split.
  - intros [[h l c] t p] a Hw. unfold wants, watch_host, hosted, call in *. cbn in *.
    unfold answer_from. by rewrite Hw.
  - intros [[h l c] t p]. unfold watch_host, watch_log, hosted, call. cbn.
    destruct (exec o h) as [x h'] eqn:He. exists [Issue o], [h]. split.
    { constructor. cbn. rewrite He. constructor. }
    split; [done|]. split.
    + intros [[h1 l1 c1] t1 p1] rest [Ht Hc] Hv. unfold replaying, watch_host in *. cbn in *. subst h1 t1 p1.
      cbn. rewrite He. by destruct x.
    + intros [[h1 l1 c1] t1 p1] [|n] a _ Hv Ha; [|done]. unfold replaying, wants, watch_host in *. cbn in *. subst h1.
      by injection Ha as <-.
Qed.
Lemma follows_now : follows (hosted ask_now) (hosted ask_now).
Proof.
  split.
  - intros [[h l c] t p] a Hw. unfold wants, watch_host, hosted, ask_now in *. cbn in *.
    unfold answer_from. by rewrite Hw.
  - intros [[h l c] t p]. unfold watch_host, watch_log, hosted, ask_now. cbn.
    destruct (now h) as [x h'] eqn:He. exists [ReadClock], [h]. split.
    { constructor. cbn. rewrite He. constructor. }
    split; [by rewrite app_nil_r|]. split.
    + intros [[h1 l1 c1] t1 p1] rest [Ht Hc] Hv. unfold replaying, watch_host in *. cbn in *. subst h1 t1 p1.
      cbn. by rewrite He.
    + intros [[h1 l1 c1] t1 p1] [|n] a _ Hv Ha; [|done]. unfold replaying, wants, watch_host in *. cbn in *. subst h1.
      by injection Ha as <-.
Qed.

Lemma follows_bind {A B} (m : M (Watch (S := S)) A) r (k : A → M (Watch (S := S)) B) k' :
  follows m r → (∀ a, follows (k a) (k' a)) → follows (m ≫= k) (r ≫= k').
Proof.
  intros [Hstop Hrun] Hk. split.
  - intros v a Hv. apply Hstop in Hv. unfold mbind, M_bind. destruct (r v) as [[x|e|] v']; [|done..].
    by apply (follows_stopped _ _ (Hk x)).
  - intros w. destruct (Hrun w) as (acts & past & Hasked & Hlog & Hfull & Hpart). unfold mbind, M_bind.
    destruct (m w) as [[x|e|] w1]; cbn [fst snd] in *.
    + destruct (follows_run _ _ (Hk x) w1) as (acts' & past' & Hasked' & Hlog' & Hfull' & Hpart').
      exists (acts ++ acts')%list, (past ++ past')%list. split; [by eapply asked_app|].
      split; [by rewrite omap_app, Hlog', Hlog, app_assoc|]. split.
      * intros v rest Ha Hv. unfold replaying in Hv. rewrite <-app_assoc in Hv. destruct (Hfull v _ Ha Hv) as (Ho & Ha' & Hv').
        destruct (r v) as [o v1]; cbn [fst snd] in *. subst o. by apply Hfull'.
      * intros v n a Ha Hv Hn. apply asked_length in Hasked. rewrite take_app in Hv.
        destruct (decide (n < length acts)%nat) as [Hlt|Hge].
        -- rewrite lookup_app_l in Hn by done. replace (n - length past)%nat with 0%nat in Hv by lia.
           rewrite take_0, app_nil_r in Hv. specialize (Hpart v n a Ha Hv Hn).
           destruct (r v) as [[y|e|] v1]; [|done..]. by apply (follows_stopped _ _ (Hk y)).
        -- rewrite lookup_app_r in Hn by lia. rewrite take_ge in Hv by lia.
           destruct (Hfull v _ Ha Hv) as (Ho & Ha' & Hv').
           destruct (r v) as [o v1]; cbn [fst snd] in *. subst o. rewrite <-Hasked in Hv'. by eapply Hpart'.
    + exists acts, past. split; [done|]. split; [done|]. split.
      * intros v rest Ha Hv. destruct (Hfull v rest Ha Hv) as (Ho & Ha' & Hv').
        destruct (r v) as [o v1]; cbn [fst snd] in *. by subst o.
      * intros v n a Ha Hv Hn. specialize (Hpart v n a Ha Hv Hn).
        destruct (r v) as [[y|e'|] v1]; [|done..]. by apply (follows_stopped _ _ (Hk y)).
    + exists acts, past. split; [done|]. split; [done|]. split.
      * intros v rest Ha Hv. destruct (Hfull v rest Ha Hv) as (Ho & Ha' & Hv').
        destruct (r v) as [o v1]; cbn [fst snd] in *. by subst o.
      * intros v n a Ha Hv Hn. specialize (Hpart v n a Ha Hv Hn).
        destruct (r v) as [[y|e'|] v1]; [|done..]. by apply (follows_stopped _ _ (Hk y)).
Qed.
(** What a combinator does to the outcome alone. *)
Lemma follows_mapped {A B} (f : outcome A → outcome B) (m : M (Watch (S := S)) A) (m' : M (Watch (S := S)) B) r r' :
  (∀ w, m' w = (f (m w).1, (m w).2)) → (∀ v, r' v = (f (r v).1, (r v).2)) → follows m r → follows m' r'.
Proof.
  intros Hm Hr [Hstop Hrun]. split.
  - intros v a Hv. rewrite Hr. by apply Hstop.
  - intros w. destruct (Hrun w) as (acts & past & Hasked & Hlog & Hfull & Hpart). exists acts, past. rewrite Hm.
    split; [done|]. split; [done|]. split.
    + intros v rest Ha Hv. destruct (Hfull v rest Ha Hv) as (Ho & Hrest). rewrite Hr. cbn. by rewrite Ho.
    + intros v n a Ha Hv Hn. rewrite Hr. by eapply Hpart.
Qed.
Lemma follows_attempt {A} (m : M (Watch (S := S)) A) r : follows m r → follows (attempt m) (attempt r).
Proof.
  apply (follows_mapped (λ o, match o with Ok a => Ok (inl a) | Err e => Ok (inr e) | Panic => Panic end));
    intros w; unfold attempt; [by destruct (m w) as [[] ?]|by destruct (r w) as [[] ?]].
Qed.
Lemma follows_context {A} c (m : M (Watch (S := S)) A) r : follows m r → follows (with_context c m) (with_context c r).
Proof.
  apply (follows_mapped (context c)); intros w; unfold with_context; [by destruct (m w)|by destruct (r w)].
Qed.
Lemma follows_when b (m : M (Watch (S := S)) unit) r : follows m r → follows (when b m) (when b r).
Proof. destruct b; cbn; [done|]. intros _. by apply follows_silent. Qed.
Lemma follows_for_each {A} (l : list A) (f : A → M (Watch (S := S)) unit) g :
  (∀ x, follows (f x) (g x)) → follows (for_each l f) (for_each l g).
Proof. intros Hf. induction l as [|x l IH]; cbn; [by apply follows_silent|]. by apply follows_bind. Qed.
End alone.

Ltac follows_step :=
  lazymatch goal with
  | |- follows (mbind _ _) (mbind _ _) => apply follows_bind; [|intros]
  | |- follows (with_context _ _) _ => apply follows_context
  | |- follows (attempt _) _ => apply follows_attempt
  | |- follows (when _ _) _ => apply follows_when
  | |- follows (for_each _ _) _ => apply follows_for_each; intros
  | |- follows (hosted (call ?o)) _ => apply (follows_call o)
  | |- follows (event ?e) _ => apply (follows_call (SendEvent e))
  | |- follows (hosted ask_now) _ => apply follows_now
  | |- follows (if ?b then _ else _) _ => destruct b
  | |- follows (match ?x with _ => _ end) _ => destruct x
  | |- follows get_cache _ => apply follows_silent; [done..|]; intros ? ? [? Hc]; unfold get_cache, alike; cbn; by rewrite Hc
  | |- follows get_traffic _ => apply follows_silent; [done..|]; intros ? ? [Ht ?]; unfold get_traffic, alike; cbn; by rewrite Ht
  | |- follows _ _ => apply follows_silent; [done..|]; intros ? ? [? ?]; by unfold alike
  end.

(** ** The run of the task *)
Section alone_run.
Context `{T : Target} `{WK : WireguardKeys} `{UC : UrlCrate} `{IC : IpnetCrate} {S : Type} `{HS : !Host S}.

Lemma watchdog_netns_follows netns : follows (S := S) (watchdog_netns netns) (watchdog_netns netns).
Proof. unfold watchdog_netns, watchdog_peer, watchdog_traffic, watchdog_events. repeat follows_step. Qed.
Lemma watchdog_follows ticks : follows (S := S) (watchdog ticks) (watchdog ticks).
Proof.
  induction ticks as [|ticks IH]; cbn [watchdog]; [by apply follows_silent|]. unfold watchdog_tick, watchdog_run.
  repeat first [done | apply watchdog_netns_follows | follows_step].
Qed.

Lemma steps_replay ticks (acts : list Action) (past : list S) (s : Shared S) h' :
  (∀ n a, acts !! n = Some a → next_action ticks (take n past) = Some a) →
  asked (sh_host s) acts past h' → sh_ticks s = ticks → sh_past s = [] →
  ∀ n, (n ≤ length acts)%nat → let s' := Nat.iter n watchdog_step s in
    asked (sh_host s') (drop n acts) (drop n past) h' ∧ sh_ticks s' = ticks ∧ sh_past s' = take n past ∧
    sh_done s' = (sh_done s ++ omap issued (take n acts))%list.
Proof.
  intros Hnext Hasked Ht Hp n. induction n as [|n IH]; intros Hn; cbn zeta.
  { rewrite !drop_0. cbn. rewrite app_nil_r. done. }
  destruct IH as (Ha & Ht' & Hp' & Hd); [lia|]. cbn [Nat.iter].
  set (s' := Nat.iter n watchdog_step s) in *. change (Nat.iter (Datatypes.S n) watchdog_step s) with (watchdog_step s').
  destruct (lookup_lt_is_Some_2 acts n) as [a Hna]; [lia|].
  unfold watchdog_step. rewrite Ht', Hp', (Hnext n a Hna). cbn.
  pose proof (drop_S acts a n Hna) as Hdrop. rewrite Hdrop in Ha.
  destruct (drop n past) as [|x past'] eqn:Hpast; inversion Ha as [|? ? ? ? ? Hstep]; subst x.
  assert (Hnp : past !! n = Some (sh_host s')).
  { by rewrite <-(Nat.add_0_r n), <-lookup_drop, Hpast. }
  rewrite (drop_S past (sh_host s') n Hnp) in Hpast. injection Hpast as ->.
  rewrite (take_S_r past n _ Hnp), (take_S_r acts n _ Hna), omap_app, Hd, <-app_assoc.
  split; [done|]. split; [done|]. split; [done|]. cbn. by destruct (issued a).
Qed.

(** Some number of steps of the task is a run of [watchdog], and there is no
    further step. *)
Theorem watchdog_alone ticks (s : Shared S) (w : Watch (S := S)) :
  sh_host s = watch_host w → sh_ticks s = ticks → sh_past s = [] →
  wa_traffic w = TrafficInfo_new 0 → wa_cache w = ∅ →
  ∃ n ops, sh_host (Nat.iter n watchdog_step s) = watch_host (watchdog ticks w).2 ∧
    watch_log (watchdog ticks w).2 = (watch_log w ++ ops)%list ∧
    sh_done (Nat.iter n watchdog_step s) = (sh_done s ++ ops)%list ∧
    watchdog_step (Nat.iter n watchdog_step s) = Nat.iter n watchdog_step s.
Proof.
  intros Hh Ht Hp Htr Hc.
  destruct (follows_run _ _ (watchdog_follows ticks) w) as (acts & past & Hasked & Hlog & Hfull & Hpart).
  assert (Halike : ∀ l, alike w (watchdog_replayed l)) by done.
  rewrite <-Hh in Hasked.
  destruct (steps_replay ticks acts past s (watch_host (watchdog ticks w).2)) with (n := length acts)
    as (Hend & Ht' & Hp' & Hd); try done.
  { intros n a Hn. by eapply Hpart. }
  exists (length acts), (omap issued acts). rewrite take_ge in Hd by done. rewrite !drop_ge in Hend
    by (done || by apply Nat.eq_le_incl, eq_sym, (asked_length _ _ _ _ Hasked)).
  split; [by inversion Hend|]. split; [done|]. split; [done|].
  unfold watchdog_step at 1. rewrite Ht', Hp'. apply asked_length in Hasked. rewrite take_ge by lia.
  unfold next_action. destruct (Hfull (watchdog_replayed past) []) as (_ & _ & Hv); [done|by rewrite app_nil_r|].
  unfold replaying in Hv. by rewrite Hv.
Qed.
End alone_run.
