(* ===== verification/Queues.v ===== *)
(** * From the watchdog to the connection

    [Options::global] in src/lib.rs creates two broadcast channels; the
    watchdog's task fills them and the connection's task empties them.  Here
    the channels are part of the host that both tasks share, the operations
    [SendTraffic] and [SendEvent] are sends on them, and what [select!] yields
    is received from them.  The watchdog may act before every operation of the
    connection's task (the [Shared] machine of Daemon.v). *)
From S2P Require Import Prelude Text BTree Net Crates Broadcast Samples Client Types Tera Render Templates Stats Options.
From S2P Require Import Host Kernel Machine Logic Gateway Deploy Watchdog Websocket Answers Daemon.

Local Open Scope string_scope.
Local Open Scope Z_scope.

(** ** The machine and the channels *)
Section env.
Context `{WK : WireguardKeys} `{UC : UrlCrate} `{IC : IpnetCrate} `{RC : RegexCrate} `{BX : BroadcastCrate}
        {S : Type} `{HS : !Host S}.

Record Env := { env_machine : S; env_traffic : Chan TrafficInfo; env_events : Chan GatewayEvent }.

#[global] Instance env_host : Host Env := {|
  exec o e :=
    match o as o return (resp o + error) * Env with
    | SendTraffic t =>
        let '(r, c) := chan_send t (env_traffic e) in
        (r, {| env_machine := env_machine e; env_traffic := c; env_events := env_events e |})
    | SendEvent ev =>
        let '(r, c) := chan_send ev (env_events e) in
        (r, {| env_machine := env_machine e; env_traffic := env_traffic e; env_events := c |})
    | o =>
        let '(r, m) := exec o (env_machine e) in
        (r, {| env_machine := m; env_traffic := env_traffic e; env_events := env_events e |})
    end;
  path_is_file path e := path_is_file path (env_machine e);
  now e := let '(t, m) := now (env_machine e) in
    (t, {| env_machine := m; env_traffic := env_traffic e; env_events := env_events e |})
|}.
End env.
Arguments Env {_ _} S.

Section env_ok.
Context `{WK : WireguardKeys} `{UC : UrlCrate} `{IC : IpnetCrate} `{RC : RegexCrate} `{BX : BroadcastCrate}
        {S : Type} `{HS : !Host S} `{HK : !HostOk S} `{RK : !ReadsKeep}.

#[global] Instance env_ok : HostOk (Env S).
Proof.
  refine {| view e := view (env_machine e) |}.
  - intros o e r e' He.
    destruct o; cbn in He; lazymatch type of He with
      | context [exec ?o ?m] =>
          destruct (exec o m) as [r' m'] eqn:Hm; injection He as -> <-;
          exact (host_step o _ _ _ Hm)
      | _ => destruct (chan_send _ _) as [r' c]; injection He as -> <-; done
      end.
  - intros e t e' He. cbn in He. destruct (now _) as [t' m] eqn:Hm. injection He as <- <-. by apply host_now in Hm.
Defined.

#[global] Instance env_reads_keep : ReadsKeep (S := Env S).
Proof.
  intros o e Ho. destruct o; try done; cbn; lazymatch goal with
    | |- context [exec ?o ?m] => pose proof (reads_keep o m Ho) as Hk; by destruct (exec o m)
    | _ => by destruct (chan_send _ _)
    end.
Qed.
End env_ok.

(** ** The connection's end

    The websocket itself, and one line: the websocket, the branches that
    [select!] will take when they are ready, and the receivers of the session. *)
Class Socket `{WireguardKeys} `{UrlCrate} `{IpnetCrate} (N : Type) := {
  socket_connect : Handshake → N → (unit + error) * N;
  socket_next : N → Incoming * N;
  socket_send : string → N → (unit + error) * N
}.

Inductive Pick := PickMessage | PickTraffic | PickEvent.

Section line.
Context `{T : Target} `{WK : WireguardKeys} `{UC : UrlCrate} `{IC : IpnetCrate} `{BX : BroadcastCrate}
        {S : Type} `{HS : !Host S} {N : Type} `{SN : !Socket N}.

Record Line := { ln_socket : N; ln_picks : list Pick; ln_receivers : option (Receiver * Receiver) }.
Definition with_socket (n : N) (l : Line) : Line :=
  {| ln_socket := n; ln_picks := ln_picks l; ln_receivers := ln_receivers l |}.
Definition picked (l : Line) : Line :=
  {| ln_socket := ln_socket l; ln_picks := tail (ln_picks l); ln_receivers := ln_receivers l |}.
Definition with_receivers (r : option (Receiver * Receiver)) (l : Line) : Line :=
  {| ln_socket := ln_socket l; ln_picks := ln_picks l; ln_receivers := r |}.

Abbreviation Tasks := (Shared (Env S)).
Definition on_env (f : Env S → Env S) (h : Tasks) : Tasks :=
  share (f (sh_host h)) h.
Definition set_traffic_chan (c : Chan TrafficInfo) (e : Env S) : Env S :=
  {| env_machine := env_machine e; env_traffic := c; env_events := env_events e |}.
Definition set_events_chan (c : Chan GatewayEvent) (e : Env S) : Env S :=
  {| env_machine := env_machine e; env_traffic := env_traffic e; env_events := c |}.

Definition line_connect (hs : Handshake) (e : Tasks * Line) : (unit + error) * (Tasks * Line) :=
  let '(h, l) := e in
  let '(r, n) := socket_connect hs (ln_socket l) in (r, (yield_to_watchdog h, with_socket n l)).
(** [global.traffic_broadcast.subscribe()], then the same for events. *)
Definition line_subscribe (e : Tasks * Line) : Tasks * Line :=
  let '(h, l) := e in
  let h := yield_to_watchdog h in
  let '(rt, ct) := chan_subscribe (env_traffic (sh_host h)) in
  let h := yield_to_watchdog (on_env (set_traffic_chan ct) h) in
  let '(re, ce) := chan_subscribe (env_events (sh_host h)) in
  (on_env (set_events_chan ce) h, with_receivers (Some (rt, re)) l).

Definition next_message (h : Tasks) (l : Line) : Selected * (Tasks * Line) :=
  let '(x, n) := socket_next (ln_socket l) in (OnMessage x, (h, with_socket n l)).
(** A branch that is not ready lets the websocket have its turn. *)
Definition line_next (e : Tasks * Line) : Selected * (Tasks * Line) :=
  let '(h, l) := e in
  let h := yield_to_watchdog h in
  match ln_receivers l, head (ln_picks l) with
  | Some (rt, _), Some PickTraffic =>
      let '(x, c) := chan_recv rt (env_traffic (sh_host h)) in
      let h := on_env (set_traffic_chan c) h in
      match x with Some x => (OnTraffic x, (h, picked l)) | None => next_message h (picked l) end
  | Some (_, re), Some PickEvent =>
      let '(x, c) := chan_recv re (env_events (sh_host h)) in
      let h := on_env (set_events_chan c) h in
      match x with Some x => (OnEvent x, (h, picked l)) | None => next_message h (picked l) end
  | _, _ => next_message h (picked l)
  end.

Definition line_send (text : string) (e : Tasks * Line) : (unit + error) * (Tasks * Line) :=
  let '(h, l) := e in
  let '(r, n) := socket_send text (ln_socket l) in (r, (yield_to_watchdog h, with_socket n l)).
(** Both receivers are dropped. *)
Definition line_close (e : Tasks * Line) : Tasks * Line :=
  let '(h, l) := e in
  let h := yield_to_watchdog h in
  match ln_receivers l with
  | Some (rt, re) =>
      (on_env (λ v, set_events_chan (chan_drop re (env_events v)) (set_traffic_chan (chan_drop rt (env_traffic v)) v)) h,
       with_receivers None l)
  | None => (h, l)
  end.

#[global] Instance line_wire : Wire Tasks Line := {|
  wire_connect := line_connect; wire_subscribe := line_subscribe; wire_next := line_next;
  wire_send := line_send; wire_close := line_close
|}.
End line.
Arguments Line {_} N.

(** ** The two queues alike *)
Section topics.
Context `{WK : WireguardKeys} `{UC : UrlCrate} `{IC : IpnetCrate} `{BX : BroadcastCrate}
        {S : Type} `{HS : !Host S}.

Record Topic (A : Type) := {
  tp_chan : Env S → Chan A;
  tp_sends : Op → option A;                     (* what an operation puts in *)
  tp_gets : Selected → option (A + error);      (* what a turn takes out *)
  tp_replies : GatewayResponse → option A;      (* what is passed on *)
  tp_receiver : Receiver * Receiver → Receiver
}.
#[global] Arguments tp_chan {A}.
#[global] Arguments tp_sends {A}.
#[global] Arguments tp_gets {A}.
#[global] Arguments tp_replies {A}.
#[global] Arguments tp_receiver {A}.

Definition traffic_topic : Topic TrafficInfo := {|
  tp_chan := env_traffic;
  tp_sends o := match o with SendTraffic t => Some t | _ => None end;
  tp_gets x := match x with OnTraffic t => Some t | _ => None end;
  tp_replies r := match r with RespTraffic t => Some t | _ => None end;
  tp_receiver := fst |}.
Definition event_topic : Topic GatewayEvent := {|
  tp_chan := env_events;
  tp_sends o := match o with SendEvent e => Some e | _ => None end;
  tp_gets x := match x with OnEvent e => Some e | _ => None end;
  tp_replies r := match r with RespEvent e => Some e | _ => None end;
  tp_receiver := snd |}.

(** What operations put into the queue, and what frames pass on of it. *)
Definition broadcast {A} (t : Topic A) (ops : list Op) : list A := omap (tp_sends t) ops.
Definition delivered {A} (t : Topic A) (fs : list Frame) : list A :=
  omap (λ f, match f with Sent r => tp_replies t r | _ => None end) fs.
End topics.
Arguments Topic {_ _ _} S A.

(** ** What reaches a receiver *)
Section heard.
Context `{T : Target} `{WK : WireguardKeys} `{UC : UrlCrate} `{IC : IpnetCrate} `{BX : BroadcastCrate} `{BXO : !BroadcastOk BX}
        {S : Type} `{HS : !Host S} {N : Type} `{SN : !Socket N}.
Abbreviation Tasks := (Shared (Env S)).

(** The receiver [r] has taken [got] of the values [sent] to it. *)
Definition heard {A} (t : Topic S A) (cap : Z) (r : Receiver) (e : Env S) (sent got : list A) : Prop :=
  capacity (tp_chan t e) = cap ∧ ∃ q, queue_of r (tp_chan t e) = Some q ∧ tracks cap q sent got.

(** What the two topics have in common. *)
Record TopicOk {A} (t : Topic S A) : Prop := {
  tp_exec o e : tp_chan t (exec o e).2 =
    match tp_sends t o with Some a => (chan_send a (tp_chan t e)).2 | None => tp_chan t e end;
  tp_now e : tp_chan t (now e).2 = tp_chan t e;
  tp_next h l rs x h' l' : ln_receivers l = Some rs → line_next (h, l) = (x, (h', l')) →
    ln_receivers (l' : Line N) = Some rs ∧ sh_done h' = sh_done (yield_to_watchdog h) ∧
    (tp_gets t x = None ∧
       (tp_chan t (sh_host h') = tp_chan t (sh_host (yield_to_watchdog h)) ∨
        chan_recv (tp_receiver t rs) (tp_chan t (sh_host (yield_to_watchdog h))) = (None, tp_chan t (sh_host h'))) ∨
     ∃ v, tp_gets t x = Some v ∧
       chan_recv (tp_receiver t rs) (tp_chan t (sh_host (yield_to_watchdog h))) = (Some v, tp_chan t (sh_host h')));
  tp_gateway o : gateway_op o → tp_sends t o = None;
  tp_message m : tp_gets t (OnMessage m) = None;
  tp_apply result : tp_replies t (RespApply result) = None;
  tp_on_traffic a : tp_gets t (OnTraffic (inl a)) = inl <$> tp_replies t (RespTraffic a);
  tp_on_event a : tp_gets t (OnEvent (inl a)) = inl <$> tp_replies t (RespEvent a)
}.

Lemma traffic_topic_ok : TopicOk traffic_topic.
Proof.
  split; try done; [| | |by intros []].
  - intros o e. destruct o; cbn; lazymatch goal with
      | |- context [exec ?o ?m] => by destruct (exec o m)
      | _ => by destruct (chan_send _ _) end.
  - intros e. cbn. by destruct (now _).
  - intros h l [rt re] x h' l' Hr Hn. unfold line_next, next_message in Hn. rewrite Hr in Hn. cbn.
    destruct (head (ln_picks l)) as [[]|]; [|destruct (chan_recv _ _) as [[v|] c] eqn:Hc|
      destruct (chan_recv _ _) as [[v|] c]|];
      try destruct (socket_next _) as [y n]; injection Hn as <- <- <-; cbn; naive_solver.
Qed.
Lemma event_topic_ok : TopicOk event_topic.
Proof.
  split; try done; [| | |by intros []].
  - intros o e. destruct o; cbn; lazymatch goal with
      | |- context [exec ?o ?m] => by destruct (exec o m)
      | _ => by destruct (chan_send _ _) end.
  - intros e. cbn. by destruct (now _).
  - intros h l [rt re] x h' l' Hr Hn. unfold line_next, next_message in Hn. rewrite Hr in Hn. cbn.
    destruct (head (ln_picks l)) as [[]|]; [|destruct (chan_recv _ _) as [[v|] c]|
      destruct (chan_recv _ _) as [[v|] c] eqn:Hc|];
      try destruct (socket_next _) as [y n]; injection Hn as <- <- <-; cbn; naive_solver.
Qed.

Context {A : Type} (t : Topic S A) (Ht : TopicOk t).

Lemma broadcast_app l1 l2 : broadcast t (l1 ++ l2) = (broadcast t l1 ++ broadcast t l2)%list.
Proof. apply omap_app. Qed.
Lemma delivered_app fs1 fs2 : delivered t (fs1 ++ fs2) = (delivered t fs1 ++ delivered t fs2)%list.
Proof. apply omap_app. Qed.

Lemma heard_exec o cap r e sent got :
  heard t cap r e sent got → heard t cap r (exec o e).2 (sent ++ broadcast t [o]) got.
Proof.
  intros (Hc & q & Hq & Hk). unfold heard. rewrite (tp_exec _ Ht). cbn.
  destruct (tp_sends t o) as [a|]; cbn; [|rewrite app_nil_r; eauto].
  destruct (send_spec a (tp_chan t e)) as [Hcap Hqs]. split; [by rewrite Hcap|].
  rewrite Hqs, Hq. eexists. split; [done|]. rewrite Hc. by apply tracks_push.
Qed.

Lemma heard_steps e l e' cap r sent got :
  hsteps e l e' → heard t cap r e sent got → heard t cap r e' (sent ++ broadcast t l) got.
Proof.
  intros Hs. revert sent. induction Hs as [e|o e l e' _ IH|e l e' _ IH]; intros sent Hh.
  - cbn. by rewrite app_nil_r.
  - change (o :: l) with ([o] ++ l)%list. rewrite broadcast_app, app_assoc. by apply IH, heard_exec.
  - apply IH. unfold heard. by rewrite (tp_now _ Ht).
Qed.

Lemma heard_yield h cap r sent got :
  heard t cap r (sh_host h) sent got → ∃ ops, passed h ops (yield_to_watchdog h) ∧
    heard t cap r (sh_host (yield_to_watchdog h)) (sent ++ broadcast t ops) got.
Proof.
  intros Hh. destruct (yield_passes h) as (ops & Hp & Hs). exists ops. split; [done|].
  by eapply heard_steps.
Qed.

(** The operations of the connection's own task. *)
Lemma heard_shared h l h' cap r sent got :
  hsteps h l h' → Forall (λ o, tp_sends t o = None) l → heard t cap r (sh_host h) sent got →
  ∃ ops, passed h ops h' ∧ heard t cap r (sh_host h') (sent ++ broadcast t ops) got.
Proof.
  intros Hs. revert sent. induction Hs as [h|o h l h' _ IH|h l h' _ IH]; intros sent HF Hh.
  - exists []. split; [by apply passed_refl|]. cbn. by rewrite app_nil_r.
  - apply Forall_cons in HF as [Ho HF].
    destruct (heard_yield h cap r sent got Hh) as (ops & Hp & Hy).
    apply (heard_exec o) in Hy. unfold broadcast at 2, omap at 1, list_omap in Hy. rewrite Ho, app_nil_r in Hy.
    rewrite shared_exec in IH. destruct (IH (sent ++ broadcast t ops)%list HF Hy) as (ops' & Hp' & Hh').
    exists (ops ++ ops')%list. split; [|by rewrite broadcast_app, app_assoc].
    by eapply passed_trans.
  - rewrite shared_now in IH. destruct (IH sent HF) as (ops & Hp & Hh').
    { unfold heard. cbn [sh_host share]. by rewrite (tp_now _ Ht). }
    by exists ops.
Qed.
End heard.

(** ** A session *)
Section sessions.
Context `{T : Target} `{WK : WireguardKeys} `{UC : UrlCrate} `{IC : IpnetCrate} `{BC : Base32Crate}
        `{RC : RegexCrate} `{TE : Tera} `{HO : HashOrder} `{BX : BroadcastCrate} `{BXO : !BroadcastOk BX}
        {S : Type} `{HS : !Host S} `{JS : !Json} {N : Type} `{SN : !Socket N}.
Abbreviation Tasks := (Shared (Env S)).
Implicit Types s : Session Tasks (Line N).
Context {A : Type} (t : Topic S A) (Ht : TopicOk (N := N) t).

Definition tasks_of s : Tasks := w_host (se_world s).
Definition receivers_of s : option (Receiver * Receiver) := ln_receivers (se_wire s).
(** [heard] in a session with the receivers [rs]. *)
Definition hears (cap : Z) (rs : Receiver * Receiver) s (sent got : list A) : Prop :=
  receivers_of s = Some rs ∧ heard t cap (tp_receiver t rs) (sh_host (tasks_of s)) sent got.

Lemma hears_gateway (m : M (World Tasks) unit) cap rs s sent got o s' :
  runs m → emits gateway_op m → hears cap rs s sent got →
  as_result (on_gateway m) s = (o, s') →
  ∃ ops, passed (tasks_of s) ops (tasks_of s') ∧ se_trace s' = se_trace s ∧
    hears cap rs s' (sent ++ broadcast t ops) got.
Proof.
  intros Hr He [Hrs Hh] Hrun.
  destruct (as_result_gateway m s) as (o' & s2 & Hres & Htr & Hw & Hworld & _).
  rewrite Hrun in Hres. injection Hres as <- <-.
  destruct (runs_emits _ m (se_world s) Hr He) as (l & _ & Hs & HF). rewrite <-Hworld in Hs.
  assert (HF' : Forall (λ o, tp_sends t o = None) l).
  { eapply Forall_impl; [done|]. intros op Hop. by apply (tp_gateway _ Ht). }
  destruct (heard_shared t Ht _ l _ cap _ sent got Hs HF' Hh) as (ops & Hp & Hh').
  exists ops. split; [done|]. split; [done|]. split; [|done]. unfold receivers_of in *. by rewrite Hw.
Qed.

(** What [select!] takes out of the queue is the next value for the receiver. *)
Lemma hears_select cap rs s sent got x s' :
  hears cap rs s sent got → select s = (Ok x, s') →
  ∃ ops, passed (tasks_of s) ops (tasks_of s') ∧ se_trace s' = (se_trace s ++ [Got x])%list ∧
    match tp_gets t x with
    | Some (inr _) => True
    | Some (inl a) => hears cap rs s' (sent ++ broadcast t ops) (got ++ [a])
    | None => hears cap rs s' (sent ++ broadcast t ops) got
    end.
Proof.
  intros [Hrs Hh]. unfold select. cbn [wire_next line_wire]. unfold ends.
  destruct (line_next (w_host (se_world s), se_wire s)) as [y [h' l']] eqn:Hn. intros [= -> <-].
  destruct (heard_yield t Ht _ _ _ _ _ Hh) as (ops & Hp & Hcap & q & Hq & Hk).
  destruct (tp_next _ Ht _ _ _ _ _ _ Hrs Hn) as (Hrs' & Hm & Hcase).
  exists ops. split; [destruct Hp as [Hd HF]; split; [cbn; by rewrite Hm|done]|]. split; [done|].
  assert (Hpop := recv_spec (tp_receiver t rs) (tp_chan t (sh_host (yield_to_watchdog (tasks_of s)))) q Hq).
  unfold hears, heard, receivers_of, tasks_of in *. cbn.
  destruct Hcase as [[-> [Hsame|Hrecv]]|(v & -> & Hrecv)].
  - rewrite Hsame. eauto 6.
  - rewrite Hrecv in Hpop. cbn in Hpop. destruct Hpop as (Hnone & Hcap' & Hq').
    destruct (q_pop q) as [z q'] eqn:Hz. cbn in Hnone, Hq'. subst z.
    apply q_pop_none in Hz as [-> _]. split; [done|]. split; [by rewrite Hcap'|]. eauto.
  - rewrite Hrecv in Hpop. cbn in Hpop. destruct Hpop as (Hsome & Hcap' & Hq').
    destruct v as [a|e]; [|done]. split; [done|]. split; [by rewrite Hcap'|].
    eexists. split; [done|]. apply (tracks_pop _ q); [done|]. rewrite Hsome. apply surjective_pairing.
Qed.

(** The end of a turn: the reply, or a stop. *)
Definition turned (cap : Z) (rs : Receiver * Receiver) s (sent got : list A) (o : outcome bool) s' : Prop :=
  ∃ ops fs, passed (tasks_of s) ops (tasks_of s') ∧ se_trace s' = (se_trace s ++ fs)%list ∧
    (o = Ok false ∧ hears cap rs s' (sent ++ broadcast t ops) (got ++ delivered t fs) ∨
     o ≠ Ok false ∧ delivered t fs = []).

Lemma turned_stop cap rs s sent got o : o ≠ Ok false → turned cap rs s sent got o s.
Proof. intros Ho. exists [], []. rewrite app_nil_r. split; [by apply passed_refl|]. split; [done|]. by right. Qed.

Lemma turned_reply cap rs s sent got r o s' :
  hears cap rs s sent (got ++ option_list (tp_replies t r)) → (send r;; mret false) s = (o, s') →
  turned cap rs s sent got o s'.
Proof.
  intros [Hrs Hh]. unfold send, mbind, M_bind, lift.
  destruct (json_of_response r) as [text|e|]; [|intros [= <- <-]; by apply turned_stop..].
  unfold send_text, ends. cbn. destruct (socket_send _ _) as [[[]|e] n]; intros [= <- <-];
    destruct (heard_yield t Ht _ _ _ _ _ Hh) as (ops & Hp & Hh').
  - exists ops, [Sent r]. split; [done|]. split; [done|]. left. split; [done|]. split; [done|].
    cbn. by destruct (tp_replies t r).
  - exists ops, []. split; [done|]. split; [by rewrite app_nil_r|]. by right.
Qed.

Lemma turned_after cap rs s sent got ops1 fs1 s1 o s' :
  passed (tasks_of s) ops1 (tasks_of s1) → se_trace s1 = (se_trace s ++ fs1)%list → delivered t fs1 = [] →
  turned cap rs s1 (sent ++ broadcast t ops1) got o s' → turned cap rs s sent got o s'.
Proof.
  intros Hp1 Ht1 Hd (ops & fs & Hp & Htr & Hcase). exists (ops1 ++ ops)%list, (fs1 ++ fs)%list.
  split; [by eapply passed_trans|]. split; [by rewrite Htr, Ht1, app_assoc|].
  rewrite broadcast_app, delivered_app, Hd, app_assoc. done.
Qed.

Lemma turn_hears cap rs options s sent got o s' :
  hears cap rs s sent got → connect_turn options s = (o, s') → turned cap rs s sent got o s'.
Proof.
  intros Hh. unfold connect_turn. unfold mbind at 1, M_bind at 1.
  destruct (select s) as [[x|e|] s1] eqn:Hsel.
  2,3: unfold select in Hsel; by destruct (wire_next _).
  destruct (hears_select cap rs s sent got x s1 Hh Hsel) as (ops & Hp & Htr & Hgets).
  intros Hrun. apply (turned_after cap rs s sent got ops [Got x] s1 o s' Hp Htr); [done|].
  destruct x as [[text| |e|]|[a|e]|[a|e]].
  - rewrite (tp_message _ Ht) in Hgets.
    unfold mbind at 1, M_bind at 1, lift in Hrun.
    destruct (request_of_json text) as [r|e|]; [|injection Hrun as <- <-; by apply turned_stop..].
    assert (Hcall : ∀ m, runs m → emits gateway_op m →
      (result ← as_result (on_gateway m); send (RespApply result);; mret false) s1 = (o, s') →
      turned cap rs s1 (sent ++ broadcast t ops) got o s').
    { intros m Hm He Hr. unfold mbind at 1, M_bind at 1 in Hr.
      destruct (as_result (on_gateway m) s1) as [res s2] eqn:Hres.
      destruct (hears_gateway m cap rs s1 _ got res s2 Hm He Hgets Hres) as (ops2 & Hp2 & Ht2 & Hh2).
      apply (turned_after cap rs s1 _ got ops2 [] s2); [done|by rewrite app_nil_r|done|].
      destruct res as [result|e|]; [|injection Hr as <- <-; by apply turned_stop..].
      apply (turned_reply _ _ _ _ _ (RespApply result)); [|done]. by rewrite (tp_apply _ Ht), app_nil_r. }
    destruct r as [config|partial|].
    + apply (Hcall (apply options config)); [apply apply_runs|apply apply_sends_nothing|done].
    + apply (Hcall (apply_partial options partial)); [apply apply_partial_runs|apply apply_partial_sends_nothing|done].
    + injection Hrun as <- <-. by apply turned_stop.
  - rewrite (tp_message _ Ht) in Hgets. injection Hrun as <- <-. exists [], [].
    split; [by apply passed_refl|]. split; [by rewrite app_nil_r|]. left. split; [done|]. cbn. by rewrite !app_nil_r.
  - injection Hrun as <- <-. by apply turned_stop.
  - injection Hrun as <- <-. by apply turned_stop.
  - rewrite (tp_on_traffic _ Ht) in Hgets. apply (turned_reply _ _ _ _ _ (RespTraffic a)); [|done].
    destruct (tp_replies t (RespTraffic a)); [done|]. by rewrite app_nil_r.
  - injection Hrun as <- <-. by apply turned_stop.
  - rewrite (tp_on_event _ Ht) in Hgets. apply (turned_reply _ _ _ _ _ (RespEvent a)); [|done].
    destruct (tp_replies t (RespEvent a)); [done|]. by rewrite app_nil_r.
  - injection Hrun as <- <-. by apply turned_stop.
Qed.

(** The loop: what is passed on is an initial part of what is broadcast. *)
Lemma loop_hears cap rs turns options s sent got o s' :
  hears cap rs s sent got → connect_loop turns options s = (o, s') →
  ∃ ops fs, passed (tasks_of s) ops (tasks_of s') ∧ se_trace s' = (se_trace s ++ fs)%list ∧
    (got ++ delivered t fs)%list `prefix_of` (sent ++ broadcast t ops)%list ∧
    (o = Ok false → hears cap rs s' (sent ++ broadcast t ops) (got ++ delivered t fs)).
Proof.
  revert s sent got. induction turns as [|turns IH]; intros s sent got Hh; cbn [connect_loop].
  { intros [= <- <-]. exists [], []. cbn. rewrite !app_nil_r. split; [by apply passed_refl|].
    split; [done|]. split; [|done]. destruct Hh as (_ & _ & q & _ & Hk). by eapply tracks_prefix. }
  unfold mbind at 1, M_bind at 1. destruct (connect_turn options s) as [o1 s1] eqn:Hturn.
  assert (Hpre : got `prefix_of` sent).
  { destruct Hh as (_ & _ & q & _ & Hk). by eapply tracks_prefix. }
  destruct (turn_hears cap rs options s sent got o1 s1 Hh Hturn) as (ops & fs & Hp & Htr & [[-> Hh1]|[Ho Hd]]).
  - intros Hrun. destruct (IH s1 _ _ Hh1 Hrun) as (ops' & fs' & Hp' & Htr' & Hpre' & Hlast).
    exists (ops ++ ops')%list, (fs ++ fs')%list.
    rewrite broadcast_app, delivered_app, !app_assoc. split; [by eapply passed_trans|].
    split; [by rewrite Htr', Htr|]. done.
  - assert (Hend : ∀ o2, o2 ≠ Ok false → (o2, s1) = (o, s') →
      ∃ ops fs, passed (tasks_of s) ops (tasks_of s') ∧ se_trace s' = (se_trace s ++ fs)%list ∧
        (got ++ delivered t fs)%list `prefix_of` (sent ++ broadcast t ops)%list ∧
        (o = Ok false → hears cap rs s' (sent ++ broadcast t ops) (got ++ delivered t fs))).
    { intros o2 Ho2 [= <- <-]. exists ops, fs. rewrite Hd, app_nil_r. split; [done|]. split; [done|].
      split; [|done]. by apply prefix_app_r. }
    destruct o1 as [[]|e|]; [|done|..]; by apply Hend.
Qed.

(** Subscribing starts an empty queue; what is broadcast before is not for
    this session. *)
Definition subscribes : Prop := ∀ h l h' (l' : Line N), line_subscribe (h, l) = (h', l') →
  ∃ rs before during, ln_receivers l' = Some rs ∧ passed h (before ++ during) h' ∧
    heard t (capacity (tp_chan t (sh_host h'))) (tp_receiver t rs) (sh_host h') (broadcast t during) [].
Context (Hsub : subscribes).

Lemma passed_close s : ∃ ops, passed (tasks_of s) ops (tasks_of (unsubscribe s)).
Proof.
  destruct (yield_passes (tasks_of s)) as (ops & Hp & _). exists ops.
  unfold unsubscribe, tasks_of, ends. cbn. unfold line_close.
  by destruct (ln_receivers (se_wire s)) as [[rt re]|].
Qed.

(** One session, from connecting to dropping the receivers. *)
Lemma run_hears turns options s o s' :
  connect_run turns options s = (o, s') →
  ∃ before during fs, passed (tasks_of s) (before ++ during) (tasks_of s') ∧
    se_trace s' = (se_trace s ++ fs)%list ∧ delivered t fs `prefix_of` broadcast t during.
Proof.
  unfold connect_run. set (hs := {| hs_url := _ |}). unfold mbind at 1, M_bind at 1.
  unfold open, ends. cbn [wire_connect line_wire]. unfold line_connect.
  destruct (socket_connect hs _) as [r n].
  destruct (yield_passes (w_host (se_world s))) as (ops & Hp & _).
  destruct r as [[]|e]; [|intros [= <- <-]; exists ops, [], []; rewrite !app_nil_r; split_and!; try done; apply prefix_nil].
  set (s1 := at_ends _ _ s). unfold scoped. unfold mbind at 1, M_bind at 1. cbn [subscribe].
  unfold ends. cbn [wire_subscribe line_wire].
  destruct (line_subscribe _) as [h2 l2] eqn:Hs2.
  destruct (Hsub _ _ _ _ Hs2) as (rs & before & during & Hrs & Hp2 & Hh).
  set (s2 := at_ends (h2, l2) (se_trace s1) s1).
  destruct (connect_loop turns options s2) as [o3 s3] eqn:Hloop. intros [= <- <-].
  destruct (loop_hears (capacity (tp_chan t (sh_host h2))) rs turns options s2 _ [] _ _ (conj Hrs Hh) Hloop)
    as (ops3 & fs & Hp3 & Htr & Hpre & _).
  destruct (passed_close s3) as (ops4 & Hp4).
  exists (ops ++ before)%list, (during ++ ops3 ++ ops4)%list, (Connected hs :: fs).
  split; [|split].
  - replace ((ops ++ before) ++ during ++ ops3 ++ ops4)%list with (ops ++ (before ++ during) ++ ops3 ++ ops4)%list
      by (by rewrite <-!app_assoc).
    eapply passed_trans; [exact Hp|]. eapply passed_trans; [exact Hp2|]. by eapply passed_trans.
  - cbn. rewrite Htr. cbn. by rewrite <-app_assoc.
  - cbn [app] in Hpre. change (delivered t (Connected hs :: fs)) with (delivered t fs).
    rewrite !broadcast_app, app_assoc. by apply prefix_app_r.
Qed.

(** However many sessions: in order, none twice, none made up. *)
Lemma connect_hears sessions turns options s o s' :
  connect sessions turns options s = (o, s') →
  ∃ ops fs, passed (tasks_of s) ops (tasks_of s') ∧ se_trace s' = (se_trace s ++ fs)%list ∧
    delivered t fs `sublist_of` broadcast t ops.
Proof.
  revert s. induction sessions as [|n IH]; intros s; cbn [connect].
  { intros [= <- <-]. exists [], []. rewrite app_nil_r. split; [by apply passed_refl|]. by split. }
  unfold mbind, M_bind, attempt. destruct (connect_run turns options s) as [o1 s1] eqn:Hrun.
  destruct (run_hears turns options s o1 s1 Hrun) as (before & during & fs & Hp & Htr & Hpre).
  assert (Hone : delivered t fs `sublist_of` broadcast t (before ++ during)).
  { rewrite broadcast_app. apply sublist_inserts_l. destruct Hpre as [k ->]. by apply sublist_inserts_r. }
  destruct o1 as [b|e|]; [intros [= <- <-]; by exists (before ++ during)%list, fs| |
    intros [= <- <-]; by exists (before ++ during)%list, fs].
  intros Hnext. destruct (IH s1 Hnext) as (ops & fs' & Hp' & Htr' & Hs').
  exists ((before ++ during) ++ ops)%list, (fs ++ fs')%list.
  split; [by eapply passed_trans|]. split; [by rewrite Htr', Htr, app_assoc|].
  rewrite broadcast_app, delivered_app. by apply sublist_app.
Qed.
End sessions.

Section subscribing.
Context `{T : Target} `{WK : WireguardKeys} `{UC : UrlCrate} `{IC : IpnetCrate} `{BX : BroadcastCrate} `{BXO : !BroadcastOk BX}
        {S : Type} `{HS : !Host S} {N : Type} `{SN : !Socket N}.

Lemma heard_fresh {A} (t : Topic S A) r (e : Env S) :
  queue_of r (tp_chan t e) = Some queue_new → heard t (capacity (tp_chan t e)) r e [] [].
Proof. intros Hq. split; [done|]. eexists. split; [done|]. apply tracks_new. Qed.

Lemma events_subscribes : subscribes (N := N) event_topic.
Proof.
  intros h l h' l'. unfold line_subscribe. destruct (yield_passes h) as (ops1 & Hp1 & _).
  destruct (chan_subscribe (env_traffic _)) as [rt ct].
  set (h1 := on_env (set_traffic_chan ct) (yield_to_watchdog h)).
  destruct (yield_passes h1) as (ops2 & Hp2 & _).
  destruct (chan_subscribe (env_events _)) as [re ce] eqn:Hsub. intros [= <- <-].
  exists (rt, re), (ops1 ++ ops2)%list, []. split; [done|]. split.
  - rewrite app_nil_r. eapply passed_trans; [exact Hp1|exact Hp2].
  - apply heard_fresh. cbn. by apply subscribe_spec in Hsub as (_ & _ & Hq & _).
Qed.
Lemma traffic_subscribes : subscribes (N := N) traffic_topic.
Proof.
  intros h l h' l'. unfold line_subscribe. destruct (yield_passes h) as (ops1 & Hp1 & _).
  destruct (chan_subscribe (env_traffic _)) as [rt ct] eqn:Hsub.
  set (h1 := on_env (set_traffic_chan ct) (yield_to_watchdog h)).
  assert (Hh : heard traffic_topic (capacity ct) rt (sh_host h1) [] []).
  { apply (heard_fresh traffic_topic rt (sh_host h1)). by apply subscribe_spec in Hsub as (_ & _ & Hq & _). }
  destruct (heard_yield traffic_topic (traffic_topic_ok (N := N)) h1 _ _ _ _ Hh) as (ops2 & Hp2 & Hh2).
  destruct (chan_subscribe (env_events _)) as [re ce]. intros [= <- <-].
  exists (rt, re), ops1, ops2. split; [done|]. split.
  - eapply passed_trans; [exact Hp1|exact Hp2].
  - cbn in Hh2 |- *. unfold heard in *. cbn. destruct Hh2 as [Hc Hq]. cbn in Hc. rewrite Hc. done.
Qed.
End subscribing.

(** ** What the manager receives *)
Section delivery.
Context `{TO : TargetOk} `{WK : WireguardKeys} `{UC : UrlCrate} `{IC : IpnetCrate} `{BC : Base32Crate}
        `{RC : RegexCrate} `{TE : Tera} `{HO : HashOrder} `{BX : BroadcastCrate} `{BXO : !BroadcastOk BX}
        {S : Type} `{HS : !Host S} `{JS : !Json} {N : Type} `{SN : !Socket N}.
Abbreviation Tasks := (Shared (Env S)).
Implicit Types s : Session Tasks (Line N).

(** Both topics over all sessions. *)
Lemma connect_delivers sessions turns options s o s' :
  connect sessions turns options s = (o, s') →
  ∃ ops fs, passed (tasks_of s) ops (tasks_of s') ∧ se_trace s' = (se_trace s ++ fs)%list ∧
    delivered (S := S) traffic_topic fs `sublist_of` broadcast (S := S) traffic_topic ops ∧
    delivered (S := S) event_topic fs `sublist_of` broadcast (S := S) event_topic ops.
Proof.
  intros Hrun.
  destruct (connect_hears traffic_topic traffic_topic_ok traffic_subscribes _ _ _ _ _ _ Hrun) as (ops & fs & Hp & Htr & Ht).
  destruct (connect_hears event_topic event_topic_ok events_subscribes _ _ _ _ _ _ Hrun) as (ops' & fs' & Hp' & Htr' & He).
  rewrite Htr in Htr'. apply app_inv_head in Htr' as <-.
  rewrite <-(passed_fun _ _ _ _ Hp Hp') in He. by exists ops, fs.
Qed.

(** C16: while a session goes on, the events broadcast since it began are those
    passed on to the manager, then those that were dropped, then those still
    waiting; and nothing is dropped before more than a queue full of events
    has been broadcast. *)
Theorem session_accounts cap rs turns options s s' :
  hears event_topic cap rs s [] [] → connect_loop turns options s = (Ok false, s') →
  ∃ ops fs lost q, passed (tasks_of s) ops (tasks_of s') ∧ se_trace s' = (se_trace s ++ fs)%list ∧
    queue_of rs.2 (env_events (sh_host (tasks_of s'))) = Some q ∧
    broadcast (S := S) event_topic ops = (delivered (S := S) event_topic fs ++ lost ++ q_unread q)%list ∧
    length lost = q_missed q ∧ (Z.of_nat (length (broadcast (S := S) event_topic ops)) ≤ cap → lost = []).
Proof.
  intros Hh Hrun. destruct (loop_hears event_topic event_topic_ok cap rs turns options s [] [] _ _ Hh Hrun)
    as (ops & fs & Hp & Htr & _ & Hlast).
  destruct (Hlast eq_refl) as (_ & _ & q & Hq & lost & Heq & Hl & Hc). cbn [app] in Heq, Hc.
  exists ops, fs, lost, q. split_and!; try done.
  intros Hle. destruct lost as [|x lost]; [done|]. specialize (Hc ltac:(done)). lia.
Qed.

(** *** Liveness: what waits is passed on *)
Class SocketOk : Prop := socket_sends text n : ∃ n' : N, socket_send text n = (inl tt, n').
Context `{SNO : SocketOk}.

Definition waiting (r : Receiver) (e : Env S) (l : list GatewayEvent) : Prop :=
  queue_of r (env_events e) = Some {| q_missed := 0; q_unread := l |}.
Definition relayed (l : list GatewayEvent) : list Frame :=
  concat ((λ e, [Got (OnEvent (inl e)); Sent (RespEvent e)]) <$> l).

Lemma delivered_relayed l : delivered (S := S) event_topic (relayed l) = l.
Proof. induction l as [|e l IH]; [done|]. change (relayed (e :: l)) with ([Got (OnEvent (inl e)); Sent (RespEvent e)] ++ relayed l)%list. rewrite (delivered_app event_topic). by rewrite IH. Qed.

Lemma turn_relays options s rs e l picks :
  receivers_of s = Some rs → sh_slots (tasks_of s) = [] → waiting rs.2 (sh_host (tasks_of s)) (e :: l) →
  ln_picks (se_wire s) = PickEvent :: picks → response_carried (RespEvent e) →
  ∃ s', connect_turn options s = (Ok false, s') ∧ receivers_of s' = Some rs ∧
    sh_slots (tasks_of s') = [] ∧ waiting rs.2 (sh_host (tasks_of s')) l ∧ ln_picks (se_wire s') = picks ∧
    se_trace s' = (se_trace s ++ [Got (OnEvent (inl e)); Sent (RespEvent e)])%list.
Proof.
  destruct rs as [rt re]. intros Hrs Hm Hw Hp (text & Htext & _).
  unfold connect_turn, select, ends. unfold mbind at 1, M_bind at 1. cbn [wire_next line_wire]. unfold line_next.
  unfold receivers_of, tasks_of in *. rewrite Hrs, Hp. cbn [head].
  assert (Hy : ∀ h : Tasks, sh_slots h = [] → yield_to_watchdog h = h).
  { intros h Hh. unfold yield_to_watchdog. by rewrite Hh. }
  rewrite Hy by done. cbn [snd] in Hw.
  destruct (recv_spec re (env_events (sh_host (w_host (se_world s)))) _ Hw) as (Hx & _ & Hq).
  destruct (chan_recv _ _) as [x c]. cbn in Hx, Hq. subst x.
  unfold send, mbind, M_bind, lift. rewrite Htext. unfold send_text, ends. cbn.
  destruct (socket_sends text (ln_socket (se_wire s))) as (n' & ->). eexists. split; [done|].
  cbn. rewrite Hy by done. rewrite <-app_assoc, Hp. split_and!; done.
Qed.

Lemma loop_relays options s rs l picks :
  receivers_of s = Some rs → sh_slots (tasks_of s) = [] → waiting rs.2 (sh_host (tasks_of s)) l →
  ln_picks (se_wire s) = (replicate (length l) PickEvent ++ picks)%list →
  Forall (λ e, response_carried (RespEvent e)) l →
  ∃ s', connect_loop (length l) options s = (Ok false, s') ∧ waiting rs.2 (sh_host (tasks_of s')) [] ∧
    se_trace s' = (se_trace s ++ relayed l)%list.
Proof.
  revert s. induction l as [|e l IH]; intros s Hrs Hm Hw Hp Hc.
  { exists s. cbn. by rewrite app_nil_r. }
  apply Forall_cons in Hc as [He Hc].
  destruct (turn_relays options s rs e l _ Hrs Hm Hw Hp He) as (s1 & Hturn & Hrs1 & Hm1 & Hw1 & Hp1 & Htr1).
  destruct (IH s1 Hrs1 Hm1 Hw1 Hp1 Hc) as (s2 & Hloop & Hw2 & Htr2).
  exists s2. cbn [length connect_loop]. unfold mbind, M_bind. rewrite Hturn. split; [done|]. split; [done|].
  rewrite Htr2, Htr1, <-app_assoc. done.
Qed.

(** *** From a poll to the manager *)
Lemma env_listening (r : Receiver) : (∀ m : S, 0 ≤ (now m).1) →
  Listening (Env S) (λ e, is_Some (queue_of r (env_events e))).
Proof.
  intros Hclock. split.
  - intros ev e Hr. cbn. pose proof (send_heard ev (env_events e) r Hr) as Hs. by destruct (chan_send _ _).
  - intros e _. cbn. pose proof (Hclock (env_machine e)). by destruct (now _).
  - intros o e [q Hq]. pose proof (tp_exec _ (event_topic_ok (N := N)) o e) as Hx. cbn [tp_chan event_topic] in Hx.
    rewrite Hx. destruct (tp_sends event_topic o) as [a|]; [|by eexists].
    destruct (send_spec a (env_events e)) as [_ ->]. rewrite Hq. by eexists.
  - intros e [q Hq]. pose proof (tp_now _ (event_topic_ok (N := N)) e) as Hx. cbn [tp_chan event_topic] in Hx.
    rewrite Hx. by eexists.
Qed.

Lemma broadcast_events evs : broadcast (S := S) event_topic (SendEvent <$> evs) = evs.
Proof. induction evs as [|e evs IH]; [done|]. cbn. by f_equal. Qed.

(** A poll leaves its events waiting. *)
Lemma poll_waits r (w w' : Watch (S := Env S)) l evs :
  waiting r (watch_host w) [] → hsteps (watch_host w) l (watch_host w') →
  broadcast (S := S) event_topic l = evs → Z.of_nat (length evs) ≤ capacity (env_events (watch_host w)) →
  waiting r (watch_host w') evs.
Proof.
  intros Hw Hs <- Hcap.
  assert (Hh : heard event_topic (capacity (env_events (watch_host w))) r (watch_host w) [] []).
  { split; [done|]. eexists. split; [exact Hw|]. by exists []. }
  destruct (heard_steps event_topic (event_topic_ok (N := N)) _ _ _ _ _ _ _ Hs Hh) as (_ & q & Hq & Hk).
  destruct (tracks_lossless _ _ _ _ Hk Hcap) as [Hu Hm]. cbn in Hu. unfold waiting.
  destruct q as [m u]. cbn in Hq, Hu, Hm. by rewrite Hq, Hu, Hm.
Qed.

(** C5: from WireGuard to the manager.  A poll of a network completes while
    a session is open that has nothing waiting, and broadcasts no more events
    than the queue holds.  Then the session, left to itself with its turns
    going to the events, passes on exactly these events, one frame each and in
    order, nothing else, and has nothing waiting; and the manager, who replays
    them on what it knew, knows for every peer of the network whether it is
    connected. *)
Theorem poll_reaches_manager netns (w w' : Watch (S := Env S)) l options rs s picks :
  (∀ m : S, 0 ≤ (now m).1) →
  waiting rs.2 (watch_host w) [] → watchdog_netns netns w = (Ok tt, w') →
  watch_log w' = (watch_log w ++ l)%list →
  let evs := broadcast (S := S) event_topic l in
  Z.of_nat (length evs) ≤ capacity (env_events (watch_host w)) →
  Forall (λ e, response_carried (RespEvent e)) evs →
  receivers_of s = Some rs → sh_host (tasks_of s) = watch_host w' → sh_slots (tasks_of s) = [] →
  ln_picks (se_wire s) = (replicate (length evs) PickEvent ++ picks)%list →
  ∃ (stats : NetworkStats) wgif s',
    l = WireguardStats netns wgif :: (SendEvent <$> evs) ∧
    (∃ e, exec (WireguardStats netns wgif) (watch_host w) = (inl stats, e)) ∧
    connect_loop (length evs) options s = (Ok false, s') ∧
    se_trace s' = (se_trace s ++ relayed evs)%list ∧
    delivered (S := S) event_topic (relayed evs) = evs ∧
    waiting rs.2 (sh_host (tasks_of s')) [] ∧
    ∀ st, (∀ peer, st peer = is_connected w (stats_listen_port stats) peer) → ∀ peer,
      replay (stats_public_key stats) st evs peer = is_connected w' (stats_listen_port stats) peer.
Proof.
  intros Hclock Hw Hpoll Hl evs Hcap Hcarry Hrs Hhost Hslots Hpicks.
  assert (HL := env_listening rs.2 Hclock).
  destruct (watchdog_netns_tracked (I := λ e, is_Some (queue_of rs.2 (env_events e))) netns w w') as
    (wgif & stats & evs' & Hlog & Hstats & _ & Hrep); [unfold attended; unfold waiting, watch_host in Hw; by rewrite Hw|done|].
  rewrite Hl in Hlog. apply app_inv_head in Hlog.
  assert (evs = evs') as <- by (subst evs l; apply broadcast_events).
  assert (Hwait : waiting rs.2 (watch_host w') evs).
  { destruct (watchdog_netns_steps netns w) as (l' & Hl' & Hst). rewrite Hpoll in Hl', Hst. cbn [snd] in *.
    rewrite Hl in Hl'. apply app_inv_head in Hl' as <-. by eapply poll_waits. }
  destruct (loop_relays options s rs evs picks Hrs) as (s' & Hloop & Hnone & Htr); [done|by rewrite Hhost|done|done|].
  exists stats, wgif, s'. split_and!; try done. apply delivered_relayed.
Qed.
End delivery.
