(* ===== verification/Main.v ===== *)
(** * The daemon from its start

    [Global] and [Options::global] of src/lib.rs: the state all parts share and
    how it is set up; and the program of src/main.rs, which is [Options::run]
    on it.  With witnesses for Queues.v. *)
From S2P Require Import Prelude Text BTree Net Crates Broadcast Samples Client Types Tera Render Templates Stats Options.
From S2P Require Import Host Kernel Machine Logic Gateway Deploy Watchdog Websocket Codec Answers Daemon Queues.

Local Open Scope string_scope.
Local Open Scope Z_scope.

Section global.
Context `{T : Target} `{WK : WireguardKeys} `{UC : UrlCrate} `{IC : IpnetCrate} `{BC : Base32Crate}
        `{RC : RegexCrate} `{TE : Tera} `{HO : HashOrder} `{BX : BroadcastCrate}
        {S : Type} `{HS : !Host S} `{JS : !Json} {N : Type} `{SN : !Socket N}.

(** [Global].  The lock holds the configuration, the other one guards nothing. *)
Record Global := {
  gl_lock : gmap Z NetworkState;
  gl_iptables_lock : unit;
  gl_options : Options;
  gl_watchdog : Z;
  gl_traffic_broadcast : Chan TrafficInfo;
  gl_events_broadcast : Chan GatewayEvent;
  gl_token : string;
  gl_manager : Url
}.

(** [Options::global]; the receivers that [channel] returns are dropped. *)
Definition global (options : Options) : outcome Global :=
  let traffic_broadcast := channel BROADCAST_QUEUE_TRAFFIC in
  let events_broadcast := channel BROADCAST_QUEUE_EVENTS in
  Ok {| gl_lock := ∅;
        gl_iptables_lock := tt;
        gl_options := options;
        gl_watchdog := opt_watchdog options;
        gl_traffic_broadcast := traffic_broadcast;
        gl_events_broadcast := events_broadcast;
        gl_token := opt_token options;
        gl_manager := opt_manager options |}.

(** The machine and the channels, as both tasks see them. *)
Definition env_of (g : Global) (machine : S) : Env S := {|
  env_machine := machine; env_traffic := gl_traffic_broadcast g; env_events := gl_events_broadcast g |}.
(** The watchdog's task when it starts. *)
Definition watchdog_of (g : Global) (machine : S) : Watch (S := Env S) := {|
  wa_world := {| w_host := env_of g machine; w_log := []; w_config := gl_lock g |};
  wa_traffic := TrafficInfo_new 0; wa_cache := ∅ |}.
(** Both tasks when they start; [slots] is how much of the watchdog, which
    is followed for [ticks] ticks, happens before each operation of the
    other. *)
Definition session_of (g : Global) (machine : S) (socket : N) (picks : list Pick)
    (ticks : nat) (slots : list nat) : Session (Shared (Env S)) (Line N) := {|
  se_world := {|
    w_host := {| sh_host := env_of g machine; sh_ticks := ticks; sh_past := []; sh_slots := slots; sh_done := [] |};
    w_log := []; w_config := gl_lock g |};
  se_wire := {| ln_socket := socket; ln_picks := picks; ln_receivers := None |};
  se_trace := [] |}.

(** [main] with the options it has parsed: [Options::run]. *)
Definition main (sessions turns : nat) (options : Options) (machine : S) (socket : N) (picks : list Pick)
    (ticks : nat) (slots : list nat) : outcome bool * option (Session (Shared (Env S)) (Line N)) :=
  match context "Creating global options" (global options) with
  | Ok g =>
      let '(o, s) := run sessions turns options (session_of g machine socket picks ticks slots) in (o, Some s)
  | Err e => (Err e, None)
  | Panic => (Panic, None)
  end.
End global.

Section start.
Context `{TO : TargetOk} `{WK : WireguardKeys} `{UC : UrlCrate} `{IC : IpnetCrate} `{BC : Base32Crate}
        `{RC : RegexCrate} `{TE : Tera} `{HO : HashOrder} `{BX : BroadcastCrate} `{BXO : !BroadcastOk BX}
        {S : Type} `{HS : !Host S} `{JS : !Json} {N : Type} `{SN : !Socket N}.

(** Without a receiver the shared host is deaf. *)
Lemma env_deaf : Deaf (S := Env S) (λ e, ∀ r, queue_of r (env_traffic e) = None).
Proof.
  split.
  - intros t e Hr. cbn. destruct (send_unheard t (env_traffic e) Hr) as [err Hs]. exists err. by destruct (chan_send _ _).
  - intros o e Hr r. pose proof (tp_exec _ (traffic_topic_ok (N := N)) o e) as Hx. cbn [tp_chan traffic_topic] in Hx.
    rewrite Hx. destruct (tp_sends traffic_topic o) as [a|]; [|done].
    destruct (send_spec a (env_traffic e)) as [_ ->]. by rewrite Hr.
  - intros e Hr r. pose proof (tp_now _ (traffic_topic_ok (N := N)) e) as Hx. cbn [tp_chan traffic_topic] in Hx.
    by rewrite Hx.
Qed.

(** C34: the watchdog starts before there is a receiver, and until the first
    session subscribes it remembers nothing: however many ticks it completes,
    the cache is empty after them; there still is no receiver for the traffic,
    so that no further run succeeds; and the configuration is the empty one. *)
Theorem watchdog_waits_for_session ticks options g (machine : S) w' :
  global options = Ok g → watchdog ticks (watchdog_of g machine) = (Ok tt, w') →
  wa_cache w' = ∅ ∧ w_config (wa_world w') = ∅ ∧
  (∀ r, queue_of r (env_traffic (watch_host w')) = None) ∧ (∀ w'', watchdog_run w' ≠ (Ok tt, w'')).
Proof.
  intros [= <-]. set (w := watchdog_of _ machine). intros Hrun.
  assert (Hw : ∀ r, queue_of r (env_traffic (watch_host w)) = None) by apply channel_unheard.
  assert (Hc : wa_cache w = ∅) by done.
  assert (Hall : wa_cache w' = ∅ ∧ ∀ r, queue_of r (env_traffic (watch_host w')) = None).
  { clearbody w. revert w Hw Hc Hrun. induction ticks as [|ticks IH]; intros w Hw Hc Hrun.
    { by injection Hrun as <-. }
    apply bind_Ok_inv in Hrun as ([] & w1 & H1 & Hrun).
    destruct (tick_forgets (HD := env_deaf) w w1 Hw H1) as (Hc1 & Hw1 & _). by apply (IH w1). }
  destruct Hall as [Hc' Hw']. split; [done|].
  split; [destruct (watchdog_emits ticks w) as [_ Hk]; by rewrite Hrun in Hk|].
  split; [done|]. intros w''. by apply (run_deaf (HD := env_deaf)).
Qed.

(** C11: whatever the schedule of the two tasks and however often the
    connection breaks, from the start of the daemon on the manager receives
    traffic and events in the order in which the watchdog broadcast them, none
    twice and none that was not broadcast; and broadcasting, listing and
    reading statistics is all the watchdog did. *)
Theorem main_delivers sessions turns options (machine : S) (socket : N) picks ticks slots o s' :
  main sessions turns options machine socket picks ticks slots = (o, Some s') →
  let ops := sh_done (tasks_of s') in
  Forall watch_op ops ∧
  delivered (S := S) traffic_topic (se_trace s') `sublist_of` broadcast (S := S) traffic_topic ops ∧
  delivered (S := S) event_topic (se_trace s') `sublist_of` broadcast (S := S) event_topic ops.
Proof.
  unfold main. cbn [global context]. set (s0 := session_of _ machine socket picks ticks slots).
  destruct (run sessions turns options s0) as [o1 s1] eqn:Hrun. intros [= <- <-].
  assert (Hall : ∃ ops fs, passed (tasks_of s0) ops (tasks_of s1) ∧ se_trace s1 = (se_trace s0 ++ fs)%list ∧
    delivered (S := S) traffic_topic fs `sublist_of` broadcast (S := S) traffic_topic ops ∧
    delivered (S := S) event_topic fs `sublist_of` broadcast (S := S) event_topic ops).
  { unfold run in Hrun. unfold mbind, M_bind, with_context, on_gateway in Hrun.
    destruct (startup_runs options (se_world s0)) as (l & _ & Hst).
    destruct (startup options (se_world s0)) as [o2 w2]. cbn [snd] in Hst.
    set (s2 := {| se_world := w2; se_wire := se_wire s0; se_trace := se_trace s0 |}) in Hrun.
    apply hsteps_pass in Hst as (ops & Hp). change (w_host w2) with (tasks_of s2) in Hp.
    assert (Hstop : ∃ ops fs, passed (tasks_of s0) ops (tasks_of s2) ∧ se_trace s2 = (se_trace s0 ++ fs)%list ∧
      delivered (S := S) traffic_topic fs `sublist_of` broadcast (S := S) traffic_topic ops ∧
      delivered (S := S) event_topic fs `sublist_of` broadcast (S := S) event_topic ops).
    { exists ops, []. rewrite app_nil_r. do 2 (split; [done|]). split; apply sublist_nil_l. }
    destruct o2 as [[]|e|]; cbn [context] in Hrun; [|by injection Hrun as <- <-..].
    destruct (connect_delivers _ _ _ _ _ _ Hrun) as (ops' & fs & Hp' & Htr & Ht & He).
    exists (ops ++ ops')%list, fs. split; [by eapply passed_trans|]. split; [done|].
    rewrite !broadcast_app. by split; apply sublist_inserts_l. }
  destruct Hall as (ops & fs & [Hd HF] & Htr & Ht & He). cbn [s0 tasks_of session_of se_world w_host sh_done app] in Hd.
  cbn zeta. rewrite Hd, Htr. by split.
Qed.
End start.

(** ** Witnesses *)
Section witnesses.
#[local] Existing Instances sample_keys sample_url sample_ipnet sample_base32 sample_regex sample_tera.
#[local] Existing Instances release64 release64_ok sample_order codec sample_broadcast sample_broadcast_ok.

(** A websocket that yields the messages of a list, and takes everything. *)
#[local] Instance list_socket : Socket (list Incoming) := {|
  socket_connect _ n := (inl tt, n);
  socket_next n := match n with [] => (IClosed, []) | x :: n => (x, n) end;
  socket_send _ n := (inl tt, n)
|}.
#[local] Instance list_socket_ok : SocketOk (N := list Incoming).
Proof. intros text n. by exists n. Qed.

Abbreviation Host' := (Station true).
Definition quiet_host : Host' := station true (machine_with true true new_peers).
Definition sample_global : Global := ok_default
  {| gl_lock := ∅; gl_iptables_lock := tt; gl_options := sample_options; gl_watchdog := 0;
     gl_traffic_broadcast := channel 1; gl_events_broadcast := channel 1; gl_token := ""; gl_manager := "" : Url |}
  (global sample_options).

(** Three ticks before anybody listens. *)
Definition early : outcome unit * Watch (S := Env Host') := watchdog 3 (watchdog_of sample_global quiet_host).
Lemma early_ok : watchdog 3 (watchdog_of sample_global quiet_host) = (Ok tt, early.2).
Proof. assert (early.1 = Ok tt) as <- by (vm_compute; reflexivity). apply surjective_pairing. Qed.
Lemma watchdog_waits_for_session_witness :
  wa_cache early.2 = ∅ ∧ w_config (wa_world early.2) = ∅ ∧
  (∀ r, queue_of r (env_traffic (watch_host early.2)) = None) ∧ (∀ w'', watchdog_run early.2 ≠ (Ok tt, w'')).
Proof.
  exact (watchdog_waits_for_session (N := list Incoming) 3 sample_options sample_global quiet_host early.2
    eq_refl early_ok).
Defined.

(** The daemon beside a watchdog that gets its turns: it initialises NGINX,
    connects, passes the two peers of the network on as connected, and is told
    to stop. *)
Definition seen_connected (key : sample_key) : GatewayEvent := PeerConnected {|
  pc_network := (KA : Pubkey); pc_peer := (key : Pubkey); pc_endpoint := SockV4 (ipv4 170 24 12 42) 41213 |}.
Definition bye : string := ok_default "" (json_of_request ReqShutdown).
Definition some_slots : list nat := replicate 19 7%nat.
Definition ended : outcome bool * option (Session (Shared (Env Machine)) (Line (list Incoming))) :=
  main 1 9 sample_options two_namespaces [IText bye] [PickEvent; PickTraffic; PickEvent; PickMessage] 9 some_slots.
Definition ended_session : Session (Shared (Env Machine)) (Line (list Incoming)) :=
  default (session_of sample_global empty_machine [] [] 0 []) ended.2.
Lemma ended_ok :
  main 1 9 sample_options two_namespaces [IText bye] [PickEvent; PickTraffic; PickEvent; PickMessage] 9 some_slots
    = (Ok true, Some ended_session).
Proof.
  assert (H1 : ended.1 = Ok true) by (vm_compute; reflexivity).
  assert (H2 : from_option (λ _, true) false ended.2 = true) by (vm_compute; reflexivity).
  apply (default_spec (session_of sample_global empty_machine [] [] 0 [])) in H2.
  change (ended = (Ok true, Some ended_session)). rewrite (surjective_pairing ended), H1, H2. reflexivity.
Qed.

Lemma main_delivers_witness :
  delivered (S := Machine) event_topic (se_trace ended_session) = [seen_connected KA; seen_connected KB] ∧
  let ops := sh_done (tasks_of ended_session) in
  Forall watch_op ops ∧
  delivered (S := Machine) traffic_topic (se_trace ended_session) `sublist_of` broadcast (S := Machine) traffic_topic ops ∧
  delivered (S := Machine) event_topic (se_trace ended_session) `sublist_of` broadcast (S := Machine) event_topic ops.
Proof.
  split; [vm_compute; reflexivity|].
  exact (main_delivers 1 9 sample_options two_namespaces [IText bye] [PickEvent; PickTraffic; PickEvent; PickMessage]
    9 some_slots (Ok true) ended_session ended_ok).
Defined.

(** A session with an empty queue, beside a watchdog at its start. *)
Definition receivers : Receiver * Receiver := (1%positive, 1%positive).
Definition listening_env {S : Type} (machine : S) : Env S :=
  let g := sample_global in
  {| env_machine := machine; env_traffic := (chan_subscribe (gl_traffic_broadcast g)).2;
     env_events := (chan_subscribe (gl_events_broadcast g)).2 |}.
Definition open_session {S : Type} (env : Env S) (picks : list Pick) (slots : list nat)
    : Session (Shared (Env S)) (Line (list Incoming)) := {|
  se_world := {|
    w_host := {| sh_host := env; sh_ticks := 9; sh_past := []; sh_slots := slots; sh_done := [] |};
    w_log := []; w_config := ∅ |};
  se_wire := {| ln_socket := [IOther; IOther]; ln_picks := picks; ln_receivers := Some receivers |};
  se_trace := [] |}.

Definition busy_session : Session (Shared (Env Machine)) (Line (list Incoming)) :=
  open_session (listening_env two_namespaces) [PickEvent; PickMessage] [5; 0; 3]%nat.
Lemma busy_session_hears : hears event_topic 16 receivers busy_session [] [].
Proof.
  split; [reflexivity|]. split; [reflexivity|]. eexists. split; [reflexivity|]. apply tracks_new.
Qed.
Abbreviation went_on := (connect_loop 2 sample_options busy_session).
Lemma went_on_ok : went_on = (Ok false, went_on.2).
Proof. assert (went_on.1 = Ok false) as <- by (vm_compute; reflexivity). apply surjective_pairing. Qed.
Lemma session_accounts_witness :
  delivered (S := Machine) event_topic (se_trace went_on.2) = [seen_connected KA] ∧
  ∃ ops fs lost q, passed (tasks_of busy_session) ops (tasks_of went_on.2) ∧
    se_trace went_on.2 = (se_trace busy_session ++ fs)%list ∧
    queue_of receivers.2 (env_events (sh_host (tasks_of went_on.2))) = Some q ∧
    broadcast (S := Machine) event_topic ops = (delivered (S := Machine) event_topic fs ++ lost ++ q_unread q)%list ∧
    length lost = q_missed q ∧ (Z.of_nat (length (broadcast (S := Machine) event_topic ops)) ≤ 16 → lost = []).
Proof.
  split; [vm_compute; reflexivity|].
  exact (session_accounts 16 receivers 2 sample_options busy_session went_on.2 busy_session_hears went_on_ok).
Defined.

(** Seventeen networks with a connected peer each, one more than the queue
    holds events: the watchdog visits them before a turn, the session ends
    with an error, and the receiver, with what it still had, is dropped. *)
Definition seventeen : list Z := Z.of_nat <$> seq 100 17.
Definition crowded : Machine := {|
  m_kernel := set_netns (list_to_set ((λ port, "network-" ++ dec port) <$> seventeen)) empty_kernel;
  m_clock := 10 ^ 18; m_tick := 10 ^ 9;
  m_stats := list_to_map ((λ port, (("network-" ++ dec port, "wg" ++ dec port), {|
    stats_private_key := (KA : Privkey); stats_public_key := (KA : Pubkey); stats_listen_port := port;
    stats_fwmark := None; stats_peers := [sample_stat KB recent 1 1] |})) <$> seventeen);
  m_traffic_heard := true; m_events_heard := true |}.
Definition flooded : outcome bool * Session (Shared (Env Machine)) (Line (list Incoming)) :=
  connect_loop 1 sample_options (open_session (listening_env crowded) [PickEvent] [60%nat]).
Example flood_breaks_session :
  flooded.1 = Err (err_lagged 1) ∧ delivered (S := Machine) event_topic (se_trace flooded.2) = [].
Proof. by vm_compute. Qed.

(** A poll with a change, and the session that passes it on. *)
Definition before_poll : Watch (S := Env Host') := {|
  wa_world := {| w_host := listening_env quiet_host; w_log := []; w_config := ∅ |};
  wa_traffic := TrafficInfo_new 0;
  wa_cache := {[ 7 := list_to_map ((λ p, (peer_public_key p, p)) <$> old_peers) ]} |}.
Definition after_poll : outcome unit * Watch (S := Env Host') := watchdog_netns "network-7" before_poll.
Lemma after_poll_ok : watchdog_netns "network-7" before_poll = (Ok tt, after_poll.2).
Proof. assert (after_poll.1 = Ok tt) as <- by (vm_compute; reflexivity). apply surjective_pairing. Qed.
Definition poll_session : Session (Shared (Env Host')) (Line (list Incoming)) :=
  open_session (watch_host after_poll.2) (replicate 16 PickEvent) [].

Definition poll_log : list Op := watch_log after_poll.2.
Definition poll_events : list GatewayEvent := broadcast (S := Host') event_topic poll_log.

Lemma poll_reaches_manager_witness :
  poll_events = [seen_connected KA; PeerDisconnected {| pd_network := (KA : Pubkey); pd_peer := (KC : Pubkey) |}] ∧
  ∃ (stats : NetworkStats) wgif s',
    poll_log = WireguardStats "network-7" wgif :: (SendEvent <$> poll_events) ∧
    (∃ e, exec (WireguardStats "network-7" wgif) (watch_host before_poll) = (inl stats, e)) ∧
    connect_loop (length poll_events) sample_options poll_session = (Ok false, s') ∧
    se_trace s' = (se_trace poll_session ++ relayed poll_events)%list ∧
    delivered (S := Host') event_topic (relayed poll_events) = poll_events ∧
    waiting receivers.2 (sh_host (tasks_of s')) [] ∧
    ∀ st, (∀ peer, st peer = is_connected before_poll (stats_listen_port stats) peer) → ∀ peer,
      replay (stats_public_key stats) st poll_events peer = is_connected after_poll.2 (stats_listen_port stats) peer.
Proof.
  assert (Hevents : poll_events =
    [seen_connected KA; PeerDisconnected {| pd_network := (KA : Pubkey); pd_peer := (KC : Pubkey) |}])
    by (vm_compute; reflexivity).
  split; [exact Hevents|].
  refine (poll_reaches_manager "network-7" before_poll after_poll.2 poll_log sample_options receivers poll_session
    (replicate 14 PickEvent) _ _ after_poll_ok eq_refl _ _ eq_refl eq_refl eq_refl _); fold poll_events.
  - intros [m]. cbn. apply Z.abs_nonneg.
  - reflexivity.
  - rewrite Hevents. vm_compute. congruence.
  - apply Forall_forall. intros e _. apply codec_event.
  - rewrite Hevents. reflexivity.
Defined.
End witnesses.
